(* ===== verification/_CoqProject ===== *)
-Q . S2P
Prelude.v
GoStrings.v
GoFloat.v
GoTime.v
GoDecimal.v
Subscription.v
SubscriptionCorrect.v
Programs.v
PaymentData.v
PaymentProvider.v
PaymentRejection.v
PaymentStore.v
PaymentFulfillment.v
PaymentLifecycle.v
PaymentRefund.v
PaymentExamples.v
PaymentInvariant.v
PaymentLogic.v
PaymentStatements.v
PaymentHandlers.v
PaymentSafety.v
PaymentRefundCorrect.v
PaymentCompletes.v
ProxyLifecycle.v
BillingData.v
UsageBilling.v
UsageBillingExamples.v
UsageBillingCorrect.v
UsageBillingClaims.v
UsageBillingFunds.v
UsageBillingWindows.v
UsageBillingQuotas.v
BatchImageData.v
BatchImage.v
BatchImageSafety.v
BatchImageHandlers.v
BatchImageInterleaved.v
BatchImageIndexing.v
BatchImageSettlement.v
RedisServer.v
ConcurrencyCache.v
ConcurrencyInvariants.v
Idempotency.v
IdempotencyConcurrency.v
SystemLock.v
ModelAllowlist.v
CompositeRouting.v
ProxyStreamCircuit.v
InvalidAuthLimiter.v
KeywordMatcher.v
KeywordTrie.v
KeywordLinks.v
KeywordMatcherCorrect.v
UsageRecordPool.v
