(* ===== verification/Prelude.v ===== *)
(** * Sub2API Plus: verification development (root file)

    Sub2API Plus (src/README.md) is a gateway in front of AI providers: clients
    hold API keys, requests are routed to upstream accounts, and usage is
    metered.  The server is the Go program under src/backend.  This library
    models parts of it whose correctness is a matter of state, ordering and
    bounds, and proves what they promise.  File names below are relative to
    src/backend/internal.

    ** Parts and files

    - Prelude (this file): machine integers, instants and durations, decimal
      numbers, the tactics [bool_to_prop], [split_test] and [unfold_time], lemmas
      on folds.
    - GoStrings: Go strings as byte strings, UTF-8 decoding, the functions of
      package [strings] the program uses, the class [UnicodeCase].
    - GoFloat, GoTime: float64 as exact IEEE binary64 (SpecFloat), with the functions of
      package [math] the program uses; calendar days in a time zone (class
      [Location]).
    - GoDecimal: NUMERIC columns, the shortest decimal of a float64 (class
      [ShortestDecimal]) and what survives the way from one to the other.
    - Subscription, SubscriptionCorrect: service/user_subscription.go,
      service/subscription_service.go and repository/user_subscription_repo.go: quota
      windows, limits, and the table of subscriptions with every operation on it.
    - Programs: handlers as trees of calls ([prog]), pools of them run interleaved
      ([play]) or alone ([solo], and [ends] for all runs under given answers), and a
      rely-guarantee logic ([safe], [triple], [tame]).
    - PaymentData, PaymentProvider: orders, currencies (payment/currency.go), the
      provider an order is bound to (service/payment_order_provider_snapshot.go).
    - PaymentStore: the tables, the statements on them ([tx]), the calls of a handler
      ([stmt]) and what they do ([exec]).
    - PaymentFulfillment, PaymentLifecycle, PaymentRefund: the handlers of
      service/payment_fulfillment.go with service/redeem_service.go, of
      service/payment_order_lifecycle.go and of service/payment_refund.go, each as a
      program with the names of the code.
    - PaymentExamples: instances that compute and a sample database.
    - PaymentInvariant, PaymentLogic, PaymentStatements, PaymentHandlers: the
      invariant of the tables, what each thread may rely on, and the proof that every
      statement and then every handler keeps them.
    - PaymentSafety, PaymentRefundCorrect, PaymentRejection, PaymentCompletes: what
      follows for all interleavings, for one refund, for a notification that is not
      proper, and for a payment to its end.
    - BillingData, UsageBilling: the tables of the ledger with its JSON operators, and
      service/usage_billing.go with repository/usage_billing_repo.go, each function that
      runs inside a transaction as a [tx]: claims, charges, windows and quotas, the
      reservation, capture and release of a balance, and the clean-up of claims.
    - UsageBillingExamples: instances that compute and a small database.
    - UsageBillingCorrect, UsageBillingClaims, UsageBillingFunds, UsageBillingWindows,
      UsageBillingQuotas: the effect of a charge on each table, claims under any
      sequence of operations and faults, where the money is, windows and flags, and the
      JSON quotas of an account.
    - BatchImageData, BatchImage: service/batch_image.go with its state machine, the
      statements of repository/batch_image_repo.go, and the handlers of
      service/batch_image_public.go (submission, cancellation), batch_image_processor.go
      (the worker and the indexer), batch_image_settlement.go,
      batch_image_billing_hold.go, batch_image_billing_recovery.go and
      batch_image_cleanup.go, as programs of calls; their holds are operations on the
      ledger of UsageBilling.
    - BatchImageSafety, BatchImageHandlers, BatchImageInterleaved: the invariant of the
      jobs, its proof for every handler, and what follows for all interleavings.
    - BatchImageIndexing, BatchImageSettlement: one run of the indexer, and how
      settlement ends.
    - RedisServer: the documented effect of each Redis command the program issues;
      the class [Redis] is the interface the cache is verified against, and an
      in-memory server implements it.
    - ConcurrencyCache, ConcurrencyInvariants: repository/concurrency_cache.go.
      Each Lua script and each method of the cache is a function on the server.
      Account and user slots, live leases, WebSocket ingress leases, waiting
      counters and the index of active owners.
    - Idempotency, IdempotencyConcurrency: service/idempotency.go and
      repository/idempotency_repo.go.  The table is explicit, an SQL statement is
      a function on it, [Execute] is a program of calls ([prog]) that is run
      alone, or interleaved with any number of others by a step relation.
    - SystemLock: service/system_operation_lock_service.go, a lease on one row of
      the same table, on the same programs.
    - ProxyLifecycle: service/proxy_fallback.go, the expiry sweep of
      repository/proxy_repo.go, the restoration in repository/account_repo.go and
      the outbox insert of repository/scheduler_outbox_repo.go, on explicit tables.
    - ProxyStreamCircuit: service/openai_proxy_stream_circuit.go, the circuit
      breaker of proxies, as a map and a trace relation over its events.
    - InvalidAuthLimiter: service/invalid_auth_abuse_limiter.go, the sharded limiter
      of clients with invalid keys.
    - ModelAllowlist: service/group_model_allowlist.go, glob patterns over model
      names, normalisation and listing.
    - CompositeRouting: service/composite_model_route.go,
      service/composite_route_resolver.go, service/composite_platform.go and
      domain/platforms.go, the choice of a platform for a requested model.
    - KeywordMatcher, KeywordTrie, KeywordLinks, KeywordMatcherCorrect:
      service/content_moderation_keyword_matcher.go, an Aho-Corasick automaton in
      flat arrays; its definitions, and the proofs for the trie, the failure links
      and the whole.
    - UsageRecordPool: service/usage_record_worker_pool.go, options, submission,
      sampling and scaling, against the class [Pond] of the pool library.

    In the program the gateway asks the allow list and the router which account
    may serve a request, the concurrency cache whether it has a slot, and the
    circuit whether its proxy is quarantined; a usage record then goes to the
    worker pool.  Administrative writes pass the idempotency coordinator, and the
    long ones take the system lock.  A payment notification completes an order by
    redeeming a code or by extending a subscription; a refund takes that back.  A batch
    of images holds part of a balance, is carried out by a provider, and captures what
    it produced or releases the hold.  The
    sweep runs in the background and tells the scheduler through the outbox.

    ** What the theorems show

    - Payments: under every interleaving, failure of a statement and crash of the
      handlers of [PaymentSafety.request], which are all but the administrator's deletion
      of codes, a code is credited at most once, an order extends a subscription and
      accrues a rebate at most once, a completed order has been paid out, a refund is
      sent only by the handler that holds the order, a balance is its opening value plus
      the codes its user redeemed, refunds and usage, and a refund never takes more than
      the balance it finds.  What makes a notification improper is specified field by
      field ([PaymentRejection.improper]) and is what the checks refuse: alone, a proper
      notification completes the order and credits it, an improper one changes the audit
      trail only.  Alone and with no failed rollback behind it, an accepted refund takes
      and records the right amounts, and a refused one gives back what it took, with the
      status the order had, save that REFUND_FAILED becomes COMPLETED and the amount
      counts as recharged.  Counterexamples show where more fails: the deletion of a code
      races with its redemption; second pending refunds, stale plans and the rollback
      flag; amounts with three decimals.
    - Usage billing: over any sequence of charges, holds, clean-ups and outside changes,
      with failures before a commit and answers lost after one, a request takes effect
      exactly once; as long as holds and captures have at most eight decimals, balance
      and frozen balance together change by what was charged and captured and by nothing
      else; a charge moves every ledger by the same amount of eight decimals and leaves
      every other row and table alone; usage of a window is the sum of the charges since it opened; the
      flag of an exhausted quota is raised once; the short statements on an account's
      quotas are equivalent to the full one; of the pending resets of its source a
      subscription follows the last one, once.  Two
      counterexamples: a hold with more than eight decimals creates money, and a release
      that comes before its hold leaves the hold in place for good.
    - Batch image jobs: under every interleaving of submissions, workers,
      cancellations, recoveries and clean-ups, with lost answers and crashes, a
      completed job has been captured for the cost it shows and stays completed, with
      its cost and manifest.  Alone, the indexer keeps exactly the submitted items, each
      with the outcome its line reports or as a failure without one, and counts them;
      a settlement, with the other statements committing and other services answering,
      completes its job with the hold captured or fails it with the hold released within
      five runs.  A counterexample: one idempotency key is carried out twice.
    - Subscriptions: the instant a refusal for a limit advertises is the first at which
      usage is admitted again, save that midnight may clear the daily usage earlier;
      windows advance exactly
      and a term grants no more of them than fit; maintenance resets what has passed
      and nothing else; a user has one subscription of a group; assignment and
      adjustment change the term as they say.  Two counterexamples concern the daily
      limit.
    - Concurrency: a cap on an account is never exceeded along any sequence of
      calls, by one only when a live lease is granted on top of the regular slot it
      replaces; a granted slot stays owned for its lease; admission and renewal are
      characterised exactly; a waiting counter stays between zero and its limit.
    - Idempotency: under every interleaving no two requests execute under one key
      at the same time and none executes after one has succeeded, as long as the
      record lives; replay, conflict and retry after a failure are exact; keys and
      stored bodies are validated and cut as specified.
    - System lock: what [Acquire] answers in every state, exclusion for a lease,
      hand-over after a release; and a counterexample, a lock that is taken over
      cannot be renewed.
    - Proxies: the fallback walk ends and finds the first eligible proxy; the sweep
      moves exactly the right accounts, is idempotent, and restoration undoes any
      number of sweeps.
    - Circuit: a quarantine is backed by separate failures in one window; such
      failures lead to a quarantine; the map stays bounded and evicts the least
      recently touched entry.
    - Limiter: its counter is exact and bounded; while it is not over capacity it
      refines one independent counter per client; it refuses on the threshold, and
      only with cause.
    - Allow lists: the greedy matcher accepts what the glob denotes; normalisation
      does not change admission; what is listed is admitted.
    - Routing: the chosen route applies and no other outranks it; decisions are
      sound; the platform registry is consistent.
    - Keyword matcher: it answers as a search of the keywords one by one does; all
      indices it stores are in range and its loops end.
    - Usage records: options are usable after normalisation; each submitted task
      has one fate; sampling is exact; scaling stays within bounds.

    ** Conventions, bounds and fuel

    Instants are integers, in nanoseconds since Go's zero time; differences
    saturate as [time.Time.Sub] does.  Durations from configuration wrap at 64
    bits.  Counters wrap where the code has unsigned atomics; other counters are
    integers that no run can bring to 2^63.  A loop that is not structural has
    fuel: the number of proxies plus one for the fallback walk (each step visits a
    new proxy), the size of an array or queue for the automaton, the length of the
    string for UTF-8 and trimming; a theorem or lemma states in each case that the
    fuel is enough.  Retry hints in seconds are exact below 2^23 seconds, where the
    code's float64 rounding is.  A range over a Go map takes its order as an
    argument, or is a filter where the order cannot matter.

    Handlers of payments run one call at a time.  A transaction is one atomic call, as
    its rows are locked by its first statement; a statement reads one instant; a
    connection may fail before a statement or after it took effect ([fault]); other
    services answer arbitrarily ([world]).  Orders are created by the environment,
    with a new identifier and a trimmed code.  Caches and mails are left out, as are
    codes that generate an order and the columns created_at and sort_order; the text of
    an error is its reason or its beginning.  float64 is exact; what the decimal
    columns and the decimal library do with it are the classes [Numeric] and
    [DecimalLib], without laws: the theorems hold for every such function, and the
    concrete runs use the ones of PaymentExamples.

    Handlers of batch images run one call at a time as those of payments do.  The job
    object a submission holds is the row it inserted.  Events, logs, labels, messages
    and cache invalidations are left out; an event that is appended by a statement of
    its own still may fail.  The provider, object storage, the queue, the admission of
    tasks and of slots, the validation of a request, the choice of an account, pricing
    and the parsing of a result line answer arbitrarily ([world]); the pages that list
    the items of a job are one statement.  The heartbeat of a submission is a thread of
    its own.  That settlement ends supposes that statements commit and that a hold can
    be released, and lets the capture fail in any way; five runs are the limit of
    retries.

    A transaction of usage billing is atomic; its commit may fail, or succeed without
    an answer ([outcome]).  NUMERIC values are exact to 1100 decimals, which holds every
    float64; instants of billing count from the Unix epoch, and the database session is
    in UTC.  The lengths of text columns and the types the server infers for SQL
    parameters are left out.

    Parameters, each with the documented laws that are used: Redis, JSON, SHA-256
    and redaction ([Codec] in Idempotency.v), Unicode case tables ([UnicodeCase]),
    the worker pool library ([Pond]).  The normalisation of OpenAI model names, whose
    alias tables are not modelled, is an arbitrary function in ModelAllowlist.v: its
    theorems hold for every such function.  A method of the concurrency cache, of the circuit and of
    the limiter is one step; transport errors of Redis are left out; the database
    keeps instants exactly, not to the microsecond.

    ** What is not modelled

    The account scheduler and its snapshots, the renewal loop and the contexts of
    service/concurrency_lease.go, billing and pricing, the creation of payment orders
    with its plans and limits, provider clients, forwarding and protocol conversion,
    authentication, operations monitoring, backups, settings, the HTTP layer and
    generated code; of batch images the provider clients, the Redis queue with its
    worker, downloads and listings.  These either call services whose behaviour is not
    in the repository, or move and reshape data without a state of their own.  The
    scheduler, the renewal loop, prices and order creation do keep state, and are the
    parts that would come next. *)

From Stdlib Require Import ZArith Lia Ascii String DecimalPos DecimalZ DecimalString.
From stdpp Require Import base tactics numbers list gmap strings.

Declare Scope go_scope.
Delimit Scope go_scope with go.
Open Scope Z_scope.

(** ** Machine integers *)

(** Two's complement wrap-around to a signed [w]-bit integer. *)
Definition wrap_signed (w z : Z) : Z :=
  (z + 2 ^ (w - 1)) `mod` 2 ^ w - 2 ^ (w - 1).

Definition wrap_unsigned (w z : Z) : Z := z `mod` 2 ^ w.

Definition max_int64 : Z := 9223372036854775807.
Definition min_int64 : Z := -9223372036854775808.

(** Clamping to the range of [time.Duration] (an int64). *)
Definition saturate_int64 (z : Z) : Z := Z.max min_int64 (Z.min max_int64 z).

Definition in_int64 (z : Z) : Prop := min_int64 ≤ z ≤ max_int64.

(** ** Instants and durations

    An instant is the number of nanoseconds since Go's zero time (January 1 of
    year 1, UTC); [time.Time{}] is therefore [0].  A [time.Duration] is a
    number of nanoseconds.  Subtraction of instants saturates as
    [time.Time.Sub] does. *)

Definition Nanosecond : Z := 1.
Definition Millisecond : Z := 1000000.
Definition Second : Z := 1000000000.
Definition Minute : Z := 60 * Second.
Definition Hour : Z := 60 * Minute.

Definition time_is_zero (t : Z) : bool := t =? 0.
Definition time_before (a b : Z) : bool := a <? b.
Definition time_after (a b : Z) : bool := b <? a.
Definition time_add (t d : Z) : Z := t + d.
Definition time_sub (a b : Z) : Z := saturate_int64 (a - b).

(** [time.Duration(n) * time.Second] on 64-bit integers. *)
Definition seconds (n : Z) : Z := wrap_signed 64 (n * Second).

(** [time.Time.UnixNano]: nanoseconds since 1970, as an int64. *)
Definition UnixNano (t : Z) : Z := wrap_signed 64 (t - 62135596800 * Second).

Notation "a '.Before' b" := (time_before a b) (at level 68) : go_scope.
Notation "a '.After' b" := (time_after a b) (at level 68) : go_scope.

(** ** Decimal numbers ([strconv.FormatInt], [strconv.ParseInt] in base 10) *)

Definition FormatInt (z : Z) : string := NilZero.string_of_int (Z.to_int z).

(** An optional sign and at least one digit; the value must fit in an int64. *)
Definition ParseInt (s : string) : option Z :=
  let digits (s : string) : option Z := Z.of_uint <$> NilZero.uint_of_string s in
  v ← match s with
      | String c rest =>
          if Ascii.eqb c "-"%char then Z.opp <$> digits rest
          else if Ascii.eqb c "+"%char then digits rest
          else digits s
      | EmptyString => None
      end;
  if (min_int64 <=? v) && (v <=? max_int64) then Some v else None.

(** ** Automation *)

Create HintDb go discriminated.

(** Turns the boolean tests of the code into the propositions they decide. *)
Ltac bool_to_prop :=
  repeat match goal with
  | H : andb _ _ = true |- _ => apply andb_true_iff in H; destruct H
  | H : andb _ _ = false |- _ => apply andb_false_iff in H
  | H : orb _ _ = true |- _ => apply orb_true_iff in H
  | H : orb _ _ = false |- _ => apply orb_false_iff in H; destruct H
  | H : negb _ = true |- _ => apply negb_true_iff in H
  | H : negb _ = false |- _ => apply negb_false_iff in H
  | H : (_ <? _) = true |- _ => apply Z.ltb_lt in H
  | H : (_ <? _) = false |- _ => apply Z.ltb_ge in H
  | H : (_ <=? _) = true |- _ => apply Z.leb_le in H
  | H : (_ <=? _) = false |- _ => apply Z.leb_gt in H
  | H : (_ =? _) = true |- _ => apply Z.eqb_eq in H
  | H : (_ =? _) = false |- _ => apply Z.eqb_neq in H
  | H : String.eqb _ _ = true |- _ => apply String.eqb_eq in H
  | H : String.eqb _ _ = false |- _ => apply String.eqb_neq in H
  | H : bool_decide _ = true |- _ => apply bool_decide_eq_true_1 in H
  | H : bool_decide _ = false |- _ => apply bool_decide_eq_false_1 in H
  end.

(** Splits on the next test the goal or a hypothesis is stuck on. *)
Ltac split_test :=
  match goal with
  | |- context [if ?b then _ else _] => let E := fresh "Htest" in destruct b eqn:E
  | H : context [if ?b then _ else _] |- _ => let E := fresh "Htest" in destruct b eqn:E
  | |- context [match ?o with Some _ => _ | None => _ end] =>
      let E := fresh "Hopt" in destruct o eqn:E
  | H : context [match ?o with Some _ => _ | None => _ end] |- _ =>
      let E := fresh "Hopt" in destruct o eqn:E
  end.

Ltac unfold_time :=
  unfold time_before, time_after, time_add, time_is_zero in *.

(** ** Generic lemmas *)

Lemma foldl_step {A B} (f : A → B → A) (a : A) (x : B) (l : list B) :
  foldl f a (x :: l) = foldl f (f a x) l.
Proof. done. Qed.

(** A fold whose state is seen through a projection that the step respects. *)
Lemma foldl_simulation {S T B} (R : S → T → Prop) (f : S → B → S) (g : T → B → T) l :
  (∀ s t x, R s t → R (f s x) (g t x)) →
  ∀ s t, R s t → R (foldl f s l) (foldl g t l).
Proof. intros Hstep. induction l as [|x l IH]; simpl; auto. Qed.

Lemma foldl_invariant {S B} (P : S → Prop) (f : S → B → S) l :
  (∀ s x, P s → P (f s x)) → ∀ s, P s → P (foldl f s l).
Proof. intros Hstep. induction l as [|x l IH]; simpl; auto. Qed.

(** ** Decimal numbers: injectivity and round trip *)

Lemma to_int_nonnil z : Z.to_int z ≠ Decimal.Pos Decimal.Nil ∧ Z.to_int z ≠ Decimal.Neg Decimal.Nil.
Proof.
  destruct z as [|p|p]; simpl; split; try done; intros [= H];
    by eapply DecimalPos.Unsigned.to_uint_nonnil.
Qed.

Lemma FormatInt_inj a b : FormatInt a = FormatInt b → a = b.
Proof.
  unfold FormatInt. intros H%(f_equal NilZero.int_of_string).
  destruct (to_int_nonnil a), (to_int_nonnil b).
  rewrite !NilZero.isi in H by done. injection H as H.
  by apply DecimalZ.to_int_inj.
Qed.

#[export] Instance FormatInt_Inj : Inj (=) (=) FormatInt.
Proof. intros a b. apply FormatInt_inj. Qed.

Lemma ParseInt_digits (d : Decimal.uint) :
  d ≠ Decimal.Nil →
  ParseInt (NilZero.string_of_uint d)
  = if (min_int64 <=? Z.of_uint d) && (Z.of_uint d <=? max_int64)
    then Some (Z.of_uint d) else None.
Proof.
  intros Hd. pose proof (NilZero.usu d Hd) as Hu. unfold ParseInt.
  destruct d; try done; simpl in *; by rewrite Hu.
Qed.

Lemma ParseInt_FormatInt z : in_int64 z → ParseInt (FormatInt z) = Some z.
Proof.
  intros [Hlo Hhi]. unfold FormatInt. destruct z as [|p|p]; [done| |].
  - simpl. rewrite ParseInt_digits by apply DecimalPos.Unsigned.to_uint_nonnil.
    assert (Z.of_uint (Pos.to_uint p) = Z.pos p) as -> by apply (DecimalZ.of_to (Z.pos p)).
    rewrite (proj2 (Z.leb_le _ _) Hlo), (proj2 (Z.leb_le _ _) Hhi). done.
  - unfold ParseInt. simpl.
    rewrite NilZero.usu by apply DecimalPos.Unsigned.to_uint_nonnil. simpl.
    assert (- Z.of_uint (Pos.to_uint p) = Z.neg p) as -> by apply (DecimalZ.of_to (Z.neg p)).
    rewrite (proj2 (Z.leb_le _ _) Hlo), (proj2 (Z.leb_le _ _) Hhi). done.
Qed.

(** Closed goals: conjunctions of equations and comparisons. *)
Ltac by_compute := clear; vm_compute; repeat split; first [reflexivity | discriminate | intros ?; discriminate].

(** Decides [∀ k x, m !! k = Some x → P k x] on a concrete map by evaluation. *)
Ltac solve_concrete_map :=
  match goal with
  | |- ∀ k x, ?m !! k = Some x → @?P k x =>
      change (map_Forall P m); apply (bool_decide_unpack _); vm_compute; exact I
  end.
