(* ===== verification/GoStrings.v ===== *)
(** * Go strings

    A Go string is a sequence of bytes; Rocq's [string] (a sequence of 8-bit
    [ascii]) holds the same data.  This file gives the functions of Go's
    standard library the program uses on strings: UTF-8 decoding as
    [unicode/utf8] and [range] do it, [strings.TrimSpace], prefixes, suffixes
    and substrings.  Case mapping outside ASCII needs Unicode's tables; it is
    the class [UnicodeCase], whose laws fix it on ASCII strings, make lowering
    idempotent and keep non-empty strings non-empty. *)

From Stdlib Require Import ZArith Lia Ascii String.
From stdpp Require Import base tactics numbers list strings.
From S2P Require Import Prelude.

Open Scope Z_scope.

Definition byte_of (a : ascii) : Z := Z.of_N (N_of_ascii a).
Definition byte (z : Z) : ascii := ascii_of_N (Z.to_N z).

Definition bytes (s : string) : list Z := byte_of <$> list_ascii_of_string s.
Definition of_bytes (l : list Z) : string := string_of_list_ascii (byte <$> l).

Definition len (s : string) : Z := Z.of_nat (String.length s).

(** ** UTF-8 *)

Definition RuneError : Z := 65533.

Definition between (lo hi b : Z) : bool := (lo <=? b) && (b <=? hi).
Definition continuation (b : Z) : bool := between 128 191 b.

(** [utf8.DecodeRune]: the first rune and its width; an invalid sequence gives
    [RuneError] with width 1. *)
Definition DecodeRune (l : list Z) : Z * nat :=
  match l with
  | [] => (RuneError, 0%nat)
  | b0 :: l =>
      if b0 <? 128 then (b0, 1%nat) else
      match l with
      | b1 :: l =>
          if between 194 223 b0 && continuation b1
          then ((b0 - 192) * 64 + (b1 - 128), 2%nat) else
          match l with
          | b2 :: l =>
              if between 224 239 b0
                 && between (if b0 =? 224 then 160 else 128) (if b0 =? 237 then 159 else 191) b1
                 && continuation b2
              then ((b0 - 224) * 4096 + (b1 - 128) * 64 + (b2 - 128), 3%nat) else
              match l with
              | b3 :: _ =>
                  if between 240 244 b0
                     && between (if b0 =? 240 then 144 else 128) (if b0 =? 244 then 143 else 191) b1
                     && continuation b2 && continuation b3
                  then ((b0 - 240) * 262144 + (b1 - 128) * 4096 + (b2 - 128) * 64 + (b3 - 128),
                        4%nat)
                  else (RuneError, 1%nat)
              | [] => (RuneError, 1%nat)
              end
          | [] => (RuneError, 1%nat)
          end
      | [] => (RuneError, 1%nat)
      end
  end.

Arguments DecodeRune : simpl never.

(** The runes a [range] loop visits. *)
Fixpoint runes_fuel (fuel : nat) (l : list Z) : list Z :=
  match fuel, l with
  | S fuel, _ :: _ =>
      let '(r, w) := DecodeRune l in r :: runes_fuel fuel (drop w l)
  | _, _ => []
  end.

Definition runes (s : string) : list Z := runes_fuel (String.length s) (bytes s).

(** [utf8.ValidString]. *)
Fixpoint valid_fuel (fuel : nat) (l : list Z) : bool :=
  match fuel, l with
  | S fuel, _ :: _ =>
      let '(r, w) := DecodeRune l in
      negb ((r =? RuneError) && (w =? 1)%nat) && valid_fuel fuel (drop w l)
  | _, [] => true
  | O, _ => false
  end.

Definition ValidString (s : string) : bool := valid_fuel (String.length s) (bytes s).

(** [s[:n]] and [s[n:]]. *)
Fixpoint slice_to (n : nat) (s : string) : string :=
  match n, s with
  | S n, String a s => String a (slice_to n s)
  | _, _ => EmptyString
  end.

Fixpoint slice_from (n : nat) (s : string) : string :=
  match n, s with
  | S n, String _ s => slice_from n s
  | _, _ => s
  end.

(** ** Prefixes, suffixes, substrings *)

Definition HasPrefix (s prefix : string) : bool := String.prefix prefix s.

Definition HasSuffix (s suffix : string) : bool :=
  (String.length suffix <=? String.length s)%nat
  && String.eqb (slice_from (String.length s - String.length suffix) s) suffix.

Arguments HasPrefix : simpl never.
Arguments HasSuffix : simpl never.

Definition TrimPrefix (s prefix : string) : string :=
  if HasPrefix s prefix then slice_from (String.length prefix) s else s.

Definition TrimSuffix (s suffix : string) : string :=
  if HasSuffix s suffix then slice_to (String.length s - String.length suffix) s else s.

(** [strings.Index]: the first occurrence; [None] stands for -1. *)
Fixpoint Index (s sub : string) : option nat :=
  if HasPrefix s sub then Some 0%nat
  else match s with
       | EmptyString => None
       | String _ s => S <$> Index s sub
       end.

Definition Contains (s sub : string) : bool :=
  match Index s sub with Some _ => true | None => false end.

(** [strings.Split] at a separator of one byte. *)
Fixpoint Split (s : string) (sep : ascii) : list string :=
  match s with
  | EmptyString => [EmptyString]
  | String a s =>
      if Ascii.eqb a sep then EmptyString :: Split s sep
      else match Split s sep with
           | q :: rest => String a q :: rest
           | [] => [String a EmptyString]
           end
  end.

(** ** [strings.TrimSpace] *)

(** The UTF-8 encodings of the runes [unicode.IsSpace] accepts. *)
Definition space_encodings : list string :=
  of_bytes <$>
  ([[9]; [10]; [11]; [12]; [13]; [32]; [194; 133]; [194; 160]; [225; 154; 128]]
   ++ ((λ b, [226; 128; b]) <$> [128; 129; 130; 131; 132; 133; 134; 135; 136; 137; 138])
   ++ [[226; 128; 168]; [226; 128; 169]; [226; 128; 175]; [226; 129; 159]; [227; 128; 128]]).

Definition strip_one (has : string → string → bool) (trim : string → string → string) (s : string)
    : option string :=
  (λ e, trim s e) <$> head (List.filter (has s) space_encodings).

Fixpoint strip_all (fuel : nat) (has : string → string → bool) (trim : string → string → string)
    (s : string) : string :=
  match fuel with
  | O => s
  | S fuel => match strip_one has trim s with Some s => strip_all fuel has trim s | None => s end
  end.

Definition TrimLeftSpace (s : string) : string := strip_all (String.length s) HasPrefix TrimPrefix s.
Definition TrimRightSpace (s : string) : string := strip_all (String.length s) HasSuffix TrimSuffix s.
Definition TrimSpace (s : string) : string := TrimRightSpace (TrimLeftSpace s).

Example TrimSpace_examples :
  TrimSpace (of_bytes [32; 227; 128; 128; 97; 32; 98; 194; 160; 9]) = "a b"%string
  ∧ TrimSpace "  " = ""%string.
Proof. by vm_compute. Qed.

(** ** Case *)

Definition upper_byte (a : ascii) : ascii :=
  let b := byte_of a in if between 97 122 b then byte (b - 32) else a.
Definition lower_byte (a : ascii) : ascii :=
  let b := byte_of a in if between 65 90 b then byte (b + 32) else a.

Fixpoint string_map (f : ascii → ascii) (s : string) : string :=
  match s with EmptyString => EmptyString | String a s => String (f a) (string_map f s) end.

Definition is_ascii (s : string) : bool := forallb (λ b, b <? 128) (bytes s).

(** [strings.ToLower] and [strings.ToUpper]. *)
Class UnicodeCase := {
  ToLower : string → string;
  ToUpper : string → string;
  ToLower_ascii s : is_ascii s = true → ToLower s = string_map lower_byte s;
  ToUpper_ascii s : is_ascii s = true → ToUpper s = string_map upper_byte s;
  ToLower_idem s : ToLower (ToLower s) = ToLower s;
  ToLower_empty s : ToLower s = EmptyString → s = EmptyString
}.

Lemma lower_byte_idem a : lower_byte (lower_byte a) = lower_byte a.
Proof. destruct a as [[] [] [] [] [] [] [] []]; reflexivity. Qed.

(** A case mapping that leaves every non-ASCII byte alone. *)
Definition ascii_case : UnicodeCase.
Proof.
  refine {| ToLower := string_map lower_byte; ToUpper := string_map upper_byte;
            ToLower_ascii _ _ := eq_refl; ToUpper_ascii _ _ := eq_refl |}.
  - abstract (intros s; induction s as [|a s IH]; simpl; [done|]; by rewrite lower_byte_idem, IH).
  - abstract (by intros []).
Defined.

(** [strings.EqualFold] on ASCII strings. *)
Definition EqualFold (s t : string) : bool :=
  String.eqb (string_map lower_byte s) (string_map lower_byte t).

(** ** Facts *)

Lemma byte_of_range a : 0 ≤ byte_of a < 256.
Proof. unfold byte_of. pose proof (N_ascii_bounded a). lia. Qed.

Lemma byte_byte_of a : byte (byte_of a) = a.
Proof. unfold byte, byte_of. rewrite N2Z.id. apply ascii_N_embedding. Qed.

Lemma byte_of_inj a b : byte_of a = byte_of b → a = b.
Proof. intros H. by rewrite <- (byte_byte_of a), H, byte_byte_of. Qed.

Lemma length_bytes s : length (bytes s) = String.length s.
Proof. unfold bytes. rewrite length_fmap. induction s; simpl; auto. Qed.

Lemma bytes_range s b : b ∈ bytes s → 0 ≤ b < 256.
Proof. unfold bytes. intros (a & -> & _)%list_elem_of_fmap. apply byte_of_range. Qed.

Lemma DecodeRune_width b l : (1 ≤ (DecodeRune (b :: l)).2 ≤ S (length l))%nat.
Proof. unfold DecodeRune. repeat case_match; simpl in *; simplify_eq/=; lia. Qed.

(** An ASCII byte is a rune by itself; any other byte yields a rune above
    ASCII. *)
Lemma DecodeRune_ascii b l : 0 ≤ b → ((DecodeRune (b :: l)).1 < 128 ↔ b < 128).
Proof.
  intros Hb. unfold DecodeRune, between, continuation, RuneError.
  destruct (b <? 128) eqn:Hlt; bool_to_prop; simpl; [done|].
  split; [|lia]. intros Hr. exfalso. revert Hr.
  repeat case_match; simplify_eq/=; unfold between in *; bool_to_prop; repeat split_test;
    bool_to_prop; destruct_and?; destruct_or?; simplify_eq/=; bool_to_prop; lia.
Qed.

(** A [range] loop sees only runes of an ASCII range exactly when every byte is
    in that range. *)
Lemma runes_fuel_ascii lo hi fuel l :
  hi < 128 → (length l ≤ fuel)%nat → Forall (λ b, 0 ≤ b) l →
  Forall (λ r, lo ≤ r ≤ hi) (runes_fuel fuel l) ↔ Forall (λ b, lo ≤ b ≤ hi) l.
Proof.
  intros Hhi. revert l. induction fuel as [|fuel IH]; intros [|b l] Hlen Hb;
    [done | simpl in Hlen; lia | done|].
  apply Forall_cons in Hb as [Hb0 Hb]. simpl runes_fuel.
  pose proof (DecodeRune_ascii b l Hb0) as Ha.
  destruct (decide (b < 128)) as [Hlt|Hge].
  - assert (DecodeRune (b :: l) = (b, 1%nat)) as ->.
    { unfold DecodeRune. by rewrite (proj2 (Z.ltb_lt _ _) Hlt). }
    simpl in *. rewrite !Forall_cons, drop_0. split; intros [? Ht]; (split; [done|]);
      revert Ht; apply IH; (lia || done).
  - destruct (DecodeRune (b :: l)) as [r w] eqn:Hd. simpl in *.
    rewrite !Forall_cons. split; intros [Hr _]; exfalso; [|lia].
    apply Hge, Ha. lia.
Qed.

Lemma runes_ascii lo hi s :
  hi < 128 → Forall (λ r, lo ≤ r ≤ hi) (runes s) ↔ Forall (λ b, lo ≤ b ≤ hi) (bytes s).
Proof.
  intros Hhi. apply runes_fuel_ascii; [done | by rewrite length_bytes |].
  apply Forall_forall. intros b Hb%bytes_range. lia.
Qed.

(** ** Concatenation, prefixes and suffixes *)

Lemma app_cons_string a s t : String a s +:+ t = String a (s +:+ t).
Proof. done. Qed.

Lemma app_nil_string t : "" +:+ t = t.
Proof. done. Qed.

Lemma app_nil_r_string s : s +:+ "" = s.
Proof. induction s as [|a s IH]; [done|]. by rewrite app_cons_string, IH. Qed.

Lemma app_assoc_string s t u : s +:+ (t +:+ u) = (s +:+ t) +:+ u.
Proof. induction s as [|a s IH]; [done|]. by rewrite !app_cons_string, IH. Qed.

Lemma length_app_string s t : String.length (s +:+ t) = (String.length s + String.length t)%nat.
Proof. induction s as [|a s IH]; [done|]. rewrite app_cons_string. simpl. by rewrite IH. Qed.

Lemma slice_from_app s t : slice_from (String.length s) (s +:+ t) = t.
Proof. induction s as [|a s IH]; [by destruct t|]. by rewrite app_cons_string. Qed.

Lemma slice_to_app s t : slice_to (String.length s) (s +:+ t) = s.
Proof. induction s as [|a s IH]; [done|]. rewrite app_cons_string. simpl. by rewrite IH. Qed.

Lemma slice_app n s : slice_to n s +:+ slice_from n s = s.
Proof.
  revert s. induction n as [|n IH]; intros [|a s]; simpl; try done. by rewrite app_cons_string, IH.
Qed.

Lemma slice_from_length n s : String.length (slice_from n s) = (String.length s - n)%nat.
Proof. revert s. induction n as [|n IH]; intros [|a s]; simpl; try done. Qed.

Lemma HasPrefix_spec s p : HasPrefix s p = true ↔ ∃ t, s = p +:+ t.
Proof.
  unfold HasPrefix. revert s. induction p as [|a p IH]; intros s.
  - split; [intros _; by exists s|]. intros _. by destruct s.
  - destruct s as [|b s]; [split; [done|by intros [? ?]]|]. simpl.
    destruct (ascii_dec a b) as [->|Hne].
    + rewrite IH. split; intros [t Ht]; exists t; [by rewrite Ht|].
      rewrite app_cons_string in Ht. by injection Ht.
    + split; [done|]. intros [t Ht]. rewrite app_cons_string in Ht. by injection Ht.
Qed.

Lemma HasSuffix_spec s p : HasSuffix s p = true ↔ ∃ t, s = t +:+ p.
Proof.
  unfold HasSuffix. split.
  - intros [_ He]%andb_true_iff. apply String.eqb_eq in He.
    exists (slice_to (String.length s - String.length p) s).
    rewrite <- He at 2. by rewrite slice_app.
  - intros [t ->]. rewrite length_app_string.
    replace (String.length t + String.length p - String.length p)%nat with (String.length t) by lia.
    rewrite slice_from_app, String.eqb_refl, andb_true_r. apply Nat.leb_le. lia.
Qed.

Lemma TrimPrefix_app p t : TrimPrefix (p +:+ t) p = t.
Proof.
  unfold TrimPrefix. assert (HasPrefix (p +:+ t) p = true) as -> by (apply HasPrefix_spec; by exists t).
  apply slice_from_app.
Qed.

Lemma TrimSuffix_app p t : TrimSuffix (t +:+ p) p = t.
Proof.
  unfold TrimSuffix. assert (HasSuffix (t +:+ p) p = true) as -> by (apply HasSuffix_spec; by exists t).
  rewrite length_app_string.
  replace (String.length t + String.length p - String.length p)%nat with (String.length t) by lia.
  apply slice_to_app.
Qed.

Lemma Index_Some s sub i :
  Index s sub = Some i →
  ∃ a b, s = a +:+ (sub +:+ b) ∧ String.length a = i
    ∧ slice_from (i + String.length sub) s = b.
Proof.
  revert i. induction s as [|c s IH]; intros i; simpl Index.
  - destruct (HasPrefix "" sub) eqn:Hp; [|done]. intros [= <-].
    apply HasPrefix_spec in Hp as [t Ht]. exists ""%string, t.
    split; [done|]. split; [done|]. rewrite Ht. apply slice_from_app.
  - destruct (HasPrefix (String c s) sub) eqn:Hp.
    + intros [= <-]. apply HasPrefix_spec in Hp as [t Ht]. exists ""%string, t.
      split; [done|]. split; [done|]. rewrite Ht. apply slice_from_app.
    + destruct (Index s sub) as [j|]; [|done]. intros [= <-].
      destruct (IH j eq_refl) as (a & b & Hs & Hl & Hb). exists (String c a), b.
      rewrite app_cons_string. simpl. by rewrite Hl, Hb, <- Hs.
Qed.

(** The first occurrence is no later than any other. *)
Lemma Index_first a sub b :
  ∃ i, Index (a +:+ (sub +:+ b)) sub = Some i ∧ (i ≤ String.length a)%nat.
Proof.
  induction a as [|c a IH]; [rewrite app_nil_string|rewrite app_cons_string; simpl].
  - destruct (sub +:+ b) as [|c s] eqn:Hs; simpl.
    + assert (HasPrefix "" sub = true) as ->; [|by eexists].
      apply HasPrefix_spec. exists b. by rewrite Hs.
    + assert (HasPrefix (String c s) sub = true) as ->; [|by eexists].
      apply HasPrefix_spec. exists b. by rewrite Hs.
  - case_match; [eexists; split; [done|lia]|]. destruct IH as (i & -> & Hi).
    eexists. split; [done|]. lia.
Qed.

Lemma Contains_spec s sub : Contains s sub = true ↔ ∃ a b, s = a +:+ (sub +:+ b).
Proof.
  unfold Contains. split.
  - destruct (Index s sub) as [i|] eqn:Hi; [|done]. intros _.
    apply Index_Some in Hi as (a & b & -> & _). eauto.
  - intros (a & b & ->). destruct (Index_first a sub b) as (i & -> & _). done.
Qed.

Lemma Split_nonempty s c : Split s c ≠ [].
Proof. destruct s as [|a s]; simpl; [done|]. repeat case_match; done. Qed.

(** Of two ways to end a string, the longer end contains the shorter. *)
Lemma app_suffix_longer a b a' b' :
  a +:+ b = a' +:+ b' → (String.length a ≤ String.length a')%nat → ∃ x, b = x +:+ b'.
Proof.
  revert a'. induction a as [|c a IH]; intros a' Heq Hle.
  - by exists a'.
  - destruct a' as [|c' a']; [simpl in Hle; lia|]. rewrite !app_cons_string in Heq.
    injection Heq as _ Heq. eapply IH; [done|]. simpl in Hle. lia.
Qed.

Lemma app_inj_string a b b' : a +:+ b = a +:+ b' → b = b'.
Proof.
  induction a as [|c a IH]; [done|]. rewrite !app_cons_string. intros Heq.
  injection Heq as Heq. by apply IH.
Qed.

(** ** Trimming *)

Lemma space_encodings_nonempty e : e ∈ space_encodings → (0 < String.length e)%nat.
Proof.
  intros He. assert (Forall (λ e, (0 < String.length e)%nat) space_encodings) as Hall.
  { apply (bool_decide_unpack _). vm_compute. exact I. }
  rewrite Forall_forall in Hall. by apply Hall.
Qed.

Section Strip.
Context (has : string → string → bool) (trim : string → string → string).
Hypothesis trim_shorter : ∀ s e, has s e = true → (0 < String.length e)%nat →
  (String.length (trim s e) < String.length s)%nat.

Lemma strip_one_None s : strip_one has trim s = None ↔ ∀ e, e ∈ space_encodings → has s e = false.
Proof.
  unfold strip_one. destruct (List.filter (has s) space_encodings) as [|e l] eqn:Hf; simpl.
  - split; [|done]. intros _ e He. destruct (has s e) eqn:Hh; [|done].
    assert (In e (List.filter (has s) space_encodings)) as Hin.
    { apply filter_In. split; [by apply list_elem_of_In|done]. }
    by rewrite Hf in Hin.
  - split; [done|]. intros Hall. assert (In e (List.filter (has s) space_encodings)) as Hin.
    { rewrite Hf. by left. }
    apply filter_In in Hin as [Hin Hh]. rewrite Hall in Hh; [done|by apply list_elem_of_In].
Qed.

Lemma strip_one_Some s s' :
  strip_one has trim s = Some s' →
  (String.length s' < String.length s)%nat ∧ ∃ e, e ∈ space_encodings ∧ has s e = true ∧ s' = trim s e.
Proof using trim_shorter.
  unfold strip_one. destruct (List.filter (has s) space_encodings) as [|e l] eqn:Hf; simpl; [done|].
  intros [= <-]. assert (In e (List.filter (has s) space_encodings)) as Hin.
  { rewrite Hf. by left. }
  apply filter_In in Hin as [Hin%list_elem_of_In Hh].
  split; [by apply trim_shorter, space_encodings_nonempty|eauto].
Qed.

Lemma strip_all_stops fuel s :
  (String.length s ≤ fuel)%nat → strip_one has trim (strip_all fuel has trim s) = None.
Proof using trim_shorter.
  revert s. induction fuel as [|fuel IH]; intros s Hle; simpl.
  - destruct (strip_one has trim s) eqn:Hs; [|done]. apply strip_one_Some in Hs as [? _]. lia.
  - destruct (strip_one has trim s) as [s'|] eqn:Hs; [|done].
    apply IH. apply strip_one_Some in Hs as [? _]. lia.
Qed.

Lemma strip_all_clean fuel s : strip_one has trim s = None → strip_all fuel has trim s = s.
Proof. destruct fuel; simpl; [done|]. by intros ->. Qed.

Lemma strip_all_invariant (P : string → Prop) fuel s :
  (∀ s e, has s e = true → P s → P (trim s e)) → P s → P (strip_all fuel has trim s).
Proof using trim_shorter.
  intros HP. revert s. induction fuel as [|fuel IH]; intros s Hs; simpl; [done|].
  destruct (strip_one has trim s) as [s'|] eqn:Ho; [|done].
  apply IH. apply strip_one_Some in Ho as (_ & e & _ & Hh & ->). auto.
Qed.
End Strip.

Lemma TrimPrefix_shorter s e :
  HasPrefix s e = true → (0 < String.length e)%nat →
  (String.length (TrimPrefix s e) < String.length s)%nat.
Proof.
  intros [t ->]%HasPrefix_spec He. rewrite TrimPrefix_app, length_app_string. lia.
Qed.

Lemma TrimSuffix_shorter s e :
  HasSuffix s e = true → (0 < String.length e)%nat →
  (String.length (TrimSuffix s e) < String.length s)%nat.
Proof.
  intros [t ->]%HasSuffix_spec He. rewrite TrimSuffix_app, length_app_string. lia.
Qed.

(** No white space at either end is left, so trimming again changes nothing. *)
Lemma TrimSpace_idem s : TrimSpace (TrimSpace s) = TrimSpace s.
Proof.
  set (l := TrimLeftSpace s). set (r := TrimSpace s).
  assert (strip_one HasPrefix TrimPrefix l = None) as Hl
    by (apply strip_all_stops; [apply TrimPrefix_shorter|done]).
  assert (strip_one HasSuffix TrimSuffix r = None) as Hr
    by (apply strip_all_stops; [apply TrimSuffix_shorter|done]).
  assert (∃ y, l = r +:+ y) as [y Hy].
  { unfold r, TrimSpace, TrimRightSpace. fold l.
    apply (strip_all_invariant HasSuffix TrimSuffix TrimSuffix_shorter (λ x, ∃ y, l = x +:+ y)).
    - intros x e [t ->]%HasSuffix_spec [z Hz]. rewrite TrimSuffix_app. exists (e +:+ z).
      by rewrite app_assoc_string.
    - exists ""%string. by rewrite app_nil_r_string. }
  assert (strip_one HasPrefix TrimPrefix r = None) as Hp.
  { apply strip_one_None. intros e He. destruct (HasPrefix r e) eqn:Hh; [|done].
    apply HasPrefix_spec in Hh as [t Ht]. rewrite strip_one_None in Hl.
    rewrite <- (Hl e He). symmetry. apply HasPrefix_spec. exists (t +:+ y).
    by rewrite Hy, Ht, app_assoc_string. }
  unfold TrimSpace at 1, TrimRightSpace, TrimLeftSpace.
  rewrite (strip_all_clean _ _ _ r Hp). by apply strip_all_clean.
Qed.

Arguments slice_to : simpl never.
Arguments slice_from : simpl never.
Arguments Index : simpl never.
