(* ===== verification/GoFloat.v ===== *)
(** * float64

    Go's float64 is IEEE 754 binary64 with rounding to nearest even.  The
    standard library's [SpecFloat] computes exactly that, so amounts of money,
    limits and usages are modelled bit for bit: the operations below are the Go
    operators, decimal literals are the correctly rounded quotients they denote,
    and the comparisons are false on NaN.  The lemmas order the values that are
    not NaN totally. *)

From Stdlib Require Import ZArith Lia SpecFloat.
From stdpp Require Import base tactics numbers.
From S2P Require Import Prelude.

Definition float64 : Type := spec_float.

Definition mantissa_bits : Z := 53.
Definition max_exponent : Z := 1024.

Definition fadd : float64 → float64 → float64 := SFadd mantissa_bits max_exponent.
Definition fsub : float64 → float64 → float64 := SFsub mantissa_bits max_exponent.
Definition fmul : float64 → float64 → float64 := SFmul mantissa_bits max_exponent.
Definition fdiv : float64 → float64 → float64 := SFdiv mantissa_bits max_exponent.

(** [math.Abs], [math.IsNaN], [math.IsInf(_, 0)]. *)
Definition Abs : float64 → float64 := SFabs.
Definition IsNaN (a : float64) : bool := match a with S754_nan => true | _ => false end.
Definition IsInf (a : float64) : bool := match a with S754_infinity _ => true | _ => false end.

(** The comparison operators. *)
Definition flt (a b : float64) : bool := SFltb a b.
Definition fle (a b : float64) : bool := SFleb a b.
Definition feq (a b : float64) : bool := SFeqb a b.

Notation "a <. b" := (flt a b) (at level 70) : go_scope.
Notation "a <=. b" := (fle a b) (at level 70) : go_scope.

Definition fzero : float64 := S754_zero false.

(** [float64(z)]. *)
Definition float_of_Z (z : Z) : float64 :=
  binary_normalize mantissa_bits max_exponent z 0 false.

(** The literal [n / 10^k]: numerator and denominator are exact below 2^53 and
    10^22, and the division rounds once, as the compiler does. *)
Definition decimal_literal (n k : Z) : float64 := fdiv (float_of_Z n) (float_of_Z (10 ^ k)).

Section Extremes.
Local Open Scope go_scope.

(** [int(a)] of a finite value: the fraction is dropped. *)
Definition trunc (a : float64) : Z :=
  match a with
  | S754_finite neg m e => let z := Z.shiftl (Zpos m) e in if neg then - z else z
  | _ => 0
  end.

(** [math.Min] and [math.Max]: infinities and NaN first, then signed zeros. *)
Definition Min (a b : float64) : float64 :=
  match a, b with
  | S754_infinity true, _ | _, S754_infinity true => S754_infinity true
  | S754_nan, _ | _, S754_nan => S754_nan
  | S754_zero s, S754_zero s' => S754_zero (s || s')
  | _, _ => if a <. b then a else b
  end.

Definition Max (a b : float64) : float64 :=
  match a, b with
  | S754_infinity false, _ | _, S754_infinity false => S754_infinity false
  | S754_nan, _ | _, S754_nan => S754_nan
  | S754_zero s, S754_zero s' => S754_zero (s && s')
  | _, _ => if b <. a then a else b
  end.
End Extremes.

(** ** The order on values that are not NaN *)

(** The comparison is lexicographic on this key. *)
Definition order_key (a : float64) : Z * Z * Z :=
  match a with
  | S754_nan => (0, 0, 0)
  | S754_infinity s => (if s then -2 else 2, 0, 0)
  | S754_zero _ => (0, 0, 0)
  | S754_finite s m e => if s then (-1, - e, - Z.pos m) else (1, e, Z.pos m)
  end.

Definition key_lt (x y : Z * Z * Z) : Prop :=
  let '(a, b, c) := x in
  let '(a', b', c') := y in
  a < a' ∨ a = a' ∧ (b < b' ∨ b = b' ∧ c < c').

Lemma compare_key a b :
  IsNaN a = false → IsNaN b = false →
  match SFcompare a b with
  | Some Lt => key_lt (order_key a) (order_key b)
  | Some Eq => order_key a = order_key b
  | Some Gt => key_lt (order_key b) (order_key a)
  | None => False
  end.
Proof.
  intros Ha Hb.
  destruct a as [sa|sa| |sa ma ea], b as [sb|sb| |sb mb eb]; try done;
    try (destruct sa); try (destruct sb); simpl; try lia; try done;
    change (PosDef.Pos.compare_cont Eq ma mb) with (Pos.compare ma mb);
    destruct (Z.compare_spec ea eb); simpl; try lia;
    destruct (Pos.compare_spec ma mb); simpl; subst; try lia; done.
Qed.

Lemma flt_key a b :
  flt a b = true ↔ IsNaN a = false ∧ IsNaN b = false ∧ key_lt (order_key a) (order_key b).
Proof.
  unfold flt, SFltb. destruct (IsNaN a) eqn:Ha; [destruct a; naive_solver|].
  destruct (IsNaN b) eqn:Hb; [destruct a, b; naive_solver|].
  pose proof (compare_key a b Ha Hb) as Hk.
  destruct (SFcompare a b) as [[]|]; [|naive_solver| |done];
    (split; [done|intros (_ & _ & Hlt)]);
    destruct (order_key a) as [[? ?] ?], (order_key b) as [[? ?] ?]; simplify_eq/=; lia.
Qed.

Lemma fle_key a b :
  fle a b = true ↔ IsNaN a = false ∧ IsNaN b = false ∧ ¬ key_lt (order_key b) (order_key a).
Proof.
  unfold fle, SFleb. destruct (IsNaN a) eqn:Ha; [destruct a; naive_solver|].
  destruct (IsNaN b) eqn:Hb; [destruct a, b; naive_solver|].
  pose proof (compare_key a b Ha Hb) as Hk.
  destruct (SFcompare a b) as [[]|]; [| | |done];
    destruct (order_key a) as [[? ?] ?], (order_key b) as [[? ?] ?]; simplify_eq/=;
    (split; [intros Hc; repeat split; [..|lia]; done || naive_solver|intros (_ & _ & Hn); try done; exfalso; lia]).
Qed.

Ltac float_order :=
  repeat match goal with
  | H : flt _ _ = true |- _ => apply flt_key in H; destruct H as (? & ? & H)
  | H : fle _ _ = true |- _ => apply fle_key in H; destruct H as (? & ? & H)
  end;
  repeat match goal with
  | |- flt _ _ = true => apply flt_key; repeat split; [assumption..|]
  | |- fle _ _ = true => apply fle_key; repeat split; [assumption..|]
  end;
  repeat match goal with
  | H : context [order_key ?a] |- _ => destruct (order_key a) as [[? ?] ?]
  | |- context [order_key ?a] => destruct (order_key a) as [[? ?] ?]
  end;
  simpl in *; try lia.

Lemma flt_irrefl a : flt a a = false.
Proof. apply not_true_is_false. intros H. float_order. Qed.

Lemma flt_trans a b c : flt a b = true → flt b c = true → flt a c = true.
Proof. intros. float_order. Qed.

Lemma flt_fle a b : flt a b = true → fle a b = true.
Proof. intros. float_order. Qed.

Lemma fle_trans a b c : fle a b = true → fle b c = true → fle a c = true.
Proof. intros. float_order. Qed.

Lemma fle_flt_trans a b c : fle a b = true → flt b c = true → flt a c = true.
Proof. intros. float_order. Qed.

Lemma fle_refl a : IsNaN a = false → fle a a = true.
Proof. intros. float_order. Qed.

Lemma flt_false a b : IsNaN a = false → IsNaN b = false → flt a b = false → fle b a = true.
Proof.
  intros Ha Hb Hf. apply fle_key. repeat split; [done..|].
  intros Hk. assert (flt a b = true); [|congruence]. by apply flt_key.
Qed.

Lemma flt_asym a b : flt a b = true → flt b a = false.
Proof. intros. apply not_true_is_false. intros ?. float_order. Qed.

Lemma fle_not_flt a b : fle a b = true → flt b a = false.
Proof. intros. apply not_true_is_false. intros ?. float_order. Qed.

Lemma flt_not_nan a b : flt a b = true → IsNaN a = false ∧ IsNaN b = false.
Proof. intros. by float_order. Qed.

#[export] Hint Resolve flt_fle fle_trans flt_trans : go.
