(* ===== verification/GoTime.v ===== *)
(** * Calendar days in a time zone

    The parts of package [time] that depend on the location: the wall clock, the
    start of a day and [AddDate(0, 0, n)].  A location is what
    the method [lookup] of [time.Location] answers, the offset in force at an instant and the span
    of instants it is in force; [timezone.Init] makes the configured location
    the process default, so one location serves the whole model.  Readings of
    the wall clock are counted from midnight of January 1 of year 1, as instants
    are, so day numbers are quotients by 24 hours. *)

From Stdlib Require Import ZArith Lia.
From stdpp Require Import base tactics numbers.
From S2P Require Import Prelude.

Definition Day : Z := 24 * Hour.

Record zone := mkZone { zone_offset : Z; zone_start : Z; zone_end : Z }.

Class Location := { lookup_zone : Z → zone }.

(** A location whose offset never changes. *)
Definition fixed_zone (offset : Z) : Location :=
  {| lookup_zone := λ _, mkZone offset min_int64 max_int64 |}.

Section Calendar.
Context `{Location}.

(** The reading of the wall clock at an instant. *)
Definition wall (t : Z) : Z := t + zone_offset (lookup_zone t).

(** The end of [time.Date]: the instant of a reading of the wall clock.  The
    offset is first looked up as if the reading were an instant, and once more if
    the result lies outside the span of that offset. *)
Definition from_wall (reading : Z) : Z :=
  let z := lookup_zone reading in
  if zone_offset z =? 0 then reading else
  let utc := reading - zone_offset z in
  let offset :=
    if (utc <? zone_start z) || (zone_end z <=? utc) then zone_offset (lookup_zone utc)
    else zone_offset z in
  reading - offset.

Definition day_number (t : Z) : Z := wall t `div` Day.

(** [time.Date(t.Year(), t.Month(), t.Day(), 0, 0, 0, 0, loc)]. *)
Definition StartOfDay (t : Z) : Z := from_wall (day_number t * Day).

(** [t.AddDate(0, 0, n)]: the same wall clock [n] calendar days later. *)
Definition AddDays (t n : Z) : Z := from_wall (wall t + n * Day).
End Calendar.

(** ** Locations with one offset *)

(** The offset is the same at every instant; the spans cover the instants in
    use. *)
Class FixedOffset (L : Location) := {
  fixed_offset : Z;
  fixed_lookup t : zone_offset (lookup_zone t) = fixed_offset
}.

#[export] Instance fixed_zone_FixedOffset offset : FixedOffset (fixed_zone offset).
Proof. by exists offset. Defined.

Section Fixed.
Context {L : Location} `{!FixedOffset L}.

Lemma wall_fixed t : wall t = t + fixed_offset.
Proof. unfold wall. by rewrite fixed_lookup. Qed.

Lemma from_wall_fixed r : from_wall r = r - fixed_offset.
Proof.
  unfold from_wall. rewrite !fixed_lookup. case_match eqn:E; bool_to_prop; [lia|].
  by case_match.
Qed.

Lemma AddDays_fixed t n : AddDays t n = t + n * Day.
Proof. unfold AddDays. rewrite from_wall_fixed, wall_fixed. lia. Qed.

Lemma AddDays_cancel t n : AddDays (AddDays t n) (- n) = t.
Proof. rewrite !AddDays_fixed. lia. Qed.

Lemma StartOfDay_spec t : StartOfDay t ≤ t < StartOfDay t + Day.
Proof.
  unfold StartOfDay, day_number. rewrite from_wall_fixed, wall_fixed.
  pose proof (Z_div_mod_eq_full (t + fixed_offset) Day).
  pose proof (Z.mod_pos_bound (t + fixed_offset) Day). unfold Day, Hour, Minute, Second in *. lia.
Qed.

Lemma StartOfDay_wall t : (StartOfDay t + fixed_offset) `mod` Day = 0.
Proof.
  unfold StartOfDay, day_number. rewrite from_wall_fixed, wall_fixed.
  replace (_ - _ + _) with (((t + fixed_offset) `div` Day) * Day) by lia. by apply Z.mod_mul.
Qed.

Lemma StartOfDay_idem t : StartOfDay (StartOfDay t) = StartOfDay t.
Proof.
  pose proof (StartOfDay_spec (StartOfDay t)). pose proof (StartOfDay_wall t) as Hd1.
  pose proof (StartOfDay_wall (StartOfDay t)) as Hd2. pose proof (StartOfDay_spec t).
  apply Z.mod_divide in Hd1, Hd2; [|done..]. destruct Hd1 as [a Ha], Hd2 as [b Hb].
  unfold Day, Hour, Minute, Second in *. lia.
Qed.

Lemma StartOfDay_mono s t : s ≤ t → StartOfDay s ≤ StartOfDay t.
Proof.
  intros. pose proof (StartOfDay_spec s). pose proof (StartOfDay_spec t).
  pose proof (StartOfDay_wall s) as Hd1. pose proof (StartOfDay_wall t) as Hd2.
  apply Z.mod_divide in Hd1, Hd2; [|done..]. destruct Hd1 as [a Ha], Hd2 as [b Hb].
  unfold Day, Hour, Minute, Second in *. lia.
Qed.
End Fixed.
