(* ===== verification/GoDecimal.v ===== *)
(** * Decimal numbers behind float64 amounts

    Amounts of money are float64 in the program and NUMERIC in the database.  A
    statement receives the shortest decimal of a float64 (package [strconv]), and
    a column rounds what is stored half away from zero; an answer is scanned to
    the nearest float64.  A [numeric] is an integer in units of 10^-1100, so it
    holds every finite float64 exactly; a column of scale [s] holds an integer in
    units of 10^-s.  The main lemma is that fifteen digits survive
    the way through float64. *)

From Stdlib Require Import ZArith Lia SpecFloat.
From stdpp Require Import base tactics numbers.
From S2P Require Import Prelude GoFloat.

Open Scope go_scope.

Definition numeric : Type := Z.

(** Fractional digits of a [numeric]; 1074 suffice for every float64. *)
Definition places : Z := 1100.

(** The value of [u] units of 10^-scale. *)
Definition of_units (scale u : Z) : numeric := u * 10 ^ (places - scale).

(** The quotient rounded to the nearest integer, halves away from zero. *)
Definition round_half_away (x d : Z) : Z := Z.sgn x * ((2 * Z.abs x + d) `div` (2 * d)).

(** [ROUND(x, scale)], in units of 10^-scale. *)
Definition to_units (scale : Z) (x : numeric) : Z := round_half_away x (10 ^ (places - scale)).

(** [x] rounded to [scale] fractional digits: [decimal.Round]. *)
Definition Round (scale : Z) (x : numeric) : numeric := of_units scale (to_units scale x).

(** The nearest float64. *)
Definition to_float (x : numeric) : float64 :=
  match x with
  | 0 => fzero
  | Zpos p => fdiv (S754_finite false p 0) (S754_finite false (Z.to_pos (10 ^ places)) 0)
  | Zneg p => fdiv (S754_finite true p 0) (S754_finite false (Z.to_pos (10 ^ places)) 0)
  end.

(** The value of 2^e. *)
Definition quantum (e : Z) : numeric :=
  if 0 <=? e then 2 ^ e * 10 ^ places else 10 ^ places `div` 2 ^ (- e).

(** The exact value of a finite float64. *)
Definition exact (a : float64) : numeric :=
  match a with
  | S754_finite s m e => let z := Zpos m * quantum e in if s then - z else z
  | _ => 0
  end.

(** ** What a shortest decimal must satisfy

    The shortest decimal that parses to a float64, as [strconv.FormatFloat]
    with precision -1 and [decimal.NewFromFloat] produce it.  A decimal of at most
    fifteen digits, none of them beyond the eighth place, is recovered from its
    float64. *)
Definition fifteen_digits : Z := 10 ^ 15.

Class ShortestDecimal := {
  shortest : float64 → numeric;
  shortest_fifteen u : Z.abs u < fifteen_digits → shortest (to_float (of_units 8 u)) = of_units 8 u
}.

(** ** Rounding in units *)

Lemma places_eq : places = 1100.
Proof. done. Qed.

Lemma pow10_pos n : 0 ≤ n → 0 < 10 ^ n.
Proof. intros. by apply Z.pow_pos_nonneg. Qed.

#[local] Opaque Z.pow places.

(** Arithmetic on the number of places, without computing powers. *)
Ltac places_lia := pose proof places_eq; lia.

Lemma round_half_away_mul u d : 0 < d → round_half_away (u * d) d = u.
Proof.
  intros Hd. unfold round_half_away. rewrite Z.abs_mul, (Z.abs_eq d), Z.sgn_mul, (Z.sgn_pos d) by lia.
  replace ((2 * (Z.abs u * d) + d) `div` (2 * d)) with (Z.abs u); [lia|].
  apply Z.div_unique with d; lia.
Qed.

Lemma round_half_away_bounds x d : 0 < d → 2 * Z.abs (x - round_half_away x d * d) ≤ d.
Proof.
  intros Hd. unfold round_half_away. set (q := (2 * Z.abs x + d) `div` (2 * d)).
  assert (2 * d * q ≤ 2 * Z.abs x + d < 2 * d * q + 2 * d) as Hq.
  { pose proof (Z_div_mod_eq_full (2 * Z.abs x + d) (2 * d)).
    pose proof (Z.mod_pos_bound (2 * Z.abs x + d) (2 * d)). lia. }
  destruct (Z.lt_trichotomy x 0) as [Hx|[->|Hx]]; [| |];
    [rewrite (Z.sgn_neg x) by lia|simpl; lia|rewrite (Z.sgn_pos x) by lia]; nia.
Qed.

Lemma to_units_of_units s u : s ≤ places → to_units s (of_units s u) = u.
Proof. intros. apply round_half_away_mul, pow10_pos. lia. Qed.

Lemma to_units_add_units s u v : s ≤ places → to_units s (of_units s u + of_units s v) = u + v.
Proof. intros. unfold of_units. rewrite <-Z.mul_add_distr_r. by apply to_units_of_units. Qed.

Lemma to_units_sub_units s u v : s ≤ places → to_units s (of_units s u - of_units s v) = u - v.
Proof. intros. unfold of_units. rewrite <-Z.mul_sub_distr_r. by apply to_units_of_units. Qed.

Lemma of_units_le s u v : s ≤ places → of_units s u ≤ of_units s v ↔ u ≤ v.
Proof. intros. unfold of_units. pose proof (pow10_pos (places - s)). nia. Qed.

Lemma of_units_pos s u : s ≤ places → 0 < of_units s u ↔ 0 < u.
Proof. intros. unfold of_units. pose proof (pow10_pos (places - s)). nia. Qed.

(** ** The nearest float64 *)

Lemma digits2_log2 p : Zpos (digits2_pos p) = Z.log2 (Zpos p) + 1.
Proof.
  induction p as [p IH|p IH|]; simpl digits2_pos; [| |done]; rewrite Pos2Z.inj_succ, IH.
  - rewrite (Pos2Z.inj_xI p), Z.log2_succ_double; lia.
  - rewrite (Pos2Z.inj_xO p), Z.log2_double; lia.
Qed.

(** The number of binary digits bounds the value, and is bounded by it. *)
Lemma Zdigits2_spec m : 0 ≤ m → 0 ≤ Zdigits2 m ∧ m < 2 ^ Zdigits2 m.
Proof.
  intros. destruct m as [|p|]; simpl; [|rewrite digits2_log2|lia]; [by split|].
  pose proof (Z.log2_nonneg (Zpos p)). pose proof (Z.log2_spec (Zpos p)). unfold Z.succ in *. lia.
Qed.

Lemma Zdigits2_lt m n : 0 ≤ m → 0 ≤ n → m < 2 ^ n → Zdigits2 m ≤ n.
Proof.
  intros Hm Hn Hlt. destruct m as [|p|]; simpl; [lia| |lia]. rewrite digits2_log2.
  pose proof (Z.log2_lt_pow2 (Zpos p) n). lia.
Qed.

Lemma shr_1_m r : 0 ≤ shr_m r → shr_m (shr_1 r) = shr_m r `div` 2.
Proof.
  destruct r as [[|[p|p|]|p] r s]; simpl; try done; try lia; intros _.
  - rewrite (Pos2Z.inj_xI p). apply Z.div_unique with 1; lia.
  - rewrite (Pos2Z.inj_xO p). apply Z.div_unique with 0; lia.
Qed.

Lemma iter_shr_m (n : positive) r : 0 ≤ shr_m r → shr_m (SpecFloat.iter_pos shr_1 n r) = shr_m r `div` 2 ^ Zpos n.
Proof.
  revert r. induction n as [n IH|n IH|]; intros r Hr; simpl SpecFloat.iter_pos.
  - assert (0 ≤ shr_m (shr_1 r)) as H1 by (rewrite shr_1_m by done; by apply Z.div_pos).
    assert (0 ≤ shr_m (SpecFloat.iter_pos shr_1 n (shr_1 r))) as H2.
    { rewrite IH by done. apply Z.div_pos; [done|]. by apply Z.pow_pos_nonneg. }
    rewrite IH, IH, shr_1_m by done. rewrite !Z.div_div by (try apply Z.pow_nonzero; try apply Z.pow_pos_nonneg; lia).
    f_equal. replace (Zpos n~1) with (1 + (Zpos n + Zpos n)) by lia.
    rewrite !Z.pow_add_r by lia. change (2 ^ 1) with 2. lia.
  - assert (0 ≤ shr_m (SpecFloat.iter_pos shr_1 n r)) as H2.
    { rewrite IH by done. apply Z.div_pos; [done|]. by apply Z.pow_pos_nonneg. }
    rewrite IH, IH by done. rewrite !Z.div_div by (try apply Z.pow_nonzero; try apply Z.pow_pos_nonneg; lia).
    f_equal. replace (Zpos n~0) with (Zpos n + Zpos n) by lia. by rewrite Z.pow_add_r by lia.
  - rewrite shr_1_m by done. by change (2 ^ 1) with 2.
Qed.

Lemma shr_spec r e n :
  0 ≤ shr_m r →
  shr_m (shr r e n).1 = shr_m r `div` 2 ^ Z.max n 0 ∧ (shr r e n).2 = e + Z.max n 0.
Proof.
  intros Hr. destruct n as [|n|n]; simpl; [| |];
    [rewrite Z.div_1_r; lia|split; [|lia]; by apply iter_shr_m|rewrite Z.div_1_r; lia].
Qed.

(** Where the mantissa is cut: the exponent of the result before a carry. *)
Definition cut (m e : Z) : Z := Z.max (fexp mantissa_bits max_exponent (Zdigits2 m + e)) e.

(** Rounding changes the truncated mantissa by one unit at most. *)
Lemma binary_round_aux_spec s m e l :
  0 ≤ m → e ≤ 971 - 1 → cut m e ≤ 971 - 1 →
  ∃ m2 k, 0 ≤ k ≤ 1 ∧ 0 ≤ m2 ∧
    m `div` 2 ^ (cut m e - e) - 1 ≤ m2 * 2 ^ k ≤ m `div` 2 ^ (cut m e - e) + 1 ∧
    binary_round_aux mantissa_bits max_exponent s m e l =
      match m2 with Zpos p => S754_finite s p (cut m e + k) | _ => S754_zero s end.
Proof.
  intros Hm He Hc. unfold binary_round_aux, shr_fexp.
  set (n := fexp mantissa_bits max_exponent (Zdigits2 m + e) - e).
  assert (shr_m (shr_record_of_loc m l) = m) as Hl by by destruct l as [|[]].
  destruct (shr_spec (shr_record_of_loc m l) e n) as [H1 H2]; [lia|]. rewrite Hl in H1.
  destruct (shr _ e n) as [r1 e1]; simpl in H1, H2.
  assert (e + Z.max n 0 = cut m e) as Hcut by (unfold cut; lia). rewrite Hcut in H2. subst e1.
  replace (Z.max n 0) with (cut m e - e) in H1 by lia.
  set (m0 := m `div` 2 ^ (cut m e - e)) in *.
  assert (0 ≤ m0 < 2 ^ 53) as [Hm0 Hm53].
  { destruct (Zdigits2_spec m Hm) as [Hd0 Hd]. split; [apply Z.div_pos; [lia|apply Z.pow_pos_nonneg; lia]|].
    apply Z.div_lt_upper_bound; [apply Z.pow_pos_nonneg; lia|]. rewrite <-Z.pow_add_r by lia.
    eapply Z.lt_le_trans; [exact Hd|]. apply Z.pow_le_mono_r; [lia|].
    unfold cut, fexp, mantissa_bits. lia. }
  set (m1 := round_nearest_even (shr_m r1) (loc_of_shr_record r1)).
  assert (m0 ≤ m1 ≤ m0 + 1) as Hm1.
  { unfold m1. rewrite H1. destruct r1 as [? [] []]; simpl; try destruct (Z.even m0); lia. }
  set (n1 := fexp mantissa_bits max_exponent (Zdigits2 m1 + cut m e) - cut m e).
  assert (Z.max n1 0 ≤ 1) as Hn1.
  { assert (Zdigits2 m1 ≤ 54); [|unfold n1, cut, fexp, emin, mantissa_bits, max_exponent in *; lia].
    apply Zdigits2_lt; [lia..|]. change (2 ^ 54) with (2 * 2 ^ 53). lia. }
  destruct (shr_spec (shr_record_of_loc m1 loc_Exact) (cut m e) n1) as [H3 H4]; [simpl; lia|].
  destruct (shr _ (cut m e) n1) as [r2 e2]; simpl in H3, H4. subst e2.
  exists (shr_m r2), (Z.max n1 0). rewrite H3.
  assert (0 ≤ m1 `div` 2 ^ Z.max n1 0) as Hp.
  { apply Z.div_pos; [lia|]. apply Z.pow_pos_nonneg; lia. }
  repeat split; [lia..|exact Hp| | |].
  - destruct (Z.eq_dec (Z.max n1 0) 0) as [->|Hn]; [change (2 ^ 0) with 1; rewrite Z.div_1_r; lia|].
    replace (Z.max n1 0) with 1 by lia. change (2 ^ 1) with 2.
    pose proof (Z_div_mod_eq_full m1 2). pose proof (Z.mod_pos_bound m1 2). lia.
  - destruct (Z.eq_dec (Z.max n1 0) 0) as [->|Hn]; [change (2 ^ 0) with 1; rewrite Z.div_1_r; lia|].
    replace (Z.max n1 0) with 1 by lia. change (2 ^ 1) with 2.
    pose proof (Z_div_mod_eq_full m1 2). pose proof (Z.mod_pos_bound m1 2). lia.
  - destruct (m1 `div` 2 ^ Z.max n1 0) as [|p|]; [done| |lia].
    destruct (Z.leb_spec (cut m e + Z.max n1 0) (max_exponent - mantissa_bits)); [done|].
    unfold max_exponent, mantissa_bits in *. lia.
Qed.

Lemma quantum_spec e : -1074 ≤ e ≤ 0 → quantum e * 2 ^ (- e) = 10 ^ places ∧ 0 < quantum e.
Proof.
  intros He. pose proof (Z.pow_pos_nonneg 2 (- e)) as H2. pose proof (pow10_pos places) as H10.
  assert (quantum e = 10 ^ places `div` 2 ^ (- e)) as ->.
  { unfold quantum. destruct (Z.leb_spec 0 e); [|done]. replace e with 0 by lia.
    change (2 ^ 0) with 1. rewrite Z.div_1_r. lia. }
  assert (10 ^ places = 10 ^ places `div` 2 ^ (- e) * 2 ^ (- e)) as Hd; [|split; [done|]; pose proof places_eq; nia].
  rewrite Z.mul_comm. apply Z_div_exact_full_2; [lia|].
  replace (10 ^ places) with (5 ^ places * 2 ^ (places + e) * 2 ^ (- e)); [apply Z.mod_mul; lia|].
  rewrite <-Z.mul_assoc, <-Z.pow_add_r by (places_lia).
  replace (places + e + - e) with places by lia. by rewrite <-Z.pow_mul_l.
Qed.

Lemma quantum_add e k : -1074 ≤ e → 0 ≤ k → e + k ≤ 0 → quantum (e + k) = quantum e * 2 ^ k.
Proof.
  intros He Hk Hek. destruct (quantum_spec e) as [H1 _]; [lia|].
  destruct (quantum_spec (e + k)) as [H2 _]; [lia|].
  apply (Z.mul_cancel_r _ _ (2 ^ (- (e + k)))); [apply Z.pow_nonzero; lia|].
  rewrite H2, <-H1, <-Z.mul_assoc, <-Z.pow_add_r by lia. f_equal. f_equal. lia.
Qed.

Lemma div_floor a b : 0 < b → b * (a `div` b) ≤ a < b * (a `div` b + 1).
Proof. intros. pose proof (Z_div_mod_eq_full a b). pose proof (Z.mod_pos_bound a b). lia. Qed.

(** The value cut at exponent [e + n] of a number known to lie in a cell at
    exponent [e]. *)
Lemma cell_cut e n q a :
  -1074 ≤ e → 0 ≤ n → e + n ≤ 0 →
  q * quantum e ≤ a < (q + 1) * quantum e →
  q `div` 2 ^ n * quantum (e + n) ≤ a < (q `div` 2 ^ n + 1) * quantum (e + n).
Proof.
  intros He Hn Hen Ha. rewrite quantum_add by lia. destruct (quantum_spec e) as [_ Hq]; [lia|].
  pose proof (div_floor q (2 ^ n) ltac:(by apply Z.pow_pos_nonneg)).
  set (p := 2 ^ n) in *. set (d := q `div` p) in *. nia.
Qed.

(** The quotient that [SFdiv] computes lies in the cell of the dividend. *)
Lemma core_cell a b :
  0 < a → 0 < b → b = 10 ^ places → a < 2 ^ 24 * b →
  ∃ q e l, SFdiv_core_binary mantissa_bits max_exponent a 0 b 0 = (q, e, l) ∧
    0 ≤ q ∧ -1074 ≤ e ≤ 0 ∧ q * quantum e ≤ a < (q + 1) * quantum e ∧ cut q e ≤ -29.
Proof.
  intros Ha Hb Heb Hlt. unfold SFdiv_core_binary. rewrite !Z.add_0_r. change (0 - 0) with 0.
  set (e := Z.min (fexp mantissa_bits max_exponent (Zdigits2 a - Zdigits2 b)) 0).
  assert (Zdigits2 a ≤ Zdigits2 b + 24) as Hdig.
  { destruct (Zdigits2_spec b) as [? Hdb]; [lia|]. apply Zdigits2_lt; [lia..|].
    rewrite Z.pow_add_r by lia. pose proof (Z.pow_pos_nonneg 2 24). nia. }
  assert (-1074 ≤ e ≤ -29) as He by (unfold e, fexp, emin, mantissa_bits, max_exponent; lia).
  assert (match 0 - e with 0 => a | Zpos _ => Z.shiftl a (0 - e) | Zneg _ => 0 end = a * 2 ^ (- e)) as ->.
  { destruct (0 - e) eqn:E; [lia| |lia]. rewrite Z.shiftl_mul_pow2 by lia. f_equal. f_equal. lia. }
  pose proof (Z.div_eucl_eq (a * 2 ^ (- e)) b) as Hdiv. pose proof (Z.mod_pos_bound (a * 2 ^ (- e)) b Hb) as Hmod.
  unfold Z.modulo in Hmod. destruct (Z.div_eucl _ b) as [q r]. specialize (Hdiv ltac:(lia)).
  destruct (quantum_spec e) as [Hq Hqp]; [lia|]. rewrite <-Heb in Hq.
  pose proof (Z.pow_pos_nonneg 2 (- e)) as Hp2.
  assert (q * quantum e ≤ a < (q + 1) * quantum e) as Hcell.
  { rewrite <-Hq in Hdiv, Hmod. set (p := 2 ^ (- e)) in *. set (c := quantum e) in *. nia. }
  assert (0 ≤ q) as Hq0 by nia.
  exists q, e, (new_location b r). repeat split; [lia..|].
  unfold cut. apply Z.max_lub; [|lia].
  assert (Zdigits2 q ≤ 24 - e); [|unfold fexp, emin, mantissa_bits, max_exponent; lia].
  apply Zdigits2_lt; [lia..|]. replace (24 - e) with (24 + - e) by lia. rewrite Z.pow_add_r by lia.
  rewrite <-Hq in Hlt. set (p := 2 ^ (- e)) in *. set (c := quantum e) in *. nia.
Qed.

(** The nearest float64 of a positive amount below 2^24 is within two units in
    its last place. *)
Lemma fdiv_near s p :
  Zpos p < 2 ^ 24 * 10 ^ places →
  let r := fdiv (S754_finite s p 0) (S754_finite false (Z.to_pos (10 ^ places)) 0) in
  ∃ m, 0 ≤ m ∧ Z.abs (m - Zpos p) ≤ 2 * quantum (-29) ∧ exact r = (if s then - m else m) ∧
    (r = S754_zero s ∨ ∃ q e, r = S754_finite s q e).
Proof.
  intros Hp. pose proof (pow10_pos places ltac:(by rewrite places_eq)) as Hpl. unfold fdiv, SFdiv.
  destruct (core_cell (Zpos p) (10 ^ places) eq_refl Hpl eq_refl Hp)
    as (q & e & l & Hcore & Hq & He & Hcell & Hcut).
  rewrite Z2Pos.id by exact Hpl. rewrite Hcore, xorb_false_r.
  assert (-1074 ≤ cut q e) as Hc1 by (unfold cut, fexp, emin, mantissa_bits, max_exponent; lia).
  assert (e ≤ cut q e) as Hc2 by (unfold cut; lia).
  destruct (binary_round_aux_spec s q e l) as (m & k & Hk & Hm & Hnear & ->); [lia..|].
  pose proof (cell_cut e (cut q e - e) q (Zpos p) ltac:(lia) ltac:(lia) ltac:(lia) Hcell) as Hcell2.
  replace (e + (cut q e - e)) with (cut q e) in Hcell2 by lia.
  destruct (quantum_spec (cut q e)) as [_ Hqp]; [lia|].
  assert (quantum (cut q e) ≤ quantum (-29)) as Hmono.
  { replace (-29) with (cut q e + (-29 - cut q e)) at 1 by lia. rewrite quantum_add by lia.
    pose proof (Z.pow_pos_nonneg 2 (-29 - cut q e)). nia. }
  exists (m * quantum (cut q e + k)).
  assert (Z.abs (m * quantum (cut q e + k) - Zpos p) ≤ 2 * quantum (-29)) as Herr.
  { rewrite quantum_add by lia. set (c := quantum (cut q e)) in *. set (t := 2 ^ k) in *.
    set (m0 := q `div` _) in *. clearbody c t m0. nia. }
  destruct (quantum_spec (cut q e + k)) as [_ Hqk]; [lia|].
  split; [nia|]. split; [done|]. destruct m as [|m|]; [| |lia].
  - split; [by destruct s|by left].
  - split; [done|]. right. eauto.
Qed.

(** Half a unit of the eighth place exceeds the error. *)
Lemma half_unit_exceeds : 4 * quantum (-29) < 10 ^ (places - 8).
Proof. by vm_compute. Qed.

(** A sign, and the exact value within half a unit of the eighth place. *)
Lemma to_float_units_wide u :
  Z.abs u < 2 ^ 24 * 10 ^ 8 →
  let r := to_float (of_units 8 u) in
  2 * Z.abs (exact r - of_units 8 u) < 10 ^ (places - 8) ∧
  (r = fzero ∧ u = 0 ∨ ∃ q e, r = S754_finite (u <? 0) q e ∧ u ≠ 0).
Proof.
  intros Hu r. subst r. unfold of_units. pose proof half_unit_exceeds as Hh.
  assert (10 ^ places = 10 ^ 8 * 10 ^ (places - 8)) as Hsplit.
  { rewrite <-Z.pow_add_r by places_lia. f_equal. }
  pose proof (pow10_pos (places - 8) ltac:(places_lia)) as Hp. revert Hh Hsplit Hp.
  generalize (10 ^ (places - 8)) as g. intros g Hh Hsplit Hp.
  assert (Z.abs (u * g) < 2 ^ 24 * 10 ^ places) as Hbound.
  { rewrite Hsplit, Z.abs_mul, (Z.abs_eq g) by lia. revert Hu. generalize (10 ^ 8), (2 ^ 24). intros. nia. }
  destruct (Z.eq_dec u 0) as [->|Hu0].
  { change (to_float (0 * g)) with fzero. change (exact fzero) with 0. clear Hbound Hsplit Hu Hh. split; [lia|by left]. }
  assert (g ≤ Z.abs (u * g)) as Hlow by (rewrite Z.abs_mul; nia).
  destruct (u * g) as [|p|p] eqn:E; [nia| |];
    simpl Z.abs in Hbound, Hlow; unfold to_float;
    [destruct (fdiv_near false p Hbound) as (m & Hm & Herr & Hex & [Hz|(q & e & Hz)])
    |destruct (fdiv_near true p Hbound) as (m & Hm & Herr & Hex & [Hz|(q & e & Hz)])];
    rewrite Hex; (split; [clear Hex; lia|]); rewrite Hz in *;
    try (exfalso; change (exact (S754_zero _)) with 0 in Hex; lia);
    right; exists q, e; (split; [f_equal|done]).
  - by destruct (Z.ltb_spec u 0); [nia|].
  - by destruct (Z.ltb_spec u 0); [|nia].
Qed.

Lemma fifteen_wide u : Z.abs u < fifteen_digits → Z.abs u < 2 ^ 24 * 10 ^ 8.
Proof. assert (fifteen_digits ≤ 2 ^ 24 * 10 ^ 8) by by vm_compute. lia. Qed.

Lemma to_float_units u :
  Z.abs u < fifteen_digits →
  let r := to_float (of_units 8 u) in
  2 * Z.abs (exact r - of_units 8 u) < 10 ^ (places - 8) ∧
  (r = fzero ∧ u = 0 ∨ ∃ q e, r = S754_finite (u <? 0) q e ∧ u ≠ 0).
Proof. intros Hu. by apply to_float_units_wide, fifteen_wide. Qed.

Lemma to_float_positive u :
  Z.abs u < fifteen_digits → flt fzero (to_float (of_units 8 u)) = (0 <? u).
Proof.
  intros Hu. destruct (to_float_units u Hu) as [_ [[-> ->]|(q & e & -> & Hn)]]; [done|].
  destruct (Z.ltb_spec u 0), (Z.ltb_spec 0 u); done || lia.
Qed.

Lemma to_float_not_nan u : Z.abs u < fifteen_digits → IsNaN (to_float (of_units 8 u)) = false.
Proof. intros Hu. by destruct (to_float_units u Hu) as [_ [[-> ->]|(q & e & -> & Hn)]]. Qed.

Lemma to_float_not_inf u : Z.abs u < fifteen_digits → IsInf (to_float (of_units 8 u)) = false.
Proof. intros Hu. by destruct (to_float_units u Hu) as [_ [[-> ->]|(q & e & -> & Hn)]]. Qed.

(** ** A function with the law

    The decimal with the fewest fractional digits, up to 25, that is nearest to the
    float64 at that number of digits and parses to it. *)

#[export] Instance float64_eq_dec : EqDecision float64.
Proof. solve_decision. Defined.

Fixpoint shortest_from (fuel : nat) (scale : Z) (a : float64) : option numeric :=
  match fuel with
  | O => None
  | S fuel =>
      let x := Round scale (exact a) in
      if decide (to_float x = a) then Some x else shortest_from fuel (scale + 1) a
  end.

Definition shortest_decimal (a : float64) : numeric := default (exact a) (shortest_from 25 0 a).

Lemma round_half_away_near x d u : 0 < d → 2 * Z.abs (x - u * d) < d → round_half_away x d = u.
Proof. intros Hd Hx. pose proof (round_half_away_bounds x d Hd). nia. Qed.

Lemma to_units_exact u :
  Z.abs u < 2 ^ 24 * 10 ^ 8 → to_units 8 (exact (to_float (of_units 8 u))) = u.
Proof.
  intros Hu. destruct (to_float_units_wide u Hu) as [Hx _]. apply round_half_away_near; [|exact Hx].
  apply pow10_pos. by rewrite places_eq.
Qed.

(** A coarser rounding that parses to the same float64 is the same decimal. *)
Lemma coarse_round u scale :
  Z.abs u < fifteen_digits → 0 ≤ scale ≤ 8 →
  let a := to_float (of_units 8 u) in
  to_float (Round scale (exact a)) = a → Round scale (exact a) = of_units 8 u.
Proof.
  intros Hu Hs a Ha. unfold Round in *. set (v := to_units scale (exact a)) in *.
  assert (of_units scale v = of_units 8 (v * 10 ^ (8 - scale))) as Hv.
  { unfold of_units. rewrite <-Z.mul_assoc, <-Z.pow_add_r by places_lia. f_equal. f_equal. lia. }
  rewrite Hv in Ha |- *. f_equal.
  assert (Z.abs (v * 10 ^ (8 - scale)) < 2 ^ 24 * 10 ^ 8) as Hw.
  { destruct (to_float_units u Hu) as [Hx _]. fold a in Hx.
    pose proof (round_half_away_bounds (exact a) (10 ^ (places - scale)) ltac:(apply pow10_pos; places_lia)) as Hr.
    fold (to_units scale (exact a)) in Hr. fold v in Hr. fold (of_units scale v) in Hr. rewrite Hv in Hr.
    replace (places - scale) with ((8 - scale) + (places - 8)) in Hr by lia.
    rewrite Z.pow_add_r in Hr by places_lia.
    assert (10 ^ (8 - scale) ≤ 10 ^ 8) as H8 by (apply Z.pow_le_mono_r; lia).
    assert (fifteen_digits + 10 ^ 8 + 2 ≤ 2 ^ 24 * 10 ^ 8) as Hb by by vm_compute.
    pose proof (pow10_pos (places - 8) ltac:(places_lia)) as Hg.
    unfold of_units in Hr, Hx. revert Hr Hx H8 Hb Hg Hu. clear.
    generalize (10 ^ (places - 8)), (v * 10 ^ (8 - scale)), (10 ^ (8 - scale)), (10 ^ 8), fifteen_digits, (exact a).
    generalize (2 ^ 24). intros t g w c b f x. intros. nia. }
  apply (to_units_exact _) in Hw. rewrite Ha in Hw. unfold a in Hw.
  rewrite to_units_exact in Hw by by apply fifteen_wide. done.
Qed.

Lemma shortest_from_fifteen u fuel scale :
  Z.abs u < fifteen_digits → 0 ≤ scale ≤ 8 → 8 - scale < Z.of_nat fuel →
  shortest_from fuel scale (to_float (of_units 8 u)) = Some (of_units 8 u).
Proof.
  intros Hu. revert scale. induction fuel as [|fuel IH]; intros scale Hs Hf; [lia|]. cbn [shortest_from].
  case_decide as Hd; [f_equal; by apply coarse_round|].
  destruct (Z.eq_dec scale 8) as [->|]; [|apply IH; lia]. exfalso. apply Hd.
  unfold Round. by rewrite to_units_exact by by apply fifteen_wide.
Qed.

Lemma shortest_decimal_fifteen u :
  Z.abs u < fifteen_digits → shortest_decimal (to_float (of_units 8 u)) = of_units 8 u.
Proof. intros Hu. unfold shortest_decimal. by rewrite shortest_from_fifteen. Qed.

Definition FewestDigits : ShortestDecimal :=
  {| shortest := shortest_decimal; shortest_fifteen := shortest_decimal_fifteen |}.
