(* ===== verification/Subscription.v ===== *)
(** * Subscriptions: terms, usage windows and limits

    service/user_subscription.go, the term and window operations of
    service/subscription_service.go, and the statements of
    repository/user_subscription_repo.go they issue.  A subscription gives a user a
    group for a term; usage is limited per calendar day, per rolling week and
    month aligned to the term, and per rolling five hours.

    The table is explicit; deletion is soft and the queries skip deleted rows.
    Methods that read the clock take [now].  Caches in front of the table are not
    modelled: they are invalidated after each change. *)

From Stdlib Require Import ZArith Lia String SpecFloat.
From stdpp Require Import base tactics numbers list gmap strings.
From S2P Require Import Prelude GoStrings GoFloat GoTime.

Open Scope go_scope.

(** ** Data *)

Definition SubscriptionStatusActive : string := "active".
Definition SubscriptionStatusExpired : string := "expired".
Definition SubscriptionStatusSuspended : string := "suspended".
Definition SubscriptionStatusRevoked : string := "revoked".

Definition SubscriptionTypeSubscription : string := "subscription".

Definition subscriptionDayDuration : Z := 24 * Hour.
Definition subscriptionFiveHourDuration : Z := 5 * Hour.

(** 36500 days, about a century. *)
Definition MaxValidityDays : Z := 36500.

(** 2099-12-31 23:59:59 UTC, 766644 days after 0001-01-01, less a second. *)
Definition MaxExpiresAt : Z := 766644 * Day - Second.

Record UserSubscription := mkSubscription {
  us_ID : Z;
  us_UserID : Z;
  us_GroupID : Z;
  us_StartsAt : Z;
  us_ExpiresAt : Z;
  us_Status : string;
  us_DailyWindowStart : option Z;
  us_WeeklyWindowStart : option Z;
  us_MonthlyWindowStart : option Z;
  us_FiveHourWindowStart : option Z;
  us_DailyUsageUSD : float64;
  us_WeeklyUsageUSD : float64;
  us_MonthlyUsageUSD : float64;
  us_FiveHourUsageUSD : float64;
  us_AssignedBy : option Z;
  us_AssignedAt : Z;
  us_Notes : string;
  us_CreatedAt : Z;
  us_UpdatedAt : Z;
  us_DeletedAt : option Z
}.

(** The fields of [Group] that subscriptions read. *)
Record Group := mkGroup {
  gr_ID : Z;
  gr_Status : string;
  gr_SubscriptionType : string;
  gr_DailyLimitUSD : option float64;
  gr_WeeklyLimitUSD : option float64;
  gr_MonthlyLimitUSD : option float64;
  gr_FiveHourLimitUSD : option float64
}.

Definition IsSubscriptionType (g : Group) : bool :=
  String.eqb (gr_SubscriptionType g) SubscriptionTypeSubscription.

Definition positive_limit (limit : option float64) : bool :=
  match limit with Some l => fzero <. l | None => false end.

Definition HasDailyLimit (g : Group) : bool := positive_limit (gr_DailyLimitUSD g).
Definition HasWeeklyLimit (g : Group) : bool := positive_limit (gr_WeeklyLimitUSD g).
Definition HasMonthlyLimit (g : Group) : bool := positive_limit (gr_MonthlyLimitUSD g).
Definition HasFiveHourLimit (g : Group) : bool := positive_limit (gr_FiveHourLimitUSD g).

(** ** Methods of [UserSubscription] *)

Section Methods.
Context `{Location}.

Definition IsActive (s : UserSubscription) (now : Z) : bool :=
  String.eqb (us_Status s) SubscriptionStatusActive && (now .Before us_ExpiresAt s).

Definition IsExpired (s : UserSubscription) (now : Z) : bool := now .After us_ExpiresAt s.

Definition daysRemainingAt (s : UserSubscription) (now : Z) : Z :=
  let remaining := time_sub (us_ExpiresAt s) now in
  if remaining <=? 0 then 0 else
  let days := Z.quot remaining subscriptionDayDuration in
  if negb (Z.rem remaining subscriptionDayDuration =? 0) then days + 1 else days.

Definition IsWindowActivated (s : UserSubscription) : bool :=
  bool_decide (is_Some (us_DailyWindowStart s)) || bool_decide (is_Some (us_WeeklyWindowStart s))
  || bool_decide (is_Some (us_MonthlyWindowStart s)).

Definition HasOneTimeDailyQuota (s : UserSubscription) : bool :=
  if time_is_zero (us_StartsAt s) || time_is_zero (us_ExpiresAt s) then false
  else negb (us_ExpiresAt s .After AddDays (us_StartsAt s) 1).

Definition automaticDailyWindowStartAt (s : UserSubscription) (now : Z) : option Z :=
  match us_DailyWindowStart s with
  | None => None
  | Some start =>
      if HasOneTimeDailyQuota s then None else
      let today := StartOfDay now in
      if negb (today .After StartOfDay start) then None else Some today
  end.

Definition canAutomaticallyResetDailyAt (s : UserSubscription) (now : Z) : bool :=
  bool_decide (is_Some (automaticDailyWindowStartAt s now)).

Definition windowResetAnchor (s : UserSubscription) (previous : Z) : Z :=
  let legacyAnchor := StartOfDay (us_StartsAt s) in
  if (legacyAnchor .Before us_StartsAt s) && (previous =? legacyAnchor) then us_StartsAt s
  else previous.

(** Durations are int64: the difference less one and the product wrap. *)
Definition automaticWindowStartAt (s : UserSubscription) (previous : option Z) (period now : Z)
    : option Z :=
  match previous with
  | None => None
  | Some previous =>
      let anchor := windowResetAnchor s previous in
      let next := time_add anchor period in
      if (now .Before next) || negb (next .Before us_ExpiresAt s) then None else
      let periods := Z.quot (time_sub now anchor) period in
      let lastPeriodBeforeExpiry :=
        Z.quot (wrap_signed 64 (time_sub (us_ExpiresAt s) anchor - 1)) period in
      let periods := if lastPeriodBeforeExpiry <? periods then lastPeriodBeforeExpiry else periods in
      Some (time_add anchor (wrap_signed 64 (periods * period)))
  end.

Definition Week : Z := 7 * Day.
Definition Month : Z := 30 * Day.

Definition canAutomaticallyResetWeeklyAt (s : UserSubscription) (now : Z) : bool :=
  bool_decide (is_Some (automaticWindowStartAt s (us_WeeklyWindowStart s) Week now)).

Definition canAutomaticallyResetMonthlyAt (s : UserSubscription) (now : Z) : bool :=
  bool_decide (is_Some (automaticWindowStartAt s (us_MonthlyWindowStart s) Month now)).

Definition NeedsFiveHourResetAt (s : UserSubscription) (now : Z) : bool :=
  match us_FiveHourWindowStart s with
  | Some start => negb (now .Before time_add start subscriptionFiveHourDuration)
  | None => false
  end.

Definition NeedsWeeklyResetAt (s : UserSubscription) (now : Z) : bool :=
  match us_WeeklyWindowStart s with
  | Some start => negb (now .Before time_add start Week)
  | None => false
  end.

Definition NeedsMonthlyResetAt (s : UserSubscription) (now : Z) : bool :=
  match us_MonthlyWindowStart s with
  | Some start => negb (now .Before time_add start Month)
  | None => false
  end.

Definition DailyResetTime (s : UserSubscription) : option Z :=
  match us_DailyWindowStart s with
  | None => None
  | Some start =>
      if HasOneTimeDailyQuota s then Some (us_ExpiresAt s) else Some (AddDays (StartOfDay start) 1)
  end.

Definition WeeklyResetTime (s : UserSubscription) : option Z :=
  start ← us_WeeklyWindowStart s; Some (time_add (windowResetAnchor s start) Week).

Definition MonthlyResetTime (s : UserSubscription) : option Z :=
  start ← us_MonthlyWindowStart s; Some (time_add (windowResetAnchor s start) Month).

Definition FiveHourResetTime (s : UserSubscription) : option Z :=
  start ← us_FiveHourWindowStart s; Some (time_add start subscriptionFiveHourDuration).

Definition within (limit : option float64) (usage cost : float64) : bool :=
  match limit with Some l => fadd usage cost <=. l | None => true end.

Definition CheckDailyLimit (s : UserSubscription) (g : Group) (cost : float64) : bool :=
  if negb (HasDailyLimit g) then true else within (gr_DailyLimitUSD g) (us_DailyUsageUSD s) cost.

Definition CheckWeeklyLimit (s : UserSubscription) (g : Group) (cost : float64) : bool :=
  if negb (HasWeeklyLimit g) then true else within (gr_WeeklyLimitUSD g) (us_WeeklyUsageUSD s) cost.

Definition CheckMonthlyLimit (s : UserSubscription) (g : Group) (cost : float64) : bool :=
  if negb (HasMonthlyLimit g) then true
  else within (gr_MonthlyLimitUSD g) (us_MonthlyUsageUSD s) cost.

Definition CheckFiveHourLimit (s : UserSubscription) (g : Group) (cost : float64) (now : Z) : bool :=
  if negb (HasFiveHourLimit g) || NeedsFiveHourResetAt s now then true
  else within (gr_FiveHourLimitUSD g) (us_FiveHourUsageUSD s) cost.

Definition CheckAllLimits (s : UserSubscription) (g : Group) (cost : float64) : bool * bool * bool :=
  (CheckDailyLimit s g cost, CheckWeeklyLimit s g cost, CheckMonthlyLimit s g cost).
End Methods.

(** ** Usage limits *)

(** The errors of the service; a limit error carries the instant it resets. *)
Inductive sub_error :=
| ErrSubscriptionNotFound
| ErrSubscriptionExpired
| ErrSubscriptionSuspended
| ErrSubscriptionAlreadyExists
| ErrSubscriptionAssignConflict (reason : string)
| ErrSubscriptionNotRevoked
| ErrSubscriptionRestoreConflict
| ErrGroupNotSubscriptionType
| ErrGroupNotFound
| ErrInvalidInput
| ErrAdjustWouldExpire
| ErrCannotShortenExpired
| ErrDailyLimitExceeded (resetAt : Z)
| ErrWeeklyLimitExceeded (resetAt : Z)
| ErrMonthlyLimitExceeded (resetAt : Z)
| ErrFiveHourLimitExceeded (resetAt : Z)
| ErrGroupSubscriptionLimitExceeded (resetAt : Z).

Record subscriptionUsageSnapshot := mkSnapshot {
  sn_DailyUsage : float64;
  sn_WeeklyUsage : float64;
  sn_MonthlyUsage : float64;
  sn_FiveHourUsage : float64;
  sn_DailyWindowStart : option Z;
  sn_WeeklyWindowStart : option Z;
  sn_MonthlyWindowStart : option Z;
  sn_FiveHourWindowStart : option Z;
  sn_StartsAt : Z;
  sn_ExpiresAt : Z;
  sn_OneTimeDailyQuota : bool
}.

(** An error that is still to learn its reset time, and that time. *)
Record subscriptionLimitViolation := mkViolation { vi_err : Z → sub_error; vi_resetAt : Z }.

Section Limits.
Context `{Location}.

Definition activeSubscriptionQuotaWindow (start : option Z) (duration now : Z) : Z * bool :=
  match start with
  | None => (0, false)
  | Some start => let resetAt := time_add start duration in (resetAt, now .Before resetAt)
  end.

Definition normalizedSubscriptionWindowStart (start : option Z) (startsAt : Z) : option Z :=
  match start with
  | None => None
  | Some at_ =>
      if time_is_zero startsAt then start else
      let legacyAnchor := StartOfDay startsAt in
      if negb (legacyAnchor .Before startsAt) || negb (at_ =? legacyAnchor) then start
      else Some startsAt
  end.

(** The closure of the same name. *)
Definition appendViolation (now : Z) (enabled : bool) (usage : float64) (limit : option float64)
    (start : option Z) (duration : Z) (err : Z → sub_error)
    (violations : list subscriptionLimitViolation) : list subscriptionLimitViolation :=
  match limit with
  | Some l =>
      if negb enabled || (usage <. l) then violations else
      let '(resetAt, active) := activeSubscriptionQuotaWindow start duration now in
      if active then (violations ++ [mkViolation err resetAt])%list else violations
  | None => violations
  end.

Definition daily_window (sn : subscriptionUsageSnapshot) (now : Z) : Z * bool :=
  if sn_OneTimeDailyQuota sn && bool_decide (is_Some (sn_DailyWindowStart sn))
  then (sn_ExpiresAt sn, now .Before sn_ExpiresAt sn)
  else activeSubscriptionQuotaWindow
         (normalizedSubscriptionWindowStart (sn_DailyWindowStart sn) (sn_StartsAt sn))
         subscriptionDayDuration now.

(** The violations in the order they are appended. *)
Definition violations_at (g : Group) (sn : subscriptionUsageSnapshot) (now : Z)
    : list subscriptionLimitViolation :=
  let '(dailyResetAt, dailyActive) := daily_window sn now in
  let v :=
    match gr_DailyLimitUSD g with
    | Some l =>
        if HasDailyLimit g && (l <=. sn_DailyUsage sn) && dailyActive
        then [mkViolation ErrDailyLimitExceeded dailyResetAt] else []
    | None => []
    end in
  let v := appendViolation now (HasWeeklyLimit g) (sn_WeeklyUsage sn) (gr_WeeklyLimitUSD g)
             (normalizedSubscriptionWindowStart (sn_WeeklyWindowStart sn) (sn_StartsAt sn))
             (7 * subscriptionDayDuration) ErrWeeklyLimitExceeded v in
  let v := appendViolation now (HasMonthlyLimit g) (sn_MonthlyUsage sn) (gr_MonthlyLimitUSD g)
             (normalizedSubscriptionWindowStart (sn_MonthlyWindowStart sn) (sn_StartsAt sn))
             (30 * subscriptionDayDuration) ErrMonthlyLimitExceeded v in
  appendViolation now (HasFiveHourLimit g) (sn_FiveHourUsage sn) (gr_FiveHourLimitUSD g)
    (sn_FiveHourWindowStart sn) subscriptionFiveHourDuration ErrFiveHourLimitExceeded v.

(** The loop over [violations[1:]]. *)
Definition latest_violation (first : subscriptionLimitViolation)
    (rest : list subscriptionLimitViolation) : subscriptionLimitViolation :=
  foldl (λ selected v, if vi_resetAt v .After vi_resetAt selected then v else selected) first rest.

Definition subscriptionUsageLimitError (group : option Group) (sn : subscriptionUsageSnapshot)
    (now : Z) : option sub_error :=
  match group with
  | None => None
  | Some g =>
      match violations_at g sn now with
      | [] => None
      | first :: rest =>
          let selected := latest_violation first rest in
          match rest with
          | [] => Some (vi_err selected (vi_resetAt selected))
          | _ => Some (ErrGroupSubscriptionLimitExceeded (vi_resetAt selected))
          end
      end
  end.

Definition subscriptionUsageSnapshotFromSubscription (s : UserSubscription)
    : subscriptionUsageSnapshot :=
  mkSnapshot (us_DailyUsageUSD s) (us_WeeklyUsageUSD s) (us_MonthlyUsageUSD s)
    (us_FiveHourUsageUSD s) (us_DailyWindowStart s) (us_WeeklyWindowStart s)
    (us_MonthlyWindowStart s) (us_FiveHourWindowStart s) (us_StartsAt s) (us_ExpiresAt s)
    (HasOneTimeDailyQuota s).

Definition add_cost (cost : float64) (sn : subscriptionUsageSnapshot) : subscriptionUsageSnapshot :=
  mkSnapshot (fadd (sn_DailyUsage sn) cost) (fadd (sn_WeeklyUsage sn) cost)
    (fadd (sn_MonthlyUsage sn) cost) (fadd (sn_FiveHourUsage sn) cost) (sn_DailyWindowStart sn)
    (sn_WeeklyWindowStart sn) (sn_MonthlyWindowStart sn) (sn_FiveHourWindowStart sn)
    (sn_StartsAt sn) (sn_ExpiresAt sn) (sn_OneTimeDailyQuota sn).

Definition CheckUsageLimits (s : UserSubscription) (group : option Group) (additionalCost : float64)
    (now : Z) : option sub_error :=
  let sn := subscriptionUsageSnapshotFromSubscription s in
  let sn := if fzero <. additionalCost then add_cost additionalCost sn else sn in
  subscriptionUsageLimitError group sn now.

(** Usages of windows that have passed are zeroed in the caller's copy. *)
Definition with_usage (d w m f : float64) (s : UserSubscription) : UserSubscription :=
  mkSubscription (us_ID s) (us_UserID s) (us_GroupID s) (us_StartsAt s) (us_ExpiresAt s)
    (us_Status s) (us_DailyWindowStart s) (us_WeeklyWindowStart s) (us_MonthlyWindowStart s)
    (us_FiveHourWindowStart s) d w m f (us_AssignedBy s) (us_AssignedAt s) (us_Notes s)
    (us_CreatedAt s) (us_UpdatedAt s) (us_DeletedAt s).

(** Returns [needsMaintenance], the error and the caller's copy. *)
Definition ValidateAndCheckLimits (s : UserSubscription) (group : option Group) (now : Z)
    : bool * option sub_error * UserSubscription :=
  if String.eqb (us_Status s) SubscriptionStatusExpired then (false, Some ErrSubscriptionExpired, s)
  else if String.eqb (us_Status s) SubscriptionStatusSuspended
  then (false, Some ErrSubscriptionSuspended, s)
  else if negb (us_ExpiresAt s .After now) then (false, Some ErrSubscriptionExpired, s)
  else
    let daily := canAutomaticallyResetDailyAt s now in
    let weekly := canAutomaticallyResetWeeklyAt s now in
    let monthly := canAutomaticallyResetMonthlyAt s now in
    let zero_if (b : bool) (usage : float64) := if b then fzero else usage in
    let s := with_usage (zero_if daily (us_DailyUsageUSD s)) (zero_if weekly (us_WeeklyUsageUSD s))
               (zero_if monthly (us_MonthlyUsageUSD s))
               (zero_if (NeedsFiveHourResetAt s now) (us_FiveHourUsageUSD s)) s in
    let needsMaintenance := daily || weekly || monthly || negb (IsWindowActivated s) in
    (needsMaintenance,
     subscriptionUsageLimitError group (subscriptionUsageSnapshotFromSubscription s) now, s).
End Limits.

(** ** The table and the repository *)

Record SubTable := mkSubTable {
  tb_subs : gmap Z UserSubscription;
  tb_next : Z;
  tb_groups : gmap Z Group
}.

Definition outcome (A : Type) : Type := sub_error + A.

Section Repository.

Definition live (s : UserSubscription) : bool := bool_decide (us_DeletedAt s = None).

(** Queries: the soft-delete interceptor adds [deleted_at IS NULL]. *)
Definition GetByID (id : Z) (t : SubTable) : option UserSubscription :=
  s ← tb_subs t !! id; if live s then Some s else None.

Definition GetByIDIncludeDeleted (id : Z) (t : SubTable) : option UserSubscription := tb_subs t !! id.

Definition owned_by (userID groupID : Z) (s : UserSubscription) : bool :=
  live s && (us_UserID s =? userID) && (us_GroupID s =? groupID).

Definition matching (p : UserSubscription → bool) (t : SubTable) : list UserSubscription :=
  (map_to_list (filter (λ x, p x.2 = true) (tb_subs t))).*2.

(** [Only]: an error unless there is exactly one row. *)
Definition GetByUserIDAndGroupID (userID groupID : Z) (t : SubTable) : option UserSubscription :=
  match matching (owned_by userID groupID) t with [s] => Some s | _ => None end.

Definition GetActiveByUserIDAndGroupID (userID groupID now : Z) (t : SubTable)
    : option UserSubscription :=
  match matching (λ s, owned_by userID groupID s
                       && String.eqb (us_Status s) SubscriptionStatusActive
                       && (us_ExpiresAt s .After now)) t with
  | [s] => Some s
  | _ => None
  end.

Definition ExistsByUserIDAndGroupID (userID groupID : Z) (t : SubTable) : bool :=
  match matching (owned_by userID groupID) t with [] => false | _ => true end.

Definition group_of (id : Z) (t : SubTable) : option Group := tb_groups t !! id.

(** [UPDATE ... WHERE id = $1 AND cond]: the rows changed, deleted ones included;
    every update stamps [updated_at]. *)
Definition touch (now : Z) (s : UserSubscription) : UserSubscription :=
  mkSubscription (us_ID s) (us_UserID s) (us_GroupID s) (us_StartsAt s) (us_ExpiresAt s)
    (us_Status s) (us_DailyWindowStart s) (us_WeeklyWindowStart s) (us_MonthlyWindowStart s)
    (us_FiveHourWindowStart s) (us_DailyUsageUSD s) (us_WeeklyUsageUSD s) (us_MonthlyUsageUSD s)
    (us_FiveHourUsageUSD s) (us_AssignedBy s) (us_AssignedAt s) (us_Notes s) (us_CreatedAt s) now
    (us_DeletedAt s).

Definition update_where (id now : Z) (cond : UserSubscription → bool)
    (set : UserSubscription → UserSubscription) (t : SubTable) : bool * SubTable :=
  match tb_subs t !! id with
  | Some s =>
      if cond s
      then (true, mkSubTable (<[id := touch now (set s)]> (tb_subs t)) (tb_next t) (tb_groups t))
      else (false, t)
  | None => (false, t)
  end.

(** [UpdateOneID]: no row is an error. *)
Definition update_one (id now : Z) (set : UserSubscription → UserSubscription) (t : SubTable)
    : outcome SubTable :=
  match update_where id now (λ _, true) set t with
  | (true, t) => inr t
  | (false, _) => inl ErrSubscriptionNotFound
  end.

Definition set_term (startsAt expiresAt : Z) (status notes : string) (s : UserSubscription)
    : UserSubscription :=
  mkSubscription (us_ID s) (us_UserID s) (us_GroupID s) startsAt expiresAt status
    (us_DailyWindowStart s) (us_WeeklyWindowStart s) (us_MonthlyWindowStart s)
    (us_FiveHourWindowStart s) (us_DailyUsageUSD s) (us_WeeklyUsageUSD s) (us_MonthlyUsageUSD s)
    (us_FiveHourUsageUSD s) (us_AssignedBy s) (us_AssignedAt s) notes (us_CreatedAt s)
    (us_UpdatedAt s) (us_DeletedAt s).

Definition set_windows (d w m f : option Z) (s : UserSubscription) : UserSubscription :=
  mkSubscription (us_ID s) (us_UserID s) (us_GroupID s) (us_StartsAt s) (us_ExpiresAt s)
    (us_Status s) d w m f (us_DailyUsageUSD s) (us_WeeklyUsageUSD s) (us_MonthlyUsageUSD s)
    (us_FiveHourUsageUSD s) (us_AssignedBy s) (us_AssignedAt s) (us_Notes s) (us_CreatedAt s)
    (us_UpdatedAt s) (us_DeletedAt s).

Definition set_deleted (d : option Z) (s : UserSubscription) : UserSubscription :=
  mkSubscription (us_ID s) (us_UserID s) (us_GroupID s) (us_StartsAt s) (us_ExpiresAt s)
    (us_Status s) (us_DailyWindowStart s) (us_WeeklyWindowStart s) (us_MonthlyWindowStart s)
    (us_FiveHourWindowStart s) (us_DailyUsageUSD s) (us_WeeklyUsageUSD s) (us_MonthlyUsageUSD s)
    (us_FiveHourUsageUSD s) (us_AssignedBy s) (us_AssignedAt s) (us_Notes s) (us_CreatedAt s)
    (us_UpdatedAt s) d.

Definition ExtendExpiry (id newExpiresAt now : Z) (t : SubTable) : outcome SubTable :=
  update_one id now (λ s, set_term (us_StartsAt s) newExpiresAt (us_Status s) (us_Notes s) s) t.

Definition UpdateStatus (id : Z) (status : string) (now : Z) (t : SubTable) : outcome SubTable :=
  update_one id now (λ s, set_term (us_StartsAt s) (us_ExpiresAt s) status (us_Notes s) s) t.

Definition UpdateNotes (id : Z) (notes : string) (now : Z) (t : SubTable) : outcome SubTable :=
  update_one id now (λ s, set_term (us_StartsAt s) (us_ExpiresAt s) (us_Status s) notes s) t.

(** [SetNillable...] leaves a column alone when it is given nil; [created_at] is
    immutable and [deleted_at] is not set. *)
Definition Update (sub : UserSubscription) (now : Z) (t : SubTable) : outcome SubTable :=
  let keep {A} (new old : option A) := match new with Some _ => new | None => old end in
  update_one (us_ID sub) now (λ s,
    mkSubscription (us_ID s) (us_UserID sub) (us_GroupID sub) (us_StartsAt sub) (us_ExpiresAt sub)
      (us_Status sub) (keep (us_DailyWindowStart sub) (us_DailyWindowStart s))
      (keep (us_WeeklyWindowStart sub) (us_WeeklyWindowStart s))
      (keep (us_MonthlyWindowStart sub) (us_MonthlyWindowStart s))
      (keep (us_FiveHourWindowStart sub) (us_FiveHourWindowStart s)) (us_DailyUsageUSD sub)
      (us_WeeklyUsageUSD sub) (us_MonthlyUsageUSD sub) (us_FiveHourUsageUSD sub)
      (keep (us_AssignedBy sub) (us_AssignedBy s)) (us_AssignedAt sub) (us_Notes sub)
      (us_CreatedAt s) (us_UpdatedAt s) (us_DeletedAt s)) t.

(** The partial unique index refuses a second live row of a user and a group. *)
Definition Create (sub : UserSubscription) (now : Z) (t : SubTable)
    : outcome (UserSubscription * SubTable) :=
  if ExistsByUserIDAndGroupID (us_UserID sub) (us_GroupID sub) t
  then inl ErrSubscriptionAlreadyExists
  else
    let row := mkSubscription (tb_next t) (us_UserID sub) (us_GroupID sub)
      (if time_is_zero (us_StartsAt sub) then now else us_StartsAt sub) (us_ExpiresAt sub)
      (if String.eqb (us_Status sub) "" then SubscriptionStatusActive else us_Status sub)
      (us_DailyWindowStart sub) (us_WeeklyWindowStart sub) (us_MonthlyWindowStart sub)
      (us_FiveHourWindowStart sub) (us_DailyUsageUSD sub) (us_WeeklyUsageUSD sub)
      (us_MonthlyUsageUSD sub) (us_FiveHourUsageUSD sub) (us_AssignedBy sub)
      (if time_is_zero (us_AssignedAt sub) then now else us_AssignedAt sub) (us_Notes sub) now now
      None in
    inr (row, mkSubTable (<[tb_next t := row]> (tb_subs t)) (tb_next t + 1) (tb_groups t)).

(** A missing or deleted row is left alone, without an error. *)
Definition Delete (id now : Z) (t : SubTable) : SubTable :=
  (update_where id now live (set_deleted (Some now)) t).2.

Definition Restore (id : Z) (status : string) (now : Z) (t : SubTable) : outcome SubTable :=
  match tb_subs t !! id with
  | None => inl ErrSubscriptionNotFound
  | Some s =>
      if negb (live s) && ExistsByUserIDAndGroupID (us_UserID s) (us_GroupID s) t
      then inl ErrSubscriptionRestoreConflict
      else update_one id now (λ s, set_deleted None
             (set_term (us_StartsAt s) (us_ExpiresAt s) status (us_Notes s) s)) t
  end.

(** A conditional statement that changed nothing: an error only when no live row
    has the id. *)
Definition translateConditionalWindowReset (id : Z) (r : bool * SubTable) : outcome SubTable :=
  let '(affected, t) := r in
  if affected then inr t
  else if bool_decide (is_Some (GetByID id t)) then inr t else inl ErrSubscriptionNotFound.

Definition ActivateWindows (id dailyStart periodicStart now : Z) (t : SubTable) : outcome SubTable :=
  translateConditionalWindowReset id
    (update_where id now (λ s, negb (IsWindowActivated s))
       (λ s, set_windows (Some dailyStart) (Some periodicStart) (Some periodicStart)
               (us_FiveHourWindowStart s) s) t).

Definition ResetDailyUsage (id : Z) (expected : option Z) (start now : Z) (t : SubTable)
    : outcome SubTable :=
  translateConditionalWindowReset id
    (update_where id now (λ s, bool_decide (us_DailyWindowStart s = expected))
       (λ s, set_windows (Some start) (us_WeeklyWindowStart s) (us_MonthlyWindowStart s)
               (us_FiveHourWindowStart s)
               (with_usage fzero (us_WeeklyUsageUSD s) (us_MonthlyUsageUSD s)
                  (us_FiveHourUsageUSD s) s)) t).

Definition ResetWeeklyUsage (id : Z) (expected : option Z) (start now : Z) (t : SubTable)
    : outcome SubTable :=
  translateConditionalWindowReset id
    (update_where id now (λ s, bool_decide (us_WeeklyWindowStart s = expected))
       (λ s, set_windows (us_DailyWindowStart s) (Some start) (us_MonthlyWindowStart s)
               (us_FiveHourWindowStart s)
               (with_usage (us_DailyUsageUSD s) fzero (us_MonthlyUsageUSD s)
                  (us_FiveHourUsageUSD s) s)) t).

Definition ResetMonthlyUsage (id : Z) (expected : option Z) (start now : Z) (t : SubTable)
    : outcome SubTable :=
  translateConditionalWindowReset id
    (update_where id now (λ s, bool_decide (us_MonthlyWindowStart s = expected))
       (λ s, set_windows (us_DailyWindowStart s) (us_WeeklyWindowStart s) (Some start)
               (us_FiveHourWindowStart s)
               (with_usage (us_DailyUsageUSD s) (us_WeeklyUsageUSD s) fzero
                  (us_FiveHourUsageUSD s) s)) t).

Definition ResetUsageWindowsAtomically (id : Z) (daily weekly monthly fiveHour : bool)
    (dailyStart periodicStart now : Z) (t : SubTable) : outcome SubTable :=
  let start (b : bool) (at_ : Z) (old : option Z) := if b then Some at_ else old in
  let usage (b : bool) (old : float64) := if b then fzero else old in
  update_one id now (λ s,
    set_windows (start daily dailyStart (us_DailyWindowStart s))
      (start weekly periodicStart (us_WeeklyWindowStart s))
      (start monthly periodicStart (us_MonthlyWindowStart s))
      (start fiveHour periodicStart (us_FiveHourWindowStart s))
      (with_usage (usage daily (us_DailyUsageUSD s)) (usage weekly (us_WeeklyUsageUSD s))
         (usage monthly (us_MonthlyUsageUSD s)) (usage fiveHour (us_FiveHourUsageUSD s)) s)) t.

Definition BatchUpdateExpiredStatus (now : Z) (t : SubTable) : SubTable :=
  mkSubTable
    ((λ s, if String.eqb (us_Status s) SubscriptionStatusActive && (us_ExpiresAt s <=? now)
           then touch now
                  (set_term (us_StartsAt s) (us_ExpiresAt s) SubscriptionStatusExpired (us_Notes s) s)
           else s) <$> tb_subs t)
    (tb_next t) (tb_groups t).
End Repository.

(** ** The service *)

#[export] Instance outcome_bind : MBind outcome :=
  λ A B f m, match m with inl e => inl e | inr x => f x end.

Record AssignSubscriptionInput := mkAssign {
  in_UserID : Z;
  in_GroupID : Z;
  in_ValidityDays : Z;
  in_AssignedBy : Z;
  in_Notes : string
}.

Definition normalizeAssignValidityDays (days : Z) : Z :=
  let days := if days <=? 0 then 30 else days in
  if MaxValidityDays <? days then MaxValidityDays else days.

Definition newline : string := String (byte 10) EmptyString.

Definition appendSubscriptionNotes (existingNotes newNotes : string) : string :=
  if String.eqb newNotes "" then existingNotes
  else if String.eqb existingNotes "" then newNotes
  else existingNotes +:+ newline +:+ newNotes.

Section Service.
Context `{Location}.

Definition capped (expiresAt : Z) : Z :=
  if expiresAt .After MaxExpiresAt then MaxExpiresAt else expiresAt.

Definition renewedSubscriptionTerm (s : UserSubscription) (notes : string) (startsAt expiresAt : Z)
    : UserSubscription :=
  set_windows (Some (StartOfDay startsAt)) (Some startsAt) (Some startsAt) (us_FiveHourWindowStart s)
    (with_usage fzero fzero fzero (us_FiveHourUsageUSD s)
       (set_term startsAt expiresAt SubscriptionStatusActive
          (appendSubscriptionNotes (us_Notes s) notes) s)).

(** The transaction of a renewal: the row is locked and read, then changed. *)
Definition updateExistingSubscriptionTerm (id validityDays : Z) (notes : string)
    (assignmentSemantics : bool) (now : Z) (t : SubTable) : outcome SubTable :=
  match GetByID id t with
  | None => inl ErrSubscriptionNotFound
  | Some s =>
      if assignmentSemantics && String.eqb (us_Status s) SubscriptionStatusSuspended then inr t else
      let isExpired :=
        if assignmentSemantics
        then String.eqb (us_Status s) SubscriptionStatusExpired
             || (negb (String.eqb (us_Status s) SubscriptionStatusSuspended)
                 && negb (us_ExpiresAt s .After now))
        else negb (us_ExpiresAt s .After now) in
      let newExpiresAt :=
        capped (AddDays (if isExpired then now else us_ExpiresAt s) validityDays) in
      let notes :=
        if assignmentSemantics && String.eqb (TrimSpace (us_Notes s)) (TrimSpace notes)
        then ""%string else notes in
      if isExpired then Update (renewedSubscriptionTerm s notes now newExpiresAt) now t
      else
        t ← ExtendExpiry (us_ID s) newExpiresAt now t;
        t ← (if negb (String.eqb (us_Status s) SubscriptionStatusActive)
              then UpdateStatus (us_ID s) SubscriptionStatusActive now t else inr t);
        if negb (String.eqb notes "")
        then UpdateNotes (us_ID s) (appendSubscriptionNotes (us_Notes s) notes) now t
        else inr t
  end.

Definition createSubscription (input : AssignSubscriptionInput) (now : Z) (t : SubTable)
    : outcome (UserSubscription * SubTable) :=
  let validityDays := if in_ValidityDays input <=? 0 then 30 else in_ValidityDays input in
  let validityDays := if MaxValidityDays <? validityDays then MaxValidityDays else validityDays in
  let expiresAt := capped (AddDays now validityDays) in
  Create (mkSubscription 0 (in_UserID input) (in_GroupID input) now expiresAt
            SubscriptionStatusActive None None None None fzero fzero fzero fzero
            (if 0 <? in_AssignedBy input then Some (in_AssignedBy input) else None) now
            (in_Notes input) now now None) now t.

(** The flag says whether an existing subscription was extended.  Any failure to
    read an existing subscription counts as there being none. *)
Definition assignOrExtendSubscription (input : AssignSubscriptionInput) (now : Z) (t : SubTable)
    : outcome (UserSubscription * bool * SubTable) :=
  match group_of (in_GroupID input) t with
  | None => inl ErrGroupNotFound
  | Some g =>
      if negb (IsSubscriptionType g) then inl ErrGroupNotSubscriptionType else
      let validityDays := if in_ValidityDays input <=? 0 then 30 else in_ValidityDays input in
      let validityDays := if MaxValidityDays <? validityDays then MaxValidityDays else validityDays in
      match GetByUserIDAndGroupID (in_UserID input) (in_GroupID input) t with
      | Some existing =>
          t ← updateExistingSubscriptionTerm (us_ID existing) validityDays (in_Notes input) false now t;
          match GetByID (us_ID existing) t with
          | Some s => inr (s, true, t)
          | None => inl ErrSubscriptionNotFound
          end
      | None =>
          r ← createSubscription input now t;
          inr (r.1, false, r.2)
      end
  end.

Definition detectAssignSemanticConflict (existing : UserSubscription)
    (input : AssignSubscriptionInput) : option string :=
  let normalizedDays := normalizeAssignValidityDays (in_ValidityDays input) in
  let expected := capped (AddDays (us_StartsAt existing) normalizedDays) in
  if negb (time_is_zero (us_StartsAt existing)) && negb (us_ExpiresAt existing =? expected)
  then Some "validity_days_mismatch"%string
  else if negb (String.eqb (TrimSpace (us_Notes existing)) (TrimSpace (in_Notes input)))
  then Some "notes_mismatch"%string
  else None.

Definition assignSubscriptionWithReuse (input : AssignSubscriptionInput) (now : Z) (t : SubTable)
    : outcome (UserSubscription * bool * SubTable) :=
  match group_of (in_GroupID input) t with
  | None => inl ErrGroupNotFound
  | Some g =>
      if negb (IsSubscriptionType g) then inl ErrGroupNotSubscriptionType else
      if ExistsByUserIDAndGroupID (in_UserID input) (in_GroupID input) t then
        match GetByUserIDAndGroupID (in_UserID input) (in_GroupID input) t with
        | None => inl ErrSubscriptionNotFound
        | Some s =>
            if String.eqb (us_Status s) SubscriptionStatusExpired
               || (negb (String.eqb (us_Status s) SubscriptionStatusSuspended)
                   && negb (us_ExpiresAt s .After now))
            then
              t ← updateExistingSubscriptionTerm (us_ID s)
                     (normalizeAssignValidityDays (in_ValidityDays input)) (in_Notes input) true now t;
              match GetByID (us_ID s) t with
              | Some renewed => inr (renewed, true, t)
              | None => inl ErrSubscriptionNotFound
              end
            else
              match detectAssignSemanticConflict s input with
              | Some reason => inl (ErrSubscriptionAssignConflict reason)
              | None => inr (s, true, t)
              end
        end
      else
        r ← createSubscription input now t;
        inr (r.1, false, r.2)
  end.

Definition ExtendSubscription (id days now : Z) (t : SubTable) : outcome SubTable :=
  match GetByID id t with
  | None => inl ErrSubscriptionNotFound
  | Some s =>
      let days := if MaxValidityDays <? days then MaxValidityDays else days in
      let days := if days <? - MaxValidityDays then - MaxValidityDays else days in
      let isExpired := negb (us_ExpiresAt s .After now) in
      if isExpired && (days <? 0) then inl ErrCannotShortenExpired else
      let newExpiresAt := capped (AddDays (if isExpired then now else us_ExpiresAt s) days) in
      if negb (newExpiresAt .After now) then inl ErrAdjustWouldExpire else
      t ← ExtendExpiry id newExpiresAt now t;
      if String.eqb (us_Status s) SubscriptionStatusExpired
      then UpdateStatus id SubscriptionStatusActive now t else inr t
  end.

Definition RevokeSubscription (id now : Z) (t : SubTable) : outcome SubTable :=
  match GetByID id t with
  | None => inl ErrSubscriptionNotFound
  | Some _ => inr (Delete id now t)
  end.

Definition RestoreSubscription (id now : Z) (t : SubTable) : outcome SubTable :=
  match GetByIDIncludeDeleted id t with
  | None => inl ErrSubscriptionNotFound
  | Some s =>
      if live s then inl ErrSubscriptionNotRevoked
      else if ExistsByUserIDAndGroupID (us_UserID s) (us_GroupID s) t
      then inl ErrSubscriptionRestoreConflict
      else
        let status :=
          if String.eqb (us_Status s) SubscriptionStatusActive && negb (us_ExpiresAt s .After now)
          then SubscriptionStatusExpired else us_Status s in
        Restore id status now t
  end.

Definition CheckAndActivateWindow (s : UserSubscription) (now : Z) (t : SubTable) : outcome SubTable :=
  if IsWindowActivated s then inr t else ActivateWindows (us_ID s) (StartOfDay now) now now t.

Definition AdminResetQuota (id : Z) (resetDaily resetWeekly resetMonthly resetFiveHour : bool)
    (now : Z) (t : SubTable) : outcome (UserSubscription * SubTable) :=
  if negb resetDaily && negb resetWeekly && negb resetMonthly && negb resetFiveHour
  then inl ErrInvalidInput else
  match GetByID id t with
  | None => inl ErrSubscriptionNotFound
  | Some s =>
      t ← ResetUsageWindowsAtomically (us_ID s) resetDaily resetWeekly resetMonthly resetFiveHour
            (StartOfDay now) now now t;
      match GetByID id t with Some s => inr (s, t) | None => inl ErrSubscriptionNotFound end
  end.

(** The caller's copy, the table, and the error the call ended with. *)
Definition maintained : Type := option sub_error * UserSubscription * SubTable.

(** One of the three blocks of [CheckAndResetWindows]: when the caller's copy says
    the window has passed, a conditional reset of the row, and the copy follows. *)
Definition reset_window (next : UserSubscription → option Z)
    (reset : UserSubscription → Z → SubTable → outcome SubTable)
    (follow : Z → UserSubscription → UserSubscription) (r : maintained) : maintained :=
  let '(e, s, t) := r in
  match e, next s with
  | None, Some start =>
      match reset s start t with
      | inl e => (Some e, s, t)
      | inr t => (None, follow start s, t)
      end
  | _, _ => r
  end.

Definition reset_daily (now : Z) : maintained → maintained :=
  reset_window (λ s, automaticDailyWindowStartAt s now)
    (λ s start, ResetDailyUsage (us_ID s) (us_DailyWindowStart s) start now)
    (λ start s, set_windows (Some start) (us_WeeklyWindowStart s) (us_MonthlyWindowStart s)
                  (us_FiveHourWindowStart s)
                  (with_usage fzero (us_WeeklyUsageUSD s) (us_MonthlyUsageUSD s)
                     (us_FiveHourUsageUSD s) s)).

Definition reset_weekly (now : Z) : maintained → maintained :=
  reset_window (λ s, automaticWindowStartAt s (us_WeeklyWindowStart s) Week now)
    (λ s start, ResetWeeklyUsage (us_ID s) (us_WeeklyWindowStart s) start now)
    (λ start s, set_windows (us_DailyWindowStart s) (Some start) (us_MonthlyWindowStart s)
                  (us_FiveHourWindowStart s)
                  (with_usage (us_DailyUsageUSD s) fzero (us_MonthlyUsageUSD s)
                     (us_FiveHourUsageUSD s) s)).

Definition reset_monthly (now : Z) : maintained → maintained :=
  reset_window (λ s, automaticWindowStartAt s (us_MonthlyWindowStart s) Month now)
    (λ s start, ResetMonthlyUsage (us_ID s) (us_MonthlyWindowStart s) start now)
    (λ start s, set_windows (us_DailyWindowStart s) (us_WeeklyWindowStart s) (Some start)
                  (us_FiveHourWindowStart s)
                  (with_usage (us_DailyUsageUSD s) (us_WeeklyUsageUSD s) fzero
                     (us_FiveHourUsageUSD s) s)).

(** Takes the caller's copy, which may be stale, and returns it updated. *)
Definition CheckAndResetWindows (s : UserSubscription) (now : Z) (t : SubTable) : maintained :=
  reset_monthly now (reset_weekly now (reset_daily now (None, s, t))).

Definition EnsureWindowMaintenance (s : UserSubscription) (now : Z) (t : SubTable)
    : outcome UserSubscription * SubTable :=
  match (if negb (IsWindowActivated s) then CheckAndActivateWindow s now t else inr t) with
  | inl e => (inl e, t)
  | inr t =>
      let '(e, _, t) := CheckAndResetWindows s now t in
      match e with
      | Some e => (inl e, t)
      | None =>
          match GetByID (us_ID s) t with
          | Some refreshed => (inr refreshed, t)
          | None => (inl ErrSubscriptionNotFound, t)
          end
      end
  end.

(** Display only: what passed is shown as unused. *)
Definition normalizeExpiredWindowsAt (now : Z) (s : UserSubscription) : UserSubscription :=
  let s := if canAutomaticallyResetDailyAt s now
           then set_windows None (us_WeeklyWindowStart s) (us_MonthlyWindowStart s)
                  (us_FiveHourWindowStart s)
                  (with_usage fzero (us_WeeklyUsageUSD s) (us_MonthlyUsageUSD s)
                     (us_FiveHourUsageUSD s) s) else s in
  let s := if canAutomaticallyResetWeeklyAt s now
           then set_windows (us_DailyWindowStart s) None (us_MonthlyWindowStart s)
                  (us_FiveHourWindowStart s)
                  (with_usage (us_DailyUsageUSD s) fzero (us_MonthlyUsageUSD s)
                     (us_FiveHourUsageUSD s) s) else s in
  let s := if canAutomaticallyResetMonthlyAt s now
           then set_windows (us_DailyWindowStart s) (us_WeeklyWindowStart s) None
                  (us_FiveHourWindowStart s)
                  (with_usage (us_DailyUsageUSD s) (us_WeeklyUsageUSD s) fzero
                     (us_FiveHourUsageUSD s) s) else s in
  if NeedsFiveHourResetAt s now
  then set_windows (us_DailyWindowStart s) (us_WeeklyWindowStart s) (us_MonthlyWindowStart s) None
         (with_usage (us_DailyUsageUSD s) (us_WeeklyUsageUSD s) (us_MonthlyUsageUSD s) fzero s)
  else s.

Definition normalizeSubscriptionStatus (now : Z) (s : UserSubscription) : UserSubscription :=
  if String.eqb (us_Status s) SubscriptionStatusActive && negb (us_ExpiresAt s .After now)
  then set_term (us_StartsAt s) (us_ExpiresAt s) SubscriptionStatusExpired (us_Notes s) s else s.
End Service.
