(* ===== verification/SubscriptionCorrect.v ===== *)
(** * Subscriptions: theorems

    Limits: when a request is refused, and until when.  Windows: which starts the
    automatic advance can reach, and how often.  Maintenance: a conditional reset
    changes exactly the windows the caller saw.  Terms: what an assignment and an
    adjustment do to the expiry. *)

From Stdlib Require Import ZArith Lia String SpecFloat Sorted.
From stdpp Require Import base tactics numbers list gmap strings.
From S2P Require Import Prelude GoStrings GoFloat GoTime Subscription.

Open Scope go_scope.

(** ** Limits *)

Section LimitFacts.
Context `{L : Location}.

Definition window_reset (start : option Z) (duration : Z) : option Z :=
  start ← start; Some (time_add start duration).

(** The windows of a snapshot that are exhausted, whatever the time. *)
Definition exhausted (g : Group) (sn : subscriptionUsageSnapshot) : list subscriptionLimitViolation :=
  let reached (limit : option float64) (usage : float64) :=
    match limit with Some l => (fzero <. l) && negb (usage <. l) | None => false end in
  let entry (b : bool) (reset : option Z) (err : Z → sub_error) :=
    match reset with Some r => if b then [mkViolation err r] else [] | None => [] end in
  let normal (start : option Z) := normalizedSubscriptionWindowStart start (sn_StartsAt sn) in
  (entry (match gr_DailyLimitUSD g with
          | Some l => (fzero <. l) && (l <=. sn_DailyUsage sn) | None => false end)
     (if sn_OneTimeDailyQuota sn && bool_decide (is_Some (sn_DailyWindowStart sn))
      then Some (sn_ExpiresAt sn)
      else window_reset (normal (sn_DailyWindowStart sn)) subscriptionDayDuration)
     ErrDailyLimitExceeded
   ++ entry (reached (gr_WeeklyLimitUSD g) (sn_WeeklyUsage sn))
        (window_reset (normal (sn_WeeklyWindowStart sn)) (7 * subscriptionDayDuration))
        ErrWeeklyLimitExceeded
   ++ entry (reached (gr_MonthlyLimitUSD g) (sn_MonthlyUsage sn))
        (window_reset (normal (sn_MonthlyWindowStart sn)) (30 * subscriptionDayDuration))
        ErrMonthlyLimitExceeded
   ++ entry (reached (gr_FiveHourLimitUSD g) (sn_FiveHourUsage sn))
        (window_reset (sn_FiveHourWindowStart sn) subscriptionFiveHourDuration)
        ErrFiveHourLimitExceeded)%list.

Definition pending (now : Z) (v : subscriptionLimitViolation) : Prop := now < vi_resetAt v.

#[local] Instance pending_dec now v : Decision (pending now v).
Proof. unfold pending. apply _. Defined.

Lemma appendViolation_spec now enabled usage limit start duration err v :
  enabled = positive_limit limit →
  appendViolation now enabled usage limit start duration err v
  = (v ++ filter (pending now)
       match window_reset start duration with
       | Some r =>
           if match limit with Some l => (fzero <. l) && negb (usage <. l) | None => false end
           then [mkViolation err r] else []
       | None => []
       end)%list.
Proof.
  intros ->. unfold appendViolation, positive_limit, window_reset, activeSubscriptionQuotaWindow.
  destruct limit as [l|]; [|destruct start; simpl; by rewrite app_nil_r].
  destruct (fzero <. l), (usage <. l), start as [s|]; simpl; rewrite ?app_nil_r; try done.
  unfold time_before. rewrite filter_cons. unfold pending. simpl.
  case_decide; destruct (now <? time_add s duration) eqn:E; bool_to_prop; simpl; try lia;
    by rewrite ?app_nil_r.
Qed.

Lemma violations_at_pending g sn now : violations_at g sn now = filter (pending now) (exhausted g sn).
Proof.
  unfold violations_at, exhausted, daily_window.
  set (daily := (if _ && _ then (sn_ExpiresAt sn, _) else _)).
  destruct daily as [r active] eqn:Hd. rewrite !appendViolation_spec by done.
  rewrite !filter_app, !app_assoc. do 3 f_equal. subst daily.
  destruct (gr_DailyLimitUSD g) as [l|] eqn:Hl; [|by repeat case_match].
  unfold HasDailyLimit. rewrite Hl. simpl. destruct (fzero <. l), (l <=. sn_DailyUsage sn); simpl;
    [|by repeat case_match..].
  destruct (sn_OneTimeDailyQuota sn && _).
  - simplify_eq. rewrite filter_cons. unfold pending, time_before. simpl.
    case_decide; destruct (now <? sn_ExpiresAt sn) eqn:E; bool_to_prop; (done || lia).
  - unfold window_reset, activeSubscriptionQuotaWindow in *.
    destruct (normalizedSubscriptionWindowStart _ _) as [s|]; simplify_eq/=; [|done].
    rewrite filter_cons. unfold pending, time_before. simpl.
    case_decide; destruct (now <? time_add s subscriptionDayDuration) eqn:E; bool_to_prop;
      (done || lia).
Qed.

(** The loop keeps a latest element. *)
Lemma latest_violation_max v vs :
  latest_violation v vs ∈ v :: vs
  ∧ Forall (λ w, vi_resetAt w ≤ vi_resetAt (latest_violation v vs)) (v :: vs).
Proof.
  revert v. induction vs as [|w vs IH]; intros v; simpl.
  - split; [by left|]. by repeat constructor.
  - set (u := if vi_resetAt w .After vi_resetAt v then w else v).
    change (latest_violation v (w :: vs)) with (latest_violation u vs).
    destruct (IH u) as [Hin Hall]. rewrite Forall_cons in Hall. destruct Hall as [Hu Hall].
    assert ((u = w ∨ u = v) ∧ vi_resetAt v ≤ vi_resetAt u ∧ vi_resetAt w ≤ vi_resetAt u) as Hc.
    { unfold u, time_after. case_match; bool_to_prop; (split; [by auto|lia]). }
    destruct Hc as (Hc & ? & ?). split; [destruct Hc as [Hc|Hc]; rewrite Hc in *; set_solver|].
    repeat constructor; (done || lia).
Qed.

Definition reset_time (e : sub_error) : option Z :=
  match e with
  | ErrDailyLimitExceeded t | ErrWeeklyLimitExceeded t | ErrMonthlyLimitExceeded t
  | ErrFiveHourLimitExceeded t | ErrGroupSubscriptionLimitExceeded t => Some t
  | _ => None
  end.

Lemma exhausted_err g sn v : v ∈ exhausted g sn → reset_time (vi_err v (vi_resetAt v)) = Some (vi_resetAt v).
Proof.
  unfold exhausted. rewrite !elem_of_app.
  intros [Hv|[Hv|[Hv|Hv]]]; repeat case_match; simplify_eq;
    (apply list_elem_of_singleton in Hv as -> || by apply elem_of_nil in Hv); done.
Qed.

Lemma limit_error_latest g sn now :
  match subscriptionUsageLimitError (Some g) sn now with
  | None => Forall (λ v, vi_resetAt v ≤ now) (exhausted g sn)
  | Some e => ∃ v, v ∈ exhausted g sn ∧ reset_time e = Some (vi_resetAt v) ∧ now < vi_resetAt v
                   ∧ Forall (λ w, vi_resetAt w ≤ vi_resetAt v) (exhausted g sn)
  end.
Proof.
  unfold subscriptionUsageLimitError. rewrite violations_at_pending.
  destruct (filter (pending now) (exhausted g sn)) as [|v vs] eqn:Hf.
  - apply Forall_forall. intros v Hv. destruct (decide (pending now v)) as [Hp|Hp]; [|unfold pending in Hp; lia].
    assert (v ∈ filter (pending now) (exhausted g sn)) as Hin by (by apply list_elem_of_filter).
    rewrite Hf in Hin. by apply elem_of_nil in Hin.
  - destruct (latest_violation_max v vs) as [Hin Hmax].
    rewrite <- Hf in Hin, Hmax. apply list_elem_of_filter in Hin as [Hp Hin].
    assert (Forall (λ w, vi_resetAt w ≤ vi_resetAt (latest_violation v vs)) (exhausted g sn)) as Hall.
    { rewrite Forall_forall in Hmax |- *. intros w Hw.
      destruct (decide (pending now w)) as [Hpw|Hpw].
      - apply Hmax. by apply list_elem_of_filter.
      - unfold pending in *. lia. }
    pose proof (exhausted_err g sn _ Hin) as He.
    destruct vs; eexists; (split; [done|split; [done|split; [done|exact Hall]]]).
Qed.

(** On a fixed snapshot the error names the latest reset of its exhausted windows: that
    snapshot is refused before it and admitted from it on. *)
Lemma snapshot_reset g sn now e :
  subscriptionUsageLimitError (Some g) sn now = Some e →
  ∃ v, v ∈ exhausted g sn ∧ let resetAt := vi_resetAt v in
    reset_time e = Some resetAt ∧ now < resetAt ∧ Forall (λ w, vi_resetAt w ≤ resetAt) (exhausted g sn)
    ∧ ∀ later, subscriptionUsageLimitError (Some g) sn later = None ↔ resetAt ≤ later.
Proof.
  intros He. pose proof (limit_error_latest g sn now) as Hl. rewrite He in Hl.
  destruct Hl as (v & Hv & Ht & Hnow & Hall). exists v. split; [done|].
  split; [done|]. split; [done|]. split; [done|]. intros later.
  pose proof (limit_error_latest g sn later) as Hlater.
  destruct (subscriptionUsageLimitError (Some g) sn later) as [e'|].
  - split; [done|]. intros Hle. destruct Hlater as (w & Hw & _ & Hlt & _).
    rewrite Forall_forall in Hall. specialize (Hall w Hw). lia.
  - split; [|done]. intros _. rewrite Forall_forall in Hlater. by apply Hlater.
Qed.

(** *** The check of a subscription *)

(** The snapshot of a row whose daily usage has been cleared, or not. *)
Definition row_snapshot (s : UserSubscription) (cleared : bool) : subscriptionUsageSnapshot :=
  subscriptionUsageSnapshotFromSubscription
    (with_usage (if cleared then fzero else us_DailyUsageUSD s) (us_WeeklyUsageUSD s) (us_MonthlyUsageUSD s)
       (us_FiveHourUsageUSD s) s).

(** A usage of zero exceeds no limit. *)
Lemma zero_within l : (fzero <. l) = true → (l <=. fzero) = false.
Proof. intros Hl. apply not_true_iff_false. intros Hle%fle_not_flt. congruence. Qed.

(** The weekly and the monthly usage are cleared only when their windows have ended. *)
Lemma cleared_after_reset s start period now r :
  is_Some (automaticWindowStartAt s start period now) →
  window_reset (normalizedSubscriptionWindowStart start (us_StartsAt s)) period = Some r → r ≤ now.
Proof.
  unfold automaticWindowStartAt, normalizedSubscriptionWindowStart, windowResetAnchor, time_is_zero, time_before.
  destruct start as [p|]; [|by intros [? ?]]. simpl. intros [x Hx].
  destruct (now <? _) eqn:Hn in Hx; [done|]. clear Hx. apply Z.ltb_ge in Hn. revert Hn.
  destruct (StartOfDay (us_StartsAt s) <? us_StartsAt s) eqn:E1, (p =? StartOfDay (us_StartsAt s)) eqn:E2; simpl;
    bool_to_prop; case_match; simpl; intros; simplify_eq; unfold time_add in *; lia.
Qed.

(** A window that is cleared at [now] has no pending violation, cleared or not. *)
Lemma append_cleared now enabled cleared usage limit start duration err v :
  enabled = positive_limit limit → (∀ r, cleared = true → window_reset start duration = Some r → r ≤ now) →
  appendViolation now enabled (if cleared then fzero else usage) limit start duration err v =
  appendViolation now enabled usage limit start duration err v.
Proof.
  intros He Hr. destruct cleared; [|done]. rewrite !appendViolation_spec by done. f_equal.
  destruct (window_reset start duration) as [r|]; [|done]. specialize (Hr r eq_refl eq_refl).
  assert (filter (pending now) [mkViolation err r] = []) as E.
  { rewrite filter_cons_False; [done|]. unfold pending. simpl. lia. }
  destruct limit as [l|]; [|done]. by repeat case_match.
Qed.

Lemma five_hour_cleared s now r :
  NeedsFiveHourResetAt s now = true → window_reset (us_FiveHourWindowStart s) subscriptionFiveHourDuration = Some r → r ≤ now.
Proof.
  unfold NeedsFiveHourResetAt, window_reset, time_before. destruct (us_FiveHourWindowStart s) as [p|]; [|done]. simpl.
  intros Hn [= <-]. destruct (now <? _) eqn:E; [done|]. by apply Z.ltb_ge.
Qed.

(** Of the usages the check clears only the daily one matters. *)
Lemma violations_cleared s g now daily :
  violations_at g
    (subscriptionUsageSnapshotFromSubscription
       (with_usage daily (if canAutomaticallyResetWeeklyAt s now then fzero else us_WeeklyUsageUSD s)
          (if canAutomaticallyResetMonthlyAt s now then fzero else us_MonthlyUsageUSD s)
          (if NeedsFiveHourResetAt s now then fzero else us_FiveHourUsageUSD s) s)) now =
  violations_at g
    (subscriptionUsageSnapshotFromSubscription
       (with_usage daily (us_WeeklyUsageUSD s) (us_MonthlyUsageUSD s) (us_FiveHourUsageUSD s) s)) now.
Proof.
  unfold violations_at, daily_window. simpl. destruct (if _ && _ then _ else _) as [resetAt active].
  rewrite !append_cleared; try done; intros r Hc;
    first [by apply five_hour_cleared|apply (cleared_after_reset s); by apply bool_decide_eq_true in Hc].
Qed.

Definition admitted (s : UserSubscription) (g : Group) (now : Z) : Prop :=
  (ValidateAndCheckLimits s (Some g) now).1.2 = None.

(** The check is that of the row's snapshot, its daily usage cleared or not, as long as
    the subscription runs. *)
Lemma check_snapshot s g now :
  (ValidateAndCheckLimits s (Some g) now).1.2 =
  if String.eqb (us_Status s) SubscriptionStatusExpired then Some ErrSubscriptionExpired
  else if String.eqb (us_Status s) SubscriptionStatusSuspended then Some ErrSubscriptionSuspended
  else if us_ExpiresAt s <=? now then Some ErrSubscriptionExpired
  else subscriptionUsageLimitError (Some g) (row_snapshot s (canAutomaticallyResetDailyAt s now)) now.
Proof.
  unfold ValidateAndCheckLimits, time_after. rewrite <-Z.leb_antisym. do 3 (case_match; [done|]). simpl.
  unfold subscriptionUsageLimitError. by rewrite violations_cleared.
Qed.

(** Clearing the daily usage takes the daily window off the exhausted ones. *)
Lemma exhausted_cleared s g v : v ∈ exhausted g (row_snapshot s true) → v ∈ exhausted g (row_snapshot s false).
Proof.
  unfold exhausted. simpl. rewrite !elem_of_app. intros [Hv|Hv]; [|by right]. exfalso. revert Hv.
  destruct (gr_DailyLimitUSD g) as [l|]; [|case_match; apply not_elem_of_nil].
  destruct (fzero <. l) eqn:E; simpl; [rewrite (zero_within l E)|]; case_match; apply not_elem_of_nil.
Qed.

Lemma exhausted_daily s g v now :
  v ∈ exhausted g (row_snapshot s false) →
  v ∈ exhausted g (row_snapshot s true) ∨ vi_resetAt v = (daily_window (row_snapshot s false) now).1.
Proof.
  unfold exhausted, daily_window, window_reset. rewrite !elem_of_app. intros [Hv|Hv]; [|left; by right]. right. revert Hv. simpl.
  destruct (gr_DailyLimitUSD g) as [l|]; [|case_match; intros []%not_elem_of_nil].
  destruct (HasOneTimeDailyQuota _ && _); simpl.
  - case_match; [|intros []%not_elem_of_nil]. by intros ->%list_elem_of_singleton.
  - destruct (normalizedSubscriptionWindowStart _ _) as [p|]; simpl; [|intros []%not_elem_of_nil].
    case_match; [|intros []%not_elem_of_nil]. by intros ->%list_elem_of_singleton.
Qed.

(** Midnight clears the daily usage once and for all. *)
Lemma cleared_mono `{!FixedOffset L} s now later :
  now ≤ later → canAutomaticallyResetDailyAt s now = true → canAutomaticallyResetDailyAt s later = true.
Proof.
  intros Hle. unfold canAutomaticallyResetDailyAt, automaticDailyWindowStartAt, time_after.
  rewrite !bool_decide_eq_true. pose proof (StartOfDay_mono now later Hle) as Hd.
  destruct (us_DailyWindowStart s) as [p|]; [|by intros [? ?]]. destruct (HasOneTimeDailyQuota s); [by intros [? ?]|].
  destruct (StartOfDay p <? StartOfDay now) eqn:E; [|by intros [? ?]]. apply Z.ltb_lt in E. intros _.
  rewrite (proj2 (Z.ltb_lt _ _)) by lia. by eexists.
Qed.

(** C17. A subscription that is refused for a usage limit is told when to come back: from
    the advertised instant on the check admits it for as long as its row stays as it is
    and its term runs, and until then it refuses it.  The one exception is a refusal
    that advertises the end of the daily window, when midnight clears the daily usage
    earlier ([first_day_reset_advertised_late] is such a case).  With several limits
    exceeded the instant is the latest of their resets. *)
Theorem limit_reset_exact `{!FixedOffset L} s g now needs e s' resetAt :
  ValidateAndCheckLimits s (Some g) now = (needs, Some e, s') → reset_time e = Some resetAt →
  now < resetAt ∧
  (∀ t, resetAt ≤ t < us_ExpiresAt s → admitted s g t) ∧
  (∀ t, now ≤ t < resetAt → admitted s g t →
     canAutomaticallyResetDailyAt s now = false ∧ canAutomaticallyResetDailyAt s t = true ∧
     resetAt = (daily_window (subscriptionUsageSnapshotFromSubscription s) now).1).
Proof.
  intros Hrun Hreset. pose proof (check_snapshot s g now) as Hnow. rewrite Hrun in Hnow. simpl in Hnow.
  assert (String.eqb (us_Status s) SubscriptionStatusExpired = false ∧
          String.eqb (us_Status s) SubscriptionStatusSuspended = false) as [E1 E2].
  { repeat case_match; try done; simplify_eq. }
  rewrite E1, E2 in Hnow. destruct (us_ExpiresAt s <=? now); [by simplify_eq|]. symmetry in Hnow.
  destruct (snapshot_reset _ _ _ _ Hnow) as (v0 & Hv0 & Hr & Hlt & Hall & Hexact).
  assert (resetAt = vi_resetAt v0) as -> by congruence. clear Hr Hreset. set (resetAt := vi_resetAt v0) in *. split; [done|].
  assert (∀ t, now ≤ t → resetAt ≤ t → Forall (λ v, vi_resetAt v ≤ t)
            (exhausted g (row_snapshot s (canAutomaticallyResetDailyAt s t)))) as Hpast.
  { intros t Hle Hge. rewrite Forall_forall in Hall |- *. intros v Hv.
    enough (vi_resetAt v ≤ resetAt) by lia. apply Hall.
    destruct (canAutomaticallyResetDailyAt s now) eqn:D; [by rewrite (cleared_mono s now t) in Hv|].
    destruct (canAutomaticallyResetDailyAt s t); [by apply exhausted_cleared|done]. }
  split.
  - intros t [Hge Hexp]. unfold admitted. rewrite check_snapshot, E1, E2, (proj2 (Z.leb_gt _ _) Hexp).
    pose proof (limit_error_latest g (row_snapshot s (canAutomaticallyResetDailyAt s t)) t) as Hl.
    destruct (subscriptionUsageLimitError _ _ t) as [e'|]; [|done]. destruct Hl as (v & Hv & _ & Hlate & _).
    specialize (Hpast t ltac:(lia) Hge). rewrite Forall_forall in Hpast. specialize (Hpast v Hv). lia.
  - intros t [Hle Hbefore]. unfold admitted. rewrite check_snapshot, E1, E2.
    destruct (us_ExpiresAt s <=? t); [done|]. intros Hadm.
    destruct (canAutomaticallyResetDailyAt s now) eqn:D.
    + rewrite (cleared_mono s now t Hle D) in Hadm. apply Hexact in Hadm. lia.
    + destruct (canAutomaticallyResetDailyAt s t); [|apply Hexact in Hadm; lia]. split; [done|]. split; [done|].
      pose proof (limit_error_latest g (row_snapshot s true) t) as Hl. rewrite Hadm, Forall_forall in Hl.
      destruct (exhausted_daily s g v0 now Hv0) as [Hin|Heq]; [specialize (Hl v0 Hin); lia|exact Heq].
Qed.
End LimitFacts.

(** ** Automatic advance of weekly and monthly windows *)

Lemma wrap_signed_id z : in_int64 z → wrap_signed 64 z = z.
Proof.
  unfold in_int64, wrap_signed, min_int64, max_int64. intros.
  change (2 ^ (64 - 1)) with 9223372036854775808. change (2 ^ 64) with 18446744073709551616.
  rewrite Z.mod_small; lia.
Qed.

Section Windows.
Context `{Location}.

(** The next start: a whole number of periods after the anchor, the last one that
    has begun and begins before the term ends. *)
Lemma automatic_start_spec s p period now :
  0 < period → let a := windowResetAnchor s p in us_ExpiresAt s - a ≤ max_int64 →
  match automaticWindowStartAt s (Some p) period now with
  | None => now < a + period ∨ us_ExpiresAt s ≤ a + period
  | Some w => ∃ k, 1 ≤ k ∧ w = a + k * period ∧ w ≤ now ∧ w < us_ExpiresAt s
               ∧ (now < w + period ∨ us_ExpiresAt s ≤ w + period)
  end.
Proof.
  intros Hp a Hlong. unfold automaticWindowStartAt. fold a. unfold_time.
  destruct ((now <? a + period) || negb (a + period <? us_ExpiresAt s)) eqn:Hb; bool_to_prop; [lia|].
  unfold time_sub. set (d := us_ExpiresAt s - a) in *.
  assert (saturate_int64 d = d) as -> by (unfold saturate_int64, min_int64, max_int64 in *; lia).
  assert (in_int64 (d - 1)) by (unfold in_int64, min_int64, max_int64 in *; lia).
  rewrite (wrap_signed_id (d - 1)) by done.
  set (e := saturate_int64 (now - a)).
  assert (period ≤ e ∧ e ≤ now - a ∧ (e = now - a ∨ d ≤ e)) as He.
  { unfold e, saturate_int64, min_int64, max_int64 in *. lia. }
  rewrite !Z.quot_div_nonneg by lia.
  pose proof (Z_div_mod_eq_full e period). pose proof (Z.mod_pos_bound e period Hp).
  pose proof (Z_div_mod_eq_full (d - 1) period). pose proof (Z.mod_pos_bound (d - 1) period Hp).
  set (x := e `div` period) in *. set (y := (d - 1) `div` period) in *.
  assert (1 ≤ x ∧ 1 ≤ y) as [? ?] by nia.
  assert (∃ k, (if y <? x then y else x) = k ∧ 1 ≤ k ∧ k ≤ x ∧ k ≤ y ∧ (k = x ∨ k = y)) as (k & -> & Hk).
  { destruct (y <? x) eqn:E; bool_to_prop; eexists; (split; [done|]); lia. }
  assert (k * period ≤ d - 1) by nia. assert (k * period ≤ e) by nia.
  rewrite wrap_signed_id by (unfold in_int64, min_int64, max_int64 in *; nia).
  exists k. repeat split; lia.
Qed.

(** An anchor at or after the midnight before the term is not moved again. *)
Lemma anchor_after s p w :
  windowResetAnchor s p < w → StartOfDay (us_StartsAt s) ≤ p → windowResetAnchor s w = w.
Proof.
  unfold windowResetAnchor, time_before. intros Hw Hp.
  repeat case_match; bool_to_prop; try done; subst; lia.
Qed.

#[local] Arguments automaticWindowStartAt : simpl never.

(** The windows granted one after another by automatic advances at the given
    times, starting from [p]. *)
Fixpoint granted (s : UserSubscription) (p period : Z) (times : list Z) : list Z :=
  match times with
  | [] => []
  | now :: times =>
      match automaticWindowStartAt s (Some p) period now with
      | Some w => w :: granted s w period times
      | None => granted s p period times
      end
  end.

Lemma granted_bounded s period times :
  0 < period → ∀ p, let a := windowResetAnchor s p in
  us_ExpiresAt s - a ≤ max_int64 → StartOfDay (us_StartsAt s) ≤ p → p ≤ a →
  StronglySorted Z.lt (granted s p period times)
  ∧ Forall (λ w, a < w < us_ExpiresAt s ∧ ∃ k, w = a + k * period) (granted s p period times)
  ∧ (granted s p period times ≠ [] →
     a + Z.of_nat (length (granted s p period times)) * period < us_ExpiresAt s).
Proof.
  intros Hp. induction times as [|now times IH]; intros p a Hlong Hmid Hpa; simpl.
  { split; [constructor|]. split; [constructor|done]. }
  pose proof (automatic_start_spec s p period now Hp Hlong) as Hspec. fold a in Hspec.
  destruct (automaticWindowStartAt s (Some p) period now) as [w|]; [|by apply IH].
  destruct Hspec as (k & Hk & Hw & _ & Hexp & _).
  assert (a < w) by nia. assert (windowResetAnchor s w = w) as Hww by (by eapply anchor_after).
  destruct (IH w) as (Hs & Hf & Hlen); rewrite ?Hww; [lia..|].
  rewrite Hww in Hf, Hlen. split; [|split].
  - constructor; [done|]. eapply Forall_impl; [done|]. simpl. naive_solver lia.
  - constructor; [split; [lia|by exists k]|].
    eapply Forall_impl; [done|]. simpl. intros v [? [k' ->]]. split; [lia|].
    exists (k + k'). lia.
  - intros _. simpl length. destruct (granted s w period times) as [|v l] eqn:Hg; [simpl; nia|].
    specialize (Hlen ltac:(done)). simpl length in *. nia.
Qed.

(** A term grants no more quota windows than fit into it: however often and whenever
    the windows are advanced, the starts are increasing, a whole number of periods
    after the anchor and before the expiry, and as many periods as there were
    advances fit before the expiry. *)
Theorem windows_fit_term s p period times :
  0 < period →
  let a := windowResetAnchor s p in
  us_ExpiresAt s - a ≤ max_int64 → StartOfDay (us_StartsAt s) ≤ p ≤ a → a < us_ExpiresAt s →
  StronglySorted Z.lt (granted s p period times)
  ∧ Forall (λ w, a < w < us_ExpiresAt s ∧ ∃ k, w = a + k * period) (granted s p period times)
  ∧ a + Z.of_nat (length (granted s p period times)) * period < us_ExpiresAt s.
Proof.
  intros Hp a Hlong [Hmid Hpa] Ha. destruct (granted_bounded s period times Hp p) as (? & ? & Hlen);
    [done..|]. split; [done|]. split; [done|].
  destruct (granted s p period times); [simpl; lia|by apply Hlen].
Qed.

(** C28. An advance is exact and settles: it happens when a period has passed since the
    anchor and another begins before the expiry, leads to the window the present
    lies in (or the last of the term), and at the same instant there is no other. *)
Theorem window_advance_exact s p period now :
  0 < period →
  let a := windowResetAnchor s p in
  us_ExpiresAt s - a ≤ max_int64 → StartOfDay (us_StartsAt s) ≤ p ≤ a →
  match automaticWindowStartAt s (Some p) period now with
  | None => now < a + period ∨ us_ExpiresAt s ≤ a + period
  | Some w =>
      a < w ≤ now ∧ w < us_ExpiresAt s ∧ (w - a) `mod` period = 0
      ∧ (now < w + period ∨ us_ExpiresAt s ≤ w + period)
      ∧ automaticWindowStartAt s (Some w) period now = None
  end.
Proof.
  intros Hp a Hlong [Hmid Hpa]. pose proof (automatic_start_spec s p period now Hp Hlong) as Hs.
  fold a in Hs. destruct (automaticWindowStartAt s (Some p) period now) as [w|]; [|done].
  destruct Hs as (k & Hk & Hw & Hnow & Hexp & Hlast).
  assert (a < w) by nia. assert (windowResetAnchor s w = w) as Hww by (by eapply anchor_after).
  repeat split; try done; [|].
  - replace (w - a) with (k * period) by lia. by rewrite Z.mod_mul by lia.
  - pose proof (automatic_start_spec s w period now Hp) as Hs2. rewrite Hww in Hs2.
    specialize (Hs2 ltac:(lia)).
    destruct (automaticWindowStartAt s (Some w) period now) as [w'|]; [|done].
    destruct Hs2 as (k' & ? & -> & ? & ? & _). nia.
Qed.
End Windows.

(** ** Maintenance *)

Section Maintenance.
Context `{Location}.

Definition daily_of (s : UserSubscription) : option Z * float64 :=
  (us_DailyWindowStart s, us_DailyUsageUSD s).
Definition weekly_of (s : UserSubscription) : option Z * float64 :=
  (us_WeeklyWindowStart s, us_WeeklyUsageUSD s).
Definition monthly_of (s : UserSubscription) : option Z * float64 :=
  (us_MonthlyWindowStart s, us_MonthlyUsageUSD s).
Definition five_hour_of (s : UserSubscription) : option Z * float64 :=
  (us_FiveHourWindowStart s, us_FiveHourUsageUSD s).
Definition term_of (s : UserSubscription) : Z * Z * Z * Z * Z * string * string * option Z :=
  (us_ID s, us_UserID s, us_GroupID s, us_StartsAt s, us_ExpiresAt s, us_Status s, us_Notes s,
   us_DeletedAt s).

(** What a conditional reset does to a window whose start the caller saw as [seen]. *)
Definition after_reset (seen next : option Z) (w : option Z * float64) : option Z * float64 :=
  match next with
  | Some start => if bool_decide (w.1 = seen) then (Some start, fzero) else w
  | None => w
  end.

Lemma conditional_reset id now cond set t r :
  tb_subs t !! id = Some r → live r = true →
  translateConditionalWindowReset id (update_where id now cond set t)
  = inr (mkSubTable (<[id := if cond r then touch now (set r) else r]> (tb_subs t))
           (tb_next t) (tb_groups t)).
Proof.
  intros Hr Hl. unfold translateConditionalWindowReset, update_where. rewrite Hr.
  destruct (cond r); [done|]. unfold GetByID. rewrite Hr. simpl. rewrite Hl. simpl.
  rewrite insert_id by done. by destruct t.
Qed.

(** The state of one block: the copy still has the identity and term of [s], and the
    row is [r]. *)
Definition block_ok (s s' : UserSubscription) (t t' : SubTable) (r : UserSubscription) : Prop :=
  term_of s' = term_of s ∧ live r = true
  ∧ t' = mkSubTable (<[us_ID s := r]> (tb_subs t)) (tb_next t) (tb_groups t).

Lemma automaticWindowStartAt_term s s' p period now :
  term_of s' = term_of s → automaticWindowStartAt s' p period now = automaticWindowStartAt s p period now.
Proof.
  unfold term_of. intros [= _ _ _ Hs He _ _ _].
  unfold automaticWindowStartAt, windowResetAnchor. by rewrite Hs, He.
Qed.

Ltac solve_block :=
  eexists _, _, _; split; [reflexivity|]; split; [by repeat split|]; by repeat split.

Lemma no_block s t r (P : UserSubscription → UserSubscription → Prop) :
  tb_subs t !! us_ID s = Some r → live r = true → P s r →
  ∃ s' r' t', (None, s, t) = (None : option sub_error, s', t') ∧ block_ok s s' t t' r' ∧ P s' r'.
Proof.
  intros Hr Hl HP. exists s, r, t. split; [done|]. split; [|done].
  split; [done|]. split; [done|]. rewrite insert_id by done. by destruct t.
Qed.

Lemma reset_daily_ok s now t r :
  tb_subs t !! us_ID s = Some r → live r = true →
  ∃ s' r' t', reset_daily now (None, s, t) = (None, s', t') ∧ block_ok s s' t t' r'
    ∧ weekly_of s' = weekly_of s ∧ monthly_of s' = monthly_of s
    ∧ daily_of r' = after_reset (us_DailyWindowStart s) (automaticDailyWindowStartAt s now) (daily_of r)
    ∧ weekly_of r' = weekly_of r ∧ monthly_of r' = monthly_of r
    ∧ five_hour_of r' = five_hour_of r ∧ term_of r' = term_of r.
Proof.
  intros Hr Hl. unfold reset_daily, reset_window.
  destruct (automaticDailyWindowStartAt s now) as [start|].
  - unfold ResetDailyUsage. erewrite conditional_reset by done. unfold after_reset. simpl.
    case_bool_decide; solve_block.
  - by apply (no_block s t r).
Qed.

Lemma reset_weekly_ok s now t r :
  tb_subs t !! us_ID s = Some r → live r = true →
  ∃ s' r' t', reset_weekly now (None, s, t) = (None, s', t') ∧ block_ok s s' t t' r'
    ∧ monthly_of s' = monthly_of s
    ∧ weekly_of r' = after_reset (us_WeeklyWindowStart s)
        (automaticWindowStartAt s (us_WeeklyWindowStart s) Week now) (weekly_of r)
    ∧ daily_of r' = daily_of r ∧ monthly_of r' = monthly_of r
    ∧ five_hour_of r' = five_hour_of r ∧ term_of r' = term_of r.
Proof.
  intros Hr Hl. unfold reset_weekly, reset_window.
  destruct (automaticWindowStartAt s (us_WeeklyWindowStart s) Week now) as [start|].
  - unfold ResetWeeklyUsage. erewrite conditional_reset by done. unfold after_reset. simpl.
    case_bool_decide; solve_block.
  - by apply (no_block s t r).
Qed.

Lemma reset_monthly_ok s now t r :
  tb_subs t !! us_ID s = Some r → live r = true →
  ∃ s' r' t', reset_monthly now (None, s, t) = (None, s', t') ∧ block_ok s s' t t' r'
    ∧ monthly_of r' = after_reset (us_MonthlyWindowStart s)
        (automaticWindowStartAt s (us_MonthlyWindowStart s) Month now) (monthly_of r)
    ∧ daily_of r' = daily_of r ∧ weekly_of r' = weekly_of r
    ∧ five_hour_of r' = five_hour_of r ∧ term_of r' = term_of r.
Proof.
  intros Hr Hl. unfold reset_monthly, reset_window.
  destruct (automaticWindowStartAt s (us_MonthlyWindowStart s) Month now) as [start|].
  - unfold ResetMonthlyUsage. erewrite conditional_reset by done. unfold after_reset. simpl.
    case_bool_decide; solve_block.
  - by apply (no_block s t r).
Qed.

(** C27. Window maintenance resets exactly the windows that have passed and that the row
    still has as the caller saw them: a caller with a stale copy changes nothing, so
    no usage charged since another request advanced the window is lost; the term,
    the five-hour window and every other row are untouched. *)
Theorem maintenance_exact s now t r :
  tb_subs t !! us_ID s = Some r → live r = true →
  ∃ s' r' t', CheckAndResetWindows s now t = (None, s', t')
    ∧ tb_subs t' = <[us_ID s := r']> (tb_subs t) ∧ term_of r' = term_of r
    ∧ daily_of r' = after_reset (us_DailyWindowStart s) (automaticDailyWindowStartAt s now) (daily_of r)
    ∧ weekly_of r' = after_reset (us_WeeklyWindowStart s)
        (automaticWindowStartAt s (us_WeeklyWindowStart s) Week now) (weekly_of r)
    ∧ monthly_of r' = after_reset (us_MonthlyWindowStart s)
        (automaticWindowStartAt s (us_MonthlyWindowStart s) Month now) (monthly_of r)
    ∧ five_hour_of r' = five_hour_of r.
Proof.
  intros Hr Hl. unfold CheckAndResetWindows.
  destruct (reset_daily_ok s now t r Hr Hl) as (s1 & r1 & t1 & -> & (Ht1 & Hl1 & ->) & Hw1 & Hm1 & Hdaily & ? & ? & ? & ?).
  assert (us_ID s1 = us_ID s) as Hid1 by (unfold term_of in Ht1; congruence).
  edestruct (reset_weekly_ok s1 now) as (s2 & r2 & t2 & -> & (Ht2 & Hl2 & ->) & Hm2 & Hweekly & ? & ? & ? & ?);
    [rewrite Hid1; apply lookup_insert_eq|done|].
  assert (us_ID s2 = us_ID s) as Hid2 by (unfold term_of in Ht2; congruence).
  edestruct (reset_monthly_ok s2 now) as (s3 & r3 & t3 & -> & (Ht3 & Hl3 & ->) & Hmonthly & ? & ? & ? & ?);
    [rewrite Hid2, Hid1; apply lookup_insert_eq|done|].
  exists s3, r3. eexists. split; [done|]. simpl. rewrite Hid2, Hid1, !insert_insert_eq.
  split; [done|].
  rewrite (automaticWindowStartAt_term s s1) in Hweekly by done.
  rewrite (automaticWindowStartAt_term s s2) in Hmonthly by congruence.
  unfold weekly_of, monthly_of in Hw1, Hm1, Hm2.
  assert (us_WeeklyWindowStart s1 = us_WeeklyWindowStart s) as E1 by congruence.
  assert (us_MonthlyWindowStart s2 = us_MonthlyWindowStart s) as E2 by congruence.
  rewrite E1 in Hweekly. rewrite E2 in Hmonthly. repeat split; congruence.
Qed.
End Maintenance.

(** ** Terms *)

Section Terms.
Context {L : Location}.

Record table_wf (t : SubTable) : Prop := {
  wf_id : ∀ i s, tb_subs t !! i = Some s → us_ID s = i ∧ i < tb_next t;
  wf_unique : ∀ i j s s', tb_subs t !! i = Some s → tb_subs t !! j = Some s' →
    live s = true → live s' = true → us_UserID s = us_UserID s' → us_GroupID s = us_GroupID s' → i = j
}.

Lemma matching_elem p t s :
  s ∈ matching p t ↔ ∃ i, tb_subs t !! i = Some s ∧ p s = true.
Proof.
  unfold matching. rewrite list_elem_of_fmap. split.
  - intros ([i s'] & -> & Hin). apply elem_of_map_to_list, map_lookup_filter_Some in Hin as [? ?].
    by exists i.
  - intros (i & Hi & Hp). exists (i, s). split; [done|].
    apply elem_of_map_to_list, map_lookup_filter_Some. done.
Qed.

Lemma owned_by_true u g s :
  owned_by u g s = true ↔ live s = true ∧ us_UserID s = u ∧ us_GroupID s = g.
Proof. unfold owned_by. rewrite !andb_true_iff, !Z.eqb_eq. tauto. Qed.

Lemma exists_false u g t :
  ExistsByUserIDAndGroupID u g t = false ↔
  ∀ i s, tb_subs t !! i = Some s → live s = true → us_UserID s = u → us_GroupID s ≠ g.
Proof.
  unfold ExistsByUserIDAndGroupID. destruct (matching (owned_by u g) t) as [|x l] eqn:Hm.
  - split; [|done]. intros _ i s Hs Hl Hu Hg. apply (not_elem_of_nil s). rewrite <- Hm.
    apply matching_elem. exists i. split; [done|]. by apply owned_by_true.
  - split; [done|]. intros Hno. assert (x ∈ matching (owned_by u g) t) as Hx by (rewrite Hm; by left).
    apply matching_elem in Hx as (i & Hi & (? & ? & ?)%owned_by_true). by destruct (Hno i x).
Qed.

(** On a well-formed table [Only] finds a row exactly when there is one. *)
Lemma get_by_user_group t u g s :
  table_wf t → GetByUserIDAndGroupID u g t = Some s ↔
  tb_subs t !! us_ID s = Some s ∧ live s = true ∧ us_UserID s = u ∧ us_GroupID s = g.
Proof.
  intros Hwf. unfold GetByUserIDAndGroupID.
  assert (NoDup (matching (owned_by u g) t)) as Hnd.
  { unfold matching. apply NoDup_fmap_2_strong; [|apply NoDup_map_to_list].
    intros [i x] [j y] Hi Hj Heq. simpl in Heq. subst y.
    apply elem_of_map_to_list, map_lookup_filter_Some in Hi as [Hi _], Hj as [Hj _].
    destruct (wf_id t Hwf _ _ Hi), (wf_id t Hwf _ _ Hj). congruence. }
  assert (∀ x, x ∈ matching (owned_by u g) t ↔
    tb_subs t !! us_ID x = Some x ∧ live x = true ∧ us_UserID x = u ∧ us_GroupID x = g) as Hin.
  { intros x. rewrite matching_elem. split.
    - intros (i & Hi & Ho). apply owned_by_true in Ho. destruct (wf_id t Hwf _ _ Hi) as [<- _]. done.
    - intros (Hx & Ho). exists (us_ID x). split; [done|]. by apply owned_by_true. }
  rewrite <- Hin. destruct (matching (owned_by u g) t) as [|x [|y l]] eqn:Hm.
  - split; [done|]. by intros ?%elem_of_nil.
  - rewrite list_elem_of_singleton. split; [by intros [= ->]|by intros ->].
  - split; [done|]. intros _. exfalso.
    destruct (proj1 (Hin x)) as (Hx & ? & ? & ?); [set_solver|].
    destruct (proj1 (Hin y)) as (Hy & ? & ? & ?); [set_solver|].
    assert (us_ID x = us_ID y) as Heq by (eapply (wf_unique t Hwf _ _ x y); congruence).
    rewrite Heq in Hx. assert (x = y) as -> by congruence.
    apply NoDup_cons in Hnd as [Hnx _]. set_solver.
Qed.

Lemma get_none t u g :
  table_wf t → GetByUserIDAndGroupID u g t = None → ExistsByUserIDAndGroupID u g t = false.
Proof.
  intros Hwf Hn. apply exists_false. intros i s Hs Hl Hu Hg.
  destruct (wf_id t Hwf _ _ Hs) as [<- _].
  assert (GetByUserIDAndGroupID u g t = Some s) by (by apply get_by_user_group). congruence.
Qed.

(** Statements that keep identity, owner and deletion mark keep the table well formed. *)
Definition keeps_owner (set : UserSubscription → UserSubscription) (s : UserSubscription) : Prop :=
  us_ID (set s) = us_ID s ∧ us_UserID (set s) = us_UserID s ∧ us_GroupID (set s) = us_GroupID s
  ∧ (live (set s) = true → live s = true).

Lemma update_where_wf id now cond set t b t' :
  table_wf t → (∀ s, tb_subs t !! id = Some s → keeps_owner set s) →
  update_where id now cond set t = (b, t') → table_wf t'.
Proof.
  intros [Hid Hu] Hk. unfold update_where. destruct (tb_subs t !! id) as [s|] eqn:Hs; [|by intros [= _ <-]].
  destruct (cond s); [|by intros [= _ <-]]. intros [= _ <-].
  destruct (Hk s eq_refl) as (Hk1 & Hk2 & Hk3 & Hk4).
  assert (∀ i x, <[id := touch now (set s)]> (tb_subs t) !! i = Some x →
    ∃ y, tb_subs t !! i = Some y ∧ us_ID x = us_ID y ∧ us_UserID x = us_UserID y
         ∧ us_GroupID x = us_GroupID y ∧ (live x = true → live y = true)) as Hback.
  { intros i x. rewrite lookup_insert. case_decide; [|by eauto 10].
    intros [= <-]. subst. exists s. done. }
  split; simpl.
  - intros i x Hx. destruct (Hback i x Hx) as (y & Hy & -> & _). by apply Hid.
  - intros i j x x' Hx Hx' Hl Hl' Heq1 Heq2.
    destruct (Hback i x Hx) as (y & Hy & _ & E1 & E2 & Hly).
    destruct (Hback j x' Hx') as (y' & Hy' & _ & E3 & E4 & Hly').
    eapply (Hu i j y y'); try done; [by apply Hly|by apply Hly'|congruence|congruence].
Qed.

Lemma update_one_wf id now set t t' :
  table_wf t → (∀ s, tb_subs t !! id = Some s → keeps_owner set s) →
  update_one id now set t = inr t' → table_wf t'.
Proof.
  unfold update_one. intros Hwf Hk. destruct (update_where _ _ _ _ _) as [[] t2] eqn:E; [|done].
  intros [= <-]. by eapply update_where_wf.
Qed.

Lemma conditional_wf id id' now cond set t t' :
  table_wf t → (∀ s, tb_subs t !! id = Some s → keeps_owner set s) →
  translateConditionalWindowReset id' (update_where id now cond set t) = inr t' → table_wf t'.
Proof.
  unfold translateConditionalWindowReset. intros Hwf Hk.
  destruct (update_where _ _ _ _ _) as [b t2] eqn:E. intros Ht.
  assert (t2 = t') as <- by (repeat case_match; by simplify_eq). by eapply update_where_wf.
Qed.

Lemma Create_wf sub now t r t' : table_wf t → Create sub now t = inr (r, t') → table_wf t'.
Proof.
  intros [Hid Hu]. unfold Create. destruct (ExistsByUserIDAndGroupID _ _ _) eqn:He; [done|].
  rewrite exists_false in He. intros [= <- <-]. split; simpl.
  - intros i x. rewrite lookup_insert. case_decide; [intros [= <-]; simpl; subst; split; [done|lia]|].
    intros Hx. destruct (Hid i x Hx). split; [done|lia].
  - intros i j x x'. rewrite !lookup_insert.
    case_decide; case_decide; subst; try done; intros Hx Hx' Hl Hl' Hq1 Hq2; simplify_eq; simpl in *.
    + by destruct (He j x').
    + by destruct (He i x).
    + by eapply Hu.
Qed.

Lemma Restore_wf id status now t t' : table_wf t → Restore id status now t = inr t' → table_wf t'.
Proof.
  intros Hwf. unfold Restore. destruct (tb_subs t !! id) as [s|] eqn:Hs; [|done].
  destruct (live s) eqn:Hl; simpl.
  { intros. eapply update_one_wf; [done| |done]. intros x Hx. simplify_eq. by repeat split. }
  destruct (ExistsByUserIDAndGroupID _ _ _) eqn:He; [done|]. rewrite exists_false in He.
  unfold update_one, update_where. rewrite Hs. intros [= <-].
  destruct Hwf as [Hid Hu]. split; simpl.
  - intros i x. rewrite lookup_insert. case_decide; [|by apply Hid].
    intros [= <-]. subst. by apply (Hid i s).
  - intros i j x x'. rewrite !lookup_insert.
    case_decide; case_decide; subst; try done; intros Hx Hx' Hlx Hlx' Hq1 Hq2; simplify_eq; simpl in *.
    + by destruct (He j x').
    + by destruct (He i x).
    + by eapply Hu.
Qed.

(** The operations of the service, as one step each on the table. *)
Inductive sub_op :=
| OpAssignOrExtend (input : AssignSubscriptionInput)
| OpAssign (input : AssignSubscriptionInput)
| OpExtend (id days : Z)
| OpRevoke (id : Z)
| OpRestore (id : Z)
| OpResetQuota (id : Z) (daily weekly monthly fiveHour : bool)
| OpEnsure (s : UserSubscription)
| OpExpire.

Definition run_op (o : sub_op) (now : Z) (t : SubTable) : SubTable :=
  let keep {A} (r : outcome A) (f : A → SubTable) := match r with inr x => f x | inl _ => t end in
  match o with
  | OpAssignOrExtend input => keep (assignOrExtendSubscription input now t) snd
  | OpAssign input => keep (assignSubscriptionWithReuse input now t) snd
  | OpExtend id days => keep (ExtendSubscription id days now t) (λ t, t)
  | OpRevoke id => keep (RevokeSubscription id now t) (λ t, t)
  | OpRestore id => keep (RestoreSubscription id now t) (λ t, t)
  | OpResetQuota id d w m f => keep (AdminResetQuota id d w m f now t) snd
  | OpEnsure s => (EnsureWindowMaintenance s now t).2
  | OpExpire => BatchUpdateExpiredStatus now t
  end.

Lemma bind_inr {A B} (m : outcome A) (f : A → outcome B) y :
  (x ← m; f x) = inr y → ∃ x, m = inr x ∧ f x = inr y.
Proof. destruct m as [e|x]; [done|]. simpl. eauto. Qed.

Ltac bind_step H := apply bind_inr in H as (? & ? & H).

Lemma GetByID_Some id t s : GetByID id t = Some s → tb_subs t !! id = Some s ∧ live s = true.
Proof.
  unfold GetByID. intros (s' & Hs & Hl)%bind_Some. case_match; simplify_eq. done.
Qed.

Lemma ExtendExpiry_wf id e now t t' : table_wf t → ExtendExpiry id e now t = inr t' → table_wf t'.
Proof. intros Hwf. apply update_one_wf; [done|]. by repeat split. Qed.
Lemma UpdateStatus_wf id e now t t' : table_wf t → UpdateStatus id e now t = inr t' → table_wf t'.
Proof. intros Hwf. apply update_one_wf; [done|]. by repeat split. Qed.
Lemma UpdateNotes_wf id e now t t' : table_wf t → UpdateNotes id e now t = inr t' → table_wf t'.
Proof. intros Hwf. apply update_one_wf; [done|]. by repeat split. Qed.

Lemma Update_wf s now t t' :
  table_wf t → (∀ r, tb_subs t !! us_ID s = Some r → us_UserID s = us_UserID r ∧ us_GroupID s = us_GroupID r) →
  Update s now t = inr t' → table_wf t'.
Proof.
  intros Hwf Hs. apply update_one_wf; [done|]. intros r Hr. destruct (Hs r Hr). by repeat split.
Qed.

Hint Resolve ExtendExpiry_wf UpdateStatus_wf UpdateNotes_wf Create_wf Restore_wf : go.

Lemma updateExisting_wf id days notes sem now t t' :
  table_wf t → updateExistingSubscriptionTerm id days notes sem now t = inr t' → table_wf t'.
Proof.
  intros Hwf. unfold updateExistingSubscriptionTerm.
  destruct (GetByID id t) as [s|] eqn:Hg; [|done]. apply GetByID_Some in Hg as [Hs Hl].
  destruct (sem && _); [by intros [= <-]|].
  destruct (if sem then _ else _) eqn:Hexp; intros Hu.
  - eapply Update_wf; [done| |done]. simpl. destruct (wf_id t Hwf _ _ Hs) as [-> _].
    intros r Hr. by simplify_eq.
  - apply bind_inr in Hu as (t1 & H1 & Hu). apply bind_inr in Hu as (t2 & H2 & Hu).
    assert (table_wf t1) as Hwf1 by (by eapply ExtendExpiry_wf).
    assert (table_wf t2) as Hwf2.
    { destruct (negb (String.eqb _ SubscriptionStatusActive)); [by eapply UpdateStatus_wf|by injection H2 as <-]. }
    destruct (negb (String.eqb _ "")); [by eapply UpdateNotes_wf|by injection Hu as <-].
Qed.

Lemma createSubscription_wf input now t r :
  table_wf t → createSubscription input now t = inr r → table_wf r.2.
Proof. unfold createSubscription. destruct r. eauto with go. Qed.

Lemma Delete_wf id now t : table_wf t → table_wf (Delete id now t).
Proof.
  intros Hwf. unfold Delete. destruct (update_where _ _ _ _ _) as [b t'] eqn:E. simpl.
  eapply update_where_wf; [done| |done]. intros s _. repeat split. simpl.
  unfold live. rewrite bool_decide_eq_true. by intros.
Qed.

Lemma reset_window_wf next reset follow r :
  (∀ s start t t', table_wf t → reset s start t = inr t' → table_wf t') →
  table_wf r.2 → table_wf (reset_window next reset follow r).2.
Proof.
  intros Hr. destruct r as [[e s] t]. unfold reset_window. simpl. intros Hwf.
  destruct e; [done|]. destruct (next s); [|done].
  destruct (reset _ _ _) eqn:E; [done|]. by eapply Hr.
Qed.

Lemma Ensure_wf s now t : table_wf t → table_wf (EnsureWindowMaintenance s now t).2.
Proof.
  intros Hwf. unfold EnsureWindowMaintenance.
  destruct (if negb _ then _ else _) as [e|t1] eqn:Ha; [done|].
  assert (table_wf t1) as Hwf1.
  { case_match; [|by simplify_eq]. unfold CheckAndActivateWindow in Ha.
    case_match; [by simplify_eq|]. eapply conditional_wf; [done| |done]. by repeat split. }
  assert (table_wf (CheckAndResetWindows s now t1).2) as Hwf2.
  { unfold CheckAndResetWindows, reset_monthly, reset_weekly, reset_daily.
    do 3 (apply reset_window_wf;
      [intros ? ? ? ? ? ?; eapply conditional_wf; [done| |done]; by repeat split|]). done. }
  destruct (CheckAndResetWindows s now t1) as [[[e|] s'] t2]; simpl in *; [done|].
  by destruct (GetByID _ _).
Qed.

Lemma Expire_wf now t : table_wf t → table_wf (BatchUpdateExpiredStatus now t).
Proof.
  intros [Hid Hu].
  assert (∀ i x, tb_subs (BatchUpdateExpiredStatus now t) !! i = Some x →
    ∃ y, tb_subs t !! i = Some y ∧ us_ID x = us_ID y ∧ us_UserID x = us_UserID y
      ∧ us_GroupID x = us_GroupID y ∧ live x = live y) as Hback.
  { intros i x. simpl. rewrite lookup_fmap. intros (y & Hy & ->)%fmap_Some.
    exists y. case_match; done. }
  split; simpl.
  - intros i x (y & Hy & -> & _)%Hback. by apply Hid.
  - intros i j x x' (y & Hy & _ & E1 & E2 & El)%Hback (y' & Hy' & _ & E3 & E4 & El')%Hback Hl Hl' Hq1 Hq2.
    apply (Hu i j y y'); congruence.
Qed.

Lemma run_op_wf o now t : table_wf t → table_wf (run_op o now t).
Proof.
  intros Hwf. destruct o; simpl; try by auto using Ensure_wf, Expire_wf.
  - destruct (assignOrExtendSubscription _ _ _) as [|r] eqn:E; [done|].
    unfold assignOrExtendSubscription in E. do 2 (case_match; try done). case_match; bind_step E.
    + repeat case_match; simplify_eq/=; eauto using updateExisting_wf.
    + simplify_eq. eauto using createSubscription_wf.
  - destruct (assignSubscriptionWithReuse _ _ _) as [|r] eqn:E; [done|].
    unfold assignSubscriptionWithReuse in E. destruct (group_of _ _); [|done].
    destruct (negb _); [done|]. destruct (ExistsByUserIDAndGroupID _ _ _).
    + destruct (GetByUserIDAndGroupID _ _ _) as [s|]; [|done].
      destruct (String.eqb (us_Status s) SubscriptionStatusExpired || _).
      * bind_step E. repeat case_match; simplify_eq/=; eauto using updateExisting_wf.
      * destruct (detectAssignSemanticConflict s input); [done|]. by injection E as <-.
    + bind_step E. simplify_eq/=. eauto using createSubscription_wf.
  - destruct (ExtendSubscription _ _ _ _) as [|r] eqn:E; [done|].
    unfold ExtendSubscription in E. do 3 (case_match; try done).
    apply bind_inr in E as (t1 & E1%ExtendExpiry_wf & E); [|done].
    destruct (String.eqb (us_Status _) _); [by eapply UpdateStatus_wf|by injection E as <-].
  - destruct (RevokeSubscription _ _ _) as [|r] eqn:E; [done|].
    unfold RevokeSubscription in E. case_match; simplify_eq. by apply Delete_wf.
  - destruct (RestoreSubscription _ _ _) as [|r] eqn:E; [done|].
    unfold RestoreSubscription in E. repeat (case_match; try done); eauto with go.
  - destruct (AdminResetQuota _ _ _ _ _ _ _) as [|r] eqn:E; [done|].
    unfold AdminResetQuota in E. do 2 (case_match; try done). bind_step E.
    case_match; simplify_eq. eapply update_one_wf; [done| |done]. by repeat split.
Qed.

(** C25. Whatever operations run, in whatever order, a user has at most one subscription
    of a group that is not deleted, and rows keep their identity. *)
Theorem at_most_one_subscription ops t :
  table_wf t →
  let t' := foldl (λ t o, run_op o.1 o.2 t) t ops in
  table_wf t' ∧ ∀ u g, (length (matching (owned_by u g) t') ≤ 1)%nat.
Proof.
  intros Hwf t'. assert (table_wf t') as Hwf'.
  { apply (foldl_invariant table_wf); [|done]. intros. by apply run_op_wf. }
  split; [done|]. intros u g.
  destruct (GetByUserIDAndGroupID u g t') as [s|] eqn:Hg.
  - unfold GetByUserIDAndGroupID in Hg. by destruct (matching _ _) as [|? [|??]].
  - apply get_none in Hg; [|done]. unfold ExistsByUserIDAndGroupID in Hg.
    destruct (matching _ _); [simpl; lia|done].
Qed.
End Terms.

Section FixedTerms.
Context {L : Location} `{!FixedOffset L}.

Lemma update_one_row id now set t r :
  tb_subs t !! id = Some r →
  update_one id now set t
  = inr (mkSubTable (<[id := touch now (set r)]> (tb_subs t)) (tb_next t) (tb_groups t)).
Proof. intros Hr. unfold update_one, update_where. by rewrite Hr. Qed.

Lemma capped_min e : capped e = Z.min e MaxExpiresAt.
Proof. unfold capped, time_after. case_match; bool_to_prop; lia. Qed.

Lemma GetByID_insert id t r :
  live r = true →
  GetByID id (mkSubTable (<[id := r]> (tb_subs t)) (tb_next t) (tb_groups t)) = Some r.
Proof. intros Hl. unfold GetByID. simpl. rewrite lookup_insert_eq. simpl. by rewrite Hl. Qed.

(** Where the added days are counted from. *)
Definition term_base (s : UserSubscription) (now : Z) : Z :=
  if us_ExpiresAt s <=? now then now else us_ExpiresAt s.

Lemma update_existing id days notes now t s :
  tb_subs t !! id = Some s → live s = true → us_ID s = id →
  ∃ s', updateExistingSubscriptionTerm id days notes false now t
        = inr (mkSubTable (<[id := s']> (tb_subs t)) (tb_next t) (tb_groups t))
    ∧ live s' = true ∧ us_ID s' = id
    ∧ us_ExpiresAt s' = Z.min (term_base s now + days * Day) MaxExpiresAt
    ∧ us_Status s' = SubscriptionStatusActive
    ∧ us_Notes s' = appendSubscriptionNotes (us_Notes s) notes
    ∧ five_hour_of s' = five_hour_of s
    ∧ if us_ExpiresAt s <=? now
      then us_StartsAt s' = now ∧ daily_of s' = (Some (StartOfDay now), fzero)
           ∧ weekly_of s' = (Some now, fzero) ∧ monthly_of s' = (Some now, fzero)
      else us_StartsAt s' = us_StartsAt s ∧ daily_of s' = daily_of s ∧ weekly_of s' = weekly_of s
           ∧ monthly_of s' = monthly_of s.
Proof.
  intros Hs Hl Hid. unfold updateExistingSubscriptionTerm, GetByID. rewrite Hs. simpl. rewrite Hl.
  unfold time_after, term_base. rewrite capped_min, AddDays_fixed, <- Z.leb_antisym.
  destruct (us_ExpiresAt s <=? now) eqn:Hexp.
  - unfold Update. simpl. rewrite Hid. erewrite update_one_row by done. eexists. split; [done|].
    unfold five_hour_of. simpl. repeat split; try done. by destruct (us_FiveHourWindowStart s).
  - unfold ExtendExpiry, UpdateStatus, UpdateNotes. rewrite Hid. erewrite update_one_row by done. simpl.
    destruct (String.eqb (us_Status s) SubscriptionStatusActive) eqn:Hst; simpl;
      [|erewrite update_one_row by (apply lookup_insert_eq); simpl; rewrite insert_insert_eq];
      destruct (String.eqb notes "") eqn:Hn; simpl;
      try (erewrite update_one_row by (apply lookup_insert_eq); simpl; rewrite insert_insert_eq);
      (eexists; split; [done|]); bool_to_prop; subst; by repeat split.
Qed.

Lemma normalize_days days :
  (if MaxValidityDays <? (if days <=? 0 then 30 else days) then MaxValidityDays
   else if days <=? 0 then 30 else days) = normalizeAssignValidityDays days.
Proof. done. Qed.

(** C26. Assigning a group again extends the one subscription in place: the days are added
    to the expiry, or to the present when the term is over, up to the end of 2099;
    it becomes active; a term that was over starts anew with its daily, weekly and
    monthly usage cleared, one that was running keeps them; no other row changes and
    the expiry never moves back. *)
Theorem assignment_extends_term input now t g s :
  table_wf t → group_of (in_GroupID input) t = Some g → IsSubscriptionType g = true →
  GetByUserIDAndGroupID (in_UserID input) (in_GroupID input) t = Some s →
  ∃ s' t', assignOrExtendSubscription input now t = inr (s', true, t')
    ∧ tb_subs t' = <[us_ID s := s']> (tb_subs t) ∧ us_ID s' = us_ID s
    ∧ us_ExpiresAt s'
      = Z.min (term_base s now + normalizeAssignValidityDays (in_ValidityDays input) * Day) MaxExpiresAt
    ∧ (us_ExpiresAt s ≤ MaxExpiresAt → us_ExpiresAt s ≤ us_ExpiresAt s')
    ∧ us_Status s' = SubscriptionStatusActive
    ∧ if us_ExpiresAt s <=? now
      then us_StartsAt s' = now ∧ daily_of s' = (Some (StartOfDay now), fzero)
           ∧ weekly_of s' = (Some now, fzero) ∧ monthly_of s' = (Some now, fzero)
      else us_StartsAt s' = us_StartsAt s ∧ daily_of s' = daily_of s ∧ weekly_of s' = weekly_of s
           ∧ monthly_of s' = monthly_of s.
Proof.
  intros Hwf Hg Hty Hs. pose proof Hs as Hrow. apply get_by_user_group in Hrow as (Hr & Hl & _); [|done].
  unfold assignOrExtendSubscription. rewrite Hg, Hty, Hs. simpl. rewrite normalize_days.
  destruct (update_existing (us_ID s) (normalizeAssignValidityDays (in_ValidityDays input))
              (in_Notes input) now t s Hr Hl eq_refl)
    as (s' & -> & Hl' & Hid & He & Hst & _ & _ & Hw).
  simpl. rewrite GetByID_insert by done. eexists _, _. split; [done|]. simpl.
  do 3 (split; [done|]). split; [|done]. rewrite He. unfold term_base.
  assert (0 < normalizeAssignValidityDays (in_ValidityDays input)).
  { unfold normalizeAssignValidityDays, MaxValidityDays. repeat case_match; bool_to_prop; lia. }
  assert (0 < Day) by done. destruct (us_ExpiresAt s <=? now) eqn:E; bool_to_prop; nia.
Qed.

Lemma extend_row id days now t s :
  GetByID id t = Some s → - MaxValidityDays ≤ days ≤ MaxValidityDays → now < us_ExpiresAt s →
  us_Status s ≠ SubscriptionStatusExpired →
  ExtendSubscription id days now t
  = let e := Z.min (us_ExpiresAt s + days * Day) MaxExpiresAt in
    if e <=? now then inl ErrAdjustWouldExpire
    else inr (mkSubTable (<[id := touch now (set_term (us_StartsAt s) e (us_Status s) (us_Notes s) s)]>
                            (tb_subs t)) (tb_next t) (tb_groups t)).
Proof.
  intros Hg Hdays Hnow Hst. pose proof Hg as [Hs Hl]%GetByID_Some.
  unfold ExtendSubscription. rewrite Hg.
  rewrite (proj2 (Z.ltb_ge MaxValidityDays days)) by lia.
  rewrite (proj2 (Z.ltb_ge days (- MaxValidityDays))) by lia.
  unfold time_after. rewrite (proj2 (Z.ltb_lt now (us_ExpiresAt s)) Hnow). simpl.
  rewrite !capped_min, !AddDays_fixed, <- Z.leb_antisym.
  destruct (_ <=? now); [done|]. unfold ExtendExpiry. erewrite update_one_row by done. simpl.
  by rewrite (proj2 (String.eqb_neq _ _) Hst).
Qed.

(** Days taken from a running subscription and given back later restore its term
    exactly, provided the shortened term has not run out in between; a deduction
    that would end the term is refused and changes nothing. *)
Theorem adjustment_round_trip id days now later t s :
  GetByID id t = Some s → us_Status s = SubscriptionStatusActive →
  0 < days ≤ MaxValidityDays → now < us_ExpiresAt s ≤ MaxExpiresAt → now ≤ later →
  match ExtendSubscription id (- days) now t with
  | inl e => e = ErrAdjustWouldExpire ∧ us_ExpiresAt s - days * Day ≤ now
  | inr t1 =>
      later < us_ExpiresAt s - days * Day →
      ∃ t2 s2, ExtendSubscription id days later t1 = inr t2 ∧ tb_subs t2 = <[id := s2]> (tb_subs t)
        ∧ term_of s2 = term_of s ∧ daily_of s2 = daily_of s ∧ weekly_of s2 = weekly_of s
        ∧ monthly_of s2 = monthly_of s ∧ five_hour_of s2 = five_hour_of s
  end.
Proof.
  intros Hg Hst Hdays [Hnow Hmax] Hle. pose proof Hg as [Hs Hl]%GetByID_Some.
  assert (0 < Day) by done.
  erewrite (extend_row id (- days)); [|done|lia|done|by rewrite Hst]. cbv zeta.
  rewrite Z.min_l by nia. destruct (_ <=? now) eqn:E; bool_to_prop; [split; [done|lia]|].
  intros Hlater.
  erewrite (extend_row id days); [|by apply GetByID_insert|lia|simpl; lia|simpl; by rewrite Hst].
  simpl. rewrite Z.min_l by nia. rewrite insert_insert_eq.
  rewrite (proj2 (Z.leb_gt _ _)) by nia. eexists _, _. split; [done|]. split; [done|].
  unfold term_of. simpl. repeat split. f_equal. repeat f_equal. lia.
Qed.
End FixedTerms.

(** ** Concrete subscriptions *)

Definition demo_sub (starts expires : Z) (daily weekly monthly : option Z) (usage : Z)
    : UserSubscription :=
  mkSubscription 1 7 3 starts expires SubscriptionStatusActive daily weekly monthly None
    (float_of_Z usage) (float_of_Z usage) (float_of_Z usage) fzero None starts "" starts starts None.

Definition demo_group : Group :=
  mkGroup 3 "active" SubscriptionTypeSubscription (Some (float_of_Z 1)) None (Some (float_of_Z 50)) None.

Definition demo_day : Z := 739000 * Day.

(** A zone that leaves daylight saving time in the night of day 739000: two hours
    ahead of UTC before 01:00 UTC, one hour ahead from then on. *)
Definition long_day_zone : Location :=
  {| lookup_zone := λ t,
       if t <? demo_day + Hour then mkZone (2 * Hour) (demo_day - 200 * Day) (demo_day + Hour)
       else mkZone Hour (demo_day + Hour) (demo_day + 200 * Day) |}.

Definition long_day_sub : UserSubscription :=
  demo_sub (demo_day - 10 * Day + 5 * Hour) (demo_day + 20 * Day) (Some (demo_day - 2 * Hour))
    (Some (demo_day - 3 * Day)) (Some (demo_day - 10 * Day + 5 * Hour)) 5.

(** On a day of 25 hours the daily limit is open for the last hour: the window is
    taken to end 24 hours after midnight, but the day, and with it the reset of the
    usage, ends an hour later; a subscription at five times its limit is admitted. *)
Theorem daily_limit_gap_on_long_day :
  let check now := (@ValidateAndCheckLimits long_day_zone long_day_sub (Some demo_group) now).1 in
  check (demo_day + 21 * Hour) = (false, Some (ErrDailyLimitExceeded (demo_day + 22 * Hour)))
  ∧ check (demo_day + 22 * Hour + 30 * Minute) = (false, None)
  ∧ @StartOfDay long_day_zone (demo_day + 22 * Hour + 30 * Minute) = demo_day - 2 * Hour
  ∧ us_DailyWindowStart long_day_sub = Some (demo_day - 2 * Hour).
Proof. vm_compute. repeat split. Qed.

(** On the day of activation the advertised reset is late: the refusal names 24 hours
    after the start of the term, the usage is in fact cleared at midnight. *)
Theorem first_day_reset_advertised_late :
  let s := demo_sub (demo_day + 15 * Hour) (demo_day + 30 * Day) (Some demo_day)
             (Some (demo_day + 15 * Hour)) (Some (demo_day + 15 * Hour)) 5 in
  let check now := (@ValidateAndCheckLimits (fixed_zone 0) s (Some demo_group) now).1 in
  check (demo_day + 20 * Hour) = (false, Some (ErrDailyLimitExceeded (demo_day + Day + 15 * Hour)))
  ∧ check (demo_day + Day) = (true, None)
  ∧ @DailyResetTime (fixed_zone 0) s = Some (demo_day + Day).
Proof. vm_compute. repeat split. Qed.

(** A subscription that has used up its day and its month. *)
Definition demo_limited : UserSubscription :=
  demo_sub (demo_day - 3 * Day) (demo_day + 90 * Day) (Some demo_day) None (Some (demo_day - 3 * Day)) 60.

Lemma limit_reset_exact_witness :
  let L := fixed_zone 0 in
  (ValidateAndCheckLimits demo_limited (Some demo_group) (demo_day + 4 * Hour)).1.2
    = Some (ErrGroupSubscriptionLimitExceeded (demo_day + 27 * Day))
  ∧ admitted demo_limited demo_group (demo_day + 27 * Day) ∧ ¬ admitted demo_limited demo_group (demo_day + 5 * Day).
Proof.
  split; [vm_compute; reflexivity|].
  destruct (@limit_reset_exact (fixed_zone 0) _ demo_limited demo_group (demo_day + 4 * Hour) false
    (ErrGroupSubscriptionLimitExceeded (demo_day + 27 * Day)) demo_limited (demo_day + 27 * Day)
    ltac:(vm_compute; reflexivity) ltac:(vm_compute; reflexivity)) as (_ & Hafter & Hbefore).
  split; [apply Hafter; split; [by apply Z.leb_le|by apply Z.ltb_lt]|].
  intros Ha. destruct (Hbefore (demo_day + 5 * Day)) as (_ & _ & E); [split; [by apply Z.leb_le|by apply Z.ltb_lt]|exact Ha|].
  vm_compute in E. discriminate E.
Defined.

Definition demo_term : UserSubscription :=
  demo_sub demo_day (demo_day + 30 * Day) (Some demo_day) (Some demo_day) (Some demo_day) 1.

Lemma windows_fit_term_witness :
  let L := fixed_zone (8 * Hour) in
  let times := [demo_day + 9 * Day; demo_day + 9 * Day; demo_day + 40 * Day] in
  granted demo_term demo_day Week times = [demo_day + 7 * Day; demo_day + 28 * Day]
  ∧ demo_day + 2 * Week < us_ExpiresAt demo_term.
Proof.
  split; [vm_compute; reflexivity|].
  destruct (@windows_fit_term (fixed_zone (8 * Hour)) demo_term demo_day Week
              [demo_day + 9 * Day; demo_day + 9 * Day; demo_day + 40 * Day]) as (_ & _ & Hlen);
    [by_compute..|]. exact Hlen.
Defined.

Lemma window_advance_exact_witness :
  let L := fixed_zone (8 * Hour) in
  automaticWindowStartAt demo_term (Some demo_day) Week (demo_day + 9 * Day) = Some (demo_day + 7 * Day)
  ∧ automaticWindowStartAt demo_term (Some (demo_day + 7 * Day)) Week (demo_day + 9 * Day) = None.
Proof.
  pose proof (@window_advance_exact (fixed_zone (8 * Hour)) demo_term demo_day Week
                (demo_day + 9 * Day)) as Hx.
  assert (@automaticWindowStartAt (fixed_zone (8 * Hour)) demo_term (Some demo_day) Week
            (demo_day + 9 * Day) = Some (demo_day + 7 * Day)) as E by (vm_compute; reflexivity).
  split; [exact E|]. rewrite E in Hx.
  destruct Hx as (_ & _ & _ & _ & Hx); [by_compute..|]. exact Hx.
Defined.

Definition demo_subs : SubTable := mkSubTable {[1 := demo_term]} 2 {[3 := demo_group]}.

Lemma demo_subs_wf : table_wf demo_subs.
Proof.
  split.
  - intros i s Hs. change (({[1 := demo_term]} : gmap Z UserSubscription) !! i = Some s) in Hs.
    apply lookup_singleton_Some in Hs as [<- <-]. done.
  - intros i j s s' Hs Hs' _ _ _ _. change (({[1 := demo_term]} : gmap Z UserSubscription) !! i = Some s) in Hs.
    change (({[1 := demo_term]} : gmap Z UserSubscription) !! j = Some s') in Hs'. apply lookup_singleton_Some in Hs as [<- _], Hs' as [<- _]. done.
Qed.

Lemma maintenance_exact_witness :
  let L := fixed_zone 0 in
  ∃ s' r' t', CheckAndResetWindows demo_term (demo_day + 9 * Day) demo_subs = (None, s', t')
    ∧ tb_subs t' = <[1 := r']> (tb_subs demo_subs) ∧ term_of r' = term_of demo_term
    ∧ daily_of r' = (Some (demo_day + 9 * Day), fzero) ∧ weekly_of r' = (Some (demo_day + 7 * Day), fzero)
    ∧ monthly_of r' = monthly_of demo_term ∧ five_hour_of r' = five_hour_of demo_term.
Proof.
  exact (@maintenance_exact (fixed_zone 0) demo_term (demo_day + 9 * Day) demo_subs demo_term
           ltac:(vm_compute; reflexivity) ltac:(vm_compute; reflexivity)).
Defined.

Definition demo_ops : list (sub_op * Z) :=
  [(OpRevoke 1, demo_day); (OpAssign (mkAssign 7 3 30 0 "n"), demo_day + 1);
   (OpRestore 1, demo_day + 2); (OpAssignOrExtend (mkAssign 7 3 30 0 "m"), demo_day + 3)].

Lemma at_most_one_subscription_witness :
  table_wf demo_subs ∧
  let t' := foldl (λ t o, @run_op (fixed_zone 0) o.1 o.2 t) demo_subs demo_ops in
  table_wf t' ∧ ∀ u g, (length (matching (owned_by u g) t') ≤ 1)%nat.
Proof.
  split; [exact demo_subs_wf|].
  exact (@at_most_one_subscription (fixed_zone 0) demo_ops demo_subs demo_subs_wf).
Defined.

Lemma assignment_extends_term_witness :
  let L := fixed_zone 0 in
  ∃ s' t', assignOrExtendSubscription (mkAssign 7 3 31 0 "n") (demo_day + Day) demo_subs = inr (s', true, t')
    ∧ us_ExpiresAt s' = demo_day + 61 * Day ∧ us_ID s' = 1.
Proof.
  destruct (@assignment_extends_term (fixed_zone 0) _ (mkAssign 7 3 31 0 "n") (demo_day + Day) demo_subs
              demo_group demo_term demo_subs_wf ltac:(vm_compute; reflexivity)
              ltac:(vm_compute; reflexivity) ltac:(vm_compute; reflexivity))
    as (s' & t' & He & _ & Hid & Hexp & _).
  exists s', t'. split; [exact He|]. split; [|exact Hid]. rewrite Hexp. vm_compute. reflexivity.
Defined.

Lemma adjustment_round_trip_witness :
  let L := fixed_zone 0 in
  match ExtendSubscription 1 (-10) (demo_day + Day) demo_subs with
  | inl _ => False
  | inr t1 =>
      demo_day + 2 * Day < us_ExpiresAt demo_term - 10 * Day →
      ∃ t2 s2, ExtendSubscription 1 10 (demo_day + 2 * Day) t1 = inr t2
        ∧ tb_subs t2 = <[1 := s2]> (tb_subs demo_subs) ∧ term_of s2 = term_of demo_term
        ∧ daily_of s2 = daily_of demo_term ∧ weekly_of s2 = weekly_of demo_term
        ∧ monthly_of s2 = monthly_of demo_term ∧ five_hour_of s2 = five_hour_of demo_term
  end.
Proof.
  exact (@adjustment_round_trip (fixed_zone 0) _ 1 10 (demo_day + Day) (demo_day + 2 * Day) demo_subs
           demo_term ltac:(vm_compute; reflexivity) ltac:(reflexivity)
           ltac:(by_compute) ltac:(by_compute)
           ltac:(by_compute)).
Defined.
