(* ===== verification/Programs.v ===== *)
(** * Concurrent programs over a shared store

    A handler is a tree of the calls it makes ([prog]): database statements,
    transactions, calls of other services, readings of the clock.  [exec] says what
    a call answers and does to the store; [W] is what the environment decides
    (failures, answers of other services).  Any number of handlers run interleaved,
    one call at a time, are started and crash ([act], [play]).

    [safe] is a rely-guarantee judgement: under any interference the thread relies
    on, every call keeps the invariant and what other threads rely on; [triple] is
    the Hoare logic on it, and a program that needs no precondition is [tame].  [play_safe] lifts it to every schedule.  The payment components are verified against it. *)

From Stdlib Require Import ZArith Lia.
From stdpp Require Import base tactics numbers list gmap.
From S2P Require Import Prelude.

Section Prog.
Context {op : Type → Type}.

Inductive prog (A : Type) : Type :=
| Ret (a : A)
| Do {X : Type} (o : op X) (k : X → prog A).

#[global] Arguments Ret {A} a.
#[global] Arguments Do {A X} o k.

Fixpoint prog_bind {A B} (f : A → prog B) (p : prog A) : prog B :=
  match p with
  | Ret a => f a
  | Do o k => Do o (λ x, prog_bind f (k x))
  end.

#[global] Instance prog_MBind : MBind prog := λ A B f p, prog_bind f p.
#[global] Instance prog_MRet : MRet prog := λ A a, Ret a.

Definition call {X} (o : op X) : prog X := Do o Ret.
End Prog.

#[global] Arguments prog : clear implicits.

(** A preorder for each thread. *)
Class PreOrders {S : Type} (R : nat → S → S → Prop) := { preorders i :: PreOrder (R i) }.

Section Pool.
Context {op : Type → Type} {S W E R : Type}.
(** The thread that makes the call, the call, the environment's choice. *)
Variable exec : nat → ∀ X, op X → W → S → X * S.
(** What happens outside the threads. *)
Variable env : E → S → S.

Record pool := mkPool { pl_store : S; pl_threads : gmap nat (prog op R) }.

Inductive move :=
| Call (i : nat) (w : W)
| Spawn (i : nat) (p : prog op R)
| Crash (i : nat)
| Env (e : E).

Definition act (m : move) (p : pool) : option pool :=
  match m with
  | Call i w =>
      match pl_threads p !! i with
      | Some (Do o k) =>
          let '(x, s) := exec i _ o w (pl_store p) in
          Some (mkPool s (<[i := k x]> (pl_threads p)))
      | _ => None
      end
  | Spawn i q =>
      match pl_threads p !! i with
      | None => Some (mkPool (pl_store p) (<[i := q]> (pl_threads p)))
      | Some _ => None
      end
  | Crash i => Some (mkPool (pl_store p) (delete i (pl_threads p)))
  | Env e => Some (mkPool (env e (pl_store p)) (pl_threads p))
  end.

Fixpoint play (ms : list move) (p : pool) : option pool :=
  match ms with
  | [] => Some p
  | m :: ms => p ← act m p; play ms p
  end.

(** A program run alone, with the same choice of the environment at each call. *)
Fixpoint solo {A} (i : nat) (w : W) (p : prog op A) (s : S) : A * S :=
  match p with
  | Ret a => (a, s)
  | Do o k => let '(x, s) := exec i _ o w s in solo i w (k x) s
  end.

Lemma play_app ms ns p : play (ms ++ ns) p = p ← play ms p; play ns p.
Proof.
  revert p. induction ms as [|m ms IH]; intros p; simpl; [done|].
  destruct (act m p); simpl; [apply IH|done].
Qed.

(** Every run alone whose choices and answers satisfy [G] ends in [Q]. *)
Fixpoint ends {A} (G : ∀ X, op X → W → X → Prop) (i : nat) (p : prog op A) (s : S)
    (Q : A → S → Prop) : Prop :=
  match p with
  | Ret a => Q a s
  | Do o k => ∀ w, let '(x, s') := exec i _ o w s in G _ o w x → ends G i (k x) s' Q
  end.

Lemma ends_mono {A} G i (p : prog op A) s (Q Q' : A → S → Prop) :
  (∀ a s', Q a s' → Q' a s') → ends G i p s Q → ends G i p s Q'.
Proof.
  intros HQ. revert s. induction p as [a|X o k IH]; simpl; intros s Hp; [by apply HQ|].
  intros w. specialize (Hp w). destruct (exec i X o w s) as [x s']. auto.
Qed.

Lemma ends_bind {A B} G i (p : prog op A) (f : A → prog op B) s (M : A → S → Prop) Q :
  ends G i p s M → (∀ a s', M a s' → ends G i (f a) s' Q) → ends G i (p ≫= f) s Q.
Proof.
  intros Hp Hf. revert s Hp. induction p as [a|X o k IH]; simpl; intros s Hp; [by apply Hf|].
  intros w. specialize (Hp w). destruct (exec i X o w s) as [x s']. intros HG. by apply IH, Hp.
Qed.

(** ** Rely and guarantee *)

Variable Inv : S → Prop.
Variable Rely : nat → S → S → Prop.
Context `{!PreOrders Rely}.

(** A quiet program does nothing that thread [i] itself may not rely on. *)
Fixpoint safe {A} (quiet : bool) (i : nat) (Q : A → S → Prop) (p : prog op A) (s : S) : Prop :=
  match p with
  | Ret a => ∀ s1, Rely i s s1 → Inv s1 → Q a s1
  | Do o k => ∀ s1, Rely i s s1 → Inv s1 → ∀ w,
      let '(x, s2) := exec i _ o w s1 in
      Inv s2 ∧ (∀ j, quiet = true ∨ j ≠ i → Rely j s1 s2) ∧ safe quiet i Q (k x) s2
  end.

Lemma safe_mono {A} q i (Q : A → S → Prop) p s s' :
  Rely i s s' → safe q i Q p s → safe q i Q p s'.
Proof.
  intros Hr. destruct p as [a|X o k]; simpl; intros Hp s1 Hs1; apply Hp; by transitivity s'.
Qed.

Lemma safe_bind {A B} q i (Q : A → S → Prop) (Q' : B → S → Prop) p f s :
  Inv s → safe q i Q p s → (∀ a s', Inv s' → Q a s' → safe q i Q' (f a) s') →
  safe q i Q' (prog_bind f p) s.
Proof.
  intros Hs Hp Hf. revert s Hs Hp. induction p as [a|X o k IH]; simpl; intros s Hs Hp.
  - apply Hf; [done|]. by apply Hp.
  - intros s1 Hr Hi w. specialize (Hp s1 Hr Hi w). destruct (exec i X o w s1) as [x s2].
    destruct Hp as (? & ? & ?). split; [done|]. split; [done|]. by apply IH.
Qed.

Lemma safe_weaken {A} q i (Q Q' : A → S → Prop) p s :
  (∀ a s', Inv s' → Q a s' → Q' a s') → safe q i Q p s → safe q i Q' p s.
Proof.
  intros HQ. revert s. induction p as [a|X o k IH]; simpl; intros s Hp; [naive_solver|].
  intros s1 Hr Hi w. specialize (Hp s1 Hr Hi w). destruct (exec i X o w s1) as [x s2].
  destruct Hp as (? & ? & ?). eauto.
Qed.

Lemma safe_loud {A} q i (Q : A → S → Prop) p s : safe q i Q p s → safe false i Q p s.
Proof.
  revert s. induction p as [a|X o k IH]; simpl; intros s Hp; [done|].
  intros s1 Hr Hi w. specialize (Hp s1 Hr Hi w). destruct (exec i X o w s1) as [x s2].
  destruct Hp as (? & Hg & ?). split; [done|]. split; [|by apply IH].
  intros j [|]; [done|auto].
Qed.

Lemma safe_frame {A} q i (Q : A → S → Prop) (F : S → Prop) p s :
  (∀ s s', Rely i s s' → F s → F s') →
  q = true ∨ (∃ j, j ≠ i ∧ ∀ s s', Rely j s s' → F s → F s') →
  F s → safe q i Q p s → safe q i (λ a s, Q a s ∧ F s) p s.
Proof.
  intros Hi Hj. revert s. induction p as [a|X o k IH]; simpl; intros s HF Hp; [naive_solver|].
  intros s1 Hr Hs w. specialize (Hp s1 Hr Hs w). destruct (exec i X o w s1) as [x s2].
  destruct Hp as (? & Hg & Hk). split; [done|]. split; [done|]. apply IH; [|done].
  destruct Hj as [->|(j & Hne & Hj)].
  - eapply (Hi s1); [apply Hg; by left|]. by eapply Hi.
  - eapply (Hj s1); [apply Hg; by right|]. by eapply Hi.
Qed.

(** ** Triples *)

(** An assertion other threads do not break; one that no step breaks. *)
Definition stable (i : nat) (P : S → Prop) : Prop := ∀ s s', Rely i s s' → P s → P s'.
Definition persistent (P : S → Prop) : Prop := ∀ i, stable i P.

Definition triple {A} (quiet : bool) (i : nat) (P : S → Prop) (p : prog op A)
    (Q : A → S → Prop) : Prop :=
  ∀ s, Inv s → P s → safe quiet i Q p s.

Lemma triple_ret {A} q i (P : S → Prop) (a : A) (Q : A → S → Prop) :
  stable i P → (∀ s, Inv s → P s → Q a s) → triple q i P (Ret a) Q.
Proof. intros HP HQ s _ Hs s1 Hr Hi. apply HQ; [done|]. by eapply HP. Qed.

Lemma triple_do {A X} q i (P : S → Prop) (o : op X) (k : X → prog op A) (M : X → S → Prop) Q :
  stable i P →
  (∀ s w, Inv s → P s → let '(x, s2) := exec i X o w s in
     Inv s2 ∧ (∀ j, q = true ∨ j ≠ i → Rely j s s2) ∧ M x s2) →
  (∀ x, triple q i (M x) (k x) Q) →
  triple q i P (Do o k) Q.
Proof.
  intros HP Ho Hk s _ Hs s1 Hr Hi w. specialize (Ho s1 w Hi (HP _ _ Hr Hs)).
  destruct (exec i X o w s1) as [x s2]. destruct Ho as (? & ? & ?).
  split; [done|]. split; [done|]. by apply Hk.
Qed.

Lemma triple_bind {A B} q i P (p : prog op A) (f : A → prog op B) M Q :
  triple q i P p M → (∀ a, triple q i (M a) (f a) Q) → triple q i P (p ≫= f) Q.
Proof. intros Hp Hf s Hi Hs. eapply safe_bind; [done|by apply Hp|]. intros a s' Hi' Ha. by apply Hf. Qed.

Lemma triple_conseq {A} q i (P P' : S → Prop) (p : prog op A) (Q Q' : A → S → Prop) :
  (∀ s, Inv s → P s → P' s) → triple q i P' p Q' → (∀ a s, Inv s → Q' a s → Q a s) →
  triple q i P p Q.
Proof. intros HP Hp HQ s Hi Hs. eapply safe_weaken; [exact HQ|]. apply Hp; auto. Qed.

Lemma triple_loud {A} q i P (p : prog op A) Q : triple q i P p Q → triple false i P p Q.
Proof. intros Hp s Hi Hs. eapply safe_loud. by apply Hp. Qed.

Lemma triple_pre {A} q i (P P' : S → Prop) (p : prog op A) Q :
  (∀ s, Inv s → P s → P' s) → triple q i P' p Q → triple q i P p Q.
Proof. intros HP Hp s Hi Hs. apply Hp; auto. Qed.

Lemma triple_exists {A X} q i (P : X → S → Prop) (p : prog op A) Q :
  (∀ x, triple q i (P x) p Q) → triple q i (λ s, ∃ x, P x s) p Q.
Proof. intros Hp s Hi [x Hs]. by apply (Hp x). Qed.

Lemma triple_pure {A} q i (φ : Prop) (P : S → Prop) (p : prog op A) Q :
  (φ → triple q i P p Q) → triple q i (λ s, φ ∧ P s) p Q.
Proof. intros Hp s Hi [Hf Hs]. by apply Hp. Qed.

Lemma triple_frame {A} q i P (p : prog op A) Q (F : S → Prop) :
  persistent F → triple q i P p Q → triple q i (λ s, P s ∧ F s) p (λ a s, Q a s ∧ F s).
Proof.
  intros HF Hp s Hi [HP HFs]. apply safe_frame; [apply HF| |done|by apply Hp].
  right. exists (Datatypes.S i). split; [lia|apply HF].
Qed.

Lemma triple_frame_quiet {A} i P (p : prog op A) Q (F : S → Prop) :
  stable i F → triple true i P p Q → triple true i (λ s, P s ∧ F s) p (λ a s, Q a s ∧ F s).
Proof. intros HF Hp s Hi [HP HFs]. apply safe_frame; [done|by left|done|by apply Hp]. Qed.

(** ** Programs without a precondition *)

Definition tame {A} (quiet : bool) (p : prog op A) : Prop :=
  ∀ i, triple quiet i (λ _, True) p (λ _ _, True).

Lemma tame_ret {A} q (a : A) : tame q (Ret a).
Proof. intros i. by apply triple_ret. Qed.

Lemma tame_bind {A B} q (p : prog op A) (f : A → prog op B) :
  tame q p → (∀ a, tame q (f a)) → tame q (p ≫= f).
Proof. intros Hp Hf i. eapply triple_bind; [apply Hp|]. intros a. apply Hf. Qed.

Lemma tame_loud {A} (p : prog op A) : tame true p → tame false p.
Proof. intros Hp i. eapply triple_loud, Hp. Qed.

(** Calls that leave the store alone. *)
Lemma tame_call {X} q (o : op X) :
  (∀ i w s, (exec i X o w s).2 = s) → tame q (call o).
Proof.
  intros Ho i. unfold call. eapply (triple_do _ _ _ _ _ (λ _ _, True)); [done| |].
  - intros s w Hi _. specialize (Ho i w s). destruct (exec i X o w s) as [x s']. simpl in Ho. subst.
    split; [done|]. split; [|done]. intros j _. reflexivity.
  - intros x. apply tame_ret.
Qed.

(** What a tame program keeps. *)
Lemma tame_frame {A} q i (p : prog op A) (F : S → Prop) :
  persistent F → tame q p → triple q i F p (λ _, F).
Proof.
  intros HF Hp. eapply triple_conseq; [|apply (triple_frame _ _ _ _ _ _ HF (Hp i))|].
  - by intros s _ Hs.
  - by intros a s _ [_ Hs].
Qed.

Lemma quiet_frame {A} i (p : prog op A) (F : S → Prop) :
  stable i F → tame true p → triple true i F p (λ _, F).
Proof.
  intros HF Hp. eapply triple_conseq; [|apply (triple_frame_quiet _ _ _ _ _ HF (Hp i))|].
  - by intros s _ Hs.
  - by intros a s _ [_ Hs].
Qed.

Lemma tame_triple {A} q i (P : S → Prop) (p : prog op A) : tame q p → triple q i P p (λ _ _, True).
Proof. intros Hp. eapply triple_pre; [|apply Hp]. done. Qed.

(** The programs that may be started. *)
Variable admitted : prog op R → Prop.

Definition admissible (m : move) : Prop :=
  match m with Spawn _ p => admitted p | _ => True end.

Record pool_ok (p : pool) : Prop := {
  ok_inv : Inv (pl_store p);
  ok_threads : ∀ i q, pl_threads p !! i = Some q → safe false i (λ _ _, True) q (pl_store p)
}.

Hypothesis admitted_safe : ∀ i q s, admitted q → Inv s → safe false i (λ _ _, True) q s.
Hypothesis env_ok : ∀ e s, Inv s → Inv (env e s) ∧ ∀ j, Rely j s (env e s).

Lemma act_ok m p p' : admissible m → pool_ok p → act m p = Some p' → pool_ok p'.
Proof.
  intros Hm [Hi Ht]. destruct m as [i w|i q|i|e]; simpl.
  - destruct (pl_threads p !! i) as [[a|X o k]|] eqn:Hq; try done.
    pose proof (Ht i _ Hq (pl_store p) ltac:(reflexivity) Hi w) as Hs.
    destruct (exec i X o w (pl_store p)) as [x s2]. destruct Hs as (Hi2 & Hr & Hk).
    intros [= <-]. split; simpl; [done|]. intros j r. rewrite lookup_insert.
    case_decide; [intros [= <-]; by subst|]. intros Hj.
    eapply safe_mono; [apply Hr; by right|by apply Ht].
  - destruct (pl_threads p !! i) eqn:Hn; [done|]. intros [= <-]. split; simpl; [done|].
    intros j r. rewrite lookup_insert. case_decide; [intros [= <-]; by apply admitted_safe|by apply Ht].
  - intros [= <-]. split; simpl; [done|]. intros j r [_ Hj]%lookup_delete_Some. by apply Ht.
  - intros [= <-]. destruct (env_ok e _ Hi) as [Hi2 Hr]. split; simpl; [done|].
    intros j r Hj. eapply safe_mono; [by apply Hr|by apply Ht].
Qed.

Lemma play_safe ms p p' : Forall admissible ms → pool_ok p → play ms p = Some p' → pool_ok p'.
Proof.
  intros Hms. revert p. induction Hms as [|m ms Hm Hms IH]; intros p Hp; simpl; [by intros [= <-]|].
  intros (p1 & H1 & H2)%bind_Some. eapply IH; [|done]. by eapply act_ok.
Qed.

(** What a run keeps for a thread that makes no call in it. *)
Definition silent (j : nat) (m : move) : Prop := match m with Call i _ => i ≠ j | _ => True end.

Lemma some_silent ms : ∃ j, Forall (silent j) ms.
Proof.
  assert (∃ n, Forall (λ m, match m with Call i _ => (i < n)%nat | _ => True end) ms) as [n Hn].
  { induction ms as [|m ms [n Hn]]; [by exists 0%nat|].
    exists (n + match m with Call i _ => Datatypes.S i | _ => 0 end)%nat. constructor.
    - destruct m; simpl; lia.
    - eapply Forall_impl; [exact Hn|]. intros [] ?; simpl in *; [lia|done..]. }
  exists n. eapply Forall_impl; [exact Hn|]. intros []; simpl; lia || done.
Qed.

Lemma act_relies j m p p' :
  silent j m → pool_ok p → act m p = Some p' → Rely j (pl_store p) (pl_store p').
Proof.
  intros Hj [Hi Ht]. destruct m as [i w|i q|i|e]; simpl in *.
  - destruct (pl_threads p !! i) as [[a|X o k]|] eqn:Hq; try done.
    pose proof (Ht i _ Hq (pl_store p) ltac:(reflexivity) Hi w) as Hs.
    destruct (exec i X o w (pl_store p)) as [x s2]. destruct Hs as (_ & Hr & _).
    intros [= <-]. apply Hr. by right.
  - destruct (pl_threads p !! i); [done|]. intros [= <-]. simpl. reflexivity.
  - intros [= <-]. simpl. reflexivity.
  - intros [= <-]. simpl. by apply env_ok.
Qed.

Lemma play_relies j ms p p' :
  Forall admissible ms → Forall (silent j) ms → pool_ok p → play ms p = Some p' →
  Rely j (pl_store p) (pl_store p').
Proof.
  intros Hms Hj. revert p Hms. induction Hj as [|m ms Hm Hj IH]; intros p Hms Hp; simpl.
  - intros [= <-]. reflexivity.
  - intros (p1 & H1 & H2)%bind_Some. apply Forall_cons in Hms as [Ha Hms].
    etransitivity; [by eapply act_relies|]. eapply IH; [done| |done]. by eapply act_ok.
Qed.
End Pool.

#[global] Arguments mkPool {op S R}.
#[global] Arguments Call {op W E R}.
#[global] Arguments Spawn {op W E R}.
#[global] Arguments Crash {op W E R}.
#[global] Arguments Env {op W E R}.
