(* ===== verification/PaymentData.v ===== *)
(** * Payment orders: data, currencies and provider identity

    The row of a payment order, the constants of payment/types.go, currencies
    (payment/currency.go, service/payment_currency.go) and the checks that tie a
    notification to the provider an order was created with
    (service/payment_order_provider_snapshot.go, the resolution of provider
    instances in service/payment_refund.go, service/payment_fulfillment.go).

    The columns of a row are grouped: those fixed when the order is created, those
    of the payment, those of refunds.  Status columns hold the constants of the
    program only. *)

From Stdlib Require Import ZArith Lia Ascii String SpecFloat.
From stdpp Require Import base tactics numbers list gmap strings.
From S2P Require Import Prelude GoStrings GoFloat.

Open Scope go_scope.

(** ** Constants *)

Definition TypeAlipay : string := "alipay".
Definition TypeWxpay : string := "wxpay".
Definition TypeAlipayDirect : string := "alipay_direct".
Definition TypeWxpayDirect : string := "wxpay_direct".
Definition TypeStripe : string := "stripe".
Definition TypeCard : string := "card".
Definition TypeLink : string := "link".
Definition TypeEasyPay : string := "easypay".
Definition TypeAirwallex : string := "airwallex".

Inductive OrderStatus :=
| OrderStatusPending
| OrderStatusPaid
| OrderStatusRecharging
| OrderStatusCompleted
| OrderStatusExpired
| OrderStatusCancelled
| OrderStatusFailed
| OrderStatusRefundRequested
| OrderStatusRefunding
| OrderStatusRefundPending
| OrderStatusPartiallyRefunded
| OrderStatusRefunded
| OrderStatusRefundFailed.

#[export] Instance OrderStatus_eq_dec : EqDecision OrderStatus.
Proof. solve_decision. Defined.

Definition OrderTypeBalance : string := "balance".
Definition OrderTypeSubscription : string := "subscription".
Definition OrderSourcePayment : string := "payment".
Definition OrderSourceRedeem : string := "redeem".

Inductive DeductionType := DeductionTypeBalance | DeductionTypeSubscription | DeductionTypeNone.

#[export] Instance DeductionType_eq_dec : EqDecision DeductionType.
Proof. solve_decision. Defined.

Definition NotificationStatusSuccess : string := "success".
Definition ProviderStatusPending : string := "pending".
Definition ProviderStatusPaid : string := "paid".
Definition ProviderStatusSuccess : string := "success".
Definition ProviderStatusFailed : string := "failed".
Definition ProviderStatusRefunded : string := "refunded".

Definition EntityStatusActive : string := "active".

Definition psIsRefundStatus (s : OrderStatus) : bool :=
  match s with
  | OrderStatusRefundRequested | OrderStatusRefunding | OrderStatusRefundPending
  | OrderStatusPartiallyRefunded | OrderStatusRefunded | OrderStatusRefundFailed => true
  | _ => false
  end.

(** ** The row of an order *)

(** A value of the JSON column [provider_snapshot]; of a number the integer part. *)
Inductive snapshot_value := SnapString (s : string) | SnapNumber (z : Z) | SnapOther.

(** Fixed when the order is created. *)
Record OrderBase := mkBase {
  po_ID : Z;
  po_UserID : Z;
  po_Amount : float64;
  po_BonusAmount : float64;
  po_RechargeCode : string;
  po_OutTradeNo : string;
  po_PaymentType : string;
  po_OrderSource : string;
  po_Currency : string;
  po_OrderType : string;
  po_SubscriptionGroupID : option Z;
  po_SubscriptionDays : option Z;
  po_ProviderInstanceID : option string;
  po_ProviderKey : option string;
  po_ProviderSnapshot : gmap string snapshot_value;
  po_ExpiresAt : Z
}.

Record OrderPayment := mkPayment {
  pay_PayAmount : float64;
  pay_TradeNo : string;
  pay_PaidAt : option Z;
  pay_CompletedAt : option Z;
  pay_FailedAt : option Z;
  pay_FailedReason : option string
}.

Record OrderRefund := mkRefund {
  rf_RefundAmount : float64;
  rf_RefundReason : option string;
  rf_RefundAt : option Z;
  rf_ForceRefund : bool;
  rf_RequestedAt : option Z;
  rf_RequestReason : option string;
  rf_RequestedBy : option string
}.

Record PaymentOrder := mkOrder {
  po_base : OrderBase;
  po_Status : OrderStatus;
  po_payment : OrderPayment;
  po_refund : OrderRefund;
  po_UpdatedAt : Z
}.

Record PaymentProviderInstance := mkInstance {
  pi_ID : Z;
  pi_ProviderKey : string;
  pi_SupportedTypes : string;
  pi_Enabled : bool;
  pi_RefundEnabled : bool;
  pi_AllowUserRefund : bool
}.

Definition psStringValue (value : option string) : string := default ""%string value.

(** ** Payment types *)

Definition GetBasePaymentType (t : string) : string :=
  if String.eqb t TypeEasyPay then TypeEasyPay
  else if String.eqb t TypeAirwallex then TypeAirwallex
  else if String.eqb t TypeStripe || String.eqb t TypeCard || String.eqb t TypeLink then TypeStripe
  else if HasPrefix t TypeAlipay then TypeAlipay
  else if HasPrefix t TypeWxpay then TypeWxpay
  else t.

Definition normalizeVisibleMethodSupportType (paymentType : string) : string :=
  let t := TrimSpace paymentType in
  if String.eqb t TypeAlipay || String.eqb t TypeAlipayDirect then TypeAlipay
  else if String.eqb t TypeWxpay || String.eqb t TypeWxpayDirect then TypeWxpay
  else t.

Definition InstanceSupportsType (supportedTypes target : string) : bool :=
  if String.eqb supportedTypes "" then true else
  let normalizedTarget := normalizeVisibleMethodSupportType target in
  existsb (λ t,
      let supported := TrimSpace t in
      String.eqb supported target
      || String.eqb (normalizeVisibleMethodSupportType supported) normalizedTarget)
    (Split supportedTypes ","%char).

(** ** Currencies *)

Record paymentCurrencyAmountUnit := mkUnit { apiMinorUnit : Z; maxFractionDigits : Z }.

Definition DefaultPaymentCurrency : string := "CNY".
Definition zeroDecimalAmountUnit := mkUnit 0 0.
Definition twoDecimalAmountUnit := mkUnit 2 2.
Definition threeDecimalAmountUnit := mkUnit 3 3.
Definition stripeLegacyZeroAmount := mkUnit 2 0.

Definition paymentCurrencyAmountUnits : list (string * paymentCurrencyAmountUnit) :=
  ((λ c, (c, zeroDecimalAmountUnit)) <$>
     ["BIF"; "CLP"; "DJF"; "GNF"; "JPY"; "KMF"; "KRW"; "MGA"; "PYG"; "RWF"; "VND"; "VUV"; "XAF";
      "XOF"; "XPF"]%string)
  ++ ((λ c, (c, stripeLegacyZeroAmount)) <$> ["ISK"; "UGX"]%string)
  ++ ((λ c, (c, threeDecimalAmountUnit)) <$>
     ["BHD"; "IQD"; "JOD"; "KWD"; "LYD"; "OMR"; "TND"]%string).

Section Currency.
Context `{UnicodeCase}.

Definition NormalizePaymentCurrency (raw : string) : option string :=
  let currency := ToUpper (TrimSpace raw) in
  if String.eqb currency "" then Some DefaultPaymentCurrency
  else if negb (len currency =? 3) then None
  else if forallb (between 65 90) (runes currency) then Some currency else None.

Definition paymentCurrencyAmountUnitFor (currency : string) : paymentCurrencyAmountUnit :=
  match NormalizePaymentCurrency currency with
  | None => twoDecimalAmountUnit
  | Some normalized =>
      match List.find (λ u, String.eqb u.1 normalized) paymentCurrencyAmountUnits with
      | Some u => u.2
      | None => twoDecimalAmountUnit
      end
  end.

Definition CurrencyMinorUnit (currency : string) : Z := apiMinorUnit (paymentCurrencyAmountUnitFor currency).
Definition CurrencyMaxFractionDigits (currency : string) : Z :=
  maxFractionDigits (paymentCurrencyAmountUnitFor currency).

Definition amountToleranceCNY : float64 := decimal_literal 1 2.

(** [math.Pow10(-minorUnit) / 2]; [math.Pow10] of a small negative integer is the
    correctly rounded quotient. *)
Definition paymentAmountToleranceForCurrency (currency : string) : float64 :=
  let minorUnit := CurrencyMinorUnit currency in
  if minorUnit <=? 2 then amountToleranceCNY
  else fdiv (decimal_literal 1 minorUnit) (float_of_Z 2).

Definition isValidProviderAmount (amount : float64) : bool :=
  (fzero <. amount) && negb (IsNaN amount) && negb (IsInf amount).

(** ** The provider snapshot of an order *)

Record paymentOrderProviderSnapshot := mkProviderSnapshot {
  ps_SchemaVersion : Z;
  ps_ProviderInstanceID : string;
  ps_ProviderKey : string;
  ps_PaymentMode : string;
  ps_MerchantAppID : string;
  ps_MerchantID : string;
  ps_Currency : string
}.

Definition psSnapshotStringValue (v : option snapshot_value) : string :=
  match v with Some (SnapString s) => TrimSpace s | _ => "" end.

Definition psSnapshotIntValue (v : option snapshot_value) : Z :=
  match v with
  | Some (SnapNumber z) => z
  | Some (SnapString s) => default 0 (ParseInt (TrimSpace s))
  | _ => 0
  end.

Definition psOrderProviderSnapshot (o : OrderBase) : option paymentOrderProviderSnapshot :=
  let raw := po_ProviderSnapshot o in
  if bool_decide (raw = ∅) then None else
  let str k := psSnapshotStringValue (raw !! k) in
  let snapshot := mkProviderSnapshot (psSnapshotIntValue (raw !! "schema_version"%string))
    (str "provider_instance_id"%string) (str "provider_key"%string) (str "payment_mode"%string)
    (str "merchant_app_id"%string) (str "merchant_id"%string) (str "currency"%string) in
  if (ps_SchemaVersion snapshot =? 0) && String.eqb (ps_ProviderInstanceID snapshot) ""
     && String.eqb (ps_ProviderKey snapshot) "" && String.eqb (ps_PaymentMode snapshot) ""
     && String.eqb (ps_MerchantAppID snapshot) "" && String.eqb (ps_MerchantID snapshot) ""
     && String.eqb (ps_Currency snapshot) ""
  then None else Some snapshot.

Definition PaymentOrderCurrency (o : OrderBase) : string :=
  if negb (String.eqb (po_Currency o) "") then po_Currency o else
  match psOrderProviderSnapshot o with
  | Some snapshot => default DefaultPaymentCurrency (NormalizePaymentCurrency (ps_Currency snapshot))
  | None => DefaultPaymentCurrency
  end.
End Currency.
