(* ===== verification/PaymentProvider.v ===== *)
(** * Payment providers: who may confirm an order

    The provider instance an order is bound to (getOrderProviderInstance and
    getRefundOrderProviderInstance in service/payment_refund.go), the provider key a
    notification must carry and the merchant identity it must match
    (service/payment_order_provider_snapshot.go), and the parsing of legacy order
    numbers (service/payment_fulfillment.go).  The table of instances and the
    registry of providers are maps. *)

From Stdlib Require Import ZArith Lia Ascii String SpecFloat.
From stdpp Require Import base tactics numbers list gmap strings.
From S2P Require Import Prelude GoStrings GoFloat PaymentData.

Open Scope go_scope.

(** Errors are their reason codes or the beginning of their message. *)
Definition pay_error : Type := string.

Section Providers.
Context `{UnicodeCase}.

(** The table of instances, and the provider key registered for a payment type. *)
Record providers := mkProviders {
  pv_instances : gmap Z PaymentProviderInstance;
  pv_registry : gmap string string
}.

Implicit Types (o : OrderBase) (pv : providers).

(** A missing instance ends the resolution with an error. *)
Definition resolveSnapshotOrderProviderInstance (pv : providers) (o : OrderBase)
    (snapshot : paymentOrderProviderSnapshot) : pay_error + option PaymentProviderInstance :=
  let columnInstanceID := TrimSpace (psStringValue (po_ProviderInstanceID o)) in
  let snapshotInstanceID := TrimSpace (ps_ProviderInstanceID snapshot) in
  let snapshotInstanceID :=
    if String.eqb snapshotInstanceID "" then columnInstanceID else snapshotInstanceID in
  if String.eqb snapshotInstanceID "" then inl "snapshot is missing provider_instance_id"%string
  else if negb (String.eqb columnInstanceID "") && negb (String.eqb (ps_ProviderInstanceID snapshot) "")
          && negb (EqualFold columnInstanceID (ps_ProviderInstanceID snapshot))
  then inl "snapshot instance mismatch"%string
  else
    match ParseInt snapshotInstanceID with
    | None => inl "snapshot instance id is invalid"%string
    | Some instID =>
        match pv_instances pv !! instID with
        | None => inl "snapshot instance is missing"%string
        | Some inst =>
            if negb (String.eqb (ps_ProviderKey snapshot) "")
               && negb (EqualFold (TrimSpace (pi_ProviderKey inst)) (ps_ProviderKey snapshot))
            then inl "snapshot key mismatch"%string
            else inr (Some inst)
        end
    end.

Definition psLegacyOrderMatchesInstance (orderPaymentType : string) (inst : PaymentProviderInstance)
    : bool :=
  let baseType := GetBasePaymentType (TrimSpace orderPaymentType) in
  let instanceProviderKey := TrimSpace (pi_ProviderKey inst) in
  if String.eqb baseType "" then false
  else if String.eqb baseType TypeStripe then String.eqb instanceProviderKey TypeStripe
  else if String.eqb instanceProviderKey TypeStripe then false
  else if String.eqb instanceProviderKey baseType then true
  else InstanceSupportsType (pi_SupportedTypes inst) baseType.

Definition psFilterLegacyOrderProviderInstances (orderPaymentType : string)
    (instances : list PaymentProviderInstance) : list PaymentProviderInstance :=
  if String.eqb (TrimSpace orderPaymentType) "" then instances
  else List.filter (psLegacyOrderMatchesInstance orderPaymentType) instances.

(** Only a unique candidate counts. *)
Definition resolveUniqueLegacyOrderProviderInstance (pv : providers) (o : OrderBase)
    : option PaymentProviderInstance :=
  let paymentType := GetBasePaymentType (TrimSpace (po_PaymentType o)) in
  let providerKey := TrimSpace (psStringValue (po_ProviderKey o)) in
  let all := (map_to_list (pv_instances pv)).*2 in
  let unique (l : list PaymentProviderInstance) := match l with [x] => Some x | _ => None end in
  if negb (String.eqb providerKey "") then
    unique (psFilterLegacyOrderProviderInstances paymentType
              (List.filter (λ i, String.eqb (pi_ProviderKey i) providerKey) all))
  else if String.eqb paymentType "" then None
  else unique (psFilterLegacyOrderProviderInstances paymentType all).

Definition getOrderProviderInstance (pv : providers) (o : OrderBase)
    : pay_error + option PaymentProviderInstance :=
  match psOrderProviderSnapshot o with
  | Some snapshot => resolveSnapshotOrderProviderInstance pv o snapshot
  | None =>
      let instIDStr := TrimSpace (psStringValue (po_ProviderInstanceID o)) in
      if String.eqb instIDStr "" then inr (resolveUniqueLegacyOrderProviderInstance pv o) else
      match ParseInt instIDStr with
      | None => inr None
      | Some instID =>
          match pv_instances pv !! instID with
          | Some inst => inr (Some inst)
          | None => inl "instance not found"%string
          end
      end
  end.

(** Refunds never guess the instance. *)
Definition getRefundOrderProviderInstance (pv : providers) (o : OrderBase)
    : pay_error + option PaymentProviderInstance :=
  if String.eqb (po_OrderSource o) OrderSourceRedeem then inl "REDEEM_ORDER_REFUND_DISABLED"%string
  else
    match psOrderProviderSnapshot o with
    | Some snapshot => resolveSnapshotOrderProviderInstance pv o snapshot
    | None =>
        let instIDStr := TrimSpace (psStringValue (po_ProviderInstanceID o)) in
        if String.eqb instIDStr "" then inr None else
        match ParseInt instIDStr with
        | None => inl "refund provider instance id is invalid"%string
        | Some instID =>
            match pv_instances pv !! instID with
            | Some inst => inr (Some inst)
            | None => inl "refund provider instance is missing"%string
            end
        end
    end.

Definition expectedNotificationProviderKey (pv : providers)
    (orderPaymentType orderProviderKey instanceProviderKey : string) : string :=
  let registered :=
    match pv_registry pv !! orderPaymentType with Some key => TrimSpace key | None => ""%string end in
  if negb (String.eqb (TrimSpace instanceProviderKey) "") then TrimSpace instanceProviderKey
  else if negb (String.eqb (TrimSpace orderProviderKey) "") then TrimSpace orderProviderKey
  else if negb (String.eqb registered "") then registered
  else TrimSpace orderPaymentType.

Definition expectedNotificationProviderKeyForOrder (pv : providers) (o : OrderBase)
    (instanceProviderKey : string) : string :=
  let orderProviderKey :=
    match psOrderProviderSnapshot o with
    | Some snapshot =>
        if negb (String.eqb (ps_ProviderKey snapshot) "") then ps_ProviderKey snapshot
        else psStringValue (po_ProviderKey o)
    | None => psStringValue (po_ProviderKey o)
    end in
  expectedNotificationProviderKey pv (po_PaymentType o) orderProviderKey instanceProviderKey.

(** ** Merchant identity *)

Definition metadata_map : Type := gmap string string.

Definition field (metadata : metadata_map) (key : string) : string :=
  TrimSpace (default ""%string (metadata !! key)).

(** A field the snapshot has must be present and equal up to case. *)
Definition identity_check (expected actual missing mismatch : string) : option pay_error :=
  if String.eqb (TrimSpace expected) "" then None
  else if String.eqb actual "" then Some missing
  else if negb (EqualFold (TrimSpace expected) actual) then Some mismatch
  else None.

(** A state field may be absent, and otherwise must be the given one. *)
Definition state_check (actual wanted mismatch : string) : option pay_error :=
  if negb (String.eqb actual "") && negb (EqualFold actual wanted) then Some mismatch else None.

(** The first check that fails. *)
Definition first_error (checks : list (option pay_error)) : option pay_error :=
  foldr (λ c rest, match c with Some e => Some e | None => rest end) None checks.

Definition validateProviderSnapshotMetadata (o : OrderBase) (providerKey : string)
    (metadata : metadata_map) : option pay_error :=
  if bool_decide (metadata = ∅) then None else
  match psOrderProviderSnapshot o with
  | None => None
  | Some snapshot =>
      let key := TrimSpace providerKey in
      let currency := ToUpper (field metadata "currency") in
      if String.eqb key TypeWxpay then
        first_error
          [identity_check (ps_MerchantAppID snapshot) (field metadata "appid")
             "wxpay notification missing appid" "wxpay appid mismatch";
           identity_check (ps_MerchantID snapshot) (field metadata "mchid")
             "wxpay notification missing mchid" "wxpay mchid mismatch";
           identity_check (ps_Currency snapshot) currency
             "wxpay notification missing currency" "wxpay currency mismatch";
           state_check (field metadata "trade_state") "SUCCESS" "wxpay trade_state mismatch"]
      else if String.eqb key TypeAlipay then
        first_error
          [identity_check (ps_MerchantAppID snapshot) (field metadata "app_id")
             "alipay app_id missing" "alipay app_id mismatch"]
      else if String.eqb key TypeEasyPay then
        first_error
          [identity_check (ps_MerchantID snapshot) (field metadata "pid")
             "easypay pid missing" "easypay pid mismatch"]
      else if String.eqb key TypeStripe then
        first_error
          [identity_check (ps_Currency snapshot) currency
             "stripe notification missing currency" "stripe currency mismatch"]
      else if String.eqb key TypeAirwallex then
        first_error
          [identity_check (ps_MerchantID snapshot) (field metadata "account_id")
             "airwallex account_id missing" "airwallex account_id mismatch";
           identity_check (ps_Currency snapshot) currency
             "airwallex notification missing currency" "airwallex currency mismatch";
           state_check (field metadata "status") "SUCCEEDED" "airwallex status mismatch"]
      else None
  end.

(** ** Checks of a notification *)

(** The rejections of confirmPayment before the order is marked paid: the reason is
    also the action of the audit entry that records it, when there is one. *)
Definition provider_key_mismatch (pv : providers) (o : OrderBase) (pk : string) : bool :=
  let instanceProviderKey :=
    match getOrderProviderInstance pv o with
    | inr (Some inst) => pi_ProviderKey inst
    | _ => ""%string
    end in
  let expected := expectedNotificationProviderKeyForOrder pv o instanceProviderKey in
  negb (String.eqb expected "") && negb (String.eqb (TrimSpace pk) "")
  && negb (EqualFold expected (TrimSpace pk)).

Definition amount_mismatch (o : PaymentOrder) (paid : float64) : bool :=
  paymentAmountToleranceForCurrency (PaymentOrderCurrency (po_base o))
    <. Abs (fsub paid (pay_PayAmount (po_payment o))).

Definition confirm_rejection (pv : providers) (o : PaymentOrder) (paid : float64) (pk : string)
    (metadata : metadata_map) : option pay_error :=
  if String.eqb (po_OrderSource (po_base o)) OrderSourceRedeem
  then Some "REDEEM_ORDER_PAYMENT_DISABLED"%string
  else if provider_key_mismatch pv (po_base o) pk then Some "PAYMENT_PROVIDER_MISMATCH"%string
  else if bool_decide (is_Some (validateProviderSnapshotMetadata (po_base o) pk metadata))
  then Some "PAYMENT_PROVIDER_METADATA_MISMATCH"%string
  else if negb (isValidProviderAmount paid) then Some "PAYMENT_INVALID_AMOUNT"%string
  else if amount_mismatch o paid then Some "PAYMENT_AMOUNT_MISMATCH"%string
  else None.

(** ** Legacy order numbers *)

Definition orderIDPrefix : string := "sub2_".

(** Applies only when the lookup by number found nothing. *)
Definition parseLegacyPaymentOrderID (orderID : string) : option Z :=
  let orderID := TrimSpace orderID in
  if negb (HasPrefix orderID orderIDPrefix) then None else
  let trimmed := TrimPrefix orderID orderIDPrefix in
  if String.eqb trimmed "" || String.eqb trimmed orderID then None else
  match ParseInt trimmed with
  | Some oid => if oid <=? 0 then None else Some oid
  | None => None
  end.
End Providers.
