(* ===== verification/PaymentRejection.v ===== *)
(** * Payment orders: which notifications are improper

    What makes a notification improper for an order, said without the order of the
    checks: the provider it may come from, the merchant identity it must carry (as
    tables of fields), and the amount.  [confirm_rejection] rejects exactly the
    improper ones. *)

From Stdlib Require Import ZArith Lia Ascii String SpecFloat.
From stdpp Require Import base tactics numbers list gmap strings.
From S2P Require Import Prelude GoStrings GoFloat PaymentData PaymentProvider.

Open Scope go_scope.

Section Rejection.
Context `{UnicodeCase}.
Implicit Types (o : OrderBase) (pv : providers).

(** ** The provider *)

(** Something is left of the text without surrounding blanks. *)
Definition named (s : string) : Prop := TrimSpace s ≠ ""%string.

#[local] Instance named_dec s : Decision (named s).
Proof. unfold named. apply _. Defined.

(** The first text of a list that names something. *)
Inductive first_named : list string → string → Prop :=
| first_here s l : named s → first_named (s :: l) (TrimSpace s)
| first_later s l k : ¬ named s → first_named l k → first_named (s :: l) k.

(** The provider of the instance an order is bound to. *)
Definition bound_key (pv : providers) (o : OrderBase) : string :=
  match getOrderProviderInstance pv o with inr (Some inst) => pi_ProviderKey inst | _ => ""%string end.

(** The provider recorded with an order: in its snapshot or else in its column. *)
Definition recorded_key (o : OrderBase) : string :=
  match psOrderProviderSnapshot o with
  | Some snapshot => if decide (ps_ProviderKey snapshot = ""%string) then psStringValue (po_ProviderKey o)
                     else ps_ProviderKey snapshot
  | None => psStringValue (po_ProviderKey o)
  end.

(** Who may notify: the provider of the instance, the recorded one, the one registered
    for the payment type or the type itself, the first of these that is known. *)
Definition provider_of (pv : providers) (o : OrderBase) : string → Prop :=
  first_named [bound_key pv o; recorded_key o; default ""%string (pv_registry pv !! po_PaymentType o); po_PaymentType o].

Definition wrong_provider (pv : providers) (o : OrderBase) (pk : string) : Prop :=
  named pk ∧ ∃ key, provider_of pv o key ∧ EqualFold key (TrimSpace pk) = false.

Lemma first_named_spec s l k :
  first_named (s :: l) k ↔ if decide (named s) then k = TrimSpace s else first_named l k.
Proof.
  case_decide as Hs; split.
  - inversion 1; subst; [done|contradiction].
  - intros ->. by constructor.
  - inversion 1; subst; [contradiction|done].
  - by constructor 2.
Qed.

Lemma first_named_nil k : ¬ first_named [] k.
Proof. inversion 1. Qed.

Lemma provider_key_mismatch_spec pv o pk : provider_key_mismatch pv o pk = true ↔ wrong_provider pv o pk.
Proof.
  unfold provider_key_mismatch, wrong_provider. fold (bound_key pv o).
  set (expected := expectedNotificationProviderKeyForOrder pv o (bound_key pv o)).
  assert (∀ key, provider_of pv o key ↔ key = expected ∧ expected ≠ ""%string) as Hexp.
  { intros key. unfold provider_of, expected, expectedNotificationProviderKeyForOrder, expectedNotificationProviderKey.
    assert (match psOrderProviderSnapshot o with
            | Some snapshot => if negb (String.eqb (ps_ProviderKey snapshot) "") then ps_ProviderKey snapshot
                               else psStringValue (po_ProviderKey o)
            | None => psStringValue (po_ProviderKey o)
            end = recorded_key o) as ->.
    { unfold recorded_key. destruct (psOrderProviderSnapshot o) as [sn|]; [|done].
      destruct (String.eqb_spec (ps_ProviderKey sn) ""); case_decide; done. }
    assert (match pv_registry pv !! po_PaymentType o with Some key => TrimSpace key | None => ""%string end
            = TrimSpace (default ""%string (pv_registry pv !! po_PaymentType o))) as ->
      by by destruct (pv_registry pv !! po_PaymentType o).
    do 3 (rewrite first_named_spec; unfold named; case_decide as Hn;
      [rewrite (proj2 (String.eqb_neq _ _) Hn); simpl; split; [by intros ->|by intros [-> _]]|
       rewrite Hn, ?String.eqb_refl; clear Hn; simpl]).
    rewrite first_named_spec. unfold named. case_decide as Hn; [split; [by intros ->|by intros [-> _]]|].
    rewrite Hn. split; [by intros ?%first_named_nil|by intros [_ ?]]. }
  rewrite !andb_true_iff, !negb_true_iff, !String.eqb_neq. unfold named. split.
  - intros [[He Hp] Hf]. split; [done|]. exists expected. by rewrite Hexp.
  - intros [Hp (key & [-> He]%Hexp & Hf)]. done.
Qed.

(** ** The merchant *)

(** Per provider: the field of the notification, and the identity of the order it must
    show if the order has it. *)
Definition identity_table : list (string * string * (paymentOrderProviderSnapshot → string)) :=
  [(TypeWxpay, "appid"%string, ps_MerchantAppID); (TypeWxpay, "mchid"%string, ps_MerchantID);
   (TypeWxpay, "currency"%string, ps_Currency); (TypeAlipay, "app_id"%string, ps_MerchantAppID);
   (TypeEasyPay, "pid"%string, ps_MerchantID); (TypeStripe, "currency"%string, ps_Currency);
   (TypeAirwallex, "account_id"%string, ps_MerchantID); (TypeAirwallex, "currency"%string, ps_Currency)].

(** Per provider: the field that says how the payment went, and what it says of one
    that succeeded. *)
Definition state_table : list (string * string * string) :=
  [(TypeWxpay, "trade_state"%string, "SUCCESS"%string); (TypeAirwallex, "status"%string, "SUCCEEDED"%string)].

(** What a notification says in a field; currencies in capitals. *)
Definition said (metadata : metadata_map) (name : string) : string :=
  if String.eqb name "currency" then ToUpper (field metadata name) else field metadata name.

Inductive wrong_merchant (o : OrderBase) (pk : string) (metadata : metadata_map) : Prop :=
| wrong_identity snapshot name identity :
    metadata ≠ ∅ → psOrderProviderSnapshot o = Some snapshot → (TrimSpace pk, name, identity) ∈ identity_table →
    named (identity snapshot) →
    said metadata name = ""%string ∨ EqualFold (TrimSpace (identity snapshot)) (said metadata name) = false →
    wrong_merchant o pk metadata
| wrong_state snapshot name wanted :
    metadata ≠ ∅ → psOrderProviderSnapshot o = Some snapshot → (TrimSpace pk, name, wanted) ∈ state_table →
    said metadata name ≠ ""%string → EqualFold (said metadata name) wanted = false →
    wrong_merchant o pk metadata.

Lemma identity_check_spec expected actual missing mismatch :
  is_Some (identity_check expected actual missing mismatch) ↔
  named expected ∧ (actual = ""%string ∨ EqualFold (TrimSpace expected) actual = false).
Proof.
  unfold identity_check, named. destruct (String.eqb_spec (TrimSpace expected) ""); [split; [by intros [? ?]|tauto]|].
  destruct (String.eqb_spec actual ""); [split; [tauto|by eexists]|].
  destruct (EqualFold _ _); simpl; split; try (intros [? ?]); destruct_or?; try done; eauto.
Qed.

Lemma state_check_spec actual wanted mismatch :
  is_Some (state_check actual wanted mismatch) ↔ actual ≠ ""%string ∧ EqualFold actual wanted = false.
Proof.
  unfold state_check. destruct (String.eqb_spec actual ""); simpl; [split; [by intros [? ?]|tauto]|].
  destruct (EqualFold _ _); simpl; split; try (intros [? ?]); try done; eauto.
Qed.

Lemma first_error_spec checks : is_Some (first_error checks) ↔ Exists is_Some checks.
Proof.
  induction checks as [|[e|] l IH]; simpl.
  - split; [by intros [? ?]|]. by intros ?%Exists_nil.
  - split; [|by eexists]. intros _. apply Exists_cons. left. by eexists.
  - rewrite IH, Exists_cons. split; [by right|]. intros [[? ?]|?]; done.
Qed.

Lemma keys_differ (a b : string) : String.eqb a b = false → a ≠ b ∧ b ≠ a.
Proof. intros ?%String.eqb_neq. by split. Qed.

(** The checks of one provider. *)
Lemma wrong_merchant_cases o pk metadata snapshot :
  metadata ≠ ∅ → psOrderProviderSnapshot o = Some snapshot →
  wrong_merchant o pk metadata ↔
  Exists (λ row, TrimSpace pk = row.1.1 ∧ named (row.2 snapshot) ∧
            (said metadata row.1.2 = ""%string ∨ EqualFold (TrimSpace (row.2 snapshot)) (said metadata row.1.2) = false))
    identity_table ∨
  Exists (λ row, TrimSpace pk = row.1.1 ∧ said metadata row.1.2 ≠ ""%string ∧
            EqualFold (said metadata row.1.2) row.2 = false) state_table.
Proof.
  intros Hm Hs. rewrite !Exists_exists. split.
  - intros [sn name identity _ Hsn Hin Hn Hw|sn name wanted _ _ Hin Hn Hw].
    + left. exists (TrimSpace pk, name, identity). by simplify_eq.
    + right. by exists (TrimSpace pk, name, wanted).
  - intros [([[key name] identity] & Hin & Hk & Hn & Hw)|([[key name] wanted] & Hin & Hk & Hn & Hw)];
      cbn [fst snd] in *; subst key.
    + by apply (wrong_identity _ _ _ snapshot name identity).
    + by apply (wrong_state _ _ _ snapshot name wanted).
Qed.

Lemma validate_metadata_spec o pk metadata :
  is_Some (validateProviderSnapshotMetadata o pk metadata) ↔ wrong_merchant o pk metadata.
Proof.
  unfold validateProviderSnapshotMetadata. case_bool_decide as Hm.
  { split; [by intros [? ?]|by intros [? ? ? []|? ? ? []]]. }
  destruct (psOrderProviderSnapshot o) as [sn|] eqn:Hs.
  2: { split; [by intros [? ?]|by intros [? ? ? _ Hsn|? ? ? _ Hsn]; rewrite Hs in Hsn]. }
  rewrite (wrong_merchant_cases o pk metadata sn Hm Hs). unfold identity_table, state_table.
  rewrite !Exists_cons, !Exists_nil. cbn [fst snd said String.eqb].
  set (key := TrimSpace pk).
  repeat match goal with
  | |- context [String.eqb key ?x] => destruct (String.eqb_spec key x) as [->|?]
  end; rewrite ?first_error_spec, ?Exists_cons, ?Exists_nil, ?identity_check_spec, ?state_check_spec.
  all: change (said metadata "appid") with (field metadata "appid");
    change (said metadata "mchid") with (field metadata "mchid");
    change (said metadata "app_id") with (field metadata "app_id");
    change (said metadata "pid") with (field metadata "pid");
    change (said metadata "account_id") with (field metadata "account_id");
    change (said metadata "trade_state") with (field metadata "trade_state");
    change (said metadata "status") with (field metadata "status");
    change (said metadata "currency") with (ToUpper (field metadata "currency")).
  all: destruct (keys_differ TypeWxpay TypeAlipay eq_refl), (keys_differ TypeWxpay TypeEasyPay eq_refl),
    (keys_differ TypeWxpay TypeStripe eq_refl), (keys_differ TypeWxpay TypeAirwallex eq_refl),
    (keys_differ TypeAlipay TypeEasyPay eq_refl), (keys_differ TypeAlipay TypeStripe eq_refl),
    (keys_differ TypeAlipay TypeAirwallex eq_refl), (keys_differ TypeEasyPay TypeStripe eq_refl),
    (keys_differ TypeEasyPay TypeAirwallex eq_refl), (keys_differ TypeStripe TypeAirwallex eq_refl).
  all: clear Hs Hm; try tauto. pose proof (is_Some_None (A := pay_error)). tauto.
Qed.

(** ** Improper notifications *)

(** A notification that must not be accepted for an order: the order is one of redeem
    codes, another provider sends it, it is about another merchant or a payment that
    did not succeed, or the amount is no amount or not the order's. *)
Inductive improper (pv : providers) (o : PaymentOrder) (paid : float64) (pk : string) (metadata : metadata_map) : Prop :=
| for_redeem_codes : po_OrderSource (po_base o) = OrderSourceRedeem → improper pv o paid pk metadata
| from_other_provider : wrong_provider pv (po_base o) pk → improper pv o paid pk metadata
| for_other_merchant : wrong_merchant (po_base o) pk metadata → improper pv o paid pk metadata
| of_no_amount : IsNaN paid = true ∨ IsInf paid = true ∨ flt fzero paid = false → improper pv o paid pk metadata
| of_other_amount :
    flt (paymentAmountToleranceForCurrency (PaymentOrderCurrency (po_base o))) (Abs (fsub paid (pay_PayAmount (po_payment o))))
      = true → improper pv o paid pk metadata.

Lemma amount_valid_spec paid :
  isValidProviderAmount paid = false ↔ IsNaN paid = true ∨ IsInf paid = true ∨ flt fzero paid = false.
Proof.
  unfold isValidProviderAmount. destruct (fzero <. paid), (IsNaN paid), (IsInf paid); simpl; naive_solver.
Qed.

Lemma confirm_rejection_spec pv (o : PaymentOrder) paid pk metadata :
  is_Some (confirm_rejection pv o paid pk metadata) ↔ improper pv o paid pk metadata.
Proof.
  unfold confirm_rejection. split.
  - destruct (String.eqb_spec (po_OrderSource (po_base o)) OrderSourceRedeem); [by constructor|].
    destruct (provider_key_mismatch pv (po_base o) pk) eqn:E1; [intros _; by constructor 2; apply provider_key_mismatch_spec|].
    case_bool_decide as E2; [intros _; by constructor 3; apply validate_metadata_spec|].
    destruct (isValidProviderAmount paid) eqn:E3; [|intros _; by constructor 4; apply amount_valid_spec].
    simpl. destruct (amount_mismatch o paid) eqn:E4; [intros _; by constructor 5|by intros [? ?]].
  - intros Hi. destruct (String.eqb_spec (po_OrderSource (po_base o)) OrderSourceRedeem) as [|H0]; [by eexists|].
    destruct (provider_key_mismatch pv (po_base o) pk) eqn:E1; [by eexists|].
    case_bool_decide as E2; [by eexists|]. destruct (negb (isValidProviderAmount paid)) eqn:E3; [by eexists|].
    destruct (amount_mismatch o paid) eqn:E4; [by eexists|]. exfalso. destruct Hi as [|Hi|Hi|Hi|Hi].
    + done.
    + apply provider_key_mismatch_spec in Hi. congruence.
    + by apply validate_metadata_spec in Hi.
    + apply amount_valid_spec in Hi. by rewrite Hi in E3.
    + unfold amount_mismatch in E4. congruence.
Qed.

Lemma confirm_rejection_None pv (o : PaymentOrder) paid pk metadata :
  ¬ improper pv o paid pk metadata → confirm_rejection pv o paid pk metadata = None.
Proof. rewrite <-confirm_rejection_spec. apply eq_None_not_Some. Qed.
End Rejection.
