(* ===== verification/PaymentStore.v ===== *)
(** * Payment orders: the database and its statements

    The tables payments work on: orders, redeem codes, users, the audit trail,
    subscriptions, provider instances.  A statement or a transaction is a [tx]: it
    changes the tables or fails and changes nothing.  A handler reaches the database
    through [Sql], where a failure of the connection is possible before the
    statement or after it took effect, and everything else through a call of its
    own ([stmt]); [exec] says what each call does.

    [db_log] is a history variable: it records each change of a balance and the
    other events the theorems count, and no handler reads it. *)

From Stdlib Require Import ZArith Lia Ascii String.
From stdpp Require Import base tactics numbers list gmap strings.
From S2P Require Import Prelude GoStrings GoFloat GoTime Subscription Programs PaymentData PaymentProvider.

Open Scope go_scope.

(** Decimal columns: the units (of 1e-8) a float64 is stored as in a decimal(20,8)
    and the float64 they are read as; what is read after storing in a decimal(20,2). *)
Class Numeric := {
  column : float64 → Z;
  as_float : Z → float64;
  column2 : float64 → float64
}.

(** ** Tables *)

Definition StatusUnused : string := "unused".
Definition StatusUsed : string := "used".
Definition StatusExpired : string := "expired".

Definition RedeemTypeBalance : string := "balance".
Definition RedeemTypeConcurrency : string := "concurrency".
Definition RedeemTypeSubscription : string := "subscription".
Definition RedeemTypeInvitation : string := "invitation".

(** A row of redeem_codes; codes that generate an order are left out. *)
Record RedeemCode := mkCode {
  rc_ID : Z;
  rc_Code : string;
  rc_Type : string;
  rc_Value : Z;
  rc_Status : string;
  rc_UsedBy : option Z;
  rc_UsedAt : option Z;
  rc_ExpiresAt : option Z;
  rc_GroupID : option Z;
  rc_ValidityDays : Z
}.

Definition IsUsed (r : RedeemCode) : bool := String.eqb (rc_Status r) StatusUsed.

Definition IsExpiredAt (r : RedeemCode) (now : Z) : bool :=
  String.eqb (rc_Status r) StatusExpired
  || (String.eqb (rc_Status r) StatusUnused
      && match rc_ExpiresAt r with Some e => negb (e .After now) | None => false end).

Definition CanUse (r : RedeemCode) (now : Z) : bool :=
  String.eqb (rc_Status r) StatusUnused && negb (IsExpiredAt r now).

(** A user that is not deleted; amounts in units of 1e-8. *)
Record user_row := mkUser { u_Balance : Z; u_TotalRecharged : Z; u_Concurrency : Z }.

(** What a REFUND_PENDING entry records; [pd_requestedAt] is when it was written. *)
Record refundPendingAuditDetail := mkPending {
  pd_RefundID : string;
  pd_RefundAmount : float64;
  pd_CumulativeRefundAmount : float64;
  pd_GatewayAmount : float64;
  pd_Reason : string;
  pd_Force : bool;
  pd_DeductionRollbackOK : bool;
  pd_DeductionHeld : bool;
  pd_DeductionType : DeductionType;
  pd_BalanceDeducted : float64;
  pd_SubDaysDeducted : Z;
  pd_SubscriptionID : Z;
  pd_requestedAt : Z
}.

Inductive audit_detail := AuditText (detail : string) | AuditPending (d : refundPendingAuditDetail).

(** Why a balance changed. *)
Inductive reason :=
| ByCode (code : string)
| TakenForRefund (oid : Z)
| ReturnedForRefund (oid : Z)
| Usage.

(** What is sent to a provider for a refund. *)
Record RefundRequest := mkRefundRequest {
  rq_TradeNo : string;
  rq_OrderID : string;
  rq_Amount : float64;
  rq_Reason : string
}.

Inductive event :=
| Moved (user delta : Z) (why : reason)
| Assigned (oid : Z)
| Rebated (oid : Z)
| Locked (oid : Z) (thread : nat)
| Overwritten (oid : Z) (thread : nat) (before : OrderStatus)
| Sent (oid : Z) (thread : nat) (before : OrderStatus) (request : RefundRequest).

(** The audit trail has a unique index on (order_id, action). *)
Record DB := mkDB {
  db_now : Z;
  db_orders : gmap Z PaymentOrder;
  db_codes : gmap string RedeemCode;
  db_next_code : Z;
  db_users : gmap Z user_row;
  db_audit : gmap (Z * string) audit_detail;
  db_subs : SubTable;
  db_instances : gmap Z PaymentProviderInstance;
  db_log : list event
}.

Definition set_now (t : Z) (s : DB) : DB :=
  mkDB t (db_orders s) (db_codes s) (db_next_code s) (db_users s) (db_audit s) (db_subs s)
    (db_instances s) (db_log s).
Definition set_orders (m : gmap Z PaymentOrder) (s : DB) : DB :=
  mkDB (db_now s) m (db_codes s) (db_next_code s) (db_users s) (db_audit s) (db_subs s)
    (db_instances s) (db_log s).
Definition set_codes (m : gmap string RedeemCode) (next : Z) (s : DB) : DB :=
  mkDB (db_now s) (db_orders s) m next (db_users s) (db_audit s) (db_subs s)
    (db_instances s) (db_log s).
Definition set_users (m : gmap Z user_row) (s : DB) : DB :=
  mkDB (db_now s) (db_orders s) (db_codes s) (db_next_code s) m (db_audit s) (db_subs s)
    (db_instances s) (db_log s).
Definition set_audit (m : gmap (Z * string) audit_detail) (s : DB) : DB :=
  mkDB (db_now s) (db_orders s) (db_codes s) (db_next_code s) (db_users s) m (db_subs s)
    (db_instances s) (db_log s).
Definition set_subs (t : SubTable) (s : DB) : DB :=
  mkDB (db_now s) (db_orders s) (db_codes s) (db_next_code s) (db_users s) (db_audit s) t
    (db_instances s) (db_log s).
Definition note (e : event) (s : DB) : DB :=
  mkDB (db_now s) (db_orders s) (db_codes s) (db_next_code s) (db_users s) (db_audit s) (db_subs s)
    (db_instances s) (e :: db_log s).

(** ** Calls and their answers *)

Record QueryOrderResponse := mkQuery {
  qr_TradeNo : string;
  qr_Status : string;
  qr_Amount : float64;
  qr_Metadata : metadata_map
}.

Record RefundResponse := mkRefundResponse { rr_RefundID : string; rr_Status : string }.

(** What a handler uses of a provider object. *)
Record Provider := mkProvider {
  pr_Key : string;
  pr_MerchantIdentity : metadata_map;
  pr_QueriesRefunds : bool;
  pr_Cancels : bool
}.

(** Where a provider object comes from: a row, or the registry by payment type or key. *)
Inductive provider_source :=
| FromInstance (inst : PaymentProviderInstance)
| ForType (paymentType : string)
| ForKey (key : string).

Inductive fault := NoFault | FailBefore | FailAfter.

(** What the environment decides at a call: the connection, the rebate policy, the
    Redis lock and counter, and the provider. *)
Record world := mkWorld {
  w_fault : fault;
  w_rebate : option float64;
  w_yes : bool;
  w_provider : option Provider;
  w_query : option QueryOrderResponse;
  w_refund : option RefundResponse * bool
}.

Definition ErrDatabase : pay_error := "database".
Definition ErrConstraint : pay_error := "constraint".
Definition ErrNotFound : pay_error := "NOT_FOUND".
Definition ErrConflict : pay_error := "CONFLICT".
Definition ErrInvalidStatus : pay_error := "INVALID_STATUS".
Definition ErrUserNotFound : pay_error := "USER_NOT_FOUND".

(** A statement: the thread that runs it, the environment, the tables. *)
Definition tx (A : Type) : Type := nat → world → DB → pay_error + (A * DB).

#[export] Instance tx_ret : MRet tx := λ A a _ _ s, inr (a, s).
#[export] Instance tx_bind : MBind tx := λ A B f t i w s,
  match t i w s with inl e => inl e | inr (a, s) => f a i w s end.

Definition fail {A} (e : pay_error) : tx A := λ _ _ _, inl e.
Definition read {A} (f : DB → A) : tx A := λ _ _ s, inr (f s, s).
Definition modify (f : DB → DB) : tx unit := λ _ _ s, inr (tt, f s).
Definition emit (f : nat → event) : tx unit := λ i _ s, inr (tt, note (f i) s).
Definition ask {A} (f : world → A) : tx A := λ _ w s, inr (f w, s).
Definition get {A} (e : pay_error) (f : DB → option A) : tx A :=
  λ _ _ s, match f s with Some a => inr (a, s) | None => inl e end.

(** An operation on subscriptions inside a transaction. *)
Definition on_subs {A} (f : Z → SubTable → outcome (A * SubTable)) : tx (sub_error + A) := λ _ _ s,
  match f (db_now s) (db_subs s) with
  | inl e => inr (inl e, s)
  | inr (a, t) => inr (inr a, set_subs t s)
  end.

Inductive stmt : Type → Type :=
| Now : stmt Z
| Sql {A} (t : tx A) : stmt (pay_error + A)
| RedeemAttemptsExceeded (userID : Z) : stmt bool
| CountRedeemFailure (userID : Z) : stmt unit
| AcquireRedeemLock (code : string) : stmt bool
| ReleaseRedeemLock (code : string) : stmt unit
| OpenProvider (from : provider_source) : stmt (option Provider)
| QueryOrder (prov : Provider) (queryRef : string) : stmt (option QueryOrderResponse)
| CancelPayment (prov : Provider) (queryRef : string) : stmt unit
| Refund (prov : Provider) (oid : Z) (req : RefundRequest) : stmt (option RefundResponse * bool)
| QueryRefund (prov : Provider) (refundID : string) : stmt (option RefundResponse * bool).

Definition run_sql {A} (t : tx A) (i : nat) (w : world) (s : DB) : (pay_error + A) * DB :=
  match w_fault w, t i w s with
  | FailBefore, _ => (inl ErrDatabase, s)
  | NoFault, inl e => (inl e, s)
  | NoFault, inr (a, s') => (inr a, s')
  | FailAfter, inl _ => (inl ErrDatabase, s)
  | FailAfter, inr (_, s') => (inl ErrDatabase, s')
  end.

Definition status_of (oid : Z) (s : DB) : OrderStatus :=
  match db_orders s !! oid with Some o => po_Status o | None => OrderStatusPending end.

Definition exec (i : nat) (X : Type) (o : stmt X) (w : world) (s : DB) : X * DB :=
  match o in stmt X return X * DB with
  | Now => (db_now s, s)
  | Sql t => run_sql t i w s
  | RedeemAttemptsExceeded _ => (w_yes w, s)
  | CountRedeemFailure _ => (tt, s)
  | AcquireRedeemLock _ => (w_yes w, s)
  | ReleaseRedeemLock _ => (tt, s)
  | OpenProvider _ => (w_provider w, s)
  | QueryOrder _ _ => (w_query w, s)
  | CancelPayment _ _ => (tt, s)
  | Refund _ oid req => (w_refund w, note (Sent oid i (status_of oid s) req) s)
  | QueryRefund _ _ => (w_refund w, s)
  end.

Abbreviation handler A := (prog stmt (pay_error + A)).

Definition sql {A} (t : tx A) : handler A := call (Sql t).
Definition ok {A} (a : A) : handler A := Ret (inr a).
Definition err {A} (e : pay_error) : handler A := Ret (inl e).

(** [x, err := p; if err != nil { return err }]. *)
Definition try {A B} (p : handler A) (f : A → handler B) : handler B :=
  r ← p; match r with inl e => err e | inr a => f a end.

Notation "x ←! p ; q" := (try p (λ x, q))
  (at level 100, p at level 100, q at level 200, right associativity) : go_scope.
Notation "p ;;! q" := (try p (λ _, q)) (at level 100, q at level 200, right associativity) : go_scope.

Definition lift_outcome {A} (e : sub_error → pay_error) (r : sub_error + A) : tx A :=
  match r with inl x => fail (e x) | inr a => mret a end.

(** ** Statements on orders *)

Section Statements.
Context `{Numeric}.

(** ent adds [updated_at = time.Now()] to every update that does not set it. *)
Definition touched (now : Z) (o : PaymentOrder) : PaymentOrder :=
  mkOrder (po_base o) (po_Status o) (po_payment o) (po_refund o) now.

Definition set_status (st : OrderStatus) (o : PaymentOrder) : PaymentOrder :=
  mkOrder (po_base o) st (po_payment o) (po_refund o) (po_UpdatedAt o).
Definition set_payment (f : OrderPayment → OrderPayment) (o : PaymentOrder) : PaymentOrder :=
  mkOrder (po_base o) (po_Status o) (f (po_payment o)) (po_refund o) (po_UpdatedAt o).
Definition set_refund (f : OrderRefund → OrderRefund) (o : PaymentOrder) : PaymentOrder :=
  mkOrder (po_base o) (po_Status o) (po_payment o) (f (po_refund o)) (po_UpdatedAt o).
Definition set_updated (t : Z) (o : PaymentOrder) : PaymentOrder := touched t o.

Definition set_failure (at_ : option Z) (why : option string) (p : OrderPayment) : OrderPayment :=
  mkPayment (pay_PayAmount p) (pay_TradeNo p) (pay_PaidAt p) (pay_CompletedAt p) at_ why.
Definition set_trade_no (no : string) (p : OrderPayment) : OrderPayment :=
  mkPayment (pay_PayAmount p) no (pay_PaidAt p) (pay_CompletedAt p) (pay_FailedAt p) (pay_FailedReason p).
Definition set_completed (t : Z) (p : OrderPayment) : OrderPayment :=
  mkPayment (pay_PayAmount p) (pay_TradeNo p) (pay_PaidAt p) (Some t) (pay_FailedAt p) (pay_FailedReason p).
(** [SetPayAmount SetPaymentTradeNo SetPaidAt]. *)
Definition set_paid (amount : float64) (no : string) (t : Z) (p : OrderPayment) : OrderPayment :=
  mkPayment (column2 amount) no (Some t) (pay_CompletedAt p) (pay_FailedAt p) (pay_FailedReason p).

Definition get_order (oid : Z) : tx PaymentOrder := get ErrNotFound (λ s, db_orders s !! oid).

(** [Only]: exactly one row. *)
Definition find_by_out_trade_no (no : string) : tx PaymentOrder :=
  l ← read (λ s, filter (λ o, po_OutTradeNo (po_base o) = no) (map_to_list (db_orders s)).*2);
  match l with
  | [o] => mret o
  | [] => fail ErrNotFound
  | _ => fail "not singular"%string
  end.

(** [Update().Where(ID, cond).Set…Save]: the number of rows. *)
Definition update_order (oid : Z) (cond : PaymentOrder → bool) (set : PaymentOrder → PaymentOrder) : tx Z :=
  λ _ _ s,
  match db_orders s !! oid with
  | Some o =>
      if cond o then inr (1, set_orders (<[oid := set (touched (db_now s) o)]> (db_orders s)) s)
      else inr (0, s)
  | None => inr (0, s)
  end.

(** [UpdateOneID(id).Set…Save]: unconditional. *)
Definition overwrite_order (oid : Z) (set : PaymentOrder → PaymentOrder) : tx unit := λ i _ s,
  match db_orders s !! oid with
  | Some o =>
      inr (tt, note (Overwritten oid i (po_Status o))
                 (set_orders (<[oid := set (touched (db_now s) o)]> (db_orders s)) s))
  | None => inl ErrNotFound
  end.

Definition status_in (l : list OrderStatus) (o : PaymentOrder) : bool := bool_decide (po_Status o ∈ l).

(** ** The audit trail *)

Definition create_audit (oid : Z) (action : string) (detail : audit_detail) : tx unit := λ _ _ s,
  match db_audit s !! (oid, action) with
  | Some _ => inl ErrConstraint
  | None => inr (tt, set_audit (<[(oid, action) := detail]> (db_audit s)) s)
  end.

Definition has_audit (oid : Z) (actions : list string) : tx bool :=
  read (λ s, existsb (λ a, bool_decide (is_Some (db_audit s !! (oid, a)))) actions).

(** A failure is only logged. *)
Definition writeAuditLog (oid : Z) (action detail : string) : handler unit :=
  _ ← sql (create_audit oid action (AuditText detail)); ok tt.

(** An error counts as no entry. *)
Definition hasAuditLog (oid : Z) (action : string) : prog stmt bool :=
  r ← sql (has_audit oid [action]);
  Ret (match r with inr b => b | inl _ => false end).

(** ** Users *)

Definition get_user (id : Z) : tx user_row := get ErrUserNotFound (λ s, db_users s !! id).

Definition put_user (id : Z) (u : user_row) (s : DB) : DB := set_users (<[id := u]> (db_users s)) s.

Definition UpdateBalance (id : Z) (amount : float64) (why : reason) : tx unit :=
  u ← get_user id;
  let d := column amount in
  _ ← modify (put_user id (mkUser (u_Balance u + d)
        (if fzero <. amount then u_TotalRecharged u + d else u_TotalRecharged u) (u_Concurrency u)));
  emit (λ _, Moved id d why).

(** [GREATEST(balance + delta, 0)]. *)
Definition ApplyRedeemBalanceAdjustment (id : Z) (delta : float64) (why : reason) : tx unit :=
  u ← get_user id;
  let balance := Z.max (u_Balance u + column delta) 0 in
  _ ← modify (put_user id (mkUser balance (u_TotalRecharged u) (u_Concurrency u)));
  emit (λ _, Moved id (balance - u_Balance u) why).

(** [balance - LEAST(amount, GREATEST(balance, 0))]; what was deducted. *)
Definition DeductAvailableBalance (id : Z) (amount : float64) (why : reason) : tx float64 :=
  if amount <. fzero then fail "deduction amount must be nonnegative"%string else
  u ← get_user id;
  let taken := Z.min (column amount) (Z.max (u_Balance u) 0) in
  _ ← modify (put_user id (mkUser (u_Balance u - taken) (u_TotalRecharged u) (u_Concurrency u)));
  _ ← emit (λ _, Moved id (- taken) why);
  mret (as_float taken).

Definition UpdateConcurrency (id amount : Z) : tx unit :=
  u ← get_user id;
  modify (put_user id (mkUser (u_Balance u) (u_TotalRecharged u) (u_Concurrency u + amount))).

Definition ApplyRedeemConcurrencyAdjustment (id delta : Z) : tx unit :=
  u ← get_user id;
  modify (put_user id (mkUser (u_Balance u) (u_TotalRecharged u) (Z.max (u_Concurrency u + delta) 0))).

(** ** Redeem codes *)

Definition GetByCode (code : string) : tx (option RedeemCode) := read (λ s, db_codes s !! code).

(** [code] is unique. *)
Definition create_code (code typ : string) (value : float64) : tx unit := λ _ _ s,
  match db_codes s !! code with
  | Some _ => inl ErrConstraint
  | None =>
      inr (tt, set_codes (<[code := mkCode (db_next_code s) code typ (column value) StatusUnused
                                      None None None None 0]> (db_codes s)) (db_next_code s + 1) s)
  end.

(** [UPDATE … WHERE id = id AND status = 'unused'], for a row read before. *)
Definition Use (r : RedeemCode) (userID : Z) : tx unit := λ _ _ s,
  match db_codes s !! rc_Code r with
  | Some c =>
      if (rc_ID c =? rc_ID r) && String.eqb (rc_Status c) StatusUnused
      then inr (tt, set_codes (<[rc_Code r := mkCode (rc_ID c) (rc_Code c) (rc_Type c) (rc_Value c)
                      StatusUsed (Some userID) (Some (db_now s)) (rc_ExpiresAt c) (rc_GroupID c)
                      (rc_ValidityDays c)]> (db_codes s)) (db_next_code s) s)
      else inl "REDEEM_CODE_USED"%string
  | None => inl "REDEEM_CODE_USED"%string
  end.

Definition delete_code (r : RedeemCode) : tx unit :=
  modify (λ s,
    match db_codes s !! rc_Code r with
    | Some c => if rc_ID c =? rc_ID r then set_codes (delete (rc_Code r) (db_codes s)) (db_next_code s) s else s
    | None => s
    end).
End Statements.
