(* ===== verification/PaymentFulfillment.v ===== *)
(** * Payment orders: notification and fulfilment

    service/payment_fulfillment.go as programs: a notification is checked and marks
    the order PAID, fulfilment takes a lease on the order, credits the balance
    through a redeem code or extends the subscription, and marks it COMPLETED.
    Redemption itself is service/redeem_service.go with
    repository/redeem_code_repo.go.  Caches, mails and the wallet of the inviter are
    left out: the affiliate service answers the rebate it accrued. *)

From Stdlib Require Import ZArith Lia Ascii String.
From stdpp Require Import base tactics numbers list gmap strings.
From S2P Require Import Prelude GoStrings GoFloat GoTime Subscription Programs.
From S2P Require Import PaymentData PaymentProvider PaymentStore.

Open Scope go_scope.

(** The library of decimal numbers (github.com/shopspring/decimal). *)
Class DecimalLib := {
  decimal : Type;
  NewFromFloat : float64 → decimal;
  d_add : decimal → decimal → decimal;
  d_sub : decimal → decimal → decimal;
  d_mul : decimal → decimal → decimal;
  d_div : decimal → decimal → decimal;
  Round : Z → decimal → decimal;
  InexactFloat64 : decimal → float64
}.

Section Fulfillment.
Context `{UnicodeCase} `{Location} `{Numeric} `{DecimalLib}.
(** The provider key registered for each payment type. *)
Variable registry : gmap string string.

(** ** Redemption *)

(** The row is locked and read again before the change. *)
Definition reduceOrCancelSubscription (userID groupID reduceDays : Z) (code : string) (now : Z)
    (t : SubTable) : outcome (unit * SubTable) :=
  match GetByUserIDAndGroupID userID groupID t with
  | None => inl ErrSubscriptionNotFound
  | Some sub =>
      let newExpiresAt := AddDays (us_ExpiresAt sub) (- reduceDays) in
      t ← (if negb (newExpiresAt .After now) then
              t ← UpdateStatus (us_ID sub) SubscriptionStatusExpired now t;
              ExtendExpiry (us_ID sub) now now t
            else ExtendExpiry (us_ID sub) newExpiresAt now t);
      let notes := ("通过兑换码 " ++ code ++ " 退款扣减 " ++ FormatInt reduceDays ++ " 天")%string in
      let newNotes := if String.eqb (us_Notes sub) "" then notes else us_Notes sub +:+ newline +:+ notes in
      t ← UpdateNotes (us_ID sub) newNotes now t;
      inr (tt, t)
  end.

Definition sub_failure (e : sub_error) : pay_error :=
  match e with
  | ErrAdjustWouldExpire => "ADJUST_WOULD_EXPIRE"
  | ErrSubscriptionNotFound => "SUBSCRIPTION_NOT_FOUND"
  | _ => "subscription"
  end.

Definition assign_subscription (input : AssignSubscriptionInput) : tx unit :=
  r ← on_subs (λ now t, r ← assignOrExtendSubscription input now t; inr (r.1, r.2));
  _ ← lift_outcome sub_failure r;
  mret tt.

(** What the code is worth to the user. *)
Definition grant (r : RedeemCode) (userID : Z) : tx unit :=
  let value := as_float (rc_Value r) in
  if String.eqb (rc_Type r) RedeemTypeBalance then
    if value <. fzero then ApplyRedeemBalanceAdjustment userID value (ByCode (rc_Code r))
    else UpdateBalance userID value (ByCode (rc_Code r))
  else if String.eqb (rc_Type r) RedeemTypeConcurrency then
    let delta := trunc value in
    if delta <? 0 then ApplyRedeemConcurrencyAdjustment userID delta else UpdateConcurrency userID delta
  else
    match rc_GroupID r with
    | None => fail "REDEEM_CODE_INVALID"%string
    | Some groupID =>
        if rc_ValidityDays r <? 0 then
          x ← on_subs (reduceOrCancelSubscription userID groupID (- rc_ValidityDays r) (rc_Code r));
          lift_outcome sub_failure x
        else
          let validityDays := if rc_ValidityDays r =? 0 then 30 else rc_ValidityDays r in
          assign_subscription (mkAssign userID groupID validityDays 0
            ("通过兑换码 " ++ rc_Code r ++ " 兑换")%string)
    end.

(** The transaction: the code is marked used, then its worth is granted. *)
Definition redeem_tx (r : RedeemCode) (userID : Z) : tx unit :=
  _ ← Use r userID;
  grant r userID.

Definition get_code_by_id (id : Z) : tx RedeemCode :=
  get "REDEEM_CODE_NOT_FOUND"%string
    (λ s, head (filter (λ r, rc_ID r = id) (map_to_list (db_codes s)).*2)).

Definition count_failure (enforce : bool) (userID : Z) : prog stmt unit :=
  if enforce then call (CountRedeemFailure userID) else Ret tt.

Definition redeem_locked (userID : Z) (code : string) (enforce : bool) : handler RedeemCode :=
  found ←! sql (GetByCode code);
  match found with
  | None => _ ← count_failure enforce userID; err "REDEEM_CODE_NOT_FOUND"%string
  | Some r =>
      now ← call Now;
      if IsExpiredAt r now then _ ← count_failure enforce userID; err "REDEEM_CODE_EXPIRED"%string
      else if negb (CanUse r now) then _ ← count_failure enforce userID; err "REDEEM_CODE_USED"%string
      else if String.eqb (rc_Type r) RedeemTypeSubscription && bool_decide (rc_GroupID r = None)
      then err "REDEEM_CODE_INVALID"%string
      else if negb (String.eqb (rc_Type r) RedeemTypeBalance || String.eqb (rc_Type r) RedeemTypeConcurrency
                    || String.eqb (rc_Type r) RedeemTypeSubscription)
      then err "REDEEM_CODE_UNSUPPORTED_TYPE"%string
      else
        _ ←! sql (get_user userID);
        _ ←! sql (redeem_tx r userID);
        sql (get_code_by_id (rc_ID r))
  end.

(** [enforce] is the policy of public redemption; payments bypass the limit. *)
Definition redeem (userID : Z) (code : string) (enforce : bool) : handler RedeemCode :=
  exceeded ← (if enforce then call (RedeemAttemptsExceeded userID) else Ret false);
  if exceeded : bool then err "REDEEM_RATE_LIMITED"%string else
  locked ← call (AcquireRedeemLock code);
  if negb locked then err "REDEEM_CODE_LOCKED"%string else
  r ← redeem_locked userID code enforce;
  _ ← call (ReleaseRedeemLock code);
  Ret r.

Definition redeemForPaymentFulfillment (userID : Z) (code : string) : handler RedeemCode :=
  redeem userID code false.

(** The type of a code that is created without one. *)
Definition default_type (typ : string) : string :=
  if String.eqb typ "" then RedeemTypeBalance else typ.

Definition CreateCode (code typ : string) (value : float64) : handler unit :=
  let code := TrimSpace code in
  if String.eqb code "" then err "code is required"%string else
  let typ := default_type typ in
  if negb (String.eqb typ RedeemTypeInvitation) && feq value fzero
  then err "value must not be zero"%string
  else sql (create_code code typ value).

(** The administrator's deletion of a code; the row is not checked again. *)
Definition Delete (id : Z) : handler unit :=
  r ←! sql (get_code_by_id id);
  if IsUsed r then err "REDEEM_CODE_DELETE_USED"%string else sql (delete_code r).

(** ** Completion *)

Definition paymentFulfillmentLeaseDuration : Z := 5 * Minute.
Definition paymentGraceMinutes : Z := 5.

Definition holds_lease (version : Z) (o : PaymentOrder) : bool :=
  status_in [OrderStatusRecharging] o && (po_UpdatedAt o =? version).

Definition markCompleted (o : PaymentOrder) (lease : Z) (auditAction : string) : handler unit :=
  let oid := po_ID (po_base o) in
  now ← call Now;
  updated ←! sql (update_order oid (holds_lease lease)
                    (λ o, set_status OrderStatusCompleted (set_payment (set_completed now) o)));
  if updated =? 0 then
    current ← sql (get_order oid);
    match current with
    | inr c => if bool_decide (po_Status c = OrderStatusCompleted) then ok tt else err ErrConflict
    | inl _ => err ErrConflict
    end
  else
    logged ← hasAuditLog oid auditAction;
    if logged : bool then ok tt else writeAuditLog oid auditAction "fulfilled".

Definition markFailed (oid : Z) (lease : Z) (cause : pay_error) : handler unit :=
  now ← call Now;
  c ← sql (update_order oid (holds_lease lease)
             (λ o, set_status OrderStatusFailed (set_payment (set_failure (Some now) (Some cause)) o)));
  match c with
  | inr n => if 0 <? n then writeAuditLog oid "FULFILLMENT_FAILED" cause else ok tt
  | inl _ => ok tt
  end.

(** ** The rebate of the inviter *)

Definition paymentOrderAmountWithoutBonus (o : OrderBase) : float64 :=
  if negb (String.eqb (po_OrderType o) OrderTypeBalance) || (po_BonusAmount o <=. fzero)
  then po_Amount o
  else
    let base := InexactFloat64 (Round 2
                  (d_sub (NewFromFloat (po_Amount o)) (NewFromFloat (po_BonusAmount o)))) in
    if base <. fzero then fzero else base.

Definition affiliateRebateBaseAmount (o : OrderBase) : float64 :=
  if String.eqb (po_OrderType o) OrderTypeBalance then paymentOrderAmountWithoutBonus o
  else if String.eqb (po_OrderType o) OrderTypeSubscription then po_Amount o
  else fzero.

Definition rebate_applied : string := "AFFILIATE_REBATE_APPLIED".
Definition rebate_skipped : string := "AFFILIATE_REBATE_SKIPPED".

(** [INSERT … WHERE NOT EXISTS … ON CONFLICT DO NOTHING]. *)
Definition tryClaimAffiliateRebateAudit (oid : Z) : tx bool :=
  seen ← has_audit oid [rebate_applied; rebate_skipped];
  if seen : bool then mret false else
  _ ← create_audit oid rebate_applied (AuditText "reserved");
  mret true.

Definition updateClaimedAffiliateRebateAudit (oid : Z) (action detail : string) : tx unit := λ _ _ s,
  match db_audit s !! (oid, rebate_applied) with
  | None => inl "affiliate rebate claim log not found"%string
  | Some _ =>
      inr (tt, set_audit (<[(oid, action) := AuditText detail]> (delete (oid, rebate_applied) (db_audit s))) s)
  end.

Definition rebate_tx (oid : Z) : tx unit :=
  claimed ← tryClaimAffiliateRebateAudit oid;
  if negb claimed then mret tt else
  accrued ← ask w_rebate;
  match accrued with
  | None => fail "accrue affiliate rebate"%string
  | Some rebateAmount =>
      if rebateAmount <=. fzero
      then updateClaimedAffiliateRebateAudit oid rebate_skipped "no inviter bound or rebate amount <= 0"
      else
        _ ← updateClaimedAffiliateRebateAudit oid rebate_applied "applied";
        emit (λ _, Rebated oid)
  end.

Definition applyAffiliateRebateForOrder (o : PaymentOrder) : handler unit :=
  let oid := po_ID (po_base o) in
  if affiliateRebateBaseAmount (po_base o) <=. fzero then ok tt else
  r ← sql (rebate_tx oid);
  match r with
  | inr _ => ok tt
  | inl e => writeAuditLog oid "AFFILIATE_REBATE_FAILED" e;;! err e
  end.

(** ** Balance orders *)

Inductive redeemAction := redeemActionCreate | redeemActionRedeem | redeemActionSkipCompleted.

Definition resolveRedeemAction (existing : option RedeemCode) : redeemAction :=
  match existing with
  | None => redeemActionCreate
  | Some r => if IsUsed r then redeemActionSkipCompleted else redeemActionRedeem
  end.

(** [1e-8]. *)
Definition code_tolerance : float64 := decimal_literal 1 8.

Definition validatePaymentRedeemCode (o : OrderBase) (code : RedeemCode) : option pay_error :=
  let value := as_float (rc_Value code) in
  if negb (String.eqb (rc_Code code) (po_RechargeCode o)) then Some "code mismatch"%string
  else if negb (String.eqb (rc_Type code) RedeemTypeBalance) then Some "type mismatch"%string
  else if IsNaN value || IsInf value || (code_tolerance <. Abs (fsub value (po_Amount o)))
  then Some "amount mismatch"%string
  else if String.eqb (rc_Status code) StatusUnused then
    if bool_decide (is_Some (rc_UsedBy code)) then Some "unused code has a user"%string else None
  else if String.eqb (rc_Status code) StatusUsed then
    if bool_decide (rc_UsedBy code = Some (po_UserID o)) then None else Some "user mismatch"%string
  else Some "invalid status"%string.

Definition doBalance (o : PaymentOrder) (lease : Z) : handler unit :=
  let b := po_base o in
  let finish :=
    applyAffiliateRebateForOrder o;;! markCompleted o lease "RECHARGE_SUCCESS" in
  let redeem_and_finish :=
    _ ←! redeemForPaymentFulfillment (po_UserID b) (po_RechargeCode b);
    finish in
  existing ←! sql (GetByCode (po_RechargeCode b));
  match existing with
  | None =>
      CreateCode (po_RechargeCode b) RedeemTypeBalance (po_Amount b);;! redeem_and_finish
  | Some r =>
      match validatePaymentRedeemCode b r with
      | Some e => err e
      | None =>
          match resolveRedeemAction existing with
          | redeemActionSkipCompleted => finish
          | _ => redeem_and_finish
          end
      end
  end.

(** ** Subscription orders *)

Definition paymentSubscriptionOrderNote (orderID : Z) : string := ("payment order " ++ FormatInt orderID)%string.

(** [strings.ReplaceAll(s, "\r\n", "\n")]. *)
Fixpoint crlf_to_lf (s : string) : string :=
  match s with
  | String a (String b t as rest) =>
      if (byte_of a =? 13) && (byte_of b =? 10) then String b (crlf_to_lf t) else String a (crlf_to_lf rest)
  | _ => s
  end.

Definition hasPaymentSubscriptionOrderNote (notes orderNote : string) : bool :=
  existsb (λ line, String.eqb (TrimSpace line) orderNote) (Split (crlf_to_lf notes) (byte 10)).

Definition subscription_assigned : string := "SUBSCRIPTION_ASSIGNED".
Definition subscription_success : string := "SUBSCRIPTION_SUCCESS".

Definition hasPaymentSubscriptionAssignmentAudit (oid : Z) : tx bool :=
  has_audit oid [subscription_assigned; subscription_success].

(** The flag says that the term was granted here. *)
Definition extend_once (o : OrderBase) (groupID days : Z) : tx bool :=
  let orderNote := paymentSubscriptionOrderNote (po_ID o) in
  existing ← read (λ s, matching (owned_by (po_UserID o) groupID) (db_subs s));
  match existing with
  | _ :: _ :: _ => fail "check existing subscription assignment"%string
  | [s] =>
      if hasPaymentSubscriptionOrderNote (us_Notes s) orderNote then mret false
      else _ ← assign_subscription (mkAssign (po_UserID o) groupID days 0 orderNote); mret true
  | [] => _ ← assign_subscription (mkAssign (po_UserID o) groupID days 0 orderNote); mret true
  end.

Definition assign_tx (o : OrderBase) (groupID days : Z) : tx unit :=
  alreadyAssigned ← hasPaymentSubscriptionAssignmentAudit (po_ID o);
  if alreadyAssigned : bool then mret tt else
  extended ← extend_once o groupID days;
  _ ← create_audit (po_ID o) subscription_assigned (AuditText "assigned");
  if extended : bool then emit (λ _, Assigned (po_ID o)) else mret tt.

Definition ensurePaymentSubscriptionAssigned (o : PaymentOrder) (groupID days : Z) : handler unit :=
  r ← sql (assign_tx (po_base o) groupID days);
  match r with
  | inr _ => ok tt
  | inl e =>
      if String.eqb e ErrConstraint then
        claimed ← sql (hasPaymentSubscriptionAssignmentAudit (po_ID (po_base o)));
        match claimed with inr true => ok tt | _ => err e end
      else err e
  end.

Definition doSub (o : PaymentOrder) (groupID days lease : Z) : handler unit :=
  g ← sql (read (λ s, group_of groupID (db_subs s)));
  match g with
  | inr (Some g) =>
      if negb (String.eqb (gr_Status g) EntityStatusActive)
      then err "group no longer exists or inactive"%string
      else
        ensurePaymentSubscriptionAssigned o groupID days;;!
        applyAffiliateRebateForOrder o;;!
        markCompleted o lease subscription_success
  | _ => err "group no longer exists or inactive"%string
  end.

(** ** The lease and the dispatch *)

Definition acquirePaymentFulfillmentLease (o : PaymentOrder) : handler (option Z) :=
  let oid := po_ID (po_base o) in
  t ← call Now;
  let now := t - t `mod` 1000 in
  let staleBefore := now - paymentFulfillmentLeaseDuration in
  updated ←! sql (update_order oid
      (λ o, status_in [OrderStatusPaid; OrderStatusFailed] o
            || (status_in [OrderStatusRecharging] o && (po_UpdatedAt o <=? staleBefore)))
      (λ o, set_status OrderStatusRecharging
              (set_updated now (set_payment (set_failure None None) o))));
  if updated =? 0 then
    current ←! sql (get_order oid);
    if bool_decide (po_Status current = OrderStatusCompleted) then ok None else err ErrConflict
  else
    claimed ←! sql (get_order oid);
    if bool_decide (po_Status claimed = OrderStatusRecharging) then ok (Some (po_UpdatedAt claimed))
    else err ErrConflict.

Definition may_fulfill (o : PaymentOrder) : option pay_error :=
  if psIsRefundStatus (po_Status o) then Some ErrInvalidStatus
  else if status_in [OrderStatusPaid; OrderStatusFailed; OrderStatusRecharging] o then None
  else Some ErrInvalidStatus.

(** The work under the lease; a failure marks the order FAILED. *)
Definition with_lease (o : PaymentOrder) (work : Z → handler unit) : handler unit :=
  lease ←! acquirePaymentFulfillmentLease o;
  match lease with
  | None => ok tt
  | Some version =>
      r ← work version;
      match r with
      | inr _ => ok tt
      | inl e => markFailed (po_ID (po_base o)) version e;;! err e
      end
  end.

Definition ExecuteBalanceFulfillment (oid : Z) : handler unit :=
  r ← sql (get_order oid);
  match r with
  | inl _ => err ErrNotFound
  | inr o =>
      if negb (String.eqb (po_OrderType (po_base o)) OrderTypeBalance)
      then err "INVALID_ORDER_TYPE"%string
      else if bool_decide (po_Status o = OrderStatusCompleted) then ok tt
      else match may_fulfill o with
           | Some e => err e
           | None => with_lease o (doBalance o)
           end
  end.

Definition ExecuteSubscriptionFulfillment (oid : Z) : handler unit :=
  r ← sql (get_order oid);
  match r with
  | inl _ => err ErrNotFound
  | inr o =>
      if bool_decide (po_Status o = OrderStatusCompleted) then ok tt
      else match may_fulfill o with
           | Some e => err e
           | None =>
               match po_SubscriptionGroupID (po_base o), po_SubscriptionDays (po_base o) with
               | Some gid, Some days => with_lease o (doSub o gid days)
               | _, _ => err ErrInvalidStatus
               end
           end
  end.

Definition isSupportedPaymentOrderType (orderType : string) : bool :=
  String.eqb orderType OrderTypeBalance || String.eqb orderType OrderTypeSubscription.

Definition rejectUnsupportedOrderType (o : PaymentOrder) : handler unit :=
  let oid := po_ID (po_base o) in
  let reason := ("unsupported order type: " ++ po_OrderType (po_base o))%string in
  now ← call Now;
  c ← sql (update_order oid (status_in [OrderStatusPaid; OrderStatusRecharging])
             (λ o, set_status OrderStatusFailed (set_payment (set_failure (Some now) (Some reason)) o)));
  match c with
  | inr n => if 0 <? n then writeAuditLog oid "FULFILLMENT_FAILED" reason else ok tt
  | inl _ => ok tt
  end.

Definition executeFulfillment (oid : Z) : handler unit :=
  o ←! sql (get_order oid);
  if String.eqb (po_OrderType (po_base o)) OrderTypeSubscription then ExecuteSubscriptionFulfillment oid
  else if String.eqb (po_OrderType (po_base o)) OrderTypeBalance then ExecuteBalanceFulfillment oid
  else rejectUnsupportedOrderType o.

Definition RetryFulfillment (oid : Z) : handler unit :=
  r ← sql (get_order oid);
  match r with
  | inl _ => err ErrNotFound
  | inr o =>
      if bool_decide (pay_PaidAt (po_payment o) = None) then err ErrInvalidStatus
      else if psIsRefundStatus (po_Status o) then err ErrInvalidStatus
      else if bool_decide (po_Status o = OrderStatusCompleted) then err ErrInvalidStatus
      else if negb (status_in [OrderStatusFailed; OrderStatusPaid; OrderStatusRecharging] o)
      then err ErrInvalidStatus
      else if negb (isSupportedPaymentOrderType (po_OrderType (po_base o)))
      then err "INVALID_ORDER_TYPE"%string
      else writeAuditLog oid "RECHARGE_RETRY" "admin manual retry";;! executeFulfillment oid
  end.

(** ** Notifications *)

Record PaymentNotification := mkNotification {
  pn_TradeNo : string;
  pn_OrderID : string;
  pn_Amount : float64;
  pn_Status : string;
  pn_Metadata : metadata_map
}.

Definition alreadyProcessed (oid : Z) : handler unit :=
  r ← sql (get_order oid);
  match r with
  | inl _ => ok tt
  | inr cur =>
      match po_Status cur with
      | OrderStatusFailed | OrderStatusPaid | OrderStatusRecharging => executeFulfillment oid
      | OrderStatusExpired =>
          writeAuditLog oid "PAYMENT_AFTER_EXPIRY" "payment arrived after expiry grace period"
      | _ => ok tt
      end
  end.

(** The orders a payment may still mark as paid. *)
Definition payable (grace : Z) (o : PaymentOrder) : bool :=
  status_in [OrderStatusPending; OrderStatusCancelled] o
  || (status_in [OrderStatusExpired] o && (grace <=? po_UpdatedAt o)).

Definition toPaid (o : PaymentOrder) (tradeNo : string) (paid : float64) : handler unit :=
  let oid := po_ID (po_base o) in
  now ← call Now;
  let grace := now - paymentGraceMinutes * Minute in
  c ←! sql (update_order oid (payable grace)
              (λ o, set_status OrderStatusPaid
                      (set_payment (set_failure None None ∘ set_paid paid tradeNo now) o)));
  if c =? 0 then alreadyProcessed oid else
  (if status_in [OrderStatusCancelled; OrderStatusExpired] o
   then writeAuditLog oid "ORDER_RECOVERED" "webhook payment success" else ok tt);;!
  writeAuditLog oid "ORDER_PAID" tradeNo;;!
  executeFulfillment oid.

(** A failure to load the instances leaves the key of the instance unknown. *)
Definition confirmPayment (oid : Z) (tradeNo : string) (paid : float64) (pk : string)
    (metadata : metadata_map) : handler unit :=
  r ← sql (get_order oid);
  match r with
  | inl _ => ok tt
  | inr o =>
      instances ← sql (read db_instances);
      let pv := mkProviders (match instances with inr m => m | inl _ => ∅ end) registry in
      match confirm_rejection pv o paid pk metadata with
      | Some reason =>
          if String.eqb reason "REDEEM_ORDER_PAYMENT_DISABLED" then err reason
          else writeAuditLog oid reason pk;;! err reason
      | None => toPaid o tradeNo paid
      end
  end.

Definition HandlePaymentNotification (n : PaymentNotification) (pk : string) : handler unit :=
  if negb (String.eqb (pn_Status n) NotificationStatusSuccess) then ok tt else
  order ← sql (find_by_out_trade_no (pn_OrderID n));
  match order with
  | inr o => confirmPayment (po_ID (po_base o)) (pn_TradeNo n) (pn_Amount n) pk (pn_Metadata n)
  | inl e =>
      if String.eqb e ErrNotFound then
        match parseLegacyPaymentOrderID (pn_OrderID n) with
        | Some oid => confirmPayment oid (pn_TradeNo n) (pn_Amount n) pk (pn_Metadata n)
        | None => err "payment order not found"%string
        end
      else err e
  end.
End Fulfillment.
