(* ===== verification/PaymentLifecycle.v ===== *)
(** * Payment orders: cancellation, expiry and reconciliation

    service/payment_order_lifecycle.go: before an order is cancelled or expires the
    provider is asked whether it was paid, and a missed payment is processed as a
    notification.  service/payment_webhook_provider.go: the providers that may
    verify a webhook. *)

From Stdlib Require Import ZArith Lia Ascii String.
From stdpp Require Import base tactics numbers list gmap strings.
From S2P Require Import Prelude GoStrings GoFloat GoTime Subscription Programs.
From S2P Require Import PaymentData PaymentProvider PaymentStore PaymentFulfillment.

Open Scope go_scope.

Section Lifecycle.
Context `{UnicodeCase} `{Location} `{Numeric} `{DecimalLib}.
Variable registry : gmap string string.

(** ** The provider of an order *)

Definition paymentOrderAllowsRegistryFallback (o : OrderBase) : bool :=
  bool_decide (psOrderProviderSnapshot o = None)
  && String.eqb (TrimSpace (psStringValue (po_ProviderInstanceID o))) ""
  && String.eqb (TrimSpace (psStringValue (po_ProviderKey o))) "".

Definition paymentOrderFallbackProviderKey (o : OrderBase) : string :=
  let registered := TrimSpace (default ""%string (registry !! po_PaymentType o)) in
  if negb (String.eqb registered "") then registered
  else TrimSpace (GetBasePaymentType (TrimSpace (po_PaymentType o))).

Definition enabled_with_key (key : string) (s : DB) : list PaymentProviderInstance :=
  List.filter (λ i, String.eqb (pi_ProviderKey i) key && pi_Enabled i) (map_to_list (db_instances s)).*2.

(** An error of the count denies. *)
Definition webhookRegistryFallbackAllowed (providerKey : string) : prog stmt bool :=
  let key := TrimSpace providerKey in
  if String.eqb key "" then Ret false else
  r ← sql (read (λ s, Z.of_nat (length (enabled_with_key key s))));
  Ret (match r with inr n => n <=? 1 | inl _ => false end).

Definition open_or_fail (from : provider_source) : handler Provider :=
  p ← call (OpenProvider from);
  match p with Some p => ok p | None => err "provider"%string end.

Definition getOrderProvider (o : OrderBase) : handler Provider :=
  instances ←! sql (read db_instances);
  match getOrderProviderInstance (mkProviders instances registry) o with
  | inl e => err e
  | inr (Some inst) => open_or_fail (FromInstance inst)
  | inr None =>
      if negb (paymentOrderAllowsRegistryFallback o) then err "provider instance is unresolved"%string else
      let key := paymentOrderFallbackProviderKey o in
      if String.eqb key "" then err "provider fallback key is missing"%string else
      allowed ← webhookRegistryFallbackAllowed key;
      if negb allowed then err "provider fallback is ambiguous"%string
      else open_or_fail (ForType (po_PaymentType o))
  end.

(** ** Webhooks *)

Definition psHasPinnedProviderInstance (o : OrderBase) : bool :=
  bool_decide (is_Some (psOrderProviderSnapshot o))
  || match po_ProviderInstanceID o with Some id => negb (String.eqb (TrimSpace id) "") | None => false end.

(** The instances that do not open are skipped.  The order among instances is that of
    the table (the column sort_order is left out). *)
Fixpoint open_all (l : list PaymentProviderInstance) : prog stmt (list Provider) :=
  match l with
  | [] => Ret []
  | inst :: l =>
      p ← call (OpenProvider (FromInstance inst));
      rest ← open_all l;
      Ret (match p with Some p => p :: rest | None => rest end)
  end.

Definition getEnabledWebhookProvidersByKey (providerKey : string) : handler (list Provider) :=
  l ←! sql (read (enabled_with_key (TrimSpace providerKey)));
  match l with
  | [] => err "provider not found"%string
  | _ =>
      ps ← open_all l;
      match ps with [] => err "provider not found"%string | _ => ok ps end
  end.

Definition registry_provider (providerKey : string) : handler (list Provider) :=
  allowed ← webhookRegistryFallbackAllowed providerKey;
  if negb allowed then err "webhook provider fallback is ambiguous"%string
  else p ←! open_or_fail (ForKey providerKey); ok [p].

Definition unbound_providers (providerKey : string) : handler (list Provider) :=
  if String.eqb (TrimSpace providerKey) TypeWxpay then getEnabledWebhookProvidersByKey providerKey
  else registry_provider providerKey.

(** A pinned order, or one whose instance is known, is verified by that instance only. *)
Definition GetWebhookProviders (providerKey outTradeNo : string) : handler (list Provider) :=
  if String.eqb outTradeNo "" then unbound_providers providerKey else
  r ← sql (find_by_out_trade_no outTradeNo);
  match r with
  | inl _ => unbound_providers providerKey
  | inr order =>
      let o := po_base order in
      instances ←! sql (read db_instances);
      match getOrderProviderInstance (mkProviders instances registry) o with
      | inl e => err e
      | inr (Some inst) => p ←! open_or_fail (FromInstance inst); ok [p]
      | inr None =>
          if psHasPinnedProviderInstance o then err "provider instance is missing"%string
          else unbound_providers providerKey
      end
  end.

(** ** Asking the provider *)

Definition paymentOrderQueryReference (o : PaymentOrder) (prov : Provider) : string :=
  let b := po_base o in
  let from_snapshot :=
    match psOrderProviderSnapshot b with Some snapshot => TrimSpace (ps_ProviderKey snapshot) | None => ""%string end in
  let providerKey :=
    if negb (String.eqb (TrimSpace (pr_Key prov)) "") then TrimSpace (pr_Key prov)
    else if negb (String.eqb from_snapshot "") then from_snapshot
    else if negb (String.eqb (TrimSpace (psStringValue (po_ProviderKey b))) "")
    then TrimSpace (psStringValue (po_ProviderKey b))
    else TrimSpace (po_PaymentType b) in
  let base := GetBasePaymentType providerKey in
  if String.eqb base TypeAlipay || String.eqb base TypeEasyPay || String.eqb base TypeWxpay
  then TrimSpace (po_OutTradeNo b)
  else
    let tradeNo := TrimSpace (pay_TradeNo (po_payment o)) in
    if negb (String.eqb tradeNo "") then tradeNo else TrimSpace (po_OutTradeNo b).

Definition paymentOrderShouldPersistUpstreamTradeNo (queryRef upstreamTradeNo currentTradeNo : string)
    : bool :=
  let upstream := TrimSpace upstreamTradeNo in
  negb (String.eqb upstream "") && negb (EqualFold upstream (TrimSpace currentTradeNo))
  && negb (EqualFold upstream (TrimSpace queryRef)).

Definition requeryPaidOrderOnce (prov : Provider) (queryRef : string)
    : prog stmt (option QueryOrderResponse) :=
  if String.eqb (TrimSpace queryRef) "" then Ret None else
  r ← call (QueryOrder prov queryRef);
  Ret (match r with
       | Some resp =>
           if String.eqb (qr_Status resp) ProviderStatusPaid && isValidProviderAmount (qr_Amount resp)
           then Some resp else None
       | None => None
       end).

(** The response of a provider that says the order is paid. *)
Definition process_paid (o : PaymentOrder) (prov : Provider) (queryRef : string)
    (resp : QueryOrderResponse) : prog stmt unit :=
  let upstreamTradeNo := TrimSpace (qr_TradeNo resp) in
  let current := pay_TradeNo (po_payment o) in
  let persist := paymentOrderShouldPersistUpstreamTradeNo queryRef upstreamTradeNo current in
  _ ← (if persist
        then sql (update_order (po_ID (po_base o)) (λ _, true) (set_payment (set_trade_no upstreamTradeNo)))
        else ok 0);
  _ ← HandlePaymentNotification registry
         (mkNotification (if persist then upstreamTradeNo else current) (po_OutTradeNo (po_base o))
            (qr_Amount resp) ProviderStatusSuccess (qr_Metadata resp)) (pr_Key prov);
  Ret tt.

(** Whether the provider says the order was paid. *)
Definition checkPaidWithOptions (o : PaymentOrder) (cancelIfUnpaid : bool) : prog stmt bool :=
  p ← getOrderProvider (po_base o);
  match p with
  | inl _ => Ret false
  | inr prov =>
      let queryRef := paymentOrderQueryReference o prov in
      if String.eqb queryRef "" then Ret false else
      r ← call (QueryOrder prov queryRef);
      match r with
      | None => Ret false
      | Some resp =>
          if String.eqb (qr_Status resp) ProviderStatusPaid then
            if negb (isValidProviderAmount (qr_Amount resp)) then
              _ ← writeAuditLog (po_ID (po_base o)) "PAYMENT_INVALID_AMOUNT" (pr_Key prov);
              again ← requeryPaidOrderOnce prov queryRef;
              match again with
              | None => Ret false
              | Some resp => _ ← process_paid o prov queryRef resp; Ret true
              end
            else _ ← process_paid o prov queryRef resp; Ret true
          else if cancelIfUnpaid && pr_Cancels prov
          then _ ← call (CancelPayment prov queryRef); Ret false
          else Ret false
      end
  end.

Definition checkPaid (o : PaymentOrder) : prog stmt bool := checkPaidWithOptions o true.
Definition reconcilePaid (o : PaymentOrder) : prog stmt bool := checkPaidWithOptions o false.

(** ** Cancellation and expiry *)

Inductive cancel_outcome := checkPaidResultAlreadyPaid | checkPaidResultCancelled.

Definition cancelCore (o : PaymentOrder) (fs : OrderStatus) (op : string) : handler cancel_outcome :=
  let b := po_base o in
  paid ← (if negb (String.eqb (pay_TradeNo (po_payment o)) "") || negb (String.eqb (po_PaymentType b) "")
          then checkPaid o else Ret false);
  if paid : bool then ok checkPaidResultAlreadyPaid else
  c ←! sql (update_order (po_ID b) (status_in [OrderStatusPending]) (set_status fs));
  (if 0 <? c
   then writeAuditLog (po_ID b)
          (if bool_decide (fs = OrderStatusExpired) then "ORDER_EXPIRED" else "ORDER_CANCELLED") op
   else ok tt);;!
  ok checkPaidResultCancelled.

Definition CancelOrder (oid userID : Z) : handler cancel_outcome :=
  r ← sql (get_order oid);
  match r with
  | inl _ => err ErrNotFound
  | inr o =>
      if negb (po_UserID (po_base o) =? userID) then err "FORBIDDEN"%string
      else if negb (status_in [OrderStatusPending] o) then err ErrInvalidStatus
      else cancelCore o OrderStatusCancelled ("user:" ++ FormatInt userID)%string
  end.

Definition AdminCancelOrder (oid : Z) : handler cancel_outcome :=
  r ← sql (get_order oid);
  match r with
  | inl _ => err ErrNotFound
  | inr o =>
      if negb (status_in [OrderStatusPending] o) then err ErrInvalidStatus
      else cancelCore o OrderStatusCancelled "admin"
  end.

(** The number of orders that were expired. *)
Fixpoint expire_each (l : list PaymentOrder) : prog stmt Z :=
  match l with
  | [] => Ret 0
  | o :: l =>
      r ← cancelCore o OrderStatusExpired "system";
      n ← expire_each l;
      Ret (match r with inr checkPaidResultCancelled => n + 1 | _ => n end)
  end.

Definition ExpireTimedOutOrders : handler Z :=
  now ← call Now;
  orders ←! sql (read (λ s, List.filter (λ o, status_in [OrderStatusPending] o
                                              && (po_ExpiresAt (po_base o) <=? now))
                              (map_to_list (db_orders s)).*2));
  n ← expire_each orders;
  ok n.

(** Characters allowed in an order number. *)
Definition out_trade_no_rune (c : Z) : bool :=
  between 97 122 c || between 65 90 c || between 48 57 c || (c =? 95) || (c =? 45).

Definition normalizeOrderLookupOutTradeNo (raw : string) : pay_error + string :=
  let outTradeNo := TrimSpace raw in
  if String.eqb outTradeNo "" || (64 <? len outTradeNo) || negb (forallb out_trade_no_rune (runes outTradeNo))
  then inl "INVALID_OUT_TRADE_NO"%string else inr outTradeNo.

Definition VerifyOrderByOutTradeNo (raw : string) (userID : Z) : handler PaymentOrder :=
  match normalizeOrderLookupOutTradeNo raw with
  | inl e => err e
  | inr outTradeNo =>
      r ← sql (find_by_out_trade_no outTradeNo);
      match r with
      | inl _ => err ErrNotFound
      | inr o =>
          if negb (po_UserID (po_base o) =? userID) then err "FORBIDDEN"%string
          else if status_in [OrderStatusPending; OrderStatusExpired] o then
            paid ← reconcilePaid o;
            if paid : bool then sql (get_order (po_ID (po_base o))) else ok o
          else ok o
      end
  end.

Definition has_method (method key : string) : bool :=
  String.eqb key method || HasPrefix key (method ++ "_")%string.

(** The orders whose missed notifications are looked for. *)
Definition reconcilable (now : Z) (o : PaymentOrder) : bool :=
  let b := po_base o in
  let key := psStringValue (po_ProviderKey b) in
  status_in [OrderStatusPending] o && (po_ExpiresAt b .After now)
  && (has_method TypeWxpay (po_PaymentType b) || has_method TypeWxpay key
      || has_method TypeAlipay (po_PaymentType b) || has_method TypeAlipay key).

Definition pendingPaymentReconcileLimit : nat := 20.

Fixpoint reconcile_each (l : list PaymentOrder) : prog stmt Z :=
  match l with
  | [] => Ret 0
  | o :: l => paid ← reconcilePaid o; n ← reconcile_each l; Ret (if paid : bool then n + 1 else n)
  end.

(** Taken in the order of the table (the order of created_at is left out). *)
Definition ReconcilePendingPaymentOrders : handler Z :=
  now ← call Now;
  orders ←! sql (read (λ s, List.filter (reconcilable now) (map_to_list (db_orders s)).*2));
  n ← reconcile_each (take pendingPaymentReconcileLimit orders);
  ok n.
End Lifecycle.
