(* ===== verification/PaymentRefund.v ===== *)
(** * Payment orders: refunds

    service/payment_refund.go and service/payment_amounts.go as programs.  A refund
    is prepared (amounts and what to take back), locks the order by moving it to
    REFUNDING, takes the balance or the days back, asks the provider, and records the
    outcome; a refund the provider has not settled is REFUND_PENDING, keeps what was
    taken, and is finalised by a query. *)

From Stdlib Require Import ZArith Lia Ascii String.
From stdpp Require Import base tactics numbers list gmap strings.
From S2P Require Import Prelude GoStrings GoFloat GoTime Subscription Programs.
From S2P Require Import PaymentData PaymentProvider PaymentStore PaymentFulfillment PaymentLifecycle.

Open Scope go_scope.

(** [deductionHeld]: the deduction was made before the order became REFUND_PENDING. *)
Record RefundPlan := mkPlan {
  rp_OrderID : Z;
  rp_Order : PaymentOrder;
  rp_RefundAmount : float64;
  rp_CumulativeCredited : float64;
  rp_GatewayAmount : float64;
  rp_Reason : string;
  rp_Force : bool;
  rp_DeductBalance : bool;
  rp_DeductionType : DeductionType;
  rp_BalanceToDeduct : float64;
  rp_SubDaysToDeduct : Z;
  rp_SubscriptionID : Z;
  rp_deductionHeld : bool
}.

Record RefundResult := mkResult {
  rr_Success : bool;
  rr_Warning : string;
  rr_RequireForce : bool;
  rr_BalanceDeducted : float64;
  rr_SubDaysDeducted : Z
}.

Definition warning (w : string) (force : bool) : RefundResult := mkResult false w force fzero 0.

(** The plan with another deduction. *)
Definition with_deduction (held : bool) (ty : DeductionType) (balance : float64) (days subID : Z)
    (p : RefundPlan) : RefundPlan :=
  mkPlan (rp_OrderID p) (rp_Order p) (rp_RefundAmount p) (rp_CumulativeCredited p) (rp_GatewayAmount p)
    (rp_Reason p) (rp_Force p) (rp_DeductBalance p) ty balance days subID held.

Definition with_balance (b : float64) (p : RefundPlan) : RefundPlan :=
  with_deduction (rp_deductionHeld p) (rp_DeductionType p) b (rp_SubDaysToDeduct p) (rp_SubscriptionID p) p.
Definition with_days (d : Z) (p : RefundPlan) : RefundPlan :=
  with_deduction (rp_deductionHeld p) (rp_DeductionType p) (rp_BalanceToDeduct p) d (rp_SubscriptionID p) p.

Definition rollback_failed : string := "REFUND_ROLLBACK_FAILED".

Section Refund.
Context `{UnicodeCase} `{Location} `{Numeric} `{DecimalLib}.
Variable registry : gmap string string.

(** ** Amounts *)

Definition decimalRound2 (v : float64) : float64 := InexactFloat64 (Round 2 (NewFromFloat v)).
Definition decimalSubtract (a b : float64) : float64 :=
  InexactFloat64 (Round 2 (d_sub (NewFromFloat a) (NewFromFloat b))).
Definition decimalAdd (a b : float64) : float64 :=
  InexactFloat64 (Round 2 (d_add (NewFromFloat a) (NewFromFloat b))).

Definition calculateGatewayRefundAmount (orderAmount payAmount refundAmount : float64) (currency : string)
    : float64 :=
  if (orderAmount <=. fzero) || (payAmount <=. fzero) || (refundAmount <=. fzero) then fzero else
  let fractionDigits := CurrencyMaxFractionDigits currency in
  if Abs (fsub refundAmount orderAmount) <=. paymentAmountToleranceForCurrency currency
  then InexactFloat64 (Round fractionDigits (NewFromFloat payAmount))
  else InexactFloat64 (Round fractionDigits
         (d_div (d_mul (NewFromFloat payAmount) (NewFromFloat refundAmount)) (NewFromFloat orderAmount))).

Definition refundCreditedAlready (o : PaymentOrder) : float64 :=
  let value := decimalRound2 (rf_RefundAmount (po_refund o)) in
  if value <. fzero then fzero
  else if po_Amount (po_base o) <. value then po_Amount (po_base o) else value.

Definition cumulativeRefundCash (o : PaymentOrder) (cumulativeCredited : float64) (currency : string) : float64 :=
  if cumulativeCredited <=. fzero then fzero
  else calculateGatewayRefundAmount (po_Amount (po_base o)) (pay_PayAmount (po_payment o))
         cumulativeCredited currency.

Definition refundCashDelta (o : PaymentOrder) (previousCredited cumulativeCredited : float64)
    (currency : string) : float64 :=
  let delta := fsub (cumulativeRefundCash o cumulativeCredited currency)
                 (cumulativeRefundCash o previousCredited currency) in
  if delta <. fzero then fzero else delta.

Definition planCumulativeCredited (p : RefundPlan) : float64 :=
  if rp_RefundAmount p <. rp_CumulativeCredited p then rp_CumulativeCredited p else rp_RefundAmount p.

Definition refundFinalStatus (o : PaymentOrder) (cumulativeCredited : float64) : OrderStatus :=
  let tolerance := paymentAmountToleranceForCurrency (PaymentOrderCurrency (po_base o)) in
  if fadd cumulativeCredited tolerance <. po_Amount (po_base o)
  then OrderStatusPartiallyRefunded else OrderStatusRefunded.

(** ** The user's request *)

Definition refund_instance (o : PaymentOrder) : handler (option PaymentProviderInstance) :=
  instances ←! sql (read db_instances);
  match getRefundOrderProviderInstance (mkProviders instances registry) (po_base o) with
  | inl e => err e
  | inr i => ok i
  end.

Definition validateRefundRequest (oid uid : Z) : handler PaymentOrder :=
  r ← sql (get_order oid);
  match r with
  | inl _ => err ErrNotFound
  | inr o =>
      let b := po_base o in
      if negb (po_UserID b =? uid) then err "FORBIDDEN"%string
      else if String.eqb (po_OrderSource b) OrderSourceRedeem then err "REDEEM_ORDER_REFUND_DISABLED"%string
      else if negb (String.eqb (po_OrderType b) OrderTypeBalance) then err "INVALID_ORDER_TYPE"%string
      else if negb (status_in [OrderStatusCompleted] o) then err ErrInvalidStatus
      else
        inst ← refund_instance o;
        match inst with
        | inr (Some i) => if pi_AllowUserRefund i then ok o else err "USER_REFUND_DISABLED"%string
        | _ => err "USER_REFUND_DISABLED"%string
        end
  end.

Definition requested (now : Z) (reason by_ : string) (r : OrderRefund) : OrderRefund :=
  mkRefund (rf_RefundAmount r) (rf_RefundReason r) (rf_RefundAt r) (rf_ForceRefund r)
    (Some now) (Some reason) (Some by_).

Definition RequestRefund (oid uid : Z) (reason : string) : handler unit :=
  o ←! validateRefundRequest oid uid;
  u ←! sql (get_user (po_UserID (po_base o)));
  if as_float (u_Balance u) <. po_Amount (po_base o) then err "BALANCE_NOT_ENOUGH"%string else
  let nr := TrimSpace reason in
  now ← call Now;
  c ←! sql (update_order oid
              (λ o, (po_UserID (po_base o) =? uid) && status_in [OrderStatusCompleted] o
                    && String.eqb (po_OrderType (po_base o)) OrderTypeBalance)
              (λ o, set_status OrderStatusRefundRequested
                      (set_refund (requested now nr (FormatInt uid)) o)));
  if c =? 0 then err ErrConflict else writeAuditLog oid "REFUND_REQUESTED" nr.

(** ** Preparation *)

Definition refundable (o : PaymentOrder) : bool :=
  status_in [OrderStatusCompleted; OrderStatusRefundRequested; OrderStatusRefundFailed;
             OrderStatusPartiallyRefunded] o.

(** What to take back; or a result that asks for the force flag. *)
Definition prepDeduct (o : PaymentOrder) (p : RefundPlan) (force : bool)
    : prog stmt (RefundResult + RefundPlan) :=
  let b := po_base o in
  if String.eqb (po_OrderType b) OrderTypeSubscription then
    match po_SubscriptionGroupID b, po_SubscriptionDays b with
    | Some gid, Some days =>
        r ← sql (read (λ s, GetActiveByUserIDAndGroupID (po_UserID b) gid (db_now s) (db_subs s)));
        match r with
        | inr (Some sub) =>
            Ret (inr (with_deduction (rp_deductionHeld p) DeductionTypeSubscription (rp_BalanceToDeduct p)
                        days (us_ID sub) p))
        | _ =>
            if force
            then Ret (inr (with_deduction (rp_deductionHeld p) DeductionTypeSubscription
                             (rp_BalanceToDeduct p) days (rp_SubscriptionID p) p))
            else Ret (inl (warning "cannot find active subscription for deduction, use force" true))
        end
    | _, _ =>
        Ret (inr (with_deduction (rp_deductionHeld p) DeductionTypeSubscription (rp_BalanceToDeduct p)
                    (rp_SubDaysToDeduct p) (rp_SubscriptionID p) p))
    end
  else
    r ← sql (get_user (po_UserID b));
    match r with
    | inl _ => if force then Ret (inr p)
               else Ret (inl (warning "cannot fetch user balance, use force" true))
    | inr u =>
        let balance := as_float (u_Balance u) in
        if (balance <. rp_RefundAmount p) && negb force
        then Ret (inl (warning "user balance is insufficient for deduction, use force" true))
        else Ret (inr (with_deduction (rp_deductionHeld p) DeductionTypeBalance
                         (Max fzero (Min (rp_RefundAmount p) balance))
                         (rp_SubDaysToDeduct p) (rp_SubscriptionID p) p))
    end.

(** The plan for an amount; [amt <= 0] stands for all that remains. *)
Definition refund_plan (o : PaymentOrder) (amt : float64) (reason : string) (force deduct : bool)
    : pay_error + RefundPlan :=
  if IsNaN amt || IsInf amt then inl "INVALID_AMOUNT"%string else
  let currency := PaymentOrderCurrency (po_base o) in
  let tolerance := paymentAmountToleranceForCurrency currency in
  let total := po_Amount (po_base o) in
  let alreadyRefunded := refundCreditedAlready o in
  let remaining := decimalSubtract total alreadyRefunded in
  if remaining <=. tolerance then inl "REFUND_AMOUNT_EXCEEDED"%string else
  let amt := if amt <=. fzero then remaining else amt in
  if tolerance <. fsub amt remaining then inl "REFUND_AMOUNT_EXCEEDED"%string else
  let cumulative := decimalAdd alreadyRefunded amt in
  let cumulative := if total <. cumulative then total else cumulative in
  let ga := refundCashDelta o alreadyRefunded cumulative currency in
  let rr := TrimSpace reason in
  let rr := if String.eqb rr "" then default ""%string (rf_RequestReason (po_refund o)) else rr in
  let rr := if String.eqb rr "" then ("refund order:" ++ FormatInt (po_ID (po_base o)))%string else rr in
  inr (mkPlan (po_ID (po_base o)) o amt cumulative ga rr force deduct DeductionTypeNone fzero 0 0 false).

Definition PrepareRefund (oid : Z) (amt : float64) (reason : string) (force deduct : bool)
    : handler (RefundResult + RefundPlan) :=
  r ← sql (get_order oid);
  match r with
  | inl _ => err ErrNotFound
  | inr o =>
      if String.eqb (po_OrderSource (po_base o)) OrderSourceRedeem
      then err "REDEEM_ORDER_REFUND_DISABLED"%string
      else if negb (refundable o) then err ErrInvalidStatus
      else
        inst ← refund_instance o;
        match inst with
        | inl _ => err "PROVIDER_LOOKUP_FAILED"%string
        | inr None => err "REFUND_DISABLED"%string
        | inr (Some i) =>
            if negb (pi_RefundEnabled i) then err "REFUND_DISABLED"%string else
            match refund_plan o amt reason force deduct with
            | inl e => err e
            | inr p =>
                if deduct then d ← prepDeduct o p force; ok d else ok (inr p)
            end
        end
  end.

(** ** The lock and what is taken back *)

(** The order moves to REFUNDING; the thread that moves it owns the refund. *)
Definition claim_refund (oid : Z) (cond : PaymentOrder → bool) : tx Z :=
  c ← update_order oid cond (set_status OrderStatusRefunding);
  _ ← (if 0 <? c then emit (Locked oid) else mret tt);
  mret c.

(** A failure is ignored. *)
Definition restoreStatus (p : RefundPlan) : handler unit :=
  let rs :=
    match po_Status (rp_Order p) with
    | OrderStatusRefundRequested => OrderStatusRefundRequested
    | OrderStatusPartiallyRefunded => OrderStatusPartiallyRefunded
    | _ => OrderStatusCompleted
    end in
  _ ← sql (overwrite_order (rp_OrderID p) (set_status rs));
  ok tt.

Definition user_of (p : RefundPlan) : Z := po_UserID (po_base (rp_Order p)).

Definition takes_balance (p : RefundPlan) : bool :=
  bool_decide (rp_DeductionType p = DeductionTypeBalance) && (fzero <. rp_BalanceToDeduct p).
Definition takes_days (p : RefundPlan) : bool :=
  bool_decide (rp_DeductionType p = DeductionTypeSubscription)
  && (0 <? rp_SubDaysToDeduct p) && (0 <? rp_SubscriptionID p).

Definition extend_subscription (id days : Z) : tx (sub_error + unit) :=
  on_subs (λ now t, t ← ExtendSubscription id days now t; inr (tt, t)).
Definition revoke_subscription (id : Z) : tx unit :=
  r ← on_subs (λ now t, t ← RevokeSubscription id now t; inr (tt, t));
  lift_outcome sub_failure r.

(** The days are taken back; a subscription that would expire is revoked instead. *)
Definition take_days (id days : Z) : handler unit :=
  r ←! sql (extend_subscription id (- days));
  match r with
  | inr _ => ok tt
  | inl ErrAdjustWouldExpire => sql (revoke_subscription id)
  | inl e => err (sub_failure e)
  end.

Definition or_restore {A} (p : RefundPlan) (q : handler A) : handler A :=
  r ← q;
  match r with
  | inr a => ok a
  | inl e => restoreStatus p;;! err e
  end.

Definition deduct_balance (p : RefundPlan) : handler RefundPlan :=
  if takes_balance p then
    failed ← hasAuditLog (rp_OrderID p) rollback_failed;
    if failed : bool then ok (with_balance fzero p) else
    deducted ←! or_restore p (sql (DeductAvailableBalance (user_of p) (rp_BalanceToDeduct p)
                                     (TakenForRefund (rp_OrderID p))));
    ok (with_balance deducted p)
  else ok p.

Definition deduct_days (p : RefundPlan) : handler RefundPlan :=
  if takes_days p then
    failed ← hasAuditLog (rp_OrderID p) rollback_failed;
    if failed : bool then ok (with_days 0 p) else
    or_restore p (take_days (rp_SubscriptionID p) (rp_SubDaysToDeduct p));;!
    ok p
  else ok p.

(** ** The provider *)

Definition getRefundProvider (o : PaymentOrder) : handler Provider :=
  inst ←! refund_instance o;
  match inst with
  | None => err "refund provider instance is unavailable"%string
  | Some i => open_or_fail (FromInstance i)
  end.

(** The error, if the status is not one of a refund that went on. *)
Definition validateRefundProviderResponse (resp : option RefundResponse) : option pay_error :=
  match resp with
  | None => Some "payment refund response missing"%string
  | Some r =>
      let status := TrimSpace (rr_Status r) in
      if String.eqb status ProviderStatusSuccess || String.eqb status ProviderStatusRefunded
         || String.eqb status ProviderStatusPending then None
      else if String.eqb status ProviderStatusFailed then Some "payment refund failed: status failed"%string
      else Some ("payment refund returned unknown status: " ++ status)%string
  end.

(** The answer of a provider: a response, and whether there was an error.  The amount
    is formatted for the provider by FormatAmountForCurrency. *)
Definition gwRefund (p : RefundPlan) : handler RefundResponse :=
  let o := rp_Order p in
  let b := po_base o in
  if String.eqb (pay_TradeNo (po_payment o)) "" then
    writeAuditLog (po_ID b) "REFUND_NO_TRADE_NO" "skipped";;!
    ok (mkRefundResponse "" ProviderStatusSuccess)
  else
    prov ←! getRefundProvider o;
    match validateProviderSnapshotMetadata b (pr_Key prov) (pr_MerchantIdentity prov) with
    | Some e => writeAuditLog (po_ID b) "REFUND_PROVIDER_METADATA_MISMATCH" e;;! err e
    | None =>
        r ← call (Refund prov (rp_OrderID p) (mkRefundRequest (pay_TradeNo (po_payment o)) (po_OutTradeNo b)
                                                (rp_GatewayAmount p) (rp_Reason p)));
        match r with
        | (Some resp, true) =>
            if String.eqb (TrimSpace (rr_Status resp)) ProviderStatusPending then ok resp
            else err "refund"%string
        | (None, true) => err "refund"%string
        | (resp, false) =>
            match validateRefundProviderResponse resp, resp with
            | None, Some resp => ok resp
            | Some e, _ => err e
            | None, None => err "payment refund response missing"%string
            end
        end
    end.

(** ** Outcomes *)

Definition rollback_note (e : pay_error) : audit_detail := AuditText e.

(** [RollbackRefund]: what was taken is given back; whether it was. *)
Definition RollbackRefund (p : RefundPlan) : prog stmt bool :=
  returned ← (if takes_balance p
              then sql (UpdateBalance (user_of p) (rp_BalanceToDeduct p) (ReturnedForRefund (rp_OrderID p)))
              else ok tt);
  match returned with
  | inl e => _ ← writeAuditLog (rp_OrderID p) rollback_failed e; Ret false
  | inr _ =>
      if takes_days p then
        extended ← (r ←! sql (extend_subscription (rp_SubscriptionID p) (rp_SubDaysToDeduct p));
                    match r with inr _ => ok tt | inl e => err (sub_failure e) end);
        match extended with
        | inl e => _ ← writeAuditLog (rp_OrderID p) rollback_failed e; Ret false
        | inr _ => Ret true
        end
      else Ret true
  end.

Definition set_refund_failure (now : Z) (e : pay_error) (o : PaymentOrder) : PaymentOrder :=
  set_status OrderStatusRefundFailed (set_payment (set_failure (Some now) (Some e)) o).

Definition handleGwFail (p : RefundPlan) (gErr : pay_error) : handler RefundResult :=
  rolled_back ← RollbackRefund p;
  if rolled_back : bool then
    restoreStatus p;;!
    writeAuditLog (rp_OrderID p) "REFUND_GATEWAY_FAILED" gErr;;!
    ok (warning ("gateway failed: " ++ gErr ++ ", rolled back")%string false)
  else
    now ← call Now;
    _ ← sql (overwrite_order (rp_OrderID p) (set_refund_failure now gErr));
    writeAuditLog (rp_OrderID p) "REFUND_FAILED" gErr;;!
    err "REFUND_FAILED"%string.

(** [SetRefundAmount SetRefundReason SetRefundAt SetForceRefund]. *)
Definition record_refund (cumulative : float64) (reason : string) (at_ : option Z) (force : bool)
    (r : OrderRefund) : OrderRefund :=
  mkRefund (column2 cumulative) (Some reason) at_ force (rf_RequestedAt r) (rf_RequestReason r)
    (rf_RequestedBy r).

Definition refunded (now : Z) (p : RefundPlan) (o : PaymentOrder) : PaymentOrder :=
  let cumulative := planCumulativeCredited p in
  set_status (refundFinalStatus (rp_Order p) cumulative)
    (set_refund (record_refund cumulative (rp_Reason p) (Some now) (rp_Force p)) o).

Definition success (p : RefundPlan) : RefundResult :=
  mkResult true "" false (rp_BalanceToDeduct p) (rp_SubDaysToDeduct p).

Definition markRefundOk (p : RefundPlan) : handler RefundResult :=
  now ← call Now;
  sql (overwrite_order (rp_OrderID p) (refunded now p));;!
  writeAuditLog (rp_OrderID p) "REFUND_SUCCESS" (rp_Reason p);;!
  ok (success p).

Definition pending_detail (p : RefundPlan) (refundID : string) (now : Z) : refundPendingAuditDetail :=
  mkPending refundID (rp_RefundAmount p) (planCumulativeCredited p) (rp_GatewayAmount p) (rp_Reason p)
    (rp_Force p) true true (rp_DeductionType p) (rp_BalanceToDeduct p) (rp_SubDaysToDeduct p)
    (rp_SubscriptionID p) now.

Definition pending_order (p : RefundPlan) (o : PaymentOrder) : PaymentOrder :=
  set_status OrderStatusRefundPending
    (set_payment (set_failure None None)
       (set_refund (record_refund (planCumulativeCredited p) (rp_Reason p) None (rp_Force p)) o)).

Definition refund_pending : string := "REFUND_PENDING".

(** The order and the entry that records the held deduction, in one transaction. *)
Definition mark_pending_tx (p : RefundPlan) (refundID : string) : tx unit :=
  _ ← overwrite_order (rp_OrderID p) (pending_order p);
  now ← read db_now;
  create_audit (rp_OrderID p) refund_pending (AuditPending (pending_detail p refundID now)).

Definition markRefundPending (p : RefundPlan) (resp : RefundResponse) : handler RefundResult :=
  sql (mark_pending_tx p (TrimSpace (rr_RefundID resp)));;!
  ok (warning "gateway refund is pending confirmation" false).

Definition finishRefund (p : RefundPlan) (resp : RefundResponse) : handler RefundResult :=
  match validateRefundProviderResponse (Some resp) with
  | Some e => handleGwFail p e
  | None =>
      if String.eqb (TrimSpace (rr_Status resp)) ProviderStatusPending then markRefundPending p resp
      else markRefundOk p
  end.

Definition ExecuteRefund (p : RefundPlan) : handler RefundResult :=
  order ←! sql (get_order (rp_OrderID p));
  if String.eqb (po_OrderSource (po_base order)) OrderSourceRedeem
  then err "REDEEM_ORDER_REFUND_DISABLED"%string else
  c ←! sql (claim_refund (rp_OrderID p) refundable);
  if c =? 0 then err ErrConflict else
  p ←! deduct_balance p;
  p ←! deduct_days p;
  resp ← gwRefund p;
  match resp with
  | inl e => handleGwFail p e
  | inr resp => finishRefund p resp
  end.

(** The administrator's request, prepared and then executed. *)
Definition ProcessRefund (oid : Z) (amt : float64) (reason : string) (force deduct : bool)
    : handler RefundResult :=
  r ←! PrepareRefund oid amt reason force deduct;
  match r with
  | inl early => ok early
  | inr p => ExecuteRefund p
  end.

(** ** Pending refunds *)

(** The detail of an order without an entry: an old order, nothing held. *)
Definition no_pending_detail : refundPendingAuditDetail :=
  mkPending "" fzero fzero fzero "" false true false DeductionTypeNone fzero 0 0 0.

Definition latestRefundPendingDetail (oid : Z) : handler refundPendingAuditDetail :=
  r ←! sql (read (λ s, db_audit s !! (oid, refund_pending)));
  match r with
  | None => ok no_pending_detail
  | Some (AuditPending d) => ok d
  | Some (AuditText _) => err "parse refund pending audit"%string
  end.

Definition refundFinalizePlan (o : PaymentOrder) (d : refundPendingAuditDetail) : RefundPlan :=
  let b := po_base o in
  let refundAmount := decimalRound2 (pd_RefundAmount d) in
  let fallback := refundAmount <=. fzero in
  let stored := decimalRound2 (rf_RefundAmount (po_refund o)) in
  let refundAmount := if fallback then stored else refundAmount in
  let cumulative := if fallback then stored else decimalRound2 (pd_CumulativeRefundAmount d) in
  let gateway :=
    if fallback
    then calculateGatewayRefundAmount (po_Amount b) (pay_PayAmount (po_payment o)) refundAmount
           (PaymentOrderCurrency b)
    else pd_GatewayAmount d in
  let cumulative := if cumulative <. refundAmount then refundAmount else cumulative in
  let reason := TrimSpace (psStringValue (rf_RefundReason (po_refund o))) in
  let reason := if String.eqb reason "" then ("refund order:" ++ FormatInt (po_ID b))%string else reason in
  mkPlan (po_ID b) o refundAmount cumulative gateway reason (rf_ForceRefund (po_refund o)) true
    DeductionTypeBalance
    (if String.eqb (po_OrderType b) OrderTypeBalance then refundAmount else fzero) 0 0 false.

Definition apply_held (d : refundPendingAuditDetail) (p : RefundPlan) : RefundPlan :=
  with_deduction true (pd_DeductionType d) (pd_BalanceDeducted d) (pd_SubDaysDeducted d)
    (pd_SubscriptionID d) p.

(** Inside the transaction. *)
Definition applyRefundFinalDeduction (p : RefundPlan) : tx RefundPlan :=
  if rp_deductionHeld p then mret p else
  p ← (if takes_balance p then
          d ← DeductAvailableBalance (user_of p) (rp_BalanceToDeduct p) (TakenForRefund (rp_OrderID p));
          mret (with_balance d p)
        else mret p);
  if takes_days p then
    r ← extend_subscription (rp_SubscriptionID p) (- rp_SubDaysToDeduct p);
    match r with
    | inr _ => mret p
    | inl ErrAdjustWouldExpire => _ ← revoke_subscription (rp_SubscriptionID p); mret p
    | inl e => fail (sub_failure e)
    end
  else mret p.

Definition markRefundOkTx (p : RefundPlan) : tx RefundResult :=
  now ← read db_now;
  _ ← overwrite_order (rp_OrderID p) (refunded now p);
  _ ← create_audit (rp_OrderID p) "REFUND_SUCCESS" (AuditText (rp_Reason p));
  mret (success p).

Definition is_pending (o : PaymentOrder) : bool := status_in [OrderStatusRefundPending] o.

Definition finalize_success_tx (p : RefundPlan) : tx RefundResult :=
  claimed ← claim_refund (rp_OrderID p) is_pending;
  if claimed =? 0 then fail ErrConflict else
  p ← applyRefundFinalDeduction p;
  markRefundOkTx p.

Definition finalizePendingRefundSuccess (p : RefundPlan) : handler RefundResult :=
  sql (finalize_success_tx p).

Definition ErrReturnHeld : pay_error := "return held refund deduction".

(** A failure fails the transaction with an error of its own. *)
Definition returnHeldRefundDeduction (p : RefundPlan) : tx unit := λ i w s,
  match
    (_ ← (if takes_balance p
           then UpdateBalance (user_of p) (rp_BalanceToDeduct p) (ReturnedForRefund (rp_OrderID p))
           else mret tt);
     if takes_days p then
       r ← extend_subscription (rp_SubscriptionID p) (rp_SubDaysToDeduct p);
       lift_outcome sub_failure r
     else mret tt) i w s
  with
  | inl _ => inl ErrReturnHeld
  | inr r => inr r
  end.

Definition finalize_failed_tx (p : RefundPlan) (gErr : pay_error) (rollbackErr : option pay_error)
    : tx unit :=
  now ← read db_now;
  let previousCredited := decimalSubtract (planCumulativeCredited p) (rp_RefundAmount p) in
  let previousCredited := if previousCredited <. fzero then fzero else previousCredited in
  claimed ← update_order (rp_OrderID p) is_pending
     (λ o, set_refund_failure now gErr
             (set_refund (λ r, mkRefund (column2 previousCredited) (rf_RefundReason r) (rf_RefundAt r)
                                 (rf_ForceRefund r) (rf_RequestedAt r) (rf_RequestReason r)
                                 (rf_RequestedBy r)) o));
  if claimed =? 0 then fail ErrConflict else
  _ ← match rollbackErr with
      | None => if rp_deductionHeld p then returnHeldRefundDeduction p else mret tt
      | Some e => create_audit (rp_OrderID p) rollback_failed (rollback_note e)
      end;
  create_audit (rp_OrderID p) "REFUND_FAILED" (AuditText gErr).

(** When what is held cannot be given back, the order still fails, with the flag that
    keeps a retry from taking it again. *)
Definition finalizeRefundFailed (p : RefundPlan) (gErr : pay_error) : handler RefundResult :=
  let w := ("gateway refund failed: " ++ gErr)%string in
  r ← sql (finalize_failed_tx p gErr None);
  match r with
  | inr _ => ok (warning w false)
  | inl e =>
      if String.eqb e ErrReturnHeld then
        sql (finalize_failed_tx p gErr (Some e));;!
        ok (warning (w ++ "; refund deduction rollback failed")%string false)
      else err e
  end.

Definition QueryAndFinalizeRefund (oid : Z) : handler RefundResult :=
  r ← sql (get_order oid);
  match r with
  | inl _ => err ErrNotFound
  | inr o =>
      let b := po_base o in
      if String.eqb (po_OrderSource b) OrderSourceRedeem then err "REDEEM_ORDER_REFUND_DISABLED"%string
      else if negb (is_pending o) then err ErrInvalidStatus
      else
        prov ←! getRefundProvider o;
        if negb (pr_QueriesRefunds prov) then err "REFUND_QUERY_UNSUPPORTED"%string else
        d ←! latestRefundPendingDetail oid;
        answer ← call (QueryRefund prov (TrimSpace (pd_RefundID d)));
        let '(resp, failed) := answer in
        if failed : bool then err "query refund"%string else
        again ←! latestRefundPendingDetail oid;
        let plan := refundFinalizePlan o again in
        planned ← (if pd_DeductionHeld d then Ret (inr (apply_held d plan))
                   else if negb (pd_DeductionRollbackOK d)
                   then Ret (inr (with_days 0 (with_balance fzero plan)))
                   else if String.eqb (po_OrderType b) OrderTypeSubscription then prepDeduct o plan true
                   else Ret (inr plan));
        match planned with
        | inl early => ok early
        | inr plan =>
            match validateRefundProviderResponse resp, resp with
            | Some e, _ => finalizeRefundFailed plan e
            | None, Some resp =>
                if String.eqb (TrimSpace (rr_Status resp)) ProviderStatusPending then
                  writeAuditLog oid "REFUND_QUERY_PENDING" (rr_RefundID resp);;!
                  ok (warning "gateway refund is still pending confirmation" false)
                else finalizePendingRefundSuccess plan
            | None, None => err "query refund"%string
            end
        end
  end.
End Refund.
