(* ===== verification/PaymentExamples.v ===== *)
(** * Payment orders: concrete instances and a sample database

    Decimal columns and a decimal library computed on integers, a calm environment
    and a small database, for the concrete runs of the payment files.  Nothing is
    proved about payments in general here. *)

From Stdlib Require Import ZArith Lia Ascii String SpecFloat.
From stdpp Require Import base tactics numbers list gmap strings.
From S2P Require Import Prelude GoStrings GoFloat GoTime Subscription Programs.
From S2P Require Import PaymentData PaymentProvider PaymentStore PaymentFulfillment PaymentLifecycle PaymentRefund.

Open Scope go_scope.

(** The integer nearest to [f * 10^k], halves away from zero. *)
Definition scaled (k : Z) (f : float64) : Z :=
  match f with
  | S754_finite neg m e =>
      let n := Zpos m * 10 ^ k in
      let z := if 0 <=? e then n * 2 ^ e else (2 * n + 2 ^ (- e)) `div` (2 * 2 ^ (- e)) in
      if neg then - z else z
  | _ => 0
  end.

Definition from_scaled (k z : Z) : float64 := fdiv (float_of_Z z) (float_of_Z (10 ^ k)).

Definition demo_numeric : Numeric :=
  {| column := scaled 8; as_float := from_scaled 8; column2 := λ f, from_scaled 2 (scaled 2 f) |}.

(** The quotient rounded to the nearest integer, halves away from zero. *)
Definition round_div (a b : Z) : Z := Z.sgn a * ((2 * Z.abs a + b) `div` (2 * b)).

(** Decimals with ten digits after the point. *)
Definition demo_decimal : DecimalLib :=
  {| decimal := Z;
     NewFromFloat := scaled 10;
     d_add := Z.add;
     d_sub := Z.sub;
     d_mul := λ a b, round_div (a * b) (10 ^ 10);
     d_div := λ a b, round_div (a * 10 ^ 10) b;
     Round := λ k d, round_div d (10 ^ (10 - k)) * 10 ^ (10 - k);
     InexactFloat64 := from_scaled 10 |}.

Definition usd (cents : Z) : float64 := from_scaled 2 cents.

Definition demo_now : Z := 738000 * Day.

(** An order of 10.00 for user 1, paid with 72.00. *)
Definition demo_base (oid : Z) (typ : string) : OrderBase :=
  mkBase oid 1 (usd 1000) fzero ("PAY-" ++ FormatInt oid ++ "-1") ("sub2_a" ++ FormatInt oid) "alipay" "payment" ""
    typ (Some 3) (Some 30) (Some "1"%string) (Some "alipay"%string) ∅ (demo_now + Hour).

Definition demo_order (oid : Z) (typ : string) (st : OrderStatus) (trade : string) (paid_at : option Z) : PaymentOrder :=
  mkOrder (demo_base oid typ) st (mkPayment (usd 7200) trade paid_at None None None)
    (mkRefund fzero None None false None None None) demo_now.

Definition demo_instance : PaymentProviderInstance := mkInstance 1 "alipay" "alipay" true true true.

Definition demo_group3 : Group := mkGroup 3 "active" "subscription" None None None None.

(** Users 1 and 2 have 0.50 and 20.00; orders 7 and 8 are pending. *)
Definition demo_db : DB :=
  mkDB demo_now
    {[ 7 := demo_order 7 "balance" OrderStatusPending "" None;
       8 := demo_order 8 "subscription" OrderStatusPending "" None ]}
    ∅ 1 {[ 1 := mkUser 50000000 0 5; 2 := mkUser 2000000000 0 5 ]} ∅
    (mkSubTable ∅ 1 {[ 3 := demo_group3 ]}) {[ 1 := demo_instance ]} [].

Definition demo_provider : Provider := mkProvider "alipay" ∅ true true.

Definition calm : world := mkWorld NoFault (Some (usd 100)) true (Some demo_provider) None (None, true).

(** The provider answers a refund with a status. *)
Definition answering (status : string) : world :=
  mkWorld NoFault (Some (usd 100)) true (Some demo_provider) None (Some (mkRefundResponse "r1" status), false).

Definition demo_notification (oid : Z) : PaymentNotification :=
  mkNotification "trade-1" ("sub2_a" ++ FormatInt oid) (usd 7200) "success" ∅.
