(* ===== verification/PaymentInvariant.v ===== *)
(** * Payment orders: the invariant of the database

    What every statement keeps ([Inv]) and what a handler may rely on while others
    run ([Rely]): a completed order is backed by one used code or one extension, a
    code is credited once, an order in REFUNDING is written by the thread that locked
    it only, every balance is the sum of the recorded movements, and what a refund takes
    is available.  The second half
    is the logic of statements ([tx_ok]) and a rule for each of them. *)

From Stdlib Require Import ZArith Lia Ascii String.
From stdpp Require Import base tactics numbers list gmap strings.
From S2P Require Import Prelude GoStrings GoFloat GoTime Subscription Programs.
From S2P Require Import PaymentData PaymentProvider PaymentStore PaymentFulfillment PaymentLifecycle PaymentRefund.

Open Scope go_scope.

(** ** The history *)

(** The credits of a code: the user and the units. *)
Definition credit_of (code : string) (e : event) : option (Z * Z) :=
  match e with
  | Moved u d (ByCode c) => if String.eqb c code then Some (u, d) else None
  | _ => None
  end.

Definition credits (code : string) (log : list event) : list (Z * Z) := omap (credit_of code) log.

(** What a user's balance moved by. *)
Definition moved (user : Z) (log : list event) : Z :=
  foldr (λ e n, match e with Moved u d _ => if u =? user then d + n else n | _ => n end) 0 log.

Definition extensions (oid : Z) (log : list event) : nat :=
  length (List.filter (λ e, match e with Assigned o => o =? oid | _ => false end) log).

Definition rebates (oid : Z) (log : list event) : nat :=
  length (List.filter (λ e, match e with Rebated o => o =? oid | _ => false end) log).

(** The thread that locked the order last. *)
Fixpoint owner (oid : Z) (log : list event) : option nat :=
  match log with
  | [] => None
  | Locked o i :: log => if o =? oid then Some i else owner oid log
  | _ :: log => owner oid log
  end.

(** Provider requests and unconditional writes are made by the owner of a REFUNDING
    order. *)
Fixpoint exclusive (log : list event) : Prop :=
  match log with
  | [] => True
  | Sent oid i st _ :: log => st = OrderStatusRefunding ∧ owner oid log = Some i ∧ exclusive log
  | Overwritten oid i st :: log => st = OrderStatusRefunding ∧ owner oid log = Some i ∧ exclusive log
  | _ :: log => exclusive log
  end.

(** What a refund takes never pushes a balance below zero: [bal + d] is the balance
    after the movement [d], which finds [bal]. *)
Fixpoint capped (opening : Z → Z) (log : list event) : Prop :=
  match log with
  | [] => True
  | Moved u d (TakenForRefund _) :: log =>
      Z.min (opening u + moved u log) 0 ≤ opening u + moved u log + d ∧ capped opening log
  | _ :: log => capped opening log
  end.

(** ** Orders and codes *)

Definition settled (st : OrderStatus) : bool :=
  bool_decide (st = OrderStatusCompleted) || psIsRefundStatus st.

Definition used_by (user : Z) (r : RedeemCode) : Prop :=
  rc_Status r = StatusUsed ∧ rc_UsedBy r = Some user.

(** The columns of a code that never change. *)
Definition same_code (r r' : RedeemCode) : Prop :=
  rc_ID r' = rc_ID r ∧ rc_Code r' = rc_Code r ∧ rc_Type r' = rc_Type r ∧ rc_Value r' = rc_Value r.

Section Invariant.
Context `{UnicodeCase} `{Location} `{Numeric} `{DecimalLib}.

(** The value of the code is the amount of the order. *)
Definition covers (r : RedeemCode) (b : OrderBase) : Prop :=
  rc_Value r = column (po_Amount b) ∨
  (code_tolerance <. Abs (fsub (as_float (rc_Value r)) (po_Amount b))) = false.

Definition assigned (oid : Z) (audit : gmap (Z * string) audit_detail) : Prop :=
  is_Some (audit !! (oid, subscription_assigned)) ∨ is_Some (audit !! (oid, subscription_success)).

(** What stands behind a completed order. *)
Definition funded (b : OrderBase) (codes : gmap string RedeemCode) (audit : gmap (Z * string) audit_detail)
    : Prop :=
  if String.eqb (po_OrderType b) OrderTypeBalance then
    ∃ r, codes !! po_RechargeCode b = Some r ∧ used_by (po_UserID b) r
         ∧ rc_Type r = RedeemTypeBalance ∧ covers r b
  else if String.eqb (po_OrderType b) OrderTypeSubscription then assigned (po_ID b) audit
  else False.

(** A code and its credits. *)
Definition code_ok (log : list event) (code : string) (r : RedeemCode) : Prop :=
  rc_Code r = code ∧
  if bool_decide (rc_Status r = StatusUsed ∧ rc_Type r = RedeemTypeBalance)
  then ∃ u d, rc_UsedBy r = Some u ∧ credits code log = [(u, d)]
         ∧ ((as_float (rc_Value r) <. fzero) = false → d = column (as_float (rc_Value r)))
  else credits code log = [].

(** [opening]: the balances at the beginning. *)
Record Inv (opening : Z → Z) (s : DB) : Prop := mkInv {
  inv_codes : ∀ c r, db_codes s !! c = Some r → code_ok (db_log s) c r;
  inv_absent : ∀ c, db_codes s !! c = None → credits c (db_log s) = [];
  inv_orders : ∀ oid o, db_orders s !! oid = Some o →
    po_ID (po_base o) = oid ∧ TrimSpace (po_RechargeCode (po_base o)) = po_RechargeCode (po_base o);
  inv_funded : ∀ oid o, db_orders s !! oid = Some o → settled (po_Status o) = true →
    funded (po_base o) (db_codes s) (db_audit s);
  inv_extended : ∀ oid, (extensions oid (db_log s) ≤ 1)%nat ∧
    (extensions oid (db_log s) = 1%nat → assigned oid (db_audit s));
  inv_rebated : ∀ oid, (rebates oid (db_log s) ≤ 1)%nat ∧
    (rebates oid (db_log s) = 1%nat →
       is_Some (db_audit s !! (oid, rebate_applied)) ∨ is_Some (db_audit s !! (oid, rebate_skipped)));
  inv_exclusive : exclusive (db_log s);
  inv_ledger : ∀ uid u, db_users s !! uid = Some u → u_Balance u = opening uid + moved uid (db_log s);
  inv_capped : capped opening (db_log s)
}.

(** ** What threads rely on *)

Definition holds (i : nat) (oid : Z) (s : DB) : Prop :=
  ∃ o, db_orders s !! oid = Some o ∧ po_Status o = OrderStatusRefunding ∧ owner oid (db_log s) = Some i.

Record Rely (i : nat) (s s' : DB) : Prop := mkRely {
  rely_orders : ∀ oid o, db_orders s !! oid = Some o →
    ∃ o', db_orders s' !! oid = Some o' ∧ po_base o' = po_base o
          ∧ (settled (po_Status o) = true → settled (po_Status o') = true);
  rely_codes : ∀ c r, db_codes s !! c = Some r →
    ∃ r', db_codes s' !! c = Some r' ∧ same_code r r' ∧ (rc_Status r = StatusUsed → r' = r);
  rely_assigned : ∀ oid, assigned oid (db_audit s) → assigned oid (db_audit s');
  rely_holds : ∀ oid, holds i oid s → holds i oid s'
}.

#[export] Instance same_code_preorder : PreOrder same_code.
Proof.
  split.
  - intros r. by repeat split.
  - intros r1 r2 r3 (?&?&?&?) (?&?&?&?). repeat split; congruence.
Qed.

#[export] Instance Rely_preorder : PreOrders Rely.
Proof.
  split. intros i.
  split.
  - intros s. split; [naive_solver| |done|done]. intros c r Hr. exists r. by split_and!.
  - intros s1 s2 s3 [O1 C1 A1 L1] [O2 C2 A2 L2]. split; [| |auto|auto].
    + intros oid o Ho. destruct (O1 _ _ Ho) as (o2 & Ho2 & Hb2 & Hs2).
      destruct (O2 _ _ Ho2) as (o3 & Ho3 & Hb3 & Hs3). exists o3. split; [done|]. split; [congruence|auto].
    + intros c r Hr. destruct (C1 _ _ Hr) as (r2 & Hr2 & Hb2 & Hs2).
      destruct (C2 _ _ Hr2) as (r3 & Hr3 & Hb3 & Hs3). exists r3. split; [done|].
      split; [by etransitivity|]. intros Hu. specialize (Hs2 Hu) as ->. auto.
Qed.

(** ** Assertions *)

Definition has_order (oid : Z) (b : OrderBase) (s : DB) : Prop :=
  ∃ o, db_orders s !! oid = Some o ∧ po_base o = b.

Definition has_code (r : RedeemCode) (s : DB) : Prop :=
  ∃ r', db_codes s !! rc_Code r = Some r' ∧ same_code r r'.

Definition code_used (code : string) (user : Z) (s : DB) : Prop :=
  ∃ r, db_codes s !! code = Some r ∧ used_by user r.

(** The code of the order is a balance code of its amount. *)
Definition code_covers (b : OrderBase) (s : DB) : Prop :=
  ∃ r, db_codes s !! po_RechargeCode b = Some r ∧ rc_Type r = RedeemTypeBalance ∧ covers r b.

Definition is_funded (b : OrderBase) (s : DB) : Prop := funded b (db_codes s) (db_audit s).

Lemma rely_code_used i code user : stable Rely i (code_used code user).
Proof.
  intros s s' [_ HC _ _] (r & Hr & Hu & Hb). destruct (HC _ _ Hr) as (r' & Hr' & _ & He).
  specialize (He Hu) as ->. by exists r.
Qed.

Lemma rely_code_covers i b : stable Rely i (code_covers b).
Proof.
  intros s s' [_ HC _ _] (r & Hr & Ht & Hc). destruct (HC _ _ Hr) as (r' & Hr' & (_ & _ & Ht' & Hv) & _).
  exists r'. unfold covers in *. split; [done|]. split; [congruence|by rewrite Hv].
Qed.

Lemma rely_has_code i r : stable Rely i (has_code r).
Proof.
  intros s s' [_ HC _ _] (r1 & Hr & Hs). destruct (HC _ _ Hr) as (r2 & Hr2 & Hs2 & _).
  exists r2. split; [done|]. by etransitivity.
Qed.

Lemma rely_has_order i oid b : stable Rely i (has_order oid b).
Proof.
  intros s s' [HO _ _ _] (o & Ho & <-). destruct (HO _ _ Ho) as (o' & Ho' & Hb & _). by exists o'.
Qed.

Lemma rely_funded i b : stable Rely i (is_funded b).
Proof.
  intros s s' Hr Hf. unfold is_funded, funded in *. case_match.
  - destruct Hf as (r & Hc & Hu & Ht & Hcov).
    destruct (rely_codes _ _ _ Hr _ _ Hc) as (r' & Hr' & _ & He).
    destruct Hu as [Hu Hb]. specialize (He Hu) as ->. by exists r.
  - case_match; [|done]. by eapply rely_assigned.
Qed.

Lemma stable_and i (P Q : DB → Prop) : stable Rely i P → stable Rely i Q → stable Rely i (λ s, P s ∧ Q s).
Proof. intros HP HQ s s' Hr [? ?]. split; [by eapply HP|by eapply HQ]. Qed.

Lemma stable_True i : stable Rely i (λ _, True).
Proof. by intros ???. Qed.

Lemma stable_holds i oid : stable Rely i (holds i oid).
Proof. intros s s' Hr. by apply Hr. Qed.
End Invariant.

Create HintDb stability.
#[export] Hint Resolve stable_and stable_True stable_holds rely_code_used rely_code_covers rely_has_code
  rely_has_order rely_funded : stability.
