(* ===== verification/PaymentLogic.v ===== *)
(** * Payment orders: the logic of statements

    [tx_ok] is the triple of a statement or transaction: from the invariant and a
    precondition it keeps the invariant and what others rely on.  There is a rule for
    each way statements compose and for each statement of PaymentStore.  [tame]
    programs need no precondition; the tactic [tame_tac] finds them. *)

From Stdlib Require Import ZArith Lia Ascii String.
From stdpp Require Import base tactics numbers list gmap strings.
From S2P Require Import Prelude GoStrings GoFloat GoTime Subscription Programs.
From S2P Require Import PaymentData PaymentProvider PaymentStore PaymentFulfillment PaymentLifecycle PaymentRefund.
From S2P Require Import PaymentInvariant.

Open Scope go_scope.

Definition ok_post {A} (Q : A → DB → Prop) (r : pay_error + A) (s : DB) : Prop :=
  match r with inr a => Q a s | inl _ => True end.

Section Logic.
Context `{UnicodeCase} `{Location} `{Numeric} `{DecimalLib}.
Variable opening : Z → Z.
Abbreviation Inv := (Inv opening).
Abbreviation triple := (triple exec Inv Rely).
Abbreviation tame := (tame exec Inv Rely).

Definition tx_ok {A} (quiet : bool) (i : nat) (P : DB → Prop) (t : tx A) (Q : A → DB → Prop) : Prop :=
  ∀ w s, Inv s → P s →
    match t i w s with
    | inl _ => True
    | inr (a, s') => Inv s' ∧ (∀ j, quiet = true ∨ j ≠ i → Rely j s s') ∧ Q a s'
    end.

(** ** Composition *)

Lemma tx_ok_ret {A} q i (P : DB → Prop) (a : A) (Q : A → DB → Prop) :
  (∀ s, Inv s → P s → Q a s) → tx_ok q i P (mret a) Q.
Proof. intros HQ w s Hi Hs. simpl. split_and!; [done|by intros|auto]. Qed.

Lemma tx_ok_fail {A} q i P e (Q : A → DB → Prop) : tx_ok q i P (fail e) Q.
Proof. by intros w s Hi Hs. Qed.

Lemma tx_ok_bind {A B} q i P (t : tx A) (f : A → tx B) M Q :
  tx_ok q i P t M → (∀ a, tx_ok q i (M a) (f a) Q) → tx_ok q i P (mbind f t) Q.
Proof.
  intros Ht Hf w s Hi Hs. specialize (Ht w s Hi Hs). unfold mbind, tx_bind.
  destruct (t i w s) as [e|[a s1]]; [done|]. destruct Ht as (Hi1 & Hr1 & Ha).
  specialize (Hf a w s1 Hi1 Ha). destruct (f a i w s1) as [e|[b s2]]; [done|].
  destruct Hf as (Hi2 & Hr2 & Hb). split_and!; [done| |done].
  intros j Hj. etransitivity; [by apply Hr1|by apply Hr2].
Qed.

Lemma tx_ok_pre {A} q i (P P' : DB → Prop) (t : tx A) Q :
  (∀ s, Inv s → P s → P' s) → tx_ok q i P' t Q → tx_ok q i P t Q.
Proof. intros HP Ht w s Hi Hs. apply Ht; auto. Qed.

Lemma tx_ok_post {A} q i P (t : tx A) (Q Q' : A → DB → Prop) :
  (∀ a s, Inv s → Q' a s → Q a s) → tx_ok q i P t Q' → tx_ok q i P t Q.
Proof.
  intros HQ Ht w s Hi Hs. specialize (Ht w s Hi Hs). destruct (t i w s) as [|[a s']]; [done|].
  destruct Ht as (? & ? & ?). split_and!; auto.
Qed.

Lemma tx_ok_read {A} q i P (f : DB → A) : tx_ok q i P (read f) (λ a s, a = f s ∧ P s).
Proof. intros w s Hi Hs. simpl. by split_and!. Qed.

Lemma tx_ok_get {A} q i P e (f : DB → option A) : tx_ok q i P (get e f) (λ a s, f s = Some a ∧ P s).
Proof. intros w s Hi Hs. unfold get. destruct (f s) eqn:Hf; [by split_and!|done]. Qed.

Lemma tx_ok_ask {A} q i P (f : world → A) : tx_ok q i P (ask f) (λ _, P).
Proof. intros w s Hi Hs. simpl. by split_and!. Qed.

(** A quiet statement keeps every assertion its thread may rely on. *)
Lemma tx_ok_frame {A} i P (t : tx A) Q (F : DB → Prop) :
  stable Rely i F → tx_ok true i P t Q → tx_ok true i (λ s, P s ∧ F s) t (λ a s, Q a s ∧ F s).
Proof.
  intros HF Ht w s Hi [HP HFs]. specialize (Ht w s Hi HP). destruct (t i w s) as [|[a s']]; [done|].
  destruct Ht as (? & Hr & ?). split_and!; [done|done|done|]. eapply HF; [apply Hr; by left|done].
Qed.

Lemma tx_ok_quiet {A} q i P (t : tx A) Q : tx_ok true i P t Q → tx_ok q i P t Q.
Proof.
  intros Ht w s Hi Hs. specialize (Ht w s Hi Hs). destruct (t i w s) as [|[a s']]; [done|].
  destruct Ht as (? & Hr & ?). split_and!; auto.
Qed.

Lemma sql_ok {A} q i P (t : tx A) Q :
  stable Rely i P → (∀ a, stable Rely i (Q a)) → tx_ok q i P t Q → triple q i P (sql t) (ok_post Q).
Proof.
  intros HP HQ Ht. unfold sql, call. eapply (triple_do _ _ _ _ _ _ _ _ (ok_post Q)); [done| |].
  - intros s w Hi Hs. specialize (Ht w s Hi Hs). simpl. unfold run_sql.
    destruct (t i w s) as [e|[a s']]; destruct (w_fault w); simpl; naive_solver.
  - intros [e|a]; apply triple_ret; simpl; [by intros ???|done|apply HQ|done].
Qed.

Lemma try_ok {A B} q i P (p : handler A) (f : A → handler B) M Q :
  triple q i P p (ok_post M) → (∀ a, triple q i (M a) (f a) (ok_post Q)) →
  triple q i P (try p f) (ok_post Q).
Proof.
  intros Hp Hf. eapply (triple_bind exec Inv Rely); [exact Hp|]. intros [e|a]; simpl; [|apply Hf].
  apply triple_ret; [by intros ???|done].
Qed.

(** ** Programs without a precondition

    The rules of Programs.v for this invariant. *)

Definition tame_ret {A} := tame_ret exec Inv Rely (A := A).
Definition tame_bind {A B} := tame_bind exec Inv Rely (A := A) (B := B).
Definition tame_loud {A} := tame_loud exec Inv Rely (A := A).
Definition tame_call {X} := tame_call exec Inv Rely (X := X).
Definition tame_frame {A} := tame_frame exec Inv Rely (A := A).
Definition quiet_frame {A} := quiet_frame exec Inv Rely (A := A).
Definition tame_triple {A} := tame_triple exec Inv Rely (A := A).

Lemma tame_try {A B} q (p : handler A) (f : A → handler B) :
  tame q p → (∀ a, tame q (f a)) → tame q (try p f).
Proof. intros Hp Hf. apply tame_bind; [done|]. intros [e|a]; [apply tame_ret|done]. Qed.

Lemma tame_sql {A} q (t : tx A) : (∀ i, tx_ok q i (λ _, True) t (λ _ _, True)) → tame q (sql t).
Proof.
  intros Ht i. apply (triple_conseq exec _ Rely _ _ _ (λ _, True) _ _ (ok_post (λ _ _, True))); [done| |done].
  by apply sql_ok.
Qed.

End Logic.
