(* ===== verification/PaymentStatements.v ===== *)
(** * Payment orders: a rule for each statement

    Every statement of the payment handlers keeps the invariant and what other
    threads rely on ([tx_ok]); the rules say what it needs for that and what it
    establishes. *)

From Stdlib Require Import ZArith Lia Ascii String.
From stdpp Require Import base tactics numbers list gmap strings.
From S2P Require Import Prelude GoStrings GoFloat GoTime Subscription Programs.
From S2P Require Import PaymentData PaymentProvider PaymentStore PaymentFulfillment PaymentLifecycle PaymentRefund.
From S2P Require Import PaymentInvariant PaymentLogic.

Open Scope go_scope.

Section Statements.
Context `{UnicodeCase} `{Location} `{Numeric} `{DecimalLib}.
Variable opening : Z → Z.
Abbreviation Inv := (Inv opening).
Abbreviation tx_ok := (tx_ok opening).

Implicit Types (s : DB) (o : PaymentOrder) (b : OrderBase).

(** ** Orders *)

(** The order [o] may become [o']. *)
Definition may_become s o o' : Prop :=
  po_base o' = po_base o
  ∧ (settled (po_Status o) = true → settled (po_Status o') = true)
  ∧ (settled (po_Status o') = true → settled (po_Status o) = true ∨ is_funded (po_base o) s).

Lemma put_order_Inv s oid o o' :
  Inv s → db_orders s !! oid = Some o → may_become s o o' →
  Inv (set_orders (<[oid := o']> (db_orders s)) s).
Proof.
  intros [I1 I2 I3 I4 I5 I6 I7 I8 I9] Ho (Hb & Hset & Hf). split; simpl; try done.
  - intros oid' x. rewrite lookup_insert. case_decide as Hd; [intros [= <-]; subst oid'|apply I3].
    rewrite Hb. by apply I3.
  - intros oid' x. rewrite lookup_insert. case_decide as Hd; [intros [= <-]; subst oid'|apply I4].
    intros Hs. rewrite Hb. destruct (Hf Hs); [by eapply I4|done].
Qed.

Lemma put_order_Rely j s oid o o' :
  db_orders s !! oid = Some o → may_become s o o' →
  (holds j oid s → po_Status o' = OrderStatusRefunding) →
  Rely j s (set_orders (<[oid := o']> (db_orders s)) s).
Proof.
  intros Ho (Hb & Hset & Hf) Hh. split; simpl; [| |done|].
  - intros oid' x Hx. rewrite lookup_insert. case_decide as Hd; [|by exists x].
    subst oid'. simplify_eq. by exists o'.
  - intros c r Hr. by exists r.
  - intros oid' Hh'. assert (Hh0 := Hh'). destruct Hh' as (x & Hx & Hs & Hw).
    exists (if decide (oid = oid') then o' else x). simpl.
    rewrite lookup_insert. case_decide as Hd; [|done]. subst oid'. split_and!; auto.
Qed.

Lemma update_order_ok q i P oid cond set :
  (∀ s o, Inv s → P s → db_orders s !! oid = Some o → cond o = true →
     let o' := set (touched (db_now s) o) in
     may_become s o o' ∧ (po_Status o = OrderStatusRefunding → po_Status o' = OrderStatusRefunding)) →
  tx_ok q i P (update_order oid cond set) (λ _ _, True).
Proof.
  intros Hok w s Hi HP. unfold update_order. destruct (db_orders s !! oid) as [o|] eqn:Ho; [|by split_and!].
  destruct (cond o) eqn:Hc; [|by split_and!]. destruct (Hok s o Hi HP Ho Hc) as [Hm Hr].
  split_and!; [by eapply put_order_Inv| |done].
  intros j _. eapply put_order_Rely; [done|done|]. intros (x & Hx & Hs & _). simplify_eq. auto.
Qed.

(** History events that are neither credits, extensions nor rebates. *)
Lemma note_Inv e s :
  Inv s →
  (match e with
   | Locked _ _ => True
   | Overwritten oid i st | Sent oid i st _ => st = OrderStatusRefunding ∧ owner oid (db_log s) = Some i
   | _ => False
   end) → Inv (note e s).
Proof.
  intros [I1 I2 I3 I4 I5 I6 I7 I8 I9] He. destruct e; try done; split; simpl; try done; by destruct He.
Qed.

Lemma overwrite_order_ok i P oid set :
  (∀ s, P s → holds i oid s) →
  (∀ t o, po_base (set (touched t o)) = po_base o ∧ settled (po_Status (set (touched t o))) = true) →
  tx_ok false i P (overwrite_order oid set) (λ _ _, True).
Proof.
  intros HP Hset w s Hi Hs. destruct (HP s Hs) as (o & Ho & Hst & Hw). unfold overwrite_order. rewrite Ho.
  destruct (Hset (db_now s) o) as [Hb Hse].
  assert (may_become s o (set (touched (db_now s) o))) as Hm.
  { split_and!; [done|done|]. intros _. left. by rewrite Hst. }
  split_and!; [|intros j [[=]|Hj]|done].
  - apply note_Inv; [by eapply put_order_Inv|done].
  - destruct (put_order_Rely j s oid o _ Ho Hm) as [R1 R2 R3 R4]; [|by split].
    intros (x & Hx & _ & Hw'). congruence.
Qed.

Lemma claim_refund_ok i P oid cond :
  (∀ o, cond o = true → settled (po_Status o) = true ∧ po_Status o ≠ OrderStatusRefunding) →
  tx_ok false i P (claim_refund oid cond) (λ c s, c = 0 ∨ holds i oid s).
Proof.
  intros Hc w s Hi Hs. unfold claim_refund, update_order, mbind, tx_bind.
  destruct (db_orders s !! oid) as [o|] eqn:Ho; [|simpl; split_and!; [done|done|by left]].
  destruct (cond o) eqn:Hco; [|simpl; split_and!; [done|done|by left]].
  destruct (Hc o Hco) as [Hse Hne]. simpl.
  assert (may_become s o (set_status OrderStatusRefunding (touched (db_now s) o))) as Hm by (split_and!; auto).
  assert (∀ j, ¬ holds j oid s) as Hno by (intros j (x & Hx & ? & _); simplify_eq).
  split_and!.
  - apply note_Inv; [by eapply put_order_Inv|done].
  - intros j _. destruct (put_order_Rely j s oid o _ Ho Hm) as [R1 R2 R3 R4]; [by intros []%Hno|].
    split; [done|done|done|]. intros oid' Hh. destruct (decide (oid' = oid)) as [->|Hd]; [by apply Hno in Hh|].
    destruct (R4 _ Hh) as (x & Hx & Hsx & Hwx). exists x. split_and!; [done|done|].
    simpl. by rewrite (proj2 (Z.eqb_neq oid oid')).
  - right. eexists. simpl. rewrite lookup_insert_eq, Z.eqb_refl. by split_and!.
Qed.

(** ** The audit trail *)

(** Entries are added, or the claim of a rebate is renamed. *)
Definition audit_grows (a a' : gmap (Z * string) audit_detail) : Prop :=
  ∀ oid, (assigned oid a → assigned oid a') ∧
    (is_Some (a !! (oid, rebate_applied)) ∨ is_Some (a !! (oid, rebate_skipped)) →
     is_Some (a' !! (oid, rebate_applied)) ∨ is_Some (a' !! (oid, rebate_skipped))).

Lemma set_audit_Inv s a : Inv s → audit_grows (db_audit s) a → Inv (set_audit a s).
Proof.
  intros [I1 I2 I3 I4 I5 I6 I7 I8 I9] Ha. split; simpl; try done.
  - intros oid o Ho Hs. specialize (I4 _ _ Ho Hs). unfold funded in *. case_match; [done|].
    case_match; [|done]. by apply Ha.
  - intros oid. destruct (I5 oid) as [? Hx]. split; [done|]. intros He. by apply Ha, Hx.
  - intros oid. destruct (I6 oid) as [? Hx]. split; [done|]. intros He. by apply Ha, Hx.
Qed.

Lemma set_audit_Rely j s a : audit_grows (db_audit s) a → Rely j s (set_audit a s).
Proof.
  intros Ha. split; simpl; [naive_solver| |apply Ha|done]. intros c r Hr. by exists r.
Qed.

Lemma insert_grows a k (d : audit_detail) : audit_grows a (<[k := d]> a).
Proof.
  intros oid. unfold assigned.
  assert (∀ k', is_Some (a !! k') → is_Some (<[k := d]> a !! k')) as Hi.
  { intros k' Hk. rewrite lookup_insert. case_decide; [by eexists|done]. }
  split; intros [Hx|Hx]; auto.
Qed.

Lemma create_audit_ok q i P oid action d :
  tx_ok q i P (create_audit oid action d)
    (λ _ s, is_Some (db_audit s !! (oid, action)) ∧
            ∃ s0, P s0 ∧ db_log s = db_log s0).
Proof.
  intros w s Hi Hs. unfold create_audit. destruct (db_audit s !! (oid, action)); [done|].
  split_and!.
  - apply set_audit_Inv; [done|apply insert_grows].
  - intros j _. apply set_audit_Rely, insert_grows.
  - simpl. rewrite lookup_insert_eq. by eexists.
  - by exists s.
Qed.

Lemma create_audit_tame q i P oid action d : tx_ok q i P (create_audit oid action d) (λ _ _, True).
Proof. eapply tx_ok_post; [|apply create_audit_ok]. done. Qed.

(** The term granted for an order is recorded after its audit entry. *)
Lemma emit_Assigned_ok q i oid :
  tx_ok q i (λ s, assigned oid (db_audit s) ∧ extensions oid (db_log s) = 0%nat)
    (emit (λ _, Assigned oid)) (λ _ s, assigned oid (db_audit s)).
Proof.
  intros w s [I1 I2 I3 I4 I5 I6 I7 I8 I9] [Ha He]. simpl. split_and!; [|intros j _; split; simpl|done].
  - split; simpl; try done. intros oid'. unfold extensions. simpl. destruct (oid =? oid') eqn:Hd; simpl; [|apply I5].
    apply Z.eqb_eq in Hd as <-. fold (extensions oid (db_log s)). rewrite He. by split; [lia|].
  - naive_solver.
  - intros c r Hr. by exists r.
  - done.
  - done.
Qed.

Lemma emit_Rebated_ok q i oid :
  tx_ok q i (λ s, is_Some (db_audit s !! (oid, rebate_applied)) ∧ rebates oid (db_log s) = 0%nat)
    (emit (λ _, Rebated oid)) (λ _ _, True).
Proof.
  intros w s [I1 I2 I3 I4 I5 I6 I7 I8 I9] [Ha He]. simpl. split_and!; [|intros j _; split; simpl|done].
  - split; simpl; try done. intros oid'. unfold rebates. simpl. destruct (oid =? oid') eqn:Hd; simpl; [|apply I6].
    apply Z.eqb_eq in Hd as <-. fold (rebates oid (db_log s)). rewrite He. split; [lia|by left].
  - naive_solver.
  - intros c r Hr. by exists r.
  - done.
  - done.
Qed.

(** ** Subscriptions *)

Lemma on_subs_ok {A} q i P (f : Z → SubTable → outcome (A * SubTable)) :
  (∀ t s, P s → P (set_subs t s)) → tx_ok q i P (on_subs f) (λ _, P).
Proof.
  intros HP w s Hi Hs. unfold on_subs. destruct (f (db_now s) (db_subs s)) as [e|[a t]]; [by split_and!|].
  split_and!; [by destruct Hi; split|intros j _; split; simpl|by apply HP].
  - naive_solver.
  - intros c r Hr. by exists r.
  - done.
  - done.
Qed.

Lemma lift_outcome_ok {A} q i (P : DB → Prop) e (r : sub_error + A) : tx_ok q i P (lift_outcome e r) (λ _, P).
Proof. destruct r; simpl; [apply tx_ok_fail|by apply tx_ok_ret]. Qed.

Lemma assign_subscription_ok q i P input :
  (∀ t s, P s → P (set_subs t s)) → tx_ok q i P (assign_subscription input) (λ _, P).
Proof.
  intros HP. eapply tx_ok_bind; [by apply on_subs_ok|]. intros r.
  eapply tx_ok_bind; [apply lift_outcome_ok|]. intros ?. by apply tx_ok_ret.
Qed.

(** ** Balances *)

(** The tables after a movement of a balance. *)
Definition move_balance (uid : Z) (u' : user_row) (d : Z) (why : reason) s : DB :=
  note (Moved uid d why) (put_user uid u' s).

Lemma moved_cons uid uid' d why log :
  moved uid (Moved uid' d why :: log) = (if uid' =? uid then d else 0) + moved uid log.
Proof. simpl. by case_match; lia. Qed.

Lemma ledger_step s uid u u' d why :
  Inv s → db_users s !! uid = Some u → u_Balance u' = u_Balance u + d →
  ∀ uid' v, db_users (move_balance uid u' d why s) !! uid' = Some v →
  u_Balance v = opening uid' + moved uid' (db_log (move_balance uid u' d why s)).
Proof.
  intros Hi Hu Hb uid' v. unfold move_balance, note. cbn [db_log]. rewrite moved_cons. simpl. rewrite lookup_insert.
  case_decide as Hd.
  - intros [= <-]. subst. rewrite Z.eqb_refl, Hb, (inv_ledger _ _ Hi _ _ Hu). lia.
  - rewrite (proj2 (Z.eqb_neq uid uid')) by done. apply Hi.
Qed.

(** A movement other than the credit of a code; a refund takes what is available. *)
Definition fits_reason (bal d : Z) (why : reason) : Prop :=
  match why with
  | ByCode _ => False
  | TakenForRefund _ => Z.min bal 0 ≤ bal + d
  | _ => True
  end.

Lemma move_balance_step q i s uid u u' d why :
  Inv s → db_users s !! uid = Some u → u_Balance u' = u_Balance u + d →
  fits_reason (u_Balance u) d why →
  Inv (move_balance uid u' d why s) ∧ (∀ j, q = true ∨ j ≠ i → Rely j s (move_balance uid u' d why s)).
Proof.
  intros Hi Hu Hb Hw. pose proof (ledger_step s uid u u' d why Hi Hu Hb) as Hl.
  destruct Hi as [I1 I2 I3 I4 I5 I6 I7 I8 I9]. split; [|intros j _; split; simpl].
  - assert (capped opening (db_log (move_balance uid u' d why s))) as Hcap.
    { destruct why; try done. simpl. split; [|done]. by rewrite <-(I8 _ _ Hu). }
    by destruct why; split.
  - naive_solver.
  - intros c r Hr. by exists r.
  - done.
  - done.
Qed.

Lemma UpdateBalance_run uid amount why i w s :
  UpdateBalance uid amount why i w s =
  match db_users s !! uid with
  | Some u => inr (tt, move_balance uid (mkUser (u_Balance u + column amount)
      (if fzero <. amount then u_TotalRecharged u + column amount else u_TotalRecharged u)
      (u_Concurrency u)) (column amount) why s)
  | None => inl ErrUserNotFound
  end.
Proof. unfold UpdateBalance, get_user, get, mbind, tx_bind. by destruct (db_users s !! uid). Qed.

Lemma ApplyRedeemBalanceAdjustment_run uid delta why i w s :
  ApplyRedeemBalanceAdjustment uid delta why i w s =
  match db_users s !! uid with
  | Some u =>
      let balance := Z.max (u_Balance u + column delta) 0 in
      inr (tt, move_balance uid (mkUser balance (u_TotalRecharged u) (u_Concurrency u))
                 (balance - u_Balance u) why s)
  | None => inl ErrUserNotFound
  end.
Proof. unfold ApplyRedeemBalanceAdjustment, get_user, get, mbind, tx_bind. by destruct (db_users s !! uid). Qed.

Lemma UpdateBalance_ok q i P uid amount why :
  match why with ByCode _ | TakenForRefund _ => False | _ => True end →
  tx_ok q i P (UpdateBalance uid amount why) (λ _ _, True).
Proof.
  intros Hw w s Hi Hs. rewrite UpdateBalance_run. destruct (db_users s !! uid) as [u|] eqn:Hu; [|done].
  edestruct (move_balance_step q i s uid u) as [??]; [done|done| | |]; [| |by split_and!]; [done|].
  by destruct why.
Qed.

Lemma DeductAvailableBalance_ok q i P uid amount why :
  match why with ByCode _ => False | _ => True end →
  tx_ok q i P (DeductAvailableBalance uid amount why) (λ _ _, True).
Proof.
  intros Hw w s Hi Hs. unfold DeductAvailableBalance. destruct (amount <. fzero); [done|].
  unfold get_user, get, mbind, tx_bind, modify, emit. destruct (db_users s !! uid) as [u|] eqn:Hu; [|done].
  edestruct (move_balance_step q i s uid u) as [??]; [done|done| | |]; [| |by split_and!]; [simpl; lia|].
  destruct why; simpl; try done. lia.
Qed.

(** ** Redeem codes *)

Lemma set_codes_funded s codes next b :
  (∀ c r, db_codes s !! c = Some r → ∃ r', codes !! c = Some r' ∧ same_code r r'
     ∧ (rc_Status r = StatusUsed → r' = r)) →
  is_funded b s → is_funded b (set_codes codes next s).
Proof.
  intros Hc. apply (rely_funded 0 b). split; simpl; [naive_solver|done|done|done].
Qed.

Lemma create_code_ok q i P code typ value :
  tx_ok q i P (create_code code typ value)
    (λ _ s, ∃ r, db_codes s !! code = Some r ∧ rc_Type r = typ ∧ rc_Value r = column value).
Proof.
  intros w s Hi Hs. unfold create_code. destruct (db_codes s !! code) as [|] eqn:Hc; [done|].
  set (r := mkCode _ _ _ _ _ _ _ _ _ _).
  assert (∀ c x, db_codes s !! c = Some x → ∃ x', <[code := r]> (db_codes s) !! c = Some x' ∧ same_code x x'
            ∧ (rc_Status x = StatusUsed → x' = x)) as Hkeep.
  { intros c x Hx. exists x. rewrite lookup_insert_ne; [by split_and!|]. intros ->. congruence. }
  split_and!; [|intros j _; split; simpl|exists r; simpl; by rewrite lookup_insert_eq].
  - assert (Hi' := Hi). destruct Hi as [I1 I2 I3 I4 I5 I6 I7 I8 I9]. split; simpl; try done.
    + intros c x. rewrite lookup_insert. case_decide as Hd; [intros [= <-]; subst c|apply I1].
      split; [done|]. rewrite bool_decide_false by (by intros [? _]). by apply I2.
    + intros c. rewrite lookup_insert. case_decide; [done|apply I2].
    + intros oid o Ho Hs'. specialize (I4 _ _ Ho Hs'). exact (set_codes_funded s _ 0 _ Hkeep I4).
  - naive_solver.
  - done.
  - done.
  - done.
Qed.

Lemma credits_cons code e log :
  credits code (e :: log) = match credit_of code e with Some x => x :: credits code log | None => credits code log end.
Proof. reflexivity. Qed.

Definition mark_used (c : RedeemCode) (userID now : Z) : RedeemCode :=
  mkCode (rc_ID c) (rc_Code c) (rc_Type c) (rc_Value c) StatusUsed (Some userID) (Some now)
    (rc_ExpiresAt c) (rc_GroupID c) (rc_ValidityDays c).

(** The tables after a redemption: the code is marked, and a balance code credited. *)
Record redeemed (s s' : DB) (code : string) (c : RedeemCode) (uid t : Z) (credit : list event) : Prop := {
  rd_orders : db_orders s' = db_orders s;
  rd_audit : db_audit s' = db_audit s;
  rd_codes : db_codes s' = <[code := mark_used c uid t]> (db_codes s);
  rd_log : db_log s' = credit ++ db_log s;
  rd_credit :
    (credit = [] ∧ rc_Type c ≠ RedeemTypeBalance) ∨
    (∃ d, credit = [Moved uid d (ByCode code)] ∧ rc_Type c = RedeemTypeBalance
          ∧ ((as_float (rc_Value c) <. fzero) = false → d = column (as_float (rc_Value c))));
  rd_ledger : ∀ v u, db_users s' !! v = Some u → u_Balance u = opening v + moved v (db_log s')
}.

Lemma redeemed_credits s s' code c uid t credit code' :
  redeemed s s' code c uid t credit → code' ≠ code → credits code' (db_log s') = credits code' (db_log s).
Proof.
  intros Hr Hne. rewrite (rd_log _ _ _ _ _ _ _ Hr).
  destruct (rd_credit _ _ _ _ _ _ _ Hr) as [[-> _]|(d & -> & _)]; [done|].
  cbn [app]. rewrite credits_cons. cbn [credit_of]. by rewrite (proj2 (String.eqb_neq code code')).
Qed.

Lemma redeemed_neutral s s' code c uid t credit oid :
  redeemed s s' code c uid t credit →
  extensions oid (db_log s') = extensions oid (db_log s) ∧ rebates oid (db_log s') = rebates oid (db_log s)
  ∧ owner oid (db_log s') = owner oid (db_log s) ∧ (exclusive (db_log s) → exclusive (db_log s'))
  ∧ (capped opening (db_log s) → capped opening (db_log s')).
Proof.
  intros Hr. rewrite (rd_log _ _ _ _ _ _ _ Hr).
  by destruct (rd_credit _ _ _ _ _ _ _ Hr) as [[-> _]|(d & -> & _)].
Qed.

Lemma redeemed_keeps s s' code c uid t credit :
  db_codes s !! code = Some c → rc_Status c = StatusUnused → redeemed s s' code c uid t credit →
  ∀ x r, db_codes s !! x = Some r →
  ∃ r', db_codes s' !! x = Some r' ∧ same_code r r' ∧ (rc_Status r = StatusUsed → r' = r).
Proof.
  intros Hc Hu Hr x r Hx. rewrite (rd_codes _ _ _ _ _ _ _ Hr), lookup_insert.
  case_decide; [|by exists r; split_and!]. simplify_eq. eexists. split_and!; [done|done|].
  rewrite Hu. by intros [=].
Qed.

Lemma redeemed_Rely s s' code c uid t credit j :
  db_codes s !! code = Some c → rc_Status c = StatusUnused → redeemed s s' code c uid t credit →
  Rely j s s'.
Proof.
  intros Hc Hu Hr. split.
  - rewrite (rd_orders _ _ _ _ _ _ _ Hr). naive_solver.
  - by eapply redeemed_keeps.
  - by rewrite (rd_audit _ _ _ _ _ _ _ Hr).
  - intros oid (o & Ho & Hs & Hw). exists o. rewrite (rd_orders _ _ _ _ _ _ _ Hr).
    destruct (redeemed_neutral _ _ _ _ _ _ _ oid Hr) as (_ & _ & -> & _). by split_and!.
Qed.

Lemma redeemed_Inv s s' code c uid t credit :
  Inv s → db_codes s !! code = Some c → rc_Status c = StatusUnused →
  redeemed s s' code c uid t credit → Inv s'.
Proof.
  intros Hi Hc Hu Hr. pose proof (redeemed_Rely _ _ _ _ _ _ _ 0 Hc Hu Hr) as Hrely.
  destruct (inv_codes _ _ Hi _ _ Hc) as [Hcode Hcred].
  rewrite bool_decide_false in Hcred by (rewrite Hu; by intros [[=] _]).
  split.
  - intros x r. rewrite (rd_codes _ _ _ _ _ _ _ Hr), lookup_insert. case_decide as Hd.
    + intros [= <-]. subst x. split; [done|]. simpl.
      rewrite (rd_log _ _ _ _ _ _ _ Hr).
      destruct (rd_credit _ _ _ _ _ _ _ Hr) as [[-> Hty]|(d & -> & Hty & Hd)].
      * by rewrite bool_decide_false by tauto.
      * rewrite bool_decide_true by done. exists uid, d. cbn [app]. rewrite credits_cons. cbn [credit_of].
        by rewrite String.eqb_refl, Hcred.
    + intros Hx. destruct (inv_codes _ _ Hi _ _ Hx) as [Hcx Hcr]. split; [done|].
      by rewrite (redeemed_credits _ _ _ _ _ _ _ x Hr).
  - intros x. rewrite (rd_codes _ _ _ _ _ _ _ Hr), lookup_insert. case_decide as Hd; [done|].
    intros Hx. rewrite (redeemed_credits _ _ _ _ _ _ _ x Hr) by done. by apply Hi.
  - rewrite (rd_orders _ _ _ _ _ _ _ Hr). apply Hi.
  - intros oid o Ho Hs. rewrite (rd_orders _ _ _ _ _ _ _ Hr) in Ho.
    apply (rely_funded 0 (po_base o) _ _ Hrely). by apply (inv_funded _ _ Hi oid).
  - intros oid. destruct (redeemed_neutral _ _ _ _ _ _ _ oid Hr) as (-> & _).
    rewrite (rd_audit _ _ _ _ _ _ _ Hr). apply Hi.
  - intros oid. destruct (redeemed_neutral _ _ _ _ _ _ _ oid Hr) as (_ & -> & _).
    rewrite (rd_audit _ _ _ _ _ _ _ Hr). apply Hi.
  - eapply (redeemed_neutral _ _ _ _ _ _ _ 0 Hr), Hi.
  - apply Hr.
  - eapply (redeemed_neutral _ _ _ _ _ _ _ 0 Hr), Hi.
Qed.

(** What the worth of a code other than a balance code changes. *)
Lemma unrelated_grant (s : DB) (i : nat) (w : world) (r : RedeemCode) (uid : Z) (s1 : DB) :
  db_orders s1 = db_orders s → db_audit s1 = db_audit s → db_log s1 = db_log s →
  (∀ v u, db_users s1 !! v = Some u → u_Balance u = opening v + moved v (db_log s)) →
  String.eqb (rc_Type r) RedeemTypeBalance = false →
  match grant r uid i w s1 with
  | inl _ => True
  | inr (_, s') =>
      db_orders s' = db_orders s ∧ db_audit s' = db_audit s ∧ db_codes s' = db_codes s1
      ∧ db_log s' = db_log s ∧ ∀ v u, db_users s' !! v = Some u → u_Balance u = opening v + moved v (db_log s)
  end.
Proof.
  intros Ho Ha Hl Hu Hb. unfold grant. rewrite Hb.
  unfold ApplyRedeemConcurrencyAdjustment, UpdateConcurrency, assign_subscription, on_subs, lift_outcome,
    get_user, get, mbind, tx_bind, modify, fail, mret, tx_ret.
  repeat case_match; simplify_eq; try done; split_and!; try done; simpl; intros v x;
    rewrite lookup_insert; (case_decide; [intros [= <-]; subst; simpl; by apply Hu|apply Hu]).
Qed.

Lemma redeem_tx_ok q i r uid :
  tx_ok q i (has_code r) (redeem_tx r uid) (λ _, code_used (rc_Code r) uid).
Proof.
  intros w s Hi (c & Hc & Hid & Hcode & Hty & Hval).
  cut (match redeem_tx r uid i w s with
       | inl _ => True
       | inr (_, s') => rc_Status c = StatusUnused ∧
           ∃ t credit, redeemed s s' (rc_Code r) c uid t credit
       end).
  { destruct (redeem_tx r uid i w s) as [|[? s']]; [done|]. intros (Hu & t & credit & Hr).
    split_and!; [by eapply redeemed_Inv|intros j _; by eapply redeemed_Rely|].
    exists (mark_used c uid t). rewrite (rd_codes _ _ _ _ _ _ _ Hr), lookup_insert_eq. by split. }
  unfold redeem_tx, Use, mbind, tx_bind. rewrite Hc, (proj2 (Z.eqb_eq _ _) Hid), andb_true_l.
  destruct (String.eqb_spec (rc_Status c) StatusUnused) as [Hu|]; [|done].
  set (s1 := set_codes _ _ s). pose proof (inv_ledger _ _ Hi) as Hl.
  cut (match grant r uid i w s1 with
       | inl _ => True
       | inr (_, s') => ∃ credit, redeemed s s' (rc_Code r) c uid (db_now s) credit
       end).
  { destruct (grant r uid i w s1) as [|[? s']]; [done|]. naive_solver. }
  destruct (String.eqb_spec (rc_Type c) RedeemTypeBalance) as [Hb|Hb].
  - unfold grant. rewrite <-Hval, <-Hty, Hb, String.eqb_refl. cbv zeta.
    destruct (as_float (rc_Value c) <. fzero) eqn:Hneg;
      rewrite ?ApplyRedeemBalanceAdjustment_run, ?UpdateBalance_run; change (db_users s1) with (db_users s);
      destruct (db_users s !! uid) as [u|] eqn:Huid; try done.
    + exists [Moved uid (Z.max (u_Balance u + column (as_float (rc_Value c))) 0 - u_Balance u) (ByCode (rc_Code r))].
      split; [done|done|done|done| |].
      * right. eexists. split_and!; [done|done|]. by rewrite Hneg.
      * apply (ledger_step s uid u (mkUser _ _ _) _ (ByCode (rc_Code r)) Hi Huid). simpl. lia.
    + exists [Moved uid (column (as_float (rc_Value c))) (ByCode (rc_Code r))].
      split; [done|done|done|done| |].
      * right. eexists. by split_and!.
      * apply (ledger_step s uid u (mkUser _ _ _) _ (ByCode (rc_Code r)) Hi Huid). done.
  - assert (String.eqb (rc_Type r) RedeemTypeBalance = false) as Hne by (rewrite <-Hty; by apply String.eqb_neq).
    pose proof (unrelated_grant s i w r uid s1 eq_refl eq_refl eq_refl Hl Hne) as Hf.
    destruct (grant r uid i w s1) as [|[? s']]; [done|]. destruct Hf as (Ho & Ha & Hcs & Hlg & Hus).
    exists []. split; [done|done|by rewrite Hcs|done|by left|by rewrite Hlg].
Qed.

(** ** Transactions *)

Lemma has_audit_assigned oid s :
  existsb (λ a, bool_decide (is_Some (db_audit s !! (oid, a)))) [subscription_assigned; subscription_success] = true
  ↔ assigned oid (db_audit s).
Proof. simpl. rewrite !orb_true_iff, !bool_decide_eq_true. unfold assigned. naive_solver. Qed.

Lemma extend_once_ok q i oid b groupID days :
  tx_ok q i (λ s, extensions oid (db_log s) = 0%nat) (extend_once b groupID days)
    (λ _ s, extensions oid (db_log s) = 0%nat).
Proof.
  unfold extend_once.
  assert (∀ input, tx_ok q i (λ s, extensions oid (db_log s) = 0%nat)
            (_ ← assign_subscription input; mret true) (λ _ s, extensions oid (db_log s) = 0%nat)) as Ha.
  { intros input. eapply tx_ok_bind; [by apply assign_subscription_ok|]. intros ?. by apply tx_ok_ret. }
  eapply tx_ok_bind; [apply tx_ok_read|]. intros subs. apply (tx_ok_pre _ _ _ _ _ _ _ (λ s _ Hs, proj2 Hs)).
  destruct subs as [|sub [|]]; [apply Ha| |apply tx_ok_fail].
  case_match; [by apply tx_ok_ret|apply Ha].
Qed.

Lemma assign_tx_ok q i b groupID days :
  tx_ok q i (λ _, True) (assign_tx b groupID days) (λ _ s, assigned (po_ID b) (db_audit s)).
Proof.
  unfold assign_tx, hasPaymentSubscriptionAssignmentAudit, has_audit.
  eapply tx_ok_bind; [apply tx_ok_read|]. intros [|].
  - apply tx_ok_ret. intros s _ [Hs _]. by apply has_audit_assigned.
  - eapply (tx_ok_pre _ _ _ _ (λ s, extensions (po_ID b) (db_log s) = 0%nat)).
    { intros s Hi [Hs _]. destruct (inv_extended _ _ Hi (po_ID b)) as [Hle Ha].
      assert (¬ assigned (po_ID b) (db_audit s)) as Hn by (rewrite <-has_audit_assigned; congruence).
      destruct (extensions (po_ID b) (db_log s)) as [|[|]] eqn:He; [done|by destruct Hn; auto|lia]. }
    eapply tx_ok_bind; [apply extend_once_ok|]. intros extended.
    eapply tx_ok_bind; [apply create_audit_ok|]. intros ?. simpl.
    eapply (tx_ok_pre _ _ _ _ (λ s, assigned (po_ID b) (db_audit s) ∧ extensions (po_ID b) (db_log s) = 0%nat)).
    { intros s _ (Ha & s0 & Hs0 & ->). split; [by left|done]. }
    destruct extended; [apply emit_Assigned_ok|]. by apply tx_ok_ret; intros s _ [? _].
Qed.

Lemma rename_claim_ok q i P oid action d :
  action = rebate_applied ∨ action = rebate_skipped →
  (∀ a s, P s → P (set_audit a s)) →
  tx_ok q i P (updateClaimedAffiliateRebateAudit oid action d)
    (λ _ s, is_Some (db_audit s !! (oid, action)) ∧ P s).
Proof.
  intros Hac HP w s Hi Hs. unfold updateClaimedAffiliateRebateAudit.
  destruct (db_audit s !! (oid, rebate_applied)) as [d0|] eqn:Ha; [|done].
  assert (audit_grows (db_audit s) (<[(oid, action) := AuditText d]> (delete (oid, rebate_applied) (db_audit s)))) as Hg.
  { intros oid'. unfold assigned. split.
    - intros [Hx|Hx]; [left|right]; rewrite !lookup_insert_ne, lookup_delete_ne; try done;
        destruct Hac as [-> | ->]; by intros [=].
    - destruct (decide (oid' = oid)) as [->|Hne].
      + intros _. destruct Hac as [-> | ->]; [left|right]; rewrite lookup_insert_eq; by eexists.
      + intros Hx. rewrite !lookup_insert_ne, !lookup_delete_ne by congruence. done. }
  split_and!; [by apply set_audit_Inv|intros j _; by apply set_audit_Rely|simpl; rewrite lookup_insert_eq; by eexists|by apply HP].
Qed.

Lemma rebate_tx_ok q i oid : tx_ok q i (λ _, True) (rebate_tx oid) (λ _ _, True).
Proof.
  unfold rebate_tx, tryClaimAffiliateRebateAudit, has_audit.
  eapply (tx_ok_bind _ _ _ _ _ _ (λ claimed s, claimed = true → rebates oid (db_log s) = 0%nat)).
  { eapply tx_ok_bind; [apply tx_ok_read|]. intros [|]; [by apply tx_ok_ret|].
    eapply (tx_ok_pre _ _ _ _ (λ s, rebates oid (db_log s) = 0%nat)).
    { intros s Hi [Hs _]. destruct (inv_rebated _ _ Hi oid) as [Hle Ha].
      destruct (rebates oid (db_log s)) as [|[|]] eqn:He; [done| |lia]. exfalso.
      destruct (Ha eq_refl) as [Hx|Hx]; revert Hs; simpl; rewrite (bool_decide_true _ Hx), ?orb_true_r; done. }
    eapply tx_ok_bind; [apply create_audit_ok|]. intros ?.
    apply tx_ok_ret. by intros s _ (_ & s0 & Hs0 & ->) _. }
  intros [|]; [|by apply tx_ok_ret].
  eapply tx_ok_bind; [apply tx_ok_ask|]. intros [amount|]; [|apply tx_ok_fail].
  destruct (amount <=. fzero).
  - eapply tx_ok_post; [|apply rename_claim_ok; [by right|done]]. done.
  - eapply tx_ok_bind; [apply rename_claim_ok; [by left|done]|]. intros ?.
    eapply tx_ok_pre; [|apply emit_Rebated_ok]. intros s _ [??]. auto.
Qed.

(** ** Transactions of refunds *)

Lemma refundFinalStatus_settled o c : settled (refundFinalStatus o c) = true.
Proof. unfold refundFinalStatus. by case_match. Qed.

Lemma mark_pending_tx_ok i p refundID :
  tx_ok false i (holds i (rp_OrderID p)) (mark_pending_tx p refundID) (λ _ _, True).
Proof.
  unfold mark_pending_tx. eapply tx_ok_bind; [by apply overwrite_order_ok|]. intros ?.
  eapply tx_ok_bind; [apply tx_ok_read|]. intros now. apply create_audit_tame.
Qed.

Lemma extend_subscription_ok q i P id days :
  (∀ t s, P s → P (set_subs t s)) → tx_ok q i P (extend_subscription id days) (λ _, P).
Proof. intros HP. by apply on_subs_ok. Qed.

Lemma revoke_subscription_ok q i P id :
  (∀ t s, P s → P (set_subs t s)) → tx_ok q i P (revoke_subscription id) (λ _, P).
Proof.
  intros HP. eapply tx_ok_bind; [by apply on_subs_ok|]. intros r. apply lift_outcome_ok.
Qed.

Lemma apply_final_deduction_ok q i p :
  tx_ok q i (λ _, True) (applyRefundFinalDeduction p) (λ p' _, rp_OrderID p' = rp_OrderID p).
Proof.
  unfold applyRefundFinalDeduction. case_match; [by apply tx_ok_ret|].
  eapply (tx_ok_bind _ _ _ _ _ _ (λ p' _, rp_OrderID p' = rp_OrderID p)).
  { case_match; [|by apply tx_ok_ret]. eapply tx_ok_bind; [by apply DeductAvailableBalance_ok|].
    intros d. by apply tx_ok_ret. }
  intros p'. case_match; [|by apply tx_ok_ret].
  eapply tx_ok_bind; [by apply extend_subscription_ok|]. intros [[]|];
    try apply tx_ok_fail; try by apply tx_ok_ret.
  eapply tx_ok_bind; [by apply revoke_subscription_ok|]. intros ?. by apply tx_ok_ret.
Qed.

Lemma markRefundOkTx_ok i p :
  tx_ok false i (holds i (rp_OrderID p)) (markRefundOkTx p) (λ _ _, True).
Proof.
  unfold markRefundOkTx. eapply tx_ok_bind; [apply tx_ok_read|]. intros now.
  apply (tx_ok_pre _ _ _ _ _ _ _ (λ s _ Hs, proj2 Hs)).
  eapply tx_ok_bind; [apply overwrite_order_ok; [done|]|].
  { intros t o. split; [done|]. apply refundFinalStatus_settled. }
  intros ?. eapply tx_ok_bind; [apply create_audit_tame|]. intros ?. by apply tx_ok_ret.
Qed.

Lemma is_pending_claimable o : is_pending o = true → settled (po_Status o) = true ∧ po_Status o ≠ OrderStatusRefunding.
Proof. unfold is_pending, status_in. by destruct (po_Status o); vm_compute. Qed.

Lemma refundable_claimable o : refundable o = true → settled (po_Status o) = true ∧ po_Status o ≠ OrderStatusRefunding.
Proof. unfold refundable, status_in. by destruct (po_Status o); vm_compute. Qed.

Lemma finalize_success_tx_ok i p : tx_ok false i (λ _, True) (finalize_success_tx p) (λ _ _, True).
Proof.
  unfold finalize_success_tx. eapply tx_ok_bind; [apply claim_refund_ok, is_pending_claimable|].
  intros c. destruct (Z.eqb_spec c 0) as [Hc|Hc]; [apply tx_ok_fail|].
  eapply (tx_ok_pre _ _ _ _ (λ s, True ∧ holds i (rp_OrderID p) s)); [intros s _ [?|?]; [done|by split]|].
  eapply (tx_ok_bind _ _ _ _ _ _ (λ p' s, rp_OrderID p' = rp_OrderID p ∧ holds i (rp_OrderID p) s)).
  { apply tx_ok_quiet, tx_ok_frame; [apply stable_holds|apply apply_final_deduction_ok]. }
  intros p'. eapply tx_ok_pre; [|apply markRefundOkTx_ok]. by intros s _ [-> ?].
Qed.

Lemma returnHeld_ok q i P p : tx_ok q i P (returnHeldRefundDeduction p) (λ _ _, True).
Proof.
  assert (∀ t : tx unit, tx_ok q i (λ _, True) t (λ _ _, True) →
    tx_ok q i P (λ i w s, match t i w s with inl _ => inl ErrReturnHeld | inr r => inr r end) (λ _ _, True)) as Hw.
  { intros t Ht w s Hi _. specialize (Ht w s Hi I). by destruct (t i w s) as [|[??]]. }
  apply Hw. eapply tx_ok_bind.
  - instantiate (1 := λ _ _, True). case_match; [by apply UpdateBalance_ok|by apply tx_ok_ret].
  - intros ?. case_match; [|by apply tx_ok_ret].
    eapply tx_ok_bind; [by apply extend_subscription_ok|]. intros r. apply lift_outcome_ok.
Qed.

Lemma finalize_failed_tx_ok q i p gErr rollbackErr :
  tx_ok q i (λ _, True) (finalize_failed_tx p gErr rollbackErr) (λ _ _, True).
Proof.
  unfold finalize_failed_tx. eapply tx_ok_bind; [apply tx_ok_read|]. intros now.
  eapply tx_ok_bind; [apply update_order_ok|].
  { intros s o _ _ _ [Hs Hne]%is_pending_claimable. split; [|done]. by split_and!; [|auto|auto]. }
  intros c. destruct (c =? 0); [apply tx_ok_fail|].
  eapply (tx_ok_bind _ _ _ _ _ _ (λ _ _, True)).
  - destruct rollbackErr; [apply create_audit_tame|]. case_match; [apply returnHeld_ok|by apply tx_ok_ret].
  - intros ?. apply create_audit_tame.
Qed.
End Statements.
