(* ===== verification/PaymentHandlers.v ===== *)
(** * Payment orders: every handler keeps the invariant

    The proofs follow the programs.  Most programs are [tame]; the interesting ones
    are [doBalance] and [doSub], which complete an order only when it is funded, and
    [ExecuteRefund], which writes an order only while it owns its refund. *)

From Stdlib Require Import ZArith Lia Ascii String.
From stdpp Require Import base tactics numbers list gmap strings.
From S2P Require Import Prelude GoStrings GoFloat GoTime Subscription Programs.
From S2P Require Import PaymentData PaymentProvider PaymentStore PaymentFulfillment PaymentLifecycle PaymentRefund.
From S2P Require Import PaymentInvariant PaymentLogic PaymentStatements.

Open Scope go_scope.

Create HintDb tame.

Ltac tame_tac :=
  repeat first
    [ progress intros
    | solve [auto with tame nocore]
    | apply tame_ret
    | apply tame_try
    | apply tame_bind
    | match goal with
      | |- tame _ _ _ _ (if ?b then _ else _) => destruct b
      | |- tame _ _ _ _ (match ?x with _ => _ end) => destruct x
      | |- tame _ _ _ _ (let '_ := ?x in _) => destruct x
      end ].

Section Handlers.
Context `{UnicodeCase} `{Location} `{Numeric} `{DecimalLib}.
Variable registry : gmap string string.
Variable opening : Z → Z.
Abbreviation Inv := (Inv opening).
Abbreviation tame := (tame exec Inv Rely).
Abbreviation triple := (triple exec Inv Rely).

Implicit Types (o : PaymentOrder) (b : OrderBase) (p : RefundPlan).

(** ** Frames *)

Lemma bind_frame {A B} q i (F : DB → Prop) (p : prog stmt A) (f : A → prog stmt B) Q :
  persistent Rely F → tame q p → (∀ a, triple q i F (f a) Q) → triple q i F (p ≫= f) Q.
Proof. intros HF Hp Hf. eapply (triple_bind exec Inv Rely); [by apply tame_frame|exact Hf]. Qed.

Lemma bind_quiet {A B} q i (F : DB → Prop) (p : prog stmt A) (f : A → prog stmt B) Q :
  stable Rely i F → tame true p → (∀ a, triple q i F (f a) Q) → triple q i F (p ≫= f) Q.
Proof.
  intros HF Hp Hf. eapply (triple_bind exec Inv Rely); [|exact Hf].
  destruct q; [|apply triple_loud with (q := true)]; by apply quiet_frame.
Qed.

Lemma err_ok {A} q i (P : DB → Prop) e (Q : A → DB → Prop) : triple q i P (err e) (ok_post Q).
Proof. eapply triple_pre; [|apply triple_ret with (P := λ _, True)]; done. Qed.

Lemma done_ok {A} q i (P : DB → Prop) (r : A) : triple q i P (Ret r) (λ _ _, True).
Proof. apply tame_triple, tame_ret. Qed.

Lemma try_frame {A B} q i (F : DB → Prop) (p : handler A) (f : A → handler B) Q :
  persistent Rely F → tame q p → (∀ a, triple q i F (f a) (ok_post Q)) →
  triple q i F (try p f) (ok_post Q).
Proof. intros HF Hp Hf. apply bind_frame; [done|done|]. intros [e|a]; [apply err_ok|apply Hf]. Qed.

Lemma try_quiet {A B} q i (F : DB → Prop) (p : handler A) (f : A → handler B) Q :
  stable Rely i F → tame true p → (∀ a, triple q i F (f a) (ok_post Q)) →
  triple q i F (try p f) (ok_post Q).
Proof. intros HF Hp Hf. apply bind_quiet; [done|done|]. intros [e|a]; [apply err_ok|apply Hf]. Qed.

Lemma ok_post_true {A} q i (P : DB → Prop) (p : handler A) :
  triple q i P p (ok_post (λ _ _, True)) → triple q i P p (λ _ _, True).
Proof. intros Hp. eapply (triple_conseq exec); [|exact Hp|]; done. Qed.

Lemma to_ok_post {A} q i (P : DB → Prop) (p : handler A) :
  triple q i P p (λ _ _, True) → triple q i P p (ok_post (λ _ _, True)).
Proof. intros Hp. eapply (triple_conseq exec); [|exact Hp|]; [done|]. by intros []. Qed.

Lemma pure_fact q i {A} (φ : Prop) (P : DB → Prop) (p : prog stmt A) Q :
  (∀ s, Inv s → P s → φ) → (φ → triple q i P p Q) → triple q i P p Q.
Proof. intros Hφ Hp s Hi Hs. apply Hp; [by eapply Hφ|done|done]. Qed.

(** ** Tame statements and calls *)

Lemma sql_read_tame {A} q (f : DB → A) : tame q (sql (read f)).
Proof. apply tame_sql. intros i. eapply tx_ok_post; [|apply tx_ok_read]. done. Qed.

Lemma sql_get_tame {A} q e (f : DB → option A) : tame q (sql (get e f)).
Proof. apply tame_sql. intros i. eapply tx_ok_post; [|apply tx_ok_get]. done. Qed.

Lemma get_order_tame q oid : tame q (sql (get_order oid)).
Proof. apply sql_get_tame. Qed.

Lemma get_user_tame q uid : tame q (sql (get_user uid)).
Proof. apply sql_get_tame. Qed.

Lemma get_code_by_id_tame q id : tame q (sql (get_code_by_id id)).
Proof. apply sql_get_tame. Qed.

Lemma GetByCode_tame q code : tame q (sql (GetByCode code)).
Proof. apply sql_read_tame. Qed.

Lemma has_audit_tame q oid l : tame q (sql (has_audit oid l)).
Proof. apply sql_read_tame. Qed.

Lemma find_by_out_trade_no_tame q no : tame q (sql (find_by_out_trade_no no)).
Proof.
  apply tame_sql. intros i. eapply tx_ok_bind; [apply tx_ok_read|].
  intros [|o [|]]; [apply tx_ok_fail|by apply tx_ok_ret|apply tx_ok_fail].
Qed.

Lemma writeAuditLog_tame q oid action d : tame q (writeAuditLog oid action d).
Proof. apply tame_bind; [apply tame_sql; intros i; apply create_audit_tame|intros; apply tame_ret]. Qed.

Lemma hasAuditLog_tame q oid action : tame q (hasAuditLog oid action).
Proof. apply tame_bind; [apply has_audit_tame|intros; apply tame_ret]. Qed.

Lemma ok_tame {A} q (a : A) : tame q (ok a).
Proof. apply tame_ret. Qed.
Lemma err_tame {A} q e : tame q (err (A := A) e).
Proof. apply tame_ret. Qed.
Lemma Now_tame q : tame q (call Now).
Proof. by apply tame_call. Qed.
Lemma CountRedeemFailure_tame q uid : tame q (call (CountRedeemFailure uid)).
Proof. by apply tame_call. Qed.
Lemma RedeemAttemptsExceeded_tame q uid : tame q (call (RedeemAttemptsExceeded uid)).
Proof. by apply tame_call. Qed.
Lemma AcquireRedeemLock_tame q code : tame q (call (AcquireRedeemLock code)).
Proof. by apply tame_call. Qed.
Lemma ReleaseRedeemLock_tame q code : tame q (call (ReleaseRedeemLock code)).
Proof. by apply tame_call. Qed.
Lemma OpenProvider_tame q from : tame q (call (OpenProvider from)).
Proof. by apply tame_call. Qed.
Lemma QueryOrder_tame q prov ref : tame q (call (QueryOrder prov ref)).
Proof. by apply tame_call. Qed.
Lemma CancelPayment_tame q prov ref : tame q (call (CancelPayment prov ref)).
Proof. by apply tame_call. Qed.
Lemma QueryRefund_tame q prov id : tame q (call (QueryRefund prov id)).
Proof. by apply tame_call. Qed.

(** An update that keeps the status of settled orders and settles none. *)
Lemma update_order_tame q oid cond set :
  (∀ t o, cond o = true → po_base (set (touched t o)) = po_base o
     ∧ (settled (po_Status (set (touched t o))) = settled (po_Status o))
     ∧ (po_Status o = OrderStatusRefunding → po_Status (set (touched t o)) = OrderStatusRefunding)) →
  tame q (sql (update_order oid cond set)).
Proof.
  intros Hs. apply tame_sql. intros i. apply update_order_ok. intros s o _ _ _ Hc.
  destruct (Hs (db_now s) o Hc) as (Hb & Hse & Hr). split; [|done].
  unfold may_become. rewrite Hse. split_and!; auto.
Qed.

(** Solves the condition by the statuses the update selects. *)
Ltac by_status :=
  apply update_order_tame; intros t o; unfold payable, holds_lease, status_in; simpl;
  destruct (po_Status o); vm_compute; try done;
  by intros; rewrite ?andb_false_r in *; split_and!.
#[local] Hint Resolve sql_read_tame sql_get_tame get_order_tame get_user_tame get_code_by_id_tame GetByCode_tame
  has_audit_tame find_by_out_trade_no_tame writeAuditLog_tame hasAuditLog_tame Now_tame CountRedeemFailure_tame
  RedeemAttemptsExceeded_tame AcquireRedeemLock_tame ReleaseRedeemLock_tame OpenProvider_tame QueryOrder_tame
  CancelPayment_tame QueryRefund_tame tame_ret ok_tame err_tame : tame.

(** ** Redemption *)

Lemma has_code_persistent r : persistent Rely (has_code r).
Proof. intros i. apply rely_has_code. Qed.

Lemma count_failure_tame q enforce uid : tame q (count_failure enforce uid).
Proof. unfold count_failure. tame_tac. Qed.
#[local] Hint Resolve count_failure_tame : tame.

(** A code that was read is there under its own name. *)
Lemma GetByCode_ok q i (P : DB → Prop) code :
  persistent Rely P →
  triple q i P (sql (GetByCode code))
    (ok_post (λ found s, P s ∧ match found with
       | Some r => rc_Code r = code ∧ has_code r s ∧
           (IsUsed r = true → ∀ u, rc_UsedBy r = Some u → code_used code u s)
       | None => True end)).
Proof.
  intros HP. apply sql_ok.
  - apply HP.
  - intros [r|]; [|apply stable_and; [apply HP|apply stable_True]].
    intros s s' Hr (Hp & Hc & Hh & Hu). split; [by eapply HP|]. split; [done|].
    split; [by eapply rely_has_code|]. intros Hx u Hb. eapply rely_code_used; [done|]. by apply Hu.
  - intros w s Hi Hs. simpl. split_and!; [done|by intros|done|].
    destruct (db_codes s !! code) as [r|] eqn:Hr; [|done].
    destruct (inv_codes _ _ Hi _ _ Hr) as [Hc _]. split_and!; [done| |].
    + exists r. by rewrite Hc.
    + intros Hu u Hb. exists r. split; [done|]. split; [|done]. by apply String.eqb_eq.
Qed.

Lemma redeem_locked_ok q i uid code enforce :
  triple q i (λ _, True) (redeem_locked uid code enforce) (ok_post (λ _, code_used code uid)).
Proof.
  unfold redeem_locked. eapply try_ok; [by apply GetByCode_ok|]. intros [r|]; cbv beta iota.
  2: { apply bind_frame; [by intros ????|auto with tame|]. intros ?. apply err_ok. }
  apply (triple_pre _ _ _ _ _ _ (λ s, rc_Code r = code ∧ has_code r s)); [naive_solver|].
  apply triple_pure. intros Hc. pose proof (has_code_persistent r) as HF.
  apply bind_frame; [done|auto with tame|]. intros now.
  case_match; [apply bind_frame; [done|auto with tame|]; intros ?; apply err_ok|].
  case_match; [apply bind_frame; [done|auto with tame|]; intros ?; apply err_ok|].
  case_match; [apply err_ok|]. case_match; [apply err_ok|].
  apply try_frame; [done|auto with tame|]. intros u.
  eapply try_ok; [apply sql_ok; [apply HF| |apply redeem_tx_ok]|]; cbv beta.
  { intros _. apply rely_code_used. }
  intros ?. rewrite Hc.
  eapply (triple_conseq exec); [|apply (tame_frame _ _ _ _ (code_used code uid))|]; [done| | |].
  - intros j. apply rely_code_used.
  - apply get_code_by_id_tame.
  - by intros [].
Qed.

Lemma redeem_ok q i uid code enforce :
  triple q i (λ _, True) (redeem uid code enforce) (ok_post (λ _, code_used code uid)).
Proof.
  unfold redeem. apply bind_frame; [by intros ????|tame_tac|]. intros [|]; [apply err_ok|].
  apply bind_frame; [by intros ????|auto with tame|]. intros [|]; [|apply err_ok].
  eapply (triple_bind exec Inv Rely); [apply redeem_locked_ok|]. intros r.
  eapply (triple_bind exec Inv Rely).
  - apply (tame_frame _ _ _ _ (ok_post (λ _, code_used code uid) r)); [|auto with tame].
    intros j. destruct r; simpl; [apply stable_True|apply rely_code_used].
  - intros ?. apply triple_ret; [|done]. destruct r; simpl; [apply stable_True|apply rely_code_used].
Qed.

Lemma redeem_tame q uid code enforce : tame q (redeem uid code enforce).
Proof. intros i. eapply (triple_conseq exec); [|apply redeem_ok|]; done. Qed.

Lemma CreateCode_ok q i code typ value :
  triple q i (λ _, True) (CreateCode code typ value)
    (ok_post (λ _ s, ∃ r, db_codes s !! TrimSpace code = Some r ∧ rc_Type r = default_type typ
                          ∧ rc_Value r = column value)).
Proof.
  unfold CreateCode. case_match; [apply err_ok|]. case_match; [apply err_ok|].
  apply sql_ok; [done| |apply create_code_ok]. intros _ s s' Hr (r & Hc & Ht & Hv).
  destruct (rely_codes _ _ _ Hr _ _ Hc) as (r' & Hc' & (_ & _ & Ht' & Hv') & _).
  exists r'. split_and!; [done|congruence|congruence].
Qed.

Lemma CreateCode_tame q code typ value : tame q (CreateCode code typ value).
Proof. intros i. eapply (triple_conseq exec); [|apply CreateCode_ok|]; [done|]. by intros []. Qed.

(** ** Completion *)

Lemma is_funded_persistent b : persistent Rely (is_funded b).
Proof. intros i. apply rely_funded. Qed.

Lemma has_order_persistent oid b : persistent Rely (has_order oid b).
Proof. intros i. apply rely_has_order. Qed.

Lemma code_covers_persistent b : persistent Rely (code_covers b).
Proof. intros i. apply rely_code_covers. Qed.

Lemma code_used_persistent code uid : persistent Rely (code_used code uid).
Proof. intros i. apply rely_code_used. Qed.

Lemma persistent_and (P Q : DB → Prop) :
  persistent Rely P → persistent Rely Q → persistent Rely (λ s, P s ∧ Q s).
Proof. intros HP HQ i. by apply stable_and. Qed.

#[local] Hint Resolve is_funded_persistent has_order_persistent code_covers_persistent code_used_persistent
  persistent_and has_code_persistent : core.

Lemma recharging_only version o :
  holds_lease version o = true → po_Status o = OrderStatusRecharging.
Proof. unfold holds_lease, status_in. destruct (po_Status o); by vm_compute. Qed.

(** An order is completed only when it is funded. *)
Lemma markCompleted_ok q i o lease action :
  let b := po_base o in
  triple q i (λ s, has_order (po_ID b) b s ∧ is_funded b s) (markCompleted o lease action) (λ _ _, True).
Proof.
  intros b. unfold markCompleted. apply bind_frame; [auto|auto with tame|]. intros now.
  apply ok_post_true. eapply (try_ok _ _ _ _ _ _ (λ _ _, True)).
  - apply sql_ok; [by apply persistent_and|done|]. apply update_order_ok.
    intros s o' _ [(o'' & Ho & Hb) Hf] Ho' Hc%recharging_only. simplify_eq.
    split; [|by rewrite Hc]. unfold may_become. rewrite Hc. split_and!; [done|done|].
    intros _. right. by rewrite Hb.
  - intros n. apply to_ok_post, tame_triple. tame_tac.
Qed.

Lemma markFailed_tame q oid lease cause : tame q (markFailed oid lease cause).
Proof.
  unfold markFailed. apply tame_bind; [auto with tame|]. intros now.
  apply tame_bind; [|tame_tac]. apply update_order_tame. intros t o Hc%recharging_only.
  simpl. by rewrite Hc.
Qed.

Lemma rebate_tame q o : tame q (applyAffiliateRebateForOrder o).
Proof.
  unfold applyAffiliateRebateForOrder. case_match; [auto with tame|].
  apply tame_bind; [apply tame_sql; intros i; apply rebate_tx_ok|tame_tac].
Qed.
#[local] Hint Resolve redeem_tame CreateCode_tame markFailed_tame rebate_tame : tame.

(** ** Balance orders *)

Lemma validate_ok b r :
  validatePaymentRedeemCode b r = None →
  rc_Type r = RedeemTypeBalance ∧ covers r b ∧ (IsUsed r = true → rc_UsedBy r = Some (po_UserID b)).
Proof.
  unfold validatePaymentRedeemCode, IsUsed, covers.
  destruct (String.eqb (rc_Code r) _); [|done]. simpl.
  destruct (String.eqb_spec (rc_Type r) RedeemTypeBalance); [|done]. simpl.
  destruct (code_tolerance <. _); [by rewrite orb_true_r|].
  destruct (IsNaN _); [done|]. destruct (IsInf _); [done|]. simpl.
  destruct (String.eqb_spec (rc_Status r) StatusUnused) as [Hu|].
  - intros _. split; [done|]. split; [by right|]. by rewrite Hu.
  - destruct (String.eqb (rc_Status r) StatusUsed); [|done]. case_bool_decide; [|done].
    intros _. split; [done|]. by split; [right|].
Qed.

Lemma balance_funded b s :
  String.eqb (po_OrderType b) OrderTypeBalance = true →
  code_covers b s → code_used (po_RechargeCode b) (po_UserID b) s → is_funded b s.
Proof.
  intros Hty (r & Hr & Ht & Hc) (r' & Hr' & Hu). simplify_eq. unfold is_funded, funded. rewrite Hty.
  by exists r.
Qed.

Lemma doBalance_ok q i o lease :
  let b := po_base o in
  String.eqb (po_OrderType b) OrderTypeBalance = true → TrimSpace (po_RechargeCode b) = po_RechargeCode b →
  triple q i (has_order (po_ID b) b) (doBalance o lease) (λ _ _, True).
Proof.
  intros b Hty Htrim.
  assert (triple q i (λ s, has_order (po_ID b) b s ∧ is_funded b s)
            (applyAffiliateRebateForOrder o;;! markCompleted o lease "RECHARGE_SUCCESS")
            (ok_post (λ _ _, True))) as Hfinish.
  { apply try_frame; [auto|auto with tame|]. intros ?. apply to_ok_post, markCompleted_ok. }
  assert (triple q i (λ s, has_order (po_ID b) b s ∧ code_covers b s)
            (_ ←! redeemForPaymentFulfillment (po_UserID b) (po_RechargeCode b);
             applyAffiliateRebateForOrder o;;! markCompleted o lease "RECHARGE_SUCCESS")
            (ok_post (λ _ _, True))) as Hredeem.
  { eapply (try_ok _ _ _ _ _ _ (λ _ s, has_order (po_ID b) b s ∧ is_funded b s)); [|intros ?; exact Hfinish].
    eapply (triple_conseq exec); [|apply (triple_frame exec _ Rely); [|apply redeem_ok]|].
    - intros s _ Hs. split; [done|]. exact Hs.
    - auto.
    - intros [e|r] s _; simpl; [done|]. intros (Hu & Ho & Hc). split; [done|]. by apply balance_funded. }
  apply ok_post_true. unfold doBalance. eapply try_ok; [by apply GetByCode_ok|]. intros [r|]; cbv beta iota.
  - destruct (validatePaymentRedeemCode _ r) as [e|] eqn:Hv; [apply err_ok|].
    destruct (validate_ok _ _ Hv) as (Ht & Hcov & Hused).
    assert (∀ s, has_order (po_ID b) b s ∧ rc_Code r = po_RechargeCode b ∧ has_code r s ∧
      (IsUsed r = true → ∀ u, rc_UsedBy r = Some u → code_used (po_RechargeCode b) u s) →
      has_order (po_ID b) b s ∧ code_covers b s ∧ (IsUsed r = true → code_used (po_RechargeCode b) (po_UserID b) s))
      as Hknow.
    { intros s (Ho & Hc & (r' & Hr' & (_ & _ & Ht' & Hv')) & Hu). split; [done|]. split; [|by eauto].
      exists r'. rewrite <-Hc. split; [done|]. split; [congruence|]. unfold covers in *. by rewrite Hv'. }
    unfold resolveRedeemAction. destruct (IsUsed r) eqn:Hiu; cbv beta iota.
    + eapply triple_pre; [|exact Hfinish]. intros s _ (Ho & Hc & Hu)%Hknow.
      split; [done|]. apply balance_funded; auto.
    + eapply triple_pre; [|exact Hredeem]. intros s _ (Ho & Hc & _)%Hknow. done.
  - eapply try_ok; [|intros ?; exact Hredeem].
    eapply (triple_conseq exec); [|apply (triple_frame exec _ Rely); [|apply CreateCode_ok]|].
    + intros s _ [Hs _]. split; [done|]. exact Hs.
    + auto.
    + intros [e|[]] s _; simpl; [done|]. intros [(r & Hr & Ht & Hv) Ho]. split; [done|].
      exists r. rewrite <-Htrim. split_and!; [done|done|by left].
Qed.

(** ** Subscription orders *)

Lemma subscription_funded b s :
  String.eqb (po_OrderType b) OrderTypeSubscription = true → assigned (po_ID b) (db_audit s) → is_funded b s.
Proof. intros Hty%String.eqb_eq Ha. unfold is_funded, funded. by rewrite Hty. Qed.

Lemma assigned_persistent oid : persistent Rely (λ s, assigned oid (db_audit s)).
Proof. intros i s s' Hr. apply Hr. Qed.

Lemma ensure_assigned_ok q i o groupID days :
  triple q i (λ _, True) (ensurePaymentSubscriptionAssigned o groupID days)
    (ok_post (λ _ s, assigned (po_ID (po_base o)) (db_audit s))).
Proof.
  unfold ensurePaymentSubscriptionAssigned.
  eapply (triple_bind exec Inv Rely); [apply sql_ok; [done| |apply assign_tx_ok]|].
  { intros ?. apply assigned_persistent. }
  intros [e|[]]; cbv beta iota.
  - case_match; [|apply err_ok].
    eapply (triple_bind exec Inv Rely).
    + apply (sql_ok opening q i (λ _, True) _
               (λ claimed s, claimed = true → assigned (po_ID (po_base o)) (db_audit s))); [done| |].
      * intros claimed s s' Hr Hc Ht. eapply assigned_persistent; [done|auto].
      * eapply tx_ok_post; [|apply tx_ok_read]. intros a s _ [-> _] Ha. by apply has_audit_assigned.
    + intros [e'|[|]]; try apply err_ok. apply triple_ret; [|intros s _ Hs; by apply Hs].
      intros s s' Hr Hs _. eapply assigned_persistent; [done|by apply Hs].
  - apply triple_ret; [apply assigned_persistent|done].
Qed.

Lemma doSub_ok q i o groupID days lease :
  let b := po_base o in
  String.eqb (po_OrderType b) OrderTypeSubscription = true →
  triple q i (has_order (po_ID b) b) (doSub o groupID days lease) (λ _ _, True).
Proof.
  intros b Hty. apply ok_post_true. unfold doSub.
  apply bind_frame; [auto|auto with tame|]. intros [e|[g|]]; try apply err_ok.
  case_match; [apply err_ok|].
  eapply (try_ok _ _ _ _ _ _ (λ _ s, has_order (po_ID b) b s ∧ is_funded b s)).
  - eapply (triple_conseq exec); [|apply (triple_frame exec _ Rely); [|apply ensure_assigned_ok]|].
    + intros s _ Hs. split; [done|]. exact Hs.
    + auto.
    + intros [e|[]] s _; simpl; [done|]. intros [Ha Ho]. split; [done|]. by apply subscription_funded.
  - intros ?. apply try_frame; [auto|auto with tame|]. intros ?. apply to_ok_post, markCompleted_ok.
Qed.

(** ** The lease and the dispatch *)

Lemma acquire_tame q o : tame q (acquirePaymentFulfillmentLease o).
Proof.
  unfold acquirePaymentFulfillmentLease. apply tame_bind; [auto with tame|]. intros now.
  apply tame_try; [|tame_tac]. apply update_order_tame. intros t o'. unfold status_in. simpl.
  by destruct (po_Status o').
Qed.

Lemma with_lease_ok q i (P : DB → Prop) o (work : Z → handler unit) :
  persistent Rely P → (∀ v, triple q i P (work v) (λ _ _, True)) →
  triple q i P (with_lease o work) (λ _ _, True).
Proof.
  intros HP Hw. apply ok_post_true. unfold with_lease.
  apply try_frame; [done|apply acquire_tame|]. intros [v|]; [|apply to_ok_post, tame_triple; auto with tame].
  eapply (triple_bind exec Inv Rely); [apply Hw|]. intros r. apply to_ok_post, tame_triple. tame_tac.
Qed.

(** What reading an order tells. *)
Lemma get_order_ok q i (P : DB → Prop) oid :
  persistent Rely P →
  triple q i P (sql (get_order oid))
    (ok_post (λ o s, P s ∧ has_order oid (po_base o) s ∧
       po_ID (po_base o) = oid ∧ TrimSpace (po_RechargeCode (po_base o)) = po_RechargeCode (po_base o))).
Proof.
  intros HP. apply sql_ok; [apply HP| |].
  - intros o s s' Hr (Hp & Ho & Hpure). split; [by eapply HP|]. split; [by eapply rely_has_order|done].
  - eapply tx_ok_post; [|apply tx_ok_get]. intros o s Hi [Ho Hs]. split; [done|].
    split; [by exists o|by eapply inv_orders].
Qed.

Lemma ExecuteBalanceFulfillment_tame q oid : tame q (ExecuteBalanceFulfillment oid).
Proof.
  intros i. unfold ExecuteBalanceFulfillment.
  eapply (triple_bind exec Inv Rely); [by apply get_order_ok|]. intros [e|o]; cbv beta iota.
  { apply tame_triple. auto with tame. }
  destruct (String.eqb (po_OrderType _) _) eqn:Hty; simpl negb; cbv iota; [|apply tame_triple; auto with tame].
  case_match; [apply tame_triple; auto with tame|]. case_match; [apply tame_triple; auto with tame|].
  eapply pure_fact; [intros s _ (_ & _ & Hx); exact Hx|]. intros [Hid Htrim].
  eapply triple_pre; [|apply with_lease_ok; [apply (has_order_persistent oid)|]].
  - by intros s _ (_ & Hs & _).
  - intros v. pose proof (doBalance_ok q i o v Hty Htrim) as Hd. by rewrite Hid in Hd.
Qed.

Lemma ExecuteSubscriptionFulfillment_ok q i oid b :
  String.eqb (po_OrderType b) OrderTypeSubscription = true →
  triple q i (has_order oid b) (ExecuteSubscriptionFulfillment oid) (λ _ _, True).
Proof.
  intros Hty. unfold ExecuteSubscriptionFulfillment.
  eapply (triple_bind exec Inv Rely); [apply get_order_ok; auto|]. intros [e|o]; cbv beta iota.
  { apply tame_triple. auto with tame. }
  apply (pure_fact _ _ (po_base o = b ∧ po_ID b = oid)).
  { intros s _ ((o1 & Ho1 & Hb1) & (o2 & Ho2 & Hb2) & Hid & _). simplify_eq. split; congruence. }
  intros [Hb Hid].
  case_match; [apply tame_triple; auto with tame|]. case_match; [apply tame_triple; auto with tame|].
  case_match; [|apply tame_triple; auto with tame]. case_match; [|apply tame_triple; auto with tame].
  eapply triple_pre; [|apply with_lease_ok; [apply (has_order_persistent oid b)|]].
  - by intros s _ (Hs & _).
  - intros v. rewrite <-Hb in Hty, Hid. pose proof (doSub_ok q i o z z0 v Hty) as Hd.
    by rewrite Hid, Hb in Hd.
Qed.

Lemma rejectUnsupported_tame q o : tame q (rejectUnsupportedOrderType o).
Proof.
  unfold rejectUnsupportedOrderType. apply tame_bind; [auto with tame|]. intros now.
  apply tame_bind; [|tame_tac]. apply update_order_tame. intros t o'. unfold status_in. simpl.
  by destruct (po_Status o').
Qed.

Lemma executeFulfillment_tame q oid : tame q (executeFulfillment oid).
Proof.
  intros i. apply ok_post_true. unfold executeFulfillment.
  eapply try_ok; [by apply get_order_ok|]. intros o. cbv beta.
  destruct (String.eqb (po_OrderType _) OrderTypeSubscription) eqn:Hty.
  - eapply triple_pre; [|apply to_ok_post, (ExecuteSubscriptionFulfillment_ok q i oid _ Hty)].
    by intros s _ (_ & Hs & _).
  - case_match; apply to_ok_post, tame_triple; [apply ExecuteBalanceFulfillment_tame|apply rejectUnsupported_tame].
Qed.
#[local] Hint Resolve executeFulfillment_tame : tame.

Lemma RetryFulfillment_tame q oid : tame q (RetryFulfillment oid).
Proof. unfold RetryFulfillment. tame_tac. Qed.

(** ** Notifications *)

Lemma alreadyProcessed_tame q oid : tame q (alreadyProcessed oid).
Proof. unfold alreadyProcessed. tame_tac. Qed.
#[local] Hint Resolve alreadyProcessed_tame : tame.

Lemma toPaid_tame q o tradeNo paid : tame q (toPaid o tradeNo paid).
Proof.
  unfold toPaid. apply tame_bind; [auto with tame|]. intros now.
  apply tame_try; [|tame_tac]. apply update_order_tame. intros t o'. unfold payable, status_in. simpl.
  by destruct (po_Status o').
Qed.
#[local] Hint Resolve toPaid_tame : tame.

Lemma confirmPayment_tame q oid tradeNo paid pk metadata :
  tame q (confirmPayment registry oid tradeNo paid pk metadata).
Proof. unfold confirmPayment. tame_tac. Qed.
#[local] Hint Resolve confirmPayment_tame : tame.

Lemma HandlePaymentNotification_tame q n pk : tame q (HandlePaymentNotification registry n pk).
Proof. unfold HandlePaymentNotification. tame_tac. Qed.
#[local] Hint Resolve HandlePaymentNotification_tame : tame.

(** ** Cancellation, expiry, reconciliation *)

Lemma webhookRegistryFallbackAllowed_tame q key : tame q (webhookRegistryFallbackAllowed key).
Proof. unfold webhookRegistryFallbackAllowed. tame_tac. Qed.
#[local] Hint Resolve webhookRegistryFallbackAllowed_tame : tame.

Lemma open_or_fail_tame q from : tame q (open_or_fail from).
Proof. unfold open_or_fail. tame_tac. Qed.
#[local] Hint Resolve open_or_fail_tame : tame.

Lemma getOrderProvider_tame q b : tame q (getOrderProvider registry b).
Proof. unfold getOrderProvider. tame_tac. Qed.
#[local] Hint Resolve getOrderProvider_tame : tame.

Lemma trade_no_tame q oid no :
  tame q (sql (update_order oid (λ _, true) (set_payment (set_trade_no no)))).
Proof. by apply update_order_tame. Qed.
#[local] Hint Resolve trade_no_tame : tame.

Lemma checkPaid_tame q o cancel : tame q (checkPaidWithOptions registry o cancel).
Proof. unfold checkPaidWithOptions, process_paid, requeryPaidOrderOnce. tame_tac. Qed.

Lemma cancelCore_tame q o fs op :
  settled fs = false → tame q (cancelCore registry o fs op).
Proof.
  intros Hfs. unfold cancelCore. apply tame_bind; [case_match; [apply checkPaid_tame|tame_tac]|].
  intros [|]; [auto with tame|]. apply tame_try; [|tame_tac]. apply update_order_tame.
  intros t o'. unfold status_in. simpl. rewrite Hfs. by destruct (po_Status o').
Qed.

Lemma cancel_tame q o op : tame q (cancelCore registry o OrderStatusCancelled op).
Proof. by apply cancelCore_tame. Qed.
Lemma reconcilePaid_tame q o : tame q (reconcilePaid registry o).
Proof. apply checkPaid_tame. Qed.
#[local] Hint Resolve cancel_tame reconcilePaid_tame : tame.

Lemma CancelOrder_tame q oid uid : tame q (CancelOrder registry oid uid).
Proof. unfold CancelOrder. tame_tac. Qed.

Lemma AdminCancelOrder_tame q oid : tame q (AdminCancelOrder registry oid).
Proof. unfold AdminCancelOrder. tame_tac. Qed.

Lemma ExpireTimedOutOrders_tame q : tame q (ExpireTimedOutOrders registry).
Proof.
  assert (∀ l, tame q (expire_each registry l)) as He.
  { induction l as [|o l IH]; [apply tame_ret|]. cbn [expire_each].
    apply tame_bind; [by apply cancelCore_tame|tame_tac]. }
  unfold ExpireTimedOutOrders. tame_tac.
Qed.

Lemma VerifyOrder_tame q raw uid : tame q (VerifyOrderByOutTradeNo registry raw uid).
Proof. unfold VerifyOrderByOutTradeNo. tame_tac. Qed.

Lemma Reconcile_tame q : tame q (ReconcilePendingPaymentOrders registry).
Proof.
  assert (∀ l, tame q (reconcile_each registry l)) as He.
  { induction l as [|o l IH]; [apply tame_ret|]. cbn [reconcile_each].
    apply tame_bind; [apply checkPaid_tame|]. intros paid. apply tame_bind; [apply IH|tame_tac]. }
  unfold ReconcilePendingPaymentOrders. tame_tac.
Qed.

(** ** Refunds: request and preparation *)

Lemma refund_instance_tame q o : tame q (refund_instance registry o).
Proof. unfold refund_instance. tame_tac. Qed.
#[local] Hint Resolve refund_instance_tame : tame.

Lemma validateRefundRequest_tame q oid uid : tame q (validateRefundRequest registry oid uid).
Proof. unfold validateRefundRequest. tame_tac. Qed.
#[local] Hint Resolve validateRefundRequest_tame : tame.

Lemma completed_only o : status_in [OrderStatusCompleted] o = true → po_Status o = OrderStatusCompleted.
Proof. unfold status_in. destruct (po_Status o); by vm_compute. Qed.

Lemma RequestRefund_tame q oid uid why : tame q (RequestRefund registry oid uid why).
Proof.
  unfold RequestRefund. apply tame_try; [auto with tame|]. intros o.
  apply tame_try; [auto with tame|]. intros u. case_match; [auto with tame|].
  apply tame_bind; [auto with tame|]. intros now. apply tame_try; [|tame_tac].
  apply update_order_tame. intros t o' [[_ Hc%completed_only]%andb_prop _]%andb_prop. simpl. by rewrite Hc.
Qed.

Lemma prepDeduct_tame q o p force : tame q (prepDeduct o p force).
Proof. unfold prepDeduct. tame_tac. Qed.
#[local] Hint Resolve prepDeduct_tame : tame.

Lemma PrepareRefund_tame q oid amt why force deduct : tame q (PrepareRefund registry oid amt why force deduct).
Proof. unfold PrepareRefund. tame_tac. Qed.

(** ** Refunds: under the lock *)

Lemma deduct_tame q uid amount oid : tame q (sql (DeductAvailableBalance uid amount (TakenForRefund oid))).
Proof. apply tame_sql. intros i. by apply DeductAvailableBalance_ok. Qed.

Lemma return_tame q uid amount oid : tame q (sql (UpdateBalance uid amount (ReturnedForRefund oid))).
Proof. apply tame_sql. intros i. by apply UpdateBalance_ok. Qed.

Lemma extend_tame q id days : tame q (sql (extend_subscription id days)).
Proof. apply tame_sql. intros i. by apply extend_subscription_ok. Qed.

Lemma revoke_tame q id : tame q (sql (revoke_subscription id)).
Proof. apply tame_sql. intros i. by apply revoke_subscription_ok. Qed.
#[local] Hint Resolve deduct_tame return_tame extend_tame revoke_tame : tame.

Lemma take_days_tame q id days : tame q (take_days id days).
Proof. unfold take_days. tame_tac. Qed.
#[local] Hint Resolve take_days_tame : tame.

Lemma RollbackRefund_tame q p : tame q (RollbackRefund p).
Proof. unfold RollbackRefund. tame_tac. Qed.

Lemma overwrite_ok i oid set :
  (∀ t o, po_base (set (touched t o)) = po_base o ∧ settled (po_Status (set (touched t o))) = true) →
  triple false i (holds i oid) (sql (overwrite_order oid set)) (λ _ _, True).
Proof.
  intros Hset. apply ok_post_true. apply sql_ok; [apply stable_holds|done|]. by apply overwrite_order_ok.
Qed.

Lemma restoreStatus_ok i p : triple false i (holds i (rp_OrderID p)) (restoreStatus p) (λ _ _, True).
Proof.
  unfold restoreStatus. eapply (triple_bind exec Inv Rely).
  - apply overwrite_ok. intros t o. split; [done|]. simpl. by case_match.
  - intros ?. apply tame_triple. auto with tame.
Qed.

Lemma or_restore_ok {A} i p (work : handler A) :
  tame true work →
  triple false i (holds i (rp_OrderID p)) (or_restore p work) (ok_post (λ _, holds i (rp_OrderID p))).
Proof.
  intros Hw. unfold or_restore. apply bind_quiet; [apply stable_holds|done|]. intros [e|a].
  - eapply try_ok; [apply to_ok_post, restoreStatus_ok|]. intros ?. apply err_ok.
  - apply triple_ret; [apply stable_holds|done].
Qed.

(** The plan that is left concerns the same order. *)
Lemma deduct_balance_ok i p :
  triple false i (holds i (rp_OrderID p)) (deduct_balance p)
    (ok_post (λ p' s, rp_OrderID p' = rp_OrderID p ∧ holds i (rp_OrderID p) s)).
Proof.
  assert (∀ p', rp_OrderID p' = rp_OrderID p → triple false i (holds i (rp_OrderID p)) (ok p')
            (ok_post (λ p' s, rp_OrderID p' = rp_OrderID p ∧ holds i (rp_OrderID p) s))) as Hret.
  { intros p' Hp. by apply triple_ret; [apply stable_holds|]. }
  unfold deduct_balance. case_match; [|by apply Hret].
  apply bind_quiet; [apply stable_holds|auto with tame|]. intros [|]; [by apply Hret|].
  eapply try_ok; [by apply or_restore_ok; auto with tame|]. intros d. by apply Hret.
Qed.

Lemma deduct_days_ok i p :
  triple false i (holds i (rp_OrderID p)) (deduct_days p)
    (ok_post (λ p' s, rp_OrderID p' = rp_OrderID p ∧ holds i (rp_OrderID p) s)).
Proof.
  assert (∀ p', rp_OrderID p' = rp_OrderID p → triple false i (holds i (rp_OrderID p)) (ok p')
            (ok_post (λ p' s, rp_OrderID p' = rp_OrderID p ∧ holds i (rp_OrderID p) s))) as Hret.
  { intros p' Hp. by apply triple_ret; [apply stable_holds|]. }
  unfold deduct_days. case_match; [|by apply Hret].
  apply bind_quiet; [apply stable_holds|auto with tame|]. intros [|]; [by apply Hret|].
  eapply try_ok; [by apply or_restore_ok; auto with tame|]. intros d. by apply Hret.
Qed.

(** The provider is asked by the owner of a REFUNDING order. *)
Lemma Refund_ok i prov oid req :
  triple true i (holds i oid) (call (Refund prov oid req)) (λ _, holds i oid).
Proof.
  unfold call. eapply (triple_do exec Inv Rely _ _ _ _ _ (λ _, holds i oid)); [apply stable_holds| |].
  - intros s w Hi Hh. assert (Hh' := Hh). destruct Hh' as (o & Ho & Hs & Hw). simpl. split_and!.
    + apply note_Inv; [done|]. unfold status_of. by rewrite Ho.
    + intros j _. split; simpl; [naive_solver| |done|done]. intros c r Hr. by exists r.
    + by exists o.
  - intros x. apply triple_ret; [apply stable_holds|done].
Qed.

Lemma open_provider_tame q o : tame q (getRefundProvider registry o).
Proof. unfold getRefundProvider. tame_tac. Qed.
#[local] Hint Resolve open_provider_tame : tame.

Lemma gwRefund_ok i p : triple true i (holds i (rp_OrderID p)) (gwRefund registry p) (λ _, holds i (rp_OrderID p)).
Proof.
  assert (∀ r : pay_error + RefundResponse, triple true i (holds i (rp_OrderID p)) (Ret r) (λ _, holds i (rp_OrderID p))) as Hret.
  { intros r. apply triple_ret; [apply stable_holds|done]. }
  unfold gwRefund. case_match; [apply quiet_frame; [apply stable_holds|tame_tac]|].
  unfold try at 1. apply bind_quiet; [apply stable_holds|auto with tame|]. intros [e|prov]; [apply Hret|].
  case_match; [apply quiet_frame; [apply stable_holds|tame_tac]|].
  eapply (triple_bind exec Inv Rely); [apply Refund_ok|]. intros [[resp|] [|]]; repeat case_match; apply Hret.
Qed.

Lemma handleGwFail_ok i p e : triple false i (holds i (rp_OrderID p)) (handleGwFail p e) (λ _ _, True).
Proof.
  unfold handleGwFail. apply bind_quiet; [apply stable_holds|apply RollbackRefund_tame|]. intros [|].
  - apply ok_post_true. eapply try_ok; [apply to_ok_post, restoreStatus_ok|]. intros ?.
    apply to_ok_post, tame_triple. tame_tac.
  - apply bind_quiet; [apply stable_holds|auto with tame|]. intros now.
    eapply (triple_bind exec Inv Rely); [by apply overwrite_ok|]. intros ?. apply tame_triple. tame_tac.
Qed.

Lemma finishRefund_ok i p resp : triple false i (holds i (rp_OrderID p)) (finishRefund p resp) (λ _ _, True).
Proof.
  unfold finishRefund. case_match; [apply handleGwFail_ok|]. case_match.
  - apply ok_post_true. unfold markRefundPending. eapply (try_ok _ _ _ _ _ _ (λ _ _, True)).
    + apply sql_ok; [apply stable_holds|done|apply mark_pending_tx_ok].
    + intros ?. apply to_ok_post, tame_triple. auto with tame.
  - unfold markRefundOk. apply bind_quiet; [apply stable_holds|auto with tame|]. intros now.
    apply ok_post_true. eapply try_ok.
    + apply to_ok_post, overwrite_ok. intros t o. split; [done|]. apply refundFinalStatus_settled.
    + intros ?. apply to_ok_post, tame_triple. tame_tac.
Qed.

Lemma ExecuteRefund_tame p : tame false (ExecuteRefund registry p).
Proof.
  intros i. apply ok_post_true. unfold ExecuteRefund.
  apply try_frame; [by intros ????|auto with tame|]. intros o. case_match; [apply err_ok|].
  eapply try_ok; [apply sql_ok; [done| |apply claim_refund_ok, refundable_claimable]|]; cbv beta.
  { intros c s s' Hr [?|?]; [by left|right]. by eapply stable_holds. }
  intros c. destruct (Z.eqb_spec c 0) as [Hc|Hc]; [apply err_ok|].
  eapply triple_pre; [intros s _ [?|Hs]; [done|exact Hs]|].
  eapply try_ok; [apply deduct_balance_ok|]. intros p1. apply triple_pure. intros Hp1. rewrite <-Hp1.
  eapply try_ok; [apply deduct_days_ok|]. intros p2. apply triple_pure. intros Hp2. rewrite <-Hp2.
  eapply (triple_bind exec Inv Rely); [eapply triple_loud, gwRefund_ok|].
  intros [e|resp]; apply to_ok_post; [apply handleGwFail_ok|apply finishRefund_ok].
Qed.

Lemma ProcessRefund_tame oid amt why force deduct : tame false (ProcessRefund registry oid amt why force deduct).
Proof.
  unfold ProcessRefund. apply tame_try; [apply PrepareRefund_tame|]. intros [early|p]; [auto with tame|].
  apply ExecuteRefund_tame.
Qed.

(** ** Pending refunds *)

Lemma latestRefundPendingDetail_tame q oid : tame q (latestRefundPendingDetail oid).
Proof. unfold latestRefundPendingDetail. tame_tac. Qed.
#[local] Hint Resolve latestRefundPendingDetail_tame : tame.

Lemma finalize_success_tame p : tame false (finalizePendingRefundSuccess p).
Proof. apply tame_sql. intros i. apply finalize_success_tx_ok. Qed.

Lemma finalize_failed_tame q p e : tame q (finalizeRefundFailed p e).
Proof.
  assert (∀ rb, tame q (sql (finalize_failed_tx p e rb))) as Hf.
  { intros rb. apply tame_sql. intros i. apply finalize_failed_tx_ok. }
  unfold finalizeRefundFailed. tame_tac.
Qed.
#[local] Hint Resolve finalize_success_tame finalize_failed_tame : tame.

Lemma QueryAndFinalizeRefund_tame oid : tame false (QueryAndFinalizeRefund registry oid).
Proof. unfold QueryAndFinalizeRefund. tame_tac. Qed.
End Handlers.
