(* ===== verification/PaymentSafety.v ===== *)
(** * Payment orders: what holds under every interleaving

    Any number of handlers run at once, their statements interleaved in any order,
    each may fail before or after it takes effect, handlers may crash at any call,
    balances are charged and orders are created meanwhile ([runs]).  From a database
    with no history the invariant of PaymentInvariant holds throughout, and with it
    the theorems below.  The administrator's deletion of a code is not among the
    handlers: its check and its deletion are two statements, and the last theorem
    shows a code credited twice with it. *)

From Stdlib Require Import ZArith Lia Ascii String SpecFloat.
From stdpp Require Import base tactics numbers list gmap strings.
From S2P Require Import Prelude GoStrings GoFloat GoTime Subscription Programs.
From S2P Require Import PaymentData PaymentProvider PaymentStore PaymentFulfillment PaymentLifecycle PaymentRefund.
From S2P Require Import PaymentExamples PaymentInvariant PaymentLogic PaymentStatements PaymentHandlers.

Open Scope go_scope.

(** What users, administrators, providers and timers ask for. *)
Inductive request :=
| Notify (n : PaymentNotification) (pk : string)
| Retry (oid : Z)
| RedeemByUser (userID : Z) (code : string)
| RedeemForAdminFulfillment (userID : Z) (code : string)
| NewCode (code typ : string) (value : float64)
| CancelByUser (oid userID : Z)
| CancelByAdmin (oid : Z)
| ExpireOrders
| VerifyOrder (outTradeNo : string) (userID : Z)
| ReconcileOrders
| AskRefund (oid userID : Z) (why : string)
| DoRefund (oid : Z) (amt : float64) (why : string) (force deduct : bool)
| SettleRefund (oid : Z).

(** What happens beside the handlers. *)
Inductive outside :=
| Tick (d : N)
| Charge (userID units : Z)
| OrderCreated (o : PaymentOrder)
| InstancesChanged (m : gmap Z PaymentProviderInstance).

Definition set_instances (m : gmap Z PaymentProviderInstance) (s : DB) : DB :=
  mkDB (db_now s) (db_orders s) (db_codes s) (db_next_code s) (db_users s) (db_audit s) (db_subs s)
    m (db_log s).

(** A new order is pending and has a new identifier. *)
Definition creatable (o : PaymentOrder) (s : DB) : bool :=
  bool_decide (db_orders s !! po_ID (po_base o) = None)
  && bool_decide (po_Status o = OrderStatusPending)
  && String.eqb (TrimSpace (po_RechargeCode (po_base o))) (po_RechargeCode (po_base o)).

Definition happen (e : outside) (s : DB) : DB :=
  match e with
  | Tick d => set_now (db_now s + Z.of_N d) s
  | Charge uid units =>
      match db_users s !! uid with
      | Some u =>
          note (Moved uid (- units) Usage)
            (put_user uid (mkUser (u_Balance u - units) (u_TotalRecharged u) (u_Concurrency u)) s)
      | None => s
      end
  | OrderCreated o =>
      if creatable o s then set_orders (<[po_ID (po_base o) := o]> (db_orders s)) s else s
  | InstancesChanged m => set_instances m s
  end.

(** A database before any of this: nothing completed, no code used. *)
Record fresh (s : DB) : Prop := mkFresh {
  fr_log : db_log s = [];
  fr_orders : ∀ oid o, db_orders s !! oid = Some o →
    po_ID (po_base o) = oid ∧ TrimSpace (po_RechargeCode (po_base o)) = po_RechargeCode (po_base o)
    ∧ settled (po_Status o) = false;
  fr_codes : ∀ c r, db_codes s !! c = Some r → rc_Code r = c ∧ rc_Status r ≠ StatusUsed
}.

Section Safety.
Context `{UnicodeCase} `{Location} `{Numeric} `{DecimalLib}.
Variable registry : gmap string string.

Definition drop {A} (p : prog stmt A) : prog stmt unit := _ ← p; Ret tt.

Definition handle (r : request) : prog stmt unit :=
  match r with
  | Notify n pk => drop (HandlePaymentNotification registry n pk)
  | Retry oid => drop (RetryFulfillment oid)
  | RedeemByUser uid code => drop (redeem uid code true)
  | RedeemForAdminFulfillment uid code => drop (redeem uid code false)
  | NewCode code typ value => drop (CreateCode code typ value)
  | CancelByUser oid uid => drop (CancelOrder registry oid uid)
  | CancelByAdmin oid => drop (AdminCancelOrder registry oid)
  | ExpireOrders => drop (ExpireTimedOutOrders registry)
  | VerifyOrder no uid => drop (VerifyOrderByOutTradeNo registry no uid)
  | ReconcileOrders => drop (ReconcilePendingPaymentOrders registry)
  | AskRefund oid uid why => drop (RequestRefund registry oid uid why)
  | DoRefund oid amt why force deduct => drop (ProcessRefund registry oid amt why force deduct)
  | SettleRefund oid => drop (QueryAndFinalizeRefund registry oid)
  end.

Definition payment_pool : Type := pool (op := stmt) (S := DB) (R := unit).
Definition payment_move : Type := move (op := stmt) (W := world) (E := outside) (R := unit).

Definition is_handler (p : prog stmt unit) : Prop := ∃ r, p = handle r.

(** [p] is reached from [s0] by the moves [ms], which start handlers only. *)
Definition runs (s0 : DB) (ms : list payment_move) (p : payment_pool) : Prop :=
  Forall (admissible is_handler) ms ∧ play exec happen ms (mkPool s0 ∅) = Some p.

Definition opening_balance (s0 : DB) (uid : Z) : Z :=
  match db_users s0 !! uid with Some u => u_Balance u | None => 0 end.

Lemma drop_tame opening {A} (p : prog stmt A) : tame exec (Inv opening) Rely false p → tame exec (Inv opening) Rely false (drop p).
Proof. intros Hp. apply tame_bind; [done|]. intros ?. apply tame_ret. Qed.

Lemma handle_tame opening r : tame exec (Inv opening) Rely false (handle r).
Proof.
  destruct r; apply drop_tame.
  - apply HandlePaymentNotification_tame.
  - apply RetryFulfillment_tame.
  - apply redeem_tame.
  - apply redeem_tame.
  - apply CreateCode_tame.
  - apply CancelOrder_tame.
  - apply AdminCancelOrder_tame.
  - apply ExpireTimedOutOrders_tame.
  - apply VerifyOrder_tame.
  - apply Reconcile_tame.
  - apply RequestRefund_tame.
  - apply ProcessRefund_tame.
  - apply QueryAndFinalizeRefund_tame.
Qed.

Lemma fresh_Inv s0 : fresh s0 → Inv (opening_balance s0) s0.
Proof.
  intros [Hl Ho Hc]. split; rewrite ?Hl; try done.
  - intros c r Hr. destruct (Hc _ _ Hr) as [? Hu]. split; [done|]. by rewrite bool_decide_false by tauto.
  - intros oid o Hr. by destruct (Ho _ _ Hr) as (? & ? & ?).
  - intros oid o Hr Hs. destruct (Ho _ _ Hr) as (? & ? & ?). congruence.
  - intros oid. by split; [unfold extensions; simpl; lia|].
  - intros oid. by split; [unfold rebates; simpl; lia|].
  - intros uid u Hu. unfold opening_balance. rewrite Hu. simpl. lia.
Qed.

Lemma happen_ok opening e s : Inv opening s → Inv opening (happen e s) ∧ ∀ j, Rely j s (happen e s).
Proof.
  intros Hi. assert (Inv opening s ∧ ∀ j, Rely j s s) as Hsame by (by split; [|intros]).
  destruct e as [d|uid units|o|m]; simpl.
  - destruct Hi. split; [by split|]. intros j. split; simpl; [naive_solver| |done|done].
    intros c r Hr. by exists r.
  - destruct (db_users s !! uid) as [u|] eqn:Hu; [|done].
    destruct (move_balance_step opening true 0%nat s uid u
      (mkUser (u_Balance u - units) (u_TotalRecharged u) (u_Concurrency u)) (- units) Usage Hi Hu) as [Hi' Hr].
    { simpl. lia. }
    { done. }
    split; [exact Hi'|]. intros j. apply Hr. by left.
  - unfold creatable. destruct (bool_decide (_ = None)) eqn:Hn; [|done].
    destruct (bool_decide (_ = OrderStatusPending)) eqn:Hp; [|done]. simpl.
    destruct (String.eqb_spec (TrimSpace (po_RechargeCode (po_base o))) (po_RechargeCode (po_base o))); [|done].
    apply bool_decide_eq_true in Hn, Hp. destruct Hi as [I1 I2 I3 I4 I5 I6 I7 I8 I9]. split.
    + split; simpl; try done.
      * intros oid x. rewrite lookup_insert. case_decide; [intros [= <-]; by subst|apply I3].
      * intros oid x. rewrite lookup_insert. case_decide; [intros [= <-]; by rewrite Hp|apply I4].
    + assert (∀ oid x, db_orders s !! oid = Some x →
                <[po_ID (po_base o) := o]> (db_orders s) !! oid = Some x) as Hkeep.
      { intros oid x Hx. rewrite lookup_insert_ne; [done|]. intros <-. congruence. }
      intros j. split; simpl; [naive_solver| |done|].
      * intros c r Hr. by exists r.
      * intros oid (x & Hx & Hs & Hw). exists x. split_and!; [by apply Hkeep|done|done].
  - destruct Hi. split; [by split|]. intros j. split; simpl; [naive_solver| |done|done].
    intros c r Hr. by exists r.
Qed.

Lemma runs_Inv s0 ms p : fresh s0 → runs s0 ms p → Inv (opening_balance s0) (pl_store p).
Proof.
  intros Hf [Hms Hp].
  refine (ok_inv exec (Inv (opening_balance s0)) Rely _ (play_safe exec happen _ Rely is_handler _ _ ms _ _ Hms _ Hp)).
  - intros i q s [r ->] Hs. by apply (handle_tame (opening_balance s0) r i s Hs).
  - apply happen_ok.
  - split; [by apply fresh_Inv|]. intros i q. simpl. by rewrite lookup_empty.
Qed.

(** ** The ledger *)

(** The movements of a kind. *)
Definition total (part : event → Z) (log : list event) : Z := foldr (λ e n, part e + n) 0 log.

Definition for_refund (uid : Z) (e : event) : Z :=
  match e with
  | Moved u d (TakenForRefund _ | ReturnedForRefund _) => if u =? uid then d else 0
  | _ => 0
  end.

Definition for_usage (uid : Z) (e : event) : Z :=
  match e with Moved u d Usage => if u =? uid then d else 0 | _ => 0 end.

Definition for_code (uid : Z) (e : event) : Z :=
  match e with Moved u d (ByCode _) => if u =? uid then d else 0 | _ => 0 end.

(** A balance code redeemed by the user. *)
Definition redeemed_by (uid : Z) (r : RedeemCode) : Prop := used_by uid r ∧ rc_Type r = RedeemTypeBalance.

#[export] Instance redeemed_by_dec uid r : Decision (redeemed_by uid r).
Proof. unfold redeemed_by, used_by. apply _. Defined.

Definition sum_codes (f : string → RedeemCode → Z) (codes : gmap string RedeemCode) : Z :=
  foldr (λ '(c, r) n, f c r + n) 0 (map_to_list codes).

Definition credited_by (log : list event) (code : string) : Z :=
  match credits code log with (_, d) :: _ => d | [] => 0 end.

Lemma moved_by_reason uid log :
  moved uid log = total (for_code uid) log + total (for_refund uid) log + total (for_usage uid) log.
Proof.
  induction log as [|e log IH]; [done|]. destruct e as [u d [] | | | | |]; simpl; rewrite ?IH; try lia;
    case_match; lia.
Qed.

(** What the credits of a list are worth to the user. *)
Definition worth (uid : Z) (l : list (Z * Z)) : Z := foldr (λ '(u, d) n, (if u =? uid then d else 0) + n) 0 l.

Lemma sum_at (f g : string → Z) x k ks :
  NoDup ks → k ∈ ks → (∀ c, f c = (if String.eqb k c then x else 0) + g c) →
  foldr (λ c n, f c + n) 0 ks = x + foldr (λ c n, g c + n) 0 ks.
Proof.
  intros Hnd Hk Hf. induction Hnd as [|c ks Hc Hnd IH]; [by apply not_elem_of_nil in Hk|]. simpl. rewrite Hf.
  destruct (String.eqb_spec k c) as [->|Hne].
  - assert (foldr (λ c n, f c + n) 0 ks = foldr (λ c n, g c + n) 0 ks) as ->; [|lia].
    clear IH Hnd Hk. induction ks as [|c' ks IH]; [done|]. apply not_elem_of_cons in Hc as [Hc ?]. simpl.
    rewrite Hf, IH by done. by rewrite (proj2 (String.eqb_neq c c')).
  - apply elem_of_cons in Hk as [?|Hk]; [done|]. rewrite IH by done. lia.
Qed.

Lemma for_code_by_codes uid log ks :
  NoDup ks → (∀ c, credits c log ≠ [] → c ∈ ks) →
  total (for_code uid) log = foldr (λ c n, worth uid (credits c log) + n) 0 ks.
Proof.
  intros Hnd. induction log as [|e log IH]; intros Hks.
  { simpl. clear. by induction ks. }
  assert (∀ c, credits c log ≠ [] → c ∈ ks) as Hks'.
  { intros c Hc. apply Hks. rewrite credits_cons. by destruct (credit_of c e). }
  cbn [total foldr]. fold (total (for_code uid) log). rewrite (IH Hks').
  destruct e as [u d [code| | |] | | | | |]; try done. cbn [for_code].
  symmetry. apply (sum_at _ _ _ code); [done| |].
  - apply Hks. rewrite credits_cons. cbn [credit_of]. by rewrite String.eqb_refl.
  - intros c. rewrite credits_cons. cbn [credit_of]. by destruct (String.eqb code c).
Qed.

Lemma codes_accounted opening uid s :
  Inv opening s →
  total (for_code uid) (db_log s) =
  sum_codes (λ c r, if decide (redeemed_by uid r) then credited_by (db_log s) c else 0) (db_codes s).
Proof.
  intros Hi. rewrite (for_code_by_codes uid _ ((map_to_list (db_codes s)).*1)).
  - unfold sum_codes.
    assert (∀ cr, cr ∈ map_to_list (db_codes s) → db_codes s !! cr.1 = Some cr.2) as Hl.
    { intros [c r] Hcr. by apply elem_of_map_to_list. }
    induction (map_to_list (db_codes s)) as [|[c r] l IH]; [done|]. rewrite fmap_cons. cbn [foldr fst].
    rewrite IH by (intros; apply Hl; by right). f_equal.
    destruct (inv_codes _ _ Hi c r (Hl (c, r) (list_elem_of_here _ _))) as [_ Hok].
    unfold credited_by. case_bool_decide as Hu.
    + destruct Hok as (v & d & Hv & -> & _). simpl. case_decide as Hd; case_match; try lia; exfalso.
      * destruct Hd as [[_ Hd] _]. assert (v = uid) by congruence. lia.
      * apply Hd. split; [|by apply Hu]. split; [apply Hu|]. rewrite Hv. f_equal. lia.
    + rewrite Hok. by case_decide.
  - apply NoDup_fst_map_to_list.
  - intros c Hc. destruct (db_codes s !! c) as [r|] eqn:Hr; [|by destruct Hc; apply (inv_absent _ _ Hi)].
    apply list_elem_of_fmap. exists (c, r). split; [done|]. by apply elem_of_map_to_list.
Qed.

Lemma redeemed_credit opening uid s c r :
  Inv opening s → db_codes s !! c = Some r → redeemed_by uid r → (as_float (rc_Value r) <. fzero) = false →
  credited_by (db_log s) c = column (as_float (rc_Value r)).
Proof.
  intros Hi Hc [[Hu Hb] Ht] Hv. destruct (inv_codes _ _ Hi _ _ Hc) as [_ Hok].
  rewrite bool_decide_true in Hok by done. destruct Hok as (v & d & _ & Hcr & Hd).
  unfold credited_by. rewrite Hcr. auto.
Qed.

Lemma capped_split opening l1 u d oid l2 :
  capped opening (l1 ++ Moved u d (TakenForRefund oid) :: l2) →
  Z.min (opening u + moved u l2) 0 ≤ opening u + moved u l2 + d.
Proof.
  induction l1 as [|e l1 IH]; simpl; [tauto|]. intros Hc. apply IH. destruct e as [v x [] | | | | |]; try done. tauto.
Qed.

(** ** Theorems *)

(** C2. Whatever the interleaving of the handlers of [request] (every modelled handler
    but the administrator's deletion of codes, see [deletion_race_credits_twice]), their
    failures and crashes: an order that is completed, or has gone on to a refund, is an
    order for balance whose redeem code is used by its user, is worth the amount of the
    order and was credited to that user exactly once and to nobody else; or it is a
    subscription order whose audit trail records its assignment. *)
Theorem completed_order_credited s0 ms p oid o :
  fresh s0 → runs s0 ms p →
  db_orders (pl_store p) !! oid = Some o → settled (po_Status o) = true →
  let b := po_base o in
  (po_OrderType b = OrderTypeBalance ∧
   ∃ r d, db_codes (pl_store p) !! po_RechargeCode b = Some r ∧ used_by (po_UserID b) r ∧ covers r b
     ∧ credits (po_RechargeCode b) (db_log (pl_store p)) = [(po_UserID b, d)]
     ∧ (flt (as_float (rc_Value r)) fzero = false → d = column (as_float (rc_Value r)))) ∨
  (po_OrderType b = OrderTypeSubscription ∧ assigned oid (db_audit (pl_store p))).
Proof.
  intros Hf Hr Ho Hs b. pose proof (runs_Inv s0 ms p Hf Hr) as Hi.
  pose proof (inv_funded _ _ Hi _ _ Ho Hs) as Hfu. unfold funded in Hfu. fold b in Hfu.
  destruct (String.eqb_spec (po_OrderType b) OrderTypeBalance) as [Hty|_].
  - left. split; [done|]. destruct Hfu as (r & Hc & [Hu Hb] & Ht & Hcov).
    destruct (inv_codes _ _ Hi _ _ Hc) as [_ Hcr].
    rewrite bool_decide_true in Hcr by done. destruct Hcr as (u & d & Hub & Hcr & Hd). simplify_eq.
    by exists r, d.
  - destruct (String.eqb_spec (po_OrderType b) OrderTypeSubscription) as [Hty|_]; [|done]. right.
    split; [done|]. by destruct (inv_orders _ _ Hi _ _ Ho) as [<- _].
Qed.

(** C6. Under every interleaving of the handlers of [request] (every modelled handler
    but the administrator's deletion of codes, which can break it, see
    [deletion_race_credits_twice]) no redeem code is credited twice, whoever redeems it
    and however often: the history has no credit of the code, or exactly one, to the
    user the code is marked used by. *)
Theorem code_credited_once s0 ms p code :
  fresh s0 → runs s0 ms p →
  credits code (db_log (pl_store p)) = [] ∨
  ∃ r u d, db_codes (pl_store p) !! code = Some r ∧ used_by u r
    ∧ credits code (db_log (pl_store p)) = [(u, d)].
Proof.
  intros Hf Hr. pose proof (runs_Inv s0 ms p Hf Hr) as Hi.
  destruct (db_codes (pl_store p) !! code) as [r|] eqn:Hc; [|left; by eapply inv_absent].
  destruct (inv_codes _ _ Hi _ _ Hc) as [_ Hcr]. case_bool_decide as Hu; [right|by left].
  destruct Hcr as (u & d & Hub & Hcr & _). exists r, u, d. split_and!; [done| |done]. by split; [apply Hu|].
Qed.

(** C14. An order extends a subscription at most once and pays its inviter's rebate at
    most once; a subscription order is completed only after the entry that records
    its extension. *)
Theorem order_extended_once s0 ms p oid :
  fresh s0 → runs s0 ms p →
  let s := pl_store p in
  (extensions oid (db_log s) ≤ 1)%nat ∧ (rebates oid (db_log s) ≤ 1)%nat ∧
  ∀ o, db_orders s !! oid = Some o → settled (po_Status o) = true →
    po_OrderType (po_base o) = OrderTypeSubscription → assigned oid (db_audit s).
Proof.
  intros Hf Hr s. pose proof (runs_Inv s0 ms p Hf Hr) as Hi.
  split; [apply Hi|]. split; [apply Hi|]. intros o Ho Hs Hty.
  pose proof (inv_funded _ _ Hi _ _ Ho Hs) as Hfu. unfold funded in Hfu. rewrite Hty in Hfu.
  by destruct (inv_orders _ _ Hi _ _ Ho) as [<- _].
Qed.

Lemma exclusive_split l1 e l2 :
  exclusive (l1 ++ e :: l2) →
  match e with
  | Sent oid i st _ | Overwritten oid i st => st = OrderStatusRefunding ∧ owner oid l2 = Some i
  | _ => True
  end.
Proof.
  induction l1 as [|x l1 IH]; simpl; [destruct e; tauto|]. intros Hx. apply IH. by destruct x; try apply Hx.
Qed.

(** C13. Refunds of an order exclude one another: each request sent to a provider, and
    each unconditional write of an order, is made while the order is REFUNDING, by the
    thread that moved it there; and a thread may move it there only when it is not
    REFUNDING. *)
Theorem refunds_exclusive s0 ms p e l1 l2 :
  fresh s0 → runs s0 ms p → db_log (pl_store p) = l1 ++ e :: l2 →
  match e with
  | Sent oid i st _ | Overwritten oid i st => st = OrderStatusRefunding ∧ owner oid l2 = Some i
  | _ => True
  end.
Proof.
  intros Hf Hr Hl. pose proof (inv_exclusive _ _ (runs_Inv s0 ms p Hf Hr)) as He. rewrite Hl in He.
  by eapply exclusive_split.
Qed.

(** C18. Under every interleaving of the handlers of [request], failures and crashes,
    the balance of a user is the opening balance, plus one credit for each balance code
    in the table that is marked used by that user (the whole value of the code when it
    is not negative), plus what refunds took and gave back and what usage charged; and
    no refund ever takes more than the balance it finds, so it never pushes a balance
    below zero. *)
Theorem balances_accounted s0 ms p uid u :
  fresh s0 → runs s0 ms p → db_users (pl_store p) !! uid = Some u →
  let s := pl_store p in
  let opening := opening_balance s0 in
  (∃ credit : string → Z,
     (∀ c r, db_codes s !! c = Some r → redeemed_by uid r → flt (as_float (rc_Value r)) fzero = false →
        credit c = column (as_float (rc_Value r))) ∧
     u_Balance u = opening uid
       + sum_codes (λ c r, if decide (redeemed_by uid r) then credit c else 0) (db_codes s)
       + total (for_refund uid) (db_log s) + total (for_usage uid) (db_log s)) ∧
  ∀ later payer d oid earlier, db_log s = later ++ Moved payer d (TakenForRefund oid) :: earlier →
    let found := opening payer + moved payer earlier in Z.min found 0 ≤ found + d.
Proof.
  intros Hf Hr Hu s opening. pose proof (runs_Inv s0 ms p Hf Hr) as Hi. split.
  - exists (credited_by (db_log s)). split; [intros c r Hc Hred Hv; by eapply redeemed_credit|].
    rewrite (inv_ledger _ _ Hi _ _ Hu), moved_by_reason. fold s. rewrite (codes_accounted _ uid s Hi).
    fold opening. lia.
  - intros l1 v d oid l2 Hl. pose proof (inv_capped _ _ Hi) as Hc. fold s in Hc. rewrite Hl in Hc.
    by eapply capped_split.
Qed.
End Safety.

(** ** Runs *)

#[local] Existing Instances ascii_case demo_numeric demo_decimal.
#[local] Instance demo_location : Location := fixed_zone 0.

Definition calls (i n : nat) (w : world) : list payment_move := replicate n (Call i w).

Definition alternate (n : nat) : list payment_move :=
  concat (replicate n [Call 0%nat calm; Call 1%nat calm]).

Definition demo_pool (ms : list payment_move) : payment_pool :=
  default (mkPool demo_db ∅) (play exec happen ms (mkPool demo_db ∅)).

Definition refusing : world := mkWorld NoFault None false (Some demo_provider) None (None, true).

(** A notification is delivered twice at the same time, another user tries the code,
    and usage is charged meanwhile. *)
Definition double_notification : list payment_move :=
  [Spawn 0%nat (handle ∅ (Notify (demo_notification 7) "alipay"));
   Spawn 1%nat (handle ∅ (Notify (demo_notification 7) "alipay"));
   Spawn 2%nat (handle ∅ (RedeemByUser 2 "PAY-7-1"))]
  ++ alternate 11 ++ [Env (Charge 1 300); Env (Tick 1000%N)] ++ calls 0 14 calm
  ++ calls 2 1 refusing ++ calls 2 5 calm.

(** A subscription order is notified, its handler crashes after the extension, and the
    administrator retries six minutes later. *)
Definition crashed_subscription : list payment_move :=
  [Spawn 0%nat (handle ∅ (Notify (demo_notification 8) "alipay"))] ++ calls 0 14 calm ++ [Crash 0%nat;
   Env (Tick 360000000000%N); Spawn 1%nat (handle ∅ (Retry 8))] ++ calls 1 12 calm.

(** Two administrators refund a completed order at once. *)
Definition double_refund : list payment_move :=
  [Spawn 0%nat (handle ∅ (Notify (demo_notification 7) "alipay"))] ++ calls 0 25 calm
  ++ [Spawn 1%nat (handle ∅ (DoRefund 7 fzero "a" false true));
      Spawn 2%nat (handle ∅ (DoRefund 7 fzero "b" false true))]
  ++ concat (replicate 5 [Call 1%nat (answering "success"); Call 2%nat (answering "success")])
  ++ calls 1 8 (answering "success").

Ltac by_moves := repeat (apply Forall_cons_2; [first [exact I | eexists; reflexivity]|]); apply Forall_nil_2.

Lemma demo_db_fresh : fresh demo_db.
Proof.
  split; [done| |]; intros k x; simpl; [|by rewrite lookup_empty].
  rewrite !lookup_insert. case_decide; [intros [= <-]; by subst|].
  rewrite lookup_singleton. case_decide; [intros [= <-]; by subst|done].
Qed.

Lemma double_notification_runs : runs ∅ demo_db double_notification (demo_pool double_notification).
Proof. split; [by_moves|vm_compute; reflexivity]. Qed.

Lemma crashed_subscription_runs : runs ∅ demo_db crashed_subscription (demo_pool crashed_subscription).
Proof. split; [by_moves|vm_compute; reflexivity]. Qed.

Lemma double_refund_runs : runs ∅ demo_db double_refund (demo_pool double_refund).
Proof. split; [by_moves|vm_compute; reflexivity]. Qed.

Lemma completed_order_credited_witness :
  let s := pl_store (demo_pool double_notification) in
  status_of 7 s = OrderStatusCompleted ∧ ∃ d, credits "PAY-7-1" (db_log s) = [(1, d)].
Proof.
  split; [vm_compute; reflexivity|].
  destruct (db_orders (pl_store (demo_pool double_notification)) !! 7) as [o|] eqn:Ho; [|by vm_compute in Ho].
  destruct (completed_order_credited ∅ demo_db double_notification _ 7 o demo_db_fresh double_notification_runs Ho)
    as [(_ & r & d & _ & _ & _ & Hc & _)|[Hty _]].
  - revert Ho. vm_compute. by intros [= <-].
  - exists d. revert Ho Hc. vm_compute. by intros [= <-].
  - exfalso. revert Ho Hty. vm_compute. by intros [= <-].
Defined.

Lemma code_credited_once_witness :
  let s := pl_store (demo_pool double_notification) in
  credits "PAY-7-1" (db_log s) = [(1, 1000000000)] ∧
  (credits "PAY-7-1" (db_log s) = [] ∨
   ∃ r u d, db_codes s !! "PAY-7-1"%string = Some r ∧ used_by u r ∧ credits "PAY-7-1" (db_log s) = [(u, d)]).
Proof.
  split; [vm_compute; reflexivity|].
  exact (code_credited_once ∅ demo_db double_notification _ "PAY-7-1" demo_db_fresh double_notification_runs).
Defined.

Lemma order_extended_once_witness :
  let s := pl_store (demo_pool crashed_subscription) in
  status_of 8 s = OrderStatusCompleted ∧ extensions 8 (db_log s) = 1%nat ∧ (rebates 8 (db_log s) ≤ 1)%nat.
Proof.
  split; [vm_compute; reflexivity|]. split; [vm_compute; reflexivity|].
  exact (proj1 (proj2 (order_extended_once ∅ demo_db crashed_subscription _ 8 demo_db_fresh
                         crashed_subscription_runs))).
Defined.

Lemma refunds_exclusive_witness :
  let s := pl_store (demo_pool double_refund) in
  ∃ l1 st req l2, db_log s = l1 ++ Sent 7 1%nat st req :: l2 ∧ st = OrderStatusRefunding ∧ owner 7 l2 = Some 1%nat.
Proof.
  assert (∃ l1 st req l2, db_log (pl_store (demo_pool double_refund)) = l1 ++ Sent 7 1%nat st req :: l2)
    as (l1 & st & req & l2 & Hl).
  { vm_compute. eexists [_], _, _, _. reflexivity. }
  exists l1, st, req, l2. split; [exact Hl|].
  exact (refunds_exclusive ∅ demo_db double_refund _ (Sent 7 1%nat st req) l1 l2 demo_db_fresh double_refund_runs Hl).
Defined.

(** The code of the order after [double_refund]. *)
Definition demo_used_code : RedeemCode :=
  default (mkCode 0 "" "" 0 "" None None None None 0)
    (db_codes (pl_store (demo_pool double_refund)) !! "PAY-7-1"%string).

Lemma balances_accounted_witness :
  let s := pl_store (demo_pool double_refund) in
  ∃ u credit, db_users s !! 1 = Some u ∧ credit "PAY-7-1"%string = 1000000000 ∧
    u_Balance u = 50000000 + credit "PAY-7-1"%string + - 1000000000.
Proof.
  destruct (db_users (pl_store (demo_pool double_refund)) !! 1) as [u|] eqn:Hu; [|by vm_compute in Hu].
  destruct (balances_accounted ∅ demo_db double_refund _ 1 u demo_db_fresh double_refund_runs Hu)
    as [(credit & Hcredit & Hbal) _].
  exists u, credit. split; [exact Hu|]. split.
  - destruct (db_codes (pl_store (demo_pool double_refund)) !! "PAY-7-1"%string) as [r|] eqn:Hr; [|by vm_compute in Hr].
    pose proof Hr as Hv. vm_compute in Hv. injection Hv as Hv. subst r.
    rewrite (Hcredit _ _ Hr); [vm_compute; reflexivity|by repeat split|vm_compute; reflexivity].
  - assert (∀ f, sum_codes f (db_codes (pl_store (demo_pool double_refund)))
              = foldr (λ '(c, r) n, f c r + n) 0 (map_to_list (db_codes (pl_store (demo_pool double_refund)))))
      as Hsum by done.
    rewrite Hsum in Hbal. revert Hbal.
    replace (map_to_list _) with [("PAY-7-1"%string, demo_used_code)] by (vm_compute; reflexivity).
    cbn [foldr]. rewrite decide_True by (by repeat split).
    replace (opening_balance demo_db 1) with 50000000 by (vm_compute; reflexivity).
    replace (total (for_refund 1) _) with (- 1000000000) by (vm_compute; reflexivity).
    replace (total (for_usage 1) _) with 0 by (vm_compute; reflexivity). lia.
Defined.

(** ** The deletion of a code *)

(** Thread 0 creates the code and redeems it while an administrator, who read it
    unused, deletes it; the order is retried later. *)
Definition deletion_race : list payment_move :=
  [Spawn 0%nat (handle ∅ (Notify (demo_notification 7) "alipay"))] ++ calls 0 13 calm
  ++ [Spawn 1%nat (drop (Delete 1))] ++ calls 1 1 calm ++ calls 0 5 calm ++ [Crash 0%nat]
  ++ calls 1 1 calm ++ [Env (Tick 360000000000%N); Spawn 2%nat (handle ∅ (Retry 7))] ++ calls 2 21 calm.

(** The deletion of a redeem code checks that the code is unused and deletes it in
    two statements.  When the code is redeemed in between, the deletion removes a used
    code, the order finds no code when it is retried, and the user is credited twice. *)
Theorem deletion_race_credits_twice :
  ∃ p : payment_pool, play exec happen deletion_race (mkPool demo_db ∅) = Some p
    ∧ credits "PAY-7-1" (db_log (pl_store p)) = [(1, 1000000000); (1, 1000000000)]
    ∧ status_of 7 (pl_store p) = OrderStatusCompleted.
Proof. exists (demo_pool deletion_race). vm_compute. by split_and!. Qed.
