(* ===== verification/PaymentRefundCorrect.v ===== *)
(** * Payment orders: what one handler does

    Runs of one handler with nothing else running ([solo]): what a notification does
    to an order, and what a refund does to the order and the balance when the provider
    agrees and when it refuses.  Then the bounds of a refund plan, and concrete runs
    that show where the refund flow does not do what it means to. *)

From Stdlib Require Import ZArith Lia Ascii String SpecFloat.
From stdpp Require Import base tactics numbers list gmap strings.
From S2P Require Import Prelude GoStrings GoFloat GoTime Subscription Programs.
From S2P Require Import PaymentData PaymentProvider PaymentRejection PaymentStore PaymentFulfillment PaymentLifecycle PaymentRefund.
From S2P Require Import PaymentExamples PaymentInvariant PaymentLogic PaymentStatements PaymentSafety.

Open Scope go_scope.

Section Solo.
Context `{UnicodeCase} `{Location} `{Numeric} `{DecimalLib}.
Variable registry : gmap string string.
Variable i : nat.
Variable w : world.
Abbreviation solo := (solo exec i w).

Lemma solo_bind {A B} (p : prog stmt A) (f : A → prog stmt B) s :
  solo (p ≫= f) s = let '(a, s') := solo p s in solo (f a) s'.
Proof.
  revert s. induction p as [a|X o k IH]; intros s; [done|]. cbn.
  destruct (exec i X o w s) as [x s']. apply IH.
Qed.

Lemma solo_try {A B} (p : handler A) (f : A → handler B) s :
  solo (try p f) s =
  match solo p s with
  | (inl e, s') => (inl e, s')
  | (inr a, s') => solo (f a) s'
  end.
Proof. unfold try. rewrite solo_bind. by destruct (solo p s) as [[e|a] s']. Qed.

Lemma solo_call {X} (o : stmt X) s : solo (call o) s = exec i X o w s.
Proof. unfold call. cbn. by destruct (exec i X o w s). Qed.

(** A statement over a connection that works. *)
Lemma solo_sql {A} (t : tx A) s :
  w_fault w = NoFault →
  solo (sql t) s = match t i w s with inl e => (inl e, s) | inr (a, s') => (inr a, s') end.
Proof.
  intros Hw. unfold sql. rewrite solo_call. cbn. unfold run_sql. rewrite Hw.
  by destruct (t i w s) as [|[]].
Qed.

(** Writing an audit entry changes the audit trail at most, and never fails. *)
Lemma solo_audit oid action d s : ∃ a, solo (writeAuditLog oid action d) s = (inr tt, set_audit a s).
Proof.
  unfold writeAuditLog, sql. rewrite solo_bind, solo_call. cbn. unfold run_sql, create_audit.
  assert (set_audit (db_audit s) s = s) as Hid by by destruct s.
  destruct (w_fault w); [|by eexists; rewrite Hid|]; destruct (db_audit s !! (oid, action)); cbn;
    first [by eexists | exists (db_audit s); by rewrite Hid].
Qed.

Lemma solo_has_audit oid action s :
  ∃ b, solo (hasAuditLog oid action) s = (b, s) ∧
    (w_fault w = NoFault → b = bool_decide (is_Some (db_audit s !! (oid, action)))).
Proof.
  unfold hasAuditLog, sql. rewrite solo_bind, solo_call. cbn. unfold run_sql, has_audit, read.
  destruct (w_fault w); cbn; rewrite ?orb_false_r; by eexists.
Qed.

(** ** Notifications that are not accepted *)

(** C24. An improper notification ([improper]: for an order of redeem codes, from another
    provider than the order's, about another merchant or a payment that did not succeed,
    of an invalid amount or of another amount than the order's beyond the tolerance) is
    refused and has no effect: whatever else the environment does, only the audit trail
    may change. *)
Theorem rejected_notification_no_effect oid tradeNo paid pk metadata s o :
  w_fault w = NoFault →
  db_orders s !! oid = Some o →
  improper (mkProviders (db_instances s) registry) o paid pk metadata →
  ∃ reason a, solo (confirmPayment registry oid tradeNo paid pk metadata) s = (inl reason, set_audit a s).
Proof.
  intros Hw Ho [reason Hr]%confirm_rejection_spec. exists reason. unfold confirmPayment. rewrite solo_bind, solo_sql by done.
  unfold get_order, get. rewrite Ho. rewrite solo_bind, solo_sql by done. cbn [read]. rewrite Hr.
  destruct (String.eqb reason _).
  - exists (db_audit s). cbn. by destruct s.
  - rewrite solo_try. destruct (solo_audit oid reason pk s) as [a ->]. by exists a.
Qed.
End Solo.

(** ** A refund of a balance order, alone *)

Section RefundRun.
Context `{UnicodeCase} `{Location} `{Numeric} `{DecimalLib}.
Variable registry : gmap string string.
Variables (i : nat) (rebate : option float64) (yes : bool) (query : option QueryOrderResponse).
Variables (s : DB) (p : RefundPlan) (o : PaymentOrder) (u : user_row).
Variables (inst : PaymentProviderInstance) (prov : Provider).

(** The plan takes a balance back for an order that may be refunded; the provider of
    the order is known and is the one of its snapshot. *)
Record refund_ready : Prop := {
  rf_lookup : db_orders s !! rp_OrderID p = Some o;
  rf_refundable : refundable o = true;
  rf_source : String.eqb (po_OrderSource (po_base o)) OrderSourceRedeem = false;
  rf_order : rp_Order p = o;
  rf_takes : takes_balance p = true;
  rf_user : db_users s !! po_UserID (po_base o) = Some u;
  rf_flag : db_audit s !! (rp_OrderID p, rollback_failed) = None;
  rf_trade : String.eqb (pay_TradeNo (po_payment o)) "" = false;
  rf_instance : getRefundOrderProviderInstance (mkProviders (db_instances s) registry) (po_base o) = inr (Some inst);
  rf_identity : validateProviderSnapshotMetadata (po_base o) (pr_Key prov) (pr_MerchantIdentity prov) = None
}.

Context (Hready : refund_ready).

Abbreviation w answer := (mkWorld NoFault rebate yes (Some prov) query answer).
Abbreviation uid := (po_UserID (po_base o)).
Abbreviation oid := (rp_OrderID p).

(** What the deduction takes. *)
Definition taken : Z := Z.min (column (rp_BalanceToDeduct p)) (Z.max (u_Balance u) 0).

Definition locked_db : DB :=
  note (Locked oid i)
    (set_orders (<[oid := set_status OrderStatusRefunding (touched (db_now s) o)]> (db_orders s)) s).

Definition charged_db : DB :=
  note (Moved uid (- taken) (TakenForRefund oid))
    (put_user uid (mkUser (u_Balance u - taken) (u_TotalRecharged u) (u_Concurrency u)) locked_db).

Definition sent_request : RefundRequest :=
  mkRefundRequest (pay_TradeNo (po_payment o)) (po_OutTradeNo (po_base o)) (rp_GatewayAmount p) (rp_Reason p).

Definition sent_db : DB := note (Sent oid i OrderStatusRefunding sent_request) charged_db.

Definition charged_plan : RefundPlan := with_balance (as_float taken) p.

Lemma takes_balance_type : rp_DeductionType p = DeductionTypeBalance ∧ (fzero <. rp_BalanceToDeduct p) = true.
Proof.
  destruct Hready as [_ _ _ _ Ht _ _ _ _ _]. unfold takes_balance in Ht.
  apply andb_prop in Ht as [Ht Hp]. by apply bool_decide_eq_true in Ht.
Qed.

Lemma no_days b : takes_days (with_balance b p) = false.
Proof. unfold takes_days. simpl. by rewrite (proj1 takes_balance_type). Qed.

Lemma claim_run answer :
  claim_refund oid refundable i (w answer) s = inr (1, locked_db).
Proof.
  unfold claim_refund, update_order, mbind, tx_bind. rewrite (rf_lookup Hready), (rf_refundable Hready). done.
Qed.

Lemma deduct_run answer :
  DeductAvailableBalance uid (rp_BalanceToDeduct p) (TakenForRefund oid) i (w answer) locked_db
  = inr (as_float taken, charged_db).
Proof.
  unfold DeductAvailableBalance. rewrite (flt_asym _ _ (proj2 takes_balance_type)).
  unfold get_user, get, mbind, tx_bind. change (db_users locked_db) with (db_users s).
  by rewrite (rf_user Hready).
Qed.

Lemma has_no_flag answer db :
  db_audit db = db_audit s → solo exec i (w answer) (hasAuditLog oid rollback_failed) db = (false, db).
Proof.
  intros Ha. destruct (solo_has_audit i (w answer) oid rollback_failed db) as (b & -> & Hb).
  rewrite Hb by done. by rewrite Ha, (rf_flag Hready).
Qed.

Lemma deduct_balance_run answer :
  solo exec i (w answer) (deduct_balance p) locked_db = (inr charged_plan, charged_db).
Proof.
  unfold deduct_balance. rewrite (rf_takes Hready), solo_bind, has_no_flag by done.
  rewrite solo_try. unfold or_restore. rewrite solo_bind, solo_sql by done.
  unfold user_of. rewrite (rf_order Hready), deduct_run. done.
Qed.

Lemma gwRefund_run answer :
  solo exec i (w answer) (gwRefund registry charged_plan) charged_db =
  (match answer with
   | (Some resp, true) =>
       if String.eqb (TrimSpace (rr_Status resp)) ProviderStatusPending then inr resp else inl "refund"%string
   | (None, true) => inl "refund"%string
   | (resp, false) =>
       match validateRefundProviderResponse resp, resp with
       | None, Some resp => inr resp
       | Some e, _ => inl e
       | None, None => inl "payment refund response missing"%string
       end
   end, sent_db).
Proof.
  unfold gwRefund. change (rp_Order charged_plan) with (rp_Order p). rewrite (rf_order Hready), (rf_trade Hready).
  rewrite solo_try. unfold getRefundProvider, refund_instance. rewrite !solo_try, solo_sql by done.
  cbn [read]. change (db_instances charged_db) with (db_instances s). rewrite (rf_instance Hready). cbn [solo ok].
  unfold open_or_fail. rewrite solo_bind, solo_call. cbn [exec w_provider solo ok].
  rewrite (rf_identity Hready), solo_bind, solo_call. cbn [exec w_refund].
  assert (status_of oid charged_db = OrderStatusRefunding) as Hst.
  { unfold status_of. simpl. by rewrite lookup_insert_eq. }
  change (rp_OrderID charged_plan) with oid. rewrite Hst.
  change (note (Sent oid i OrderStatusRefunding _) charged_db) with sent_db.
  destruct answer as [[resp|] [|]]; cbn [solo ok err]; repeat case_match; simplify_eq; done.
Qed.

(** The run up to the answer of the provider. *)
Lemma ExecuteRefund_run answer :
  solo exec i (w answer) (ExecuteRefund registry p) s =
  match (solo exec i (w answer) (gwRefund registry charged_plan) charged_db).1 with
  | inl e => solo exec i (w answer) (handleGwFail charged_plan e) sent_db
  | inr resp => solo exec i (w answer) (finishRefund charged_plan resp) sent_db
  end.
Proof.
  unfold ExecuteRefund. rewrite solo_try, solo_sql by done. unfold get_order, get. rewrite (rf_lookup Hready).
  rewrite (rf_source Hready), solo_try, solo_sql by done. rewrite claim_run. cbn [Z.eqb].
  rewrite solo_try, deduct_balance_run, solo_try. unfold deduct_days at 1. unfold charged_plan at 1.
  rewrite no_days. cbn [solo ok]. rewrite solo_bind, gwRefund_run. cbn [fst].
  by case_match.
Qed.
End RefundRun.

Section RefundOutcomes.
Context `{UnicodeCase} `{Location} `{Numeric} `{DecimalLib}.
Variable registry : gmap string string.
Variables (i : nat) (rebate : option float64) (yes : bool) (query : option QueryOrderResponse).

(** A prepared refund that the provider accepts. *)
Lemma execute_accepted s p o u inst prov resp :
  refund_ready registry s p o u inst prov →
  validateRefundProviderResponse (Some resp) = None →
  String.eqb (TrimSpace (rr_Status resp)) ProviderStatusPending = false →
  let w := mkWorld NoFault rebate yes (Some prov) query (Some resp, false) in
  let t := taken p u in
  ∃ s' o', solo exec i w (ExecuteRefund registry p) s = (inr (success (with_balance (as_float t) p)), s')
    ∧ db_users s' = <[po_UserID (po_base o) := mkUser (u_Balance u - t) (u_TotalRecharged u) (u_Concurrency u)]> (db_users s)
    ∧ db_orders s' = <[rp_OrderID p := o']> (db_orders s)
    ∧ po_Status o' = refundFinalStatus o (planCumulativeCredited p)
    ∧ rf_RefundAmount (po_refund o') = column2 (planCumulativeCredited p)
    ∧ po_payment o' = po_payment o ∧ po_base o' = po_base o
    ∧ db_log s' = Overwritten (rp_OrderID p) i OrderStatusRefunding :: db_log (sent_db i s p o u).
Proof.
  intros Hready Hv Hp w t. unfold w. rewrite (ExecuteRefund_run _ _ _ _ _ _ _ _ _ _ _ Hready).
  rewrite (gwRefund_run _ _ _ _ _ _ _ _ _ _ _ Hready). cbn [fst]. rewrite Hv.
  unfold finishRefund. rewrite Hv, Hp. unfold markRefundOk.
  rewrite solo_bind, solo_call. cbn [exec]. rewrite solo_try, solo_sql by done.
  unfold overwrite_order. change (db_orders (sent_db _ _ _ _ _)) with (db_orders (locked_db i s p o)).
  change (rp_OrderID (charged_plan p u)) with (rp_OrderID p).
  simpl (db_orders (locked_db i s p o)). rewrite lookup_insert_eq, solo_try.
  match goal with |- context [solo exec i _ (writeAuditLog _ _ _) ?s] => set (s1 := s) end.
  match goal with |- context [solo exec i ?w (writeAuditLog ?a ?b ?c) s1] =>
    destruct (solo_audit i w a b c s1) as [m ->] end.
  eexists _, _. split; [reflexivity|]. unfold s1. cbn. rewrite insert_insert_eq.
  split; [done|]. split; [reflexivity|]. unfold refunded, planCumulativeCredited, charged_plan. cbn.
  rewrite (rf_order _ _ _ _ _ _ _ Hready). by split_and!.
Qed.

(** *** The refund an administrator asks for *)

(** A balance order that may be refunded, with the rows it is about: its user, the
    provider instance it was paid with and the provider that answers for it. *)
Record refund_case (s : DB) (oid : Z) (o : PaymentOrder) (u : user_row) (inst : PaymentProviderInstance)
    (prov : Provider) : Prop := {
  rc_order : db_orders s !! oid = Some o;
  rc_id : po_ID (po_base o) = oid;
  rc_refundable : refundable o = true;
  rc_source : String.eqb (po_OrderSource (po_base o)) OrderSourceRedeem = false;
  rc_type : String.eqb (po_OrderType (po_base o)) OrderTypeSubscription = false;
  rc_user : db_users s !! po_UserID (po_base o) = Some u;
  rc_flag : db_audit s !! (oid, rollback_failed) = None;
  rc_trade : String.eqb (pay_TradeNo (po_payment o)) "" = false;
  rc_instance : getRefundOrderProviderInstance (mkProviders (db_instances s) registry) (po_base o) = inr (Some inst);
  rc_enabled : pi_RefundEnabled inst = true;
  rc_identity : validateProviderSnapshotMetadata (po_base o) (pr_Key prov) (pr_MerchantIdentity prov) = None
}.

Definition tolerance (o : PaymentOrder) : float64 :=
  paymentAmountToleranceForCurrency (PaymentOrderCurrency (po_base o)).

(** What is left to refund of an order. *)
Definition left_to_refund (o : PaymentOrder) : float64 :=
  decimalSubtract (po_Amount (po_base o)) (refundCreditedAlready o).

(** The request is for the amount [x], all that is left unless [amt] is positive; that
    much is left within the tolerance, and the user has a balance to take it from. *)
Record refund_asked (o : PaymentOrder) (u : user_row) (amt x : float64) (force : bool) : Prop := {
  ra_number : IsNaN amt || IsInf amt = false;
  ra_amount : x = if fle amt fzero then left_to_refund o else amt;
  ra_left : fle (left_to_refund o) (tolerance o) = false;
  ra_fits : flt (tolerance o) (fsub x (left_to_refund o)) = false;
  ra_balance : force = true ∨ flt (as_float (u_Balance u)) x = false;
  ra_takes : flt fzero (Max fzero (Min x (as_float (u_Balance u)))) = true
}.

(** What has been refunded of the order afterwards, in all. *)
Definition credited (o : PaymentOrder) (x : float64) : float64 :=
  let sum := decimalAdd (refundCreditedAlready o) x in
  let total := po_Amount (po_base o) in
  let capped := if flt total sum then total else sum in
  if flt x capped then capped else x.

(** The preparation gives a plan for exactly that. *)
Lemma PrepareRefund_run w s oid o u inst prov amt x reason force :
  w_fault w = NoFault → refund_case s oid o u inst prov → refund_asked o u amt x force →
  ∃ p, solo exec i w (PrepareRefund registry oid amt reason force true) s = (inr (inr p), s)
    ∧ refund_ready registry s p o u inst prov ∧ rp_OrderID p = oid
    ∧ rp_BalanceToDeduct p = Max fzero (Min x (as_float (u_Balance u)))
    ∧ planCumulativeCredited p = credited o x
    ∧ rp_GatewayAmount p = refundCashDelta o (refundCreditedAlready o)
        (let sum := decimalAdd (refundCreditedAlready o) x in
         if flt (po_Amount (po_base o)) sum then po_Amount (po_base o) else sum) (PaymentOrderCurrency (po_base o)).
Proof.
  intros Hw [Ho Hid Href Hsrc Htype Hu Hflag Htrade Hinst Hen Hident] [Hnum -> Hleft Hfits Hbal Htakes].
  unfold PrepareRefund. rewrite solo_bind, solo_sql by done. unfold get_order, get. rewrite Ho, Hsrc, Href. simpl negb. cbv iota.
  rewrite solo_bind. unfold refund_instance. rewrite solo_try, solo_sql by done. cbn [read]. rewrite Hinst. cbn [solo ok].
  rewrite Hen. simpl negb. cbv iota.
  unfold refund_plan. rewrite Hnum. cbv zeta. fold (left_to_refund o) (tolerance o). rewrite Hleft.
  set (x := if fle amt fzero then left_to_refund o else amt) in *. rewrite Hfits.
  rewrite solo_bind. unfold prepDeduct. rewrite Htype, solo_bind, solo_sql by done. unfold get_user, get. rewrite Hu.
  cbn [rp_RefundAmount].
  assert (flt (as_float (u_Balance u)) x && negb force = false) as ->
    by (destruct Hbal as [->| ->]; [apply andb_false_r|done]).
  cbn [solo ok]. eexists. split; [reflexivity|]. split; [|by split_and!].
  split; cbn; try done; [by rewrite Hid|by rewrite Hid].
Qed.

(** C23. An administrator's refund of a balance order, run alone, that the provider
    accepts.  Its amount [x] is the requested one, or all that is left; the user loses
    the part of it that the balance covers and nothing more; the order records as
    refunded in all [credited], the sum of this and the earlier refunds up to the
    order's amount (and at least [x]), and is PARTIALLY_REFUNDED exactly while that
    stays below the order's amount by more than the tolerance, REFUNDED otherwise; its
    payment and its terms stay.  One request is sent to the provider, made while the
    order is locked, for the part of the payment not sent back before.  The plan is
    made from the order as it stands and no rollback has failed before:
    [stale_plan_refunds_too_much] and [rollback_flag_skips_later_deductions] show what
    happens otherwise. *)
Theorem refund_accepted s oid o u inst prov resp amt x reason force :
  refund_case s oid o u inst prov → refund_asked o u amt x force →
  validateRefundProviderResponse (Some resp) = None →
  String.eqb (TrimSpace (rr_Status resp)) ProviderStatusPending = false →
  let w := mkWorld NoFault rebate yes (Some prov) query (Some resp, false) in
  let total := po_Amount (po_base o) in
  let t := Z.min (column (Max fzero (Min x (as_float (u_Balance u))))) (Z.max (u_Balance u) 0) in
  ∃ r s' o' request,
    solo exec i w (ProcessRefund registry oid amt reason force true) s = (inr r, s')
    ∧ rr_Success r = true ∧ rr_BalanceDeducted r = as_float t
    ∧ db_users s' = <[po_UserID (po_base o) := mkUser (u_Balance u - t) (u_TotalRecharged u) (u_Concurrency u)]> (db_users s)
    ∧ db_orders s' = <[oid := o']> (db_orders s)
    ∧ po_Status o' = (if flt (fadd (credited o x) (tolerance o)) total
                      then OrderStatusPartiallyRefunded else OrderStatusRefunded)
    ∧ rf_RefundAmount (po_refund o') = column2 (credited o x)
    ∧ po_payment o' = po_payment o ∧ po_base o' = po_base o
    ∧ db_log s' = [Overwritten oid i OrderStatusRefunding; Sent oid i OrderStatusRefunding request;
                   Moved (po_UserID (po_base o)) (- t) (TakenForRefund oid); Locked oid i] ++ db_log s
    ∧ rq_Amount request = refundCashDelta o (refundCreditedAlready o)
        (let sum := decimalAdd (refundCreditedAlready o) x in if flt total sum then total else sum)
        (PaymentOrderCurrency (po_base o)).
Proof.
  intros Hcase Hasked Hv Hpend w total t.
  destruct (PrepareRefund_run w s oid o u inst prov amt x reason force eq_refl Hcase Hasked)
    as (p & Hrun & Hready & Hid & Hded & Hcred & Hga).
  destruct (execute_accepted s p o u inst prov resp Hready Hv Hpend)
    as (s' & o' & Hexec & Husers & Horders & Hst & Hamt & Hpay & Hbase & Hlog).
  assert (taken p u = t) as Ht by (unfold taken, t; by rewrite Hded). rewrite Ht in *.
  eexists _, s', o', (sent_request p o). split.
  { unfold ProcessRefund. rewrite solo_try, Hrun. exact Hexec. }
  split; [done|]. split; [done|]. split; [exact Husers|]. split; [by rewrite Horders, Hid|].
  rewrite Hcred in Hst, Hamt. split; [exact Hst|]. split; [exact Hamt|]. split; [done|]. split; [done|].
  split; [|exact Hga]. rewrite Hlog. unfold sent_db, charged_db, locked_db. cbn. by rewrite Ht, Hid.
Qed.

(** An amount of the column that its float64 shows. *)
Definition survives (t : Z) : Prop := 0 ≤ t ∧ column (as_float t) = t ∧ (fzero <. as_float t) = (0 <? t).

(** C22. A refund of a balance order, run alone, that the provider refuses gives back
    exactly what it took: the balance is what it was, and so are the order's amounts,
    its payment and its status, save that an order whose last refund had failed goes
    from REFUND_FAILED to COMPLETED.  The amount given back is counted as recharged.
    The plan is made from the order as it stands, no rollback has failed before, and
    the amount taken survives the way through the float64. *)
Theorem refund_refused s p o u inst prov answer e :
  refund_ready registry s p o u inst prov →
  (solo exec i (mkWorld NoFault rebate yes (Some prov) query answer)
     (gwRefund registry (charged_plan p u)) (charged_db i s p o u)).1 = inl e →
  let t := taken p u in
  survives t →
  let w := mkWorld NoFault rebate yes (Some prov) query answer in
  ∃ r s' o', solo exec i w (ExecuteRefund registry p) s = (inr r, s') ∧ rr_Success r = false
    ∧ db_users s' = <[po_UserID (po_base o) := mkUser (u_Balance u) (u_TotalRecharged u + t) (u_Concurrency u)]> (db_users s)
    ∧ db_orders s' = <[rp_OrderID p := o']> (db_orders s)
    ∧ po_Status o' = (if bool_decide (po_Status o = OrderStatusRefundFailed) then OrderStatusCompleted else po_Status o)
    ∧ po_refund o' = po_refund o ∧ po_payment o' = po_payment o ∧ po_base o' = po_base o.
Proof.
  intros Hready He t (Ht & Hcol & Hpos) w. unfold w. rewrite (ExecuteRefund_run _ _ _ _ _ _ _ _ _ _ _ Hready), He.
  unfold handleGwFail. rewrite solo_bind. set (W := mkWorld _ _ _ _ _ _).
  assert (∃ s1, solo exec i W (RollbackRefund (charged_plan p u)) (sent_db i s p o u) = (true, s1)
            ∧ db_users s1 = <[po_UserID (po_base o) := mkUser (u_Balance u) (u_TotalRecharged u + t) (u_Concurrency u)]> (db_users s)
            ∧ db_orders s1 = db_orders (locked_db i s p o)) as (s1 & -> & Hu1 & Ho1).
  { unfold RollbackRefund. unfold takes_balance. cbn [charged_plan with_balance with_deduction rp_DeductionType rp_BalanceToDeduct].
    rewrite (proj1 (takes_balance_type registry s p o u inst prov Hready)). cbn [bool_decide andb].
    change (bool_decide (DeductionTypeBalance = DeductionTypeBalance)) with true. cbn [andb].
    fold t. rewrite Hpos, solo_bind.
    change (takes_days (charged_plan p u)) with (takes_days (with_balance (as_float t) p)).
    rewrite (no_days registry s p o u inst prov Hready).
    destruct (Z.ltb_spec 0 t) as [Hlt|Hle].
    - rewrite solo_sql, UpdateBalance_run by done.
      unfold user_of. cbn [charged_plan with_balance with_deduction rp_Order rp_OrderID].
      rewrite (rf_order _ _ _ _ _ _ _ Hready).
      change (db_users (sent_db i s p o u)) with (db_users (charged_db i s p o u)).
      unfold charged_db at 1. cbn [note put_user set_users db_users].
      rewrite lookup_insert_eq. fold t. rewrite Hcol, Hpos.
      eexists. split; [reflexivity|]. cbn. rewrite insert_insert_eq. split; [|done]. fold t. do 2 f_equal; lia.
    - eexists. split; [reflexivity|]. cbn. split; [|done]. fold t. replace t with 0 by lia.
      do 2 f_equal; lia. }
  unfold restoreStatus. rewrite solo_try, solo_bind, solo_sql by done. unfold overwrite_order.
  cbn [charged_plan with_balance with_deduction rp_OrderID rp_Order]. rewrite Ho1. cbn [locked_db note set_orders db_orders].
  rewrite lookup_insert_eq. cbn [solo ok]. rewrite solo_try.
  match goal with |- context [solo exec i W (writeAuditLog ?a ?b ?c) ?s2] =>
    destruct (solo_audit i W a b c s2) as [m ->] end.
  eexists _, _, _. split; [reflexivity|]. split; [done|]. split; [exact Hu1|].
  split; [cbn; by rewrite insert_insert_eq|]. cbn.
  rewrite (rf_order _ _ _ _ _ _ _ Hready). split_and!; [|done..].
  pose proof (rf_refundable _ _ _ _ _ _ _ Hready) as Href. revert Href. unfold refundable, status_in.
  by destruct (po_Status o).
Qed.
End RefundOutcomes.

(** ** The unique audit entry of an action *)

Section Blocked.
Context `{UnicodeCase} `{Location} `{Numeric} `{DecimalLib}.

Definition keeps_audit {A} (t : tx A) : Prop := ∀ i w s,
  match t i w s with inl _ => True | inr (_, s') => db_audit s' = db_audit s end.

Lemma keeps_bind {A B} (t : tx A) (f : A → tx B) :
  keeps_audit t → (∀ a, keeps_audit (f a)) → keeps_audit (t ≫= f).
Proof.
  intros Ht Hf i w s. specialize (Ht i w s). unfold mbind, tx_bind.
  destruct (t i w s) as [e|[a s1]]; [done|]. specialize (Hf a i w s1).
  destruct (f a i w s1) as [e|[b s2]]; [done|]. congruence.
Qed.

Lemma keeps_ret {A} (a : A) : keeps_audit (mret a).
Proof. done. Qed.
Lemma keeps_fail {A} e : keeps_audit (fail (A := A) e).
Proof. done. Qed.
Lemma keeps_on_subs {A} (f : Z → SubTable → outcome (A * SubTable)) : keeps_audit (on_subs f).
Proof. intros i w s. unfold on_subs. by destruct (f _ _) as [|[]]. Qed.
Lemma keeps_lift {A} e (r : sub_error + A) : keeps_audit (lift_outcome e r).
Proof. by destruct r. Qed.

Lemma keeps_deduct uid amount why : keeps_audit (DeductAvailableBalance uid amount why).
Proof.
  intros i w s. unfold DeductAvailableBalance, get_user, get, mbind, tx_bind.
  destruct (amount <. fzero); [done|]. by destruct (db_users s !! uid).
Qed.

Lemma keeps_update uid amount why : keeps_audit (UpdateBalance uid amount why).
Proof. intros i w s. rewrite UpdateBalance_run. by destruct (db_users s !! uid). Qed.

Lemma keeps_apply p : keeps_audit (applyRefundFinalDeduction p).
Proof.
  unfold applyRefundFinalDeduction. case_match; [apply keeps_ret|]. apply keeps_bind.
  - case_match; [|apply keeps_ret]. apply keeps_bind; [apply keeps_deduct|intros; apply keeps_ret].
  - intros p'. case_match; [|apply keeps_ret]. apply keeps_bind; [apply keeps_on_subs|].
    intros [[]|[]]; try apply keeps_fail; try apply keeps_ret.
    apply keeps_bind; [apply keeps_bind; [apply keeps_on_subs|intros; apply keeps_lift]|intros; apply keeps_ret].
Qed.

Lemma keeps_update_order oid cond set : keeps_audit (update_order oid cond set).
Proof. intros i w s. unfold update_order. destruct (db_orders s !! oid) as [o|]; [|done]. by destruct (cond o). Qed.

Lemma keeps_overwrite oid set : keeps_audit (overwrite_order oid set).
Proof. intros i w s. unfold overwrite_order. by destruct (db_orders s !! oid). Qed.

Lemma keeps_claim oid cond : keeps_audit (claim_refund oid cond).
Proof.
  unfold claim_refund. apply keeps_bind; [apply keeps_update_order|]. intros c.
  apply keeps_bind; [by case_match|intros; apply keeps_ret].
Qed.

Lemma keeps_return p : keeps_audit (returnHeldRefundDeduction p).
Proof.
  intros i w s. unfold returnHeldRefundDeduction.
  assert (keeps_audit (_ ← (if takes_balance p
           then UpdateBalance (user_of p) (rp_BalanceToDeduct p) (ReturnedForRefund (rp_OrderID p))
           else mret tt);
     if takes_days p then
       r ← extend_subscription (rp_SubscriptionID p) (rp_SubDaysToDeduct p);
       lift_outcome sub_failure r
     else mret tt)) as Hk.
  { apply keeps_bind; [case_match; [apply keeps_update|apply keeps_ret]|]. intros ?.
    case_match; [|apply keeps_ret]. apply keeps_bind; [apply keeps_on_subs|intros; apply keeps_lift]. }
  specialize (Hk i w s). by case_match.
Qed.

(** A transaction that writes an entry that exists fails as a whole. *)
Lemma blocked_after {A B} (t : tx A) (f : A → tx B) i w s :
  keeps_audit t → (∀ a s', db_audit s' = db_audit s → ∃ e, f a i w s' = inl e) →
  ∃ e, (t ≫= f) i w s = inl e.
Proof.
  intros Ht Hf. specialize (Ht i w s). unfold mbind, tx_bind.
  destruct (t i w s) as [e|[a s']]; [by exists e|]. by apply Hf.
Qed.

Lemma blocked_create oid action d i w s :
  is_Some (db_audit s !! (oid, action)) → ∃ e, create_audit oid action d i w s = inl e.
Proof. intros [x Hx]. unfold create_audit. rewrite Hx. by eexists. Qed.

Lemma blocked_ok p i w s :
  is_Some (db_audit s !! (rp_OrderID p, "REFUND_SUCCESS"%string)) → ∃ e, markRefundOkTx p i w s = inl e.
Proof.
  intros Hx. unfold markRefundOkTx. apply blocked_after; [done|]. intros now s1 Ha1.
  apply blocked_after; [apply keeps_overwrite|]. intros _ s2 Ha2.
  destruct (blocked_create (rp_OrderID p) "REFUND_SUCCESS" (AuditText (rp_Reason p)) i w s2) as [e He].
  { by rewrite Ha2, Ha1. }
  exists e. unfold mbind, tx_bind. by rewrite He.
Qed.

(** The deduction leaves the order of the plan. *)
Lemma apply_order p i w s :
  match applyRefundFinalDeduction p i w s with inl _ => True | inr (p', _) => rp_OrderID p' = rp_OrderID p end.
Proof.
  assert (∀ p', rp_OrderID p' = rp_OrderID p →
    ∀ s', match (if takes_days p' then
                   r ← extend_subscription (rp_SubscriptionID p') (- rp_SubDaysToDeduct p');
                   match r with
                   | inr _ => mret p'
                   | inl ErrAdjustWouldExpire => _ ← revoke_subscription (rp_SubscriptionID p'); mret p'
                   | inl e => fail (sub_failure e)
                   end
                 else mret p') i w s'
          with inl _ => True | inr (p'', _) => rp_OrderID p'' = rp_OrderID p end) as Hdays.
  { intros p' Hp s'. destruct (takes_days p'); [|done]. unfold mbind at 1, tx_bind at 1.
    destruct (extend_subscription _ _ _ _ _) as [|[[[]|] s2]]; try done.
    unfold mbind, tx_bind. by destruct (revoke_subscription _ _ _ _) as [|[]]. }
  unfold applyRefundFinalDeduction. destruct (rp_deductionHeld p); [done|].
  unfold mbind at 1, tx_bind at 1. destruct (takes_balance p).
  - unfold mbind at 1, tx_bind at 1. destruct (DeductAvailableBalance _ _ _ _ _ _) as [|[d s1]]; [done|].
    by apply Hdays.
  - by apply Hdays.
Qed.

(** The audit trail has one entry per order and action, and the transactions of a
    pending refund insert an entry each.  So an order that has had a pending refund
    cannot have a second one recorded, an order that has had a refund succeed cannot
    have a pending one settled as a success, and one that has had a refund fail cannot
    have a pending one settled as a failure: the transaction fails, now and at every
    later attempt. *)
Theorem pending_refund_blocked p i w s :
  (is_Some (db_audit s !! (rp_OrderID p, refund_pending)) →
     ∀ id, ∃ e, mark_pending_tx p id i w s = inl e) ∧
  (is_Some (db_audit s !! (rp_OrderID p, "REFUND_SUCCESS"%string)) → ∃ e, finalize_success_tx p i w s = inl e) ∧
  (is_Some (db_audit s !! (rp_OrderID p, "REFUND_FAILED"%string)) →
     ∀ gErr rb, ∃ e, finalize_failed_tx p gErr rb i w s = inl e).
Proof.
  split_and!.
  - intros Hx id. unfold mark_pending_tx. apply blocked_after; [apply keeps_overwrite|]. intros _ s1 Ha1.
    apply blocked_after; [done|]. intros now s2 Ha2. apply blocked_create. by rewrite Ha2, Ha1.
  - intros Hx. unfold finalize_success_tx. apply blocked_after; [apply keeps_claim|]. intros c s1 Ha1.
    case_match; [by eexists|].
    pose proof (keeps_apply p i w s1) as Hk. pose proof (apply_order p i w s1) as Hid.
    unfold mbind, tx_bind. destruct (applyRefundFinalDeduction p i w s1) as [e|[p' s2]]; [by eexists|].
    apply blocked_ok. by rewrite Hk, Ha1, Hid.
  - intros Hx gErr rb. unfold finalize_failed_tx. apply blocked_after; [done|]. intros now s1 Ha1.
    apply blocked_after; [apply keeps_update_order|]. intros c s2 Ha2. case_match; [by eexists|].
    destruct rb as [e0|].
    + unfold mbind, tx_bind. destruct (create_audit (rp_OrderID p) rollback_failed (rollback_note e0) i w s2)
        as [e|[[] s3]] eqn:Hc; [by eexists|]. apply blocked_create. revert Hc. unfold create_audit.
      case_match; [done|]. intros [= <-]. simpl. rewrite lookup_insert_ne by done. by rewrite Ha2, Ha1.
    + apply blocked_after; [case_match; [apply keeps_return|apply keeps_ret]|]. intros _ s3 Ha3.
      apply blocked_create. by rewrite Ha3, Ha2, Ha1.
Qed.
End Blocked.

(** ** Concrete runs *)

#[local] Existing Instances ascii_case demo_numeric demo_decimal.
#[local] Instance demo_zone : Location := fixed_zone 0.

(** Order 7 paid and completed. *)
Definition paid_db : DB := (solo exec 0 calm (handle ∅ (Notify (demo_notification 7) "alipay")) demo_db).2.

(** A refund by an administrator, and the query of a pending one, alone. *)
Definition do_refund (status : string) (cents : Z) (s : DB) : (pay_error + RefundResult) * DB :=
  solo exec 0 (answering status) (ProcessRefund ∅ 7 (usd cents) "r" false true) s.
Definition settle (status : string) (s : DB) : (pay_error + RefundResult) * DB :=
  solo exec 0 (answering status) (QueryAndFinalizeRefund ∅ 7) s.

Definition balance_of (uid : Z) (s : DB) : option Z := u_Balance <$> db_users s !! uid.

(** The amounts sent to providers for refunds, newest first. *)
Definition sent_amounts (s : DB) : list float64 :=
  omap (λ e, match e with Sent _ _ _ r => Some (rq_Amount r) | _ => None end) (db_log s).

(** The plan of a refund of 4.00 of order 7, and the rows it is about. *)
Lemma demo_plan_ready :
  ∃ p o u, (solo exec 0 calm (PrepareRefund ∅ 7 (usd 400) "r" false true) paid_db).1 = inr (inr p)
    ∧ refund_ready ∅ paid_db p o u demo_instance demo_provider
    ∧ rp_OrderID p = 7 ∧ taken p u = 400000000 ∧ po_Status o = OrderStatusCompleted
    ∧ po_UserID (po_base o) = 1 ∧ u_Balance u = 1050000000.
Proof.
  eexists _. exists (default (demo_order 7 "balance" OrderStatusPending "" None) (db_orders paid_db !! 7)),
    (default (mkUser 0 0 0) (db_users paid_db !! 1)).
  split; [vm_compute; reflexivity|]. split; [split; by vm_compute|by vm_compute].
Qed.

(** A payment of 71.00 for an order of 72.00, and a payment that another provider notifies. *)
Lemma rejected_notification_no_effect_witness :
  (∃ reason a, solo exec 0 calm (confirmPayment ∅ 7 "trade-1" (usd 7100) "alipay" ∅) demo_db
               = (inl reason, set_audit a demo_db)) ∧
  ∃ reason a, solo exec 0 calm (confirmPayment ∅ 7 "trade-1" (usd 7200) "stripe" ∅) demo_db
              = (inl reason, set_audit a demo_db).
Proof.
  split; eapply (rejected_notification_no_effect ∅ 0 calm 7 "trade-1" _ _ ∅ demo_db
           (demo_order 7 "balance" OrderStatusPending "" None)); try by vm_compute.
  - apply of_other_amount. by vm_compute.
  - apply from_other_provider, provider_key_mismatch_spec. by vm_compute.
Defined.

(** Order 7 and its rows, once it is paid and completed. *)
Lemma demo_refund_case :
  ∃ o u, refund_case ∅ paid_db 7 o u demo_instance demo_provider ∧ refund_asked o u (usd 400) (usd 400) false
    ∧ po_UserID (po_base o) = 1 ∧ u_Balance u = 1050000000 ∧ po_Amount (po_base o) = usd 1000
    ∧ credited o (usd 400) = usd 400 ∧ flt (fadd (usd 400) (tolerance o)) (usd 1000) = true.
Proof.
  exists (default (demo_order 7 "balance" OrderStatusPending "" None) (db_orders paid_db !! 7)),
    (default (mkUser 0 0 0) (db_users paid_db !! 1)).
  split; [split; by vm_compute|]. split; [|by vm_compute]. split; try by vm_compute. right. by vm_compute.
Qed.

Lemma refund_accepted_witness :
  ∃ r s', solo exec 0 (answering "success") (ProcessRefund ∅ 7 (usd 400) "r" false true) paid_db = (inr r, s')
    ∧ rr_Success r = true ∧ balance_of 1 s' = Some 650000000 ∧ status_of 7 s' = OrderStatusPartiallyRefunded.
Proof.
  destruct demo_refund_case as (o & u & Hcase & Hasked & Huid & Hb & Htotal & Hcred & Htol).
  destruct (refund_accepted ∅ 0 (Some (usd 100)) true None paid_db 7 o u demo_instance demo_provider
              (mkRefundResponse "r1" "success") (usd 400) (usd 400) "r" false Hcase Hasked)
    as (r & s' & o' & request & Hrun & Hr & _ & Husers & Horders & Hst & _); [by vm_compute..|].
  exists r, s'. split; [exact Hrun|]. split; [exact Hr|]. unfold balance_of, status_of.
  rewrite Husers, Horders, Huid, !lookup_insert_eq, Hst, Hcred, Htotal, Htol, Hb. split; [by vm_compute|reflexivity].
Defined.

Lemma refund_refused_witness :
  ∃ p r s', (solo exec 0 calm (PrepareRefund ∅ 7 (usd 400) "r" false true) paid_db).1 = inr (inr p)
    ∧ solo exec 0 (answering "failed") (ExecuteRefund ∅ p) paid_db = (inr r, s')
    ∧ balance_of 1 s' = balance_of 1 paid_db ∧ status_of 7 s' = OrderStatusCompleted.
Proof.
  destruct demo_plan_ready as (p & o & u & Hp & Hready & Hid & Ht & Hst & Hu & Hb).
  destruct (refund_refused ∅ 0 (Some (usd 100)) true None paid_db p o u demo_instance demo_provider
              (Some (mkRefundResponse "r1" "failed"), false) "payment refund failed: status failed" Hready)
    as (r & s' & o' & Hrun & _ & Husers & Horders & Hst' & _).
  - rewrite (gwRefund_run _ _ _ _ _ _ _ _ _ _ _ Hready). cbn [fst]. by vm_compute.
  - rewrite Ht. split; [done|]. by split; vm_compute.
  - exists p, r, s'. split; [exact Hp|]. split; [exact Hrun|]. unfold balance_of, status_of.
    rewrite Husers, Horders, Hu, Hid, !lookup_insert_eq, Hst', Hst. split; [|reflexivity].
    transitivity (Some (u_Balance u)); [reflexivity|]. rewrite Hb. by vm_compute.
Defined.

Lemma pending_refund_blocked_witness :
  ∃ p e, rp_OrderID p = 7
    ∧ mark_pending_tx p "r2" 0%nat calm (do_refund "pending" 400 paid_db).2 = inl e.
Proof.
  destruct demo_plan_ready as (p & o & u & _ & _ & Hid & _).
  destruct (proj1 (pending_refund_blocked p 0%nat calm (do_refund "pending" 400 paid_db).2)) with (id := "r2"%string)
    as [e He].
  - rewrite Hid. vm_compute. by eexists.
  - exists p, e. split; [exact Hid|exact He].
Defined.

(** Two partial refunds of one order, the second pending: the provider confirms it
    but it can never be settled, because the entry REFUND_SUCCESS of the first is
    there: the order stays REFUND_PENDING. *)
Theorem second_refund_never_settles :
  let first := do_refund "success" 400 paid_db in
  let second := do_refund "pending" 300 first.2 in
  let settled := settle "success" second.2 in
  status_of 7 first.2 = OrderStatusPartiallyRefunded
  ∧ status_of 7 second.2 = OrderStatusRefundPending
  ∧ settled.1 = inl ErrConstraint ∧ status_of 7 settled.2 = OrderStatusRefundPending
  ∧ (settle "success" settled.2).1 = inl ErrConstraint.
Proof. vm_compute. by split_and!. Qed.

(** Two pending partial refunds: the second is sent to the provider and the balance
    is taken, but it cannot be recorded as pending, and the order stays REFUNDING, from
    where no handler moves it. *)
Theorem second_pending_refund_stuck :
  let first := settle "success" (do_refund "pending" 400 paid_db).2 in
  let second := do_refund "pending" 300 first.2 in
  status_of 7 first.2 = OrderStatusPartiallyRefunded ∧ balance_of 1 first.2 = Some 650000000
  ∧ second.1 = inl ErrConstraint ∧ status_of 7 second.2 = OrderStatusRefunding
  ∧ balance_of 1 second.2 = Some 350000000
  ∧ (settle "success" second.2).1 = inl ErrInvalidStatus
  ∧ (do_refund "success" 100 second.2).1 = inl ErrInvalidStatus.
Proof. vm_compute. by split_and!. Qed.

(** Both administrators prepare a refund of 6.00 of 10.00; then one is carried out
    after the other. *)
Definition stale_plans : list payment_move :=
  [Spawn 0%nat (handle ∅ (Notify (demo_notification 7) "alipay"))] ++ calls 0 25 calm
  ++ [Spawn 1%nat (handle ∅ (DoRefund 7 (usd 600) "a" true true));
      Spawn 2%nat (handle ∅ (DoRefund 7 (usd 600) "b" true true))]
  ++ calls 1 3 calm ++ calls 2 3 calm ++ calls 1 10 (answering "success") ++ calls 2 10 (answering "success").

(** The lock of a refund does not check the amounts the plan was made from.  Two
    refunds prepared at the same time are both carried out: 86.40 are sent back for an
    order that was paid with 72.00, and the order records 6.00 as refunded, so that 4.00
    more can be refunded. *)
Theorem stale_plan_refunds_too_much :
  let s := pl_store (demo_pool stale_plans) in
  sent_amounts s = [usd 4320; usd 4320] ∧ (usd 7200 <. fadd (usd 4320) (usd 4320)) = true
  ∧ status_of 7 s = OrderStatusPartiallyRefunded
  ∧ ∃ o, db_orders s !! 7 = Some o ∧ rf_RefundAmount (po_refund o) = usd 600
         ∧ pay_PayAmount (po_payment o) = usd 7200.
Proof. vm_compute. split_and!; try done. eexists. by split_and!. Qed.

(** A refund of 4.00 fails and its deduction cannot be given back; it is tried again;
    then 3.00 more are refunded. *)
Definition lost_connection : world := mkWorld FailBefore None true (Some demo_provider) None (None, true).

Definition sticky_flag : list payment_move :=
  [Spawn 0%nat (handle ∅ (Notify (demo_notification 7) "alipay"))] ++ calls 0 25 calm
  ++ [Spawn 1%nat (handle ∅ (DoRefund 7 (usd 400) "a" false true))]
  ++ calls 1 10 (answering "failed") ++ calls 1 1 lost_connection ++ calls 1 4 (answering "failed")
  ++ [Spawn 2%nat (handle ∅ (DoRefund 7 (usd 400) "a" false true))] ++ calls 2 12 (answering "success")
  ++ [Spawn 3%nat (handle ∅ (DoRefund 7 (usd 300) "b" false true))] ++ calls 3 12 (answering "success").

(** The entry REFUND_ROLLBACK_FAILED is meant to keep the retry of a refund from
    taking the balance twice, and it does; but it is never cleared, so a later refund of
    the same order takes nothing: 7.00 of 10.00 are refunded and 4.00 are taken back. *)
Theorem rollback_flag_skips_later_deductions :
  let s := pl_store (demo_pool sticky_flag) in
  balance_of 1 s = Some (1050000000 - 400000000) ∧ scaled 2 <$> sent_amounts s = [2160; 2880; 2880]
  ∧ ∃ o, db_orders s !! 7 = Some o ∧ rf_RefundAmount (po_refund o) = usd 700.
Proof. vm_compute. split_and!; try done. eexists. by split_and!. Qed.

(** An order for 1.234 Kuwaiti dinar, as its row is read back. *)
Definition kwd_order : PaymentOrder :=
  mkOrder (mkBase 9 1 (usd 400) fzero "PAY-9-1" "sub2_a9" "stripe" "payment" "KWD" "balance" None None
             (Some "1"%string) (Some "alipay"%string) ∅ (demo_now + Hour))
    OrderStatusPending (mkPayment (column2 (from_scaled 3 1234)) "" None None None None)
    (mkRefund fzero None None false None None None) demo_now.

(** pay_amount is a decimal(20,2), and the tolerance for a currency with three
    decimals is half of its smallest unit: an order over 1.234 KWD is stored as 1.23, and
    the notification of its exact payment is refused. *)
Theorem three_decimal_payment_refused :
  confirm_rejection (mkProviders (db_instances demo_db) ∅) kwd_order (from_scaled 3 1234) "alipay" ∅
  = Some "PAYMENT_AMOUNT_MISMATCH"%string.
Proof. vm_compute. reflexivity. Qed.
