(* ===== verification/PaymentCompletes.v ===== *)
(** * Payment orders: a payment that is notified completes the order

    The safety theorems hold of handlers that do nothing.  Here a notification of a
    pending balance order is run to its end, with every call answered: the order is
    COMPLETED and the user has the amount. *)

From Stdlib Require Import ZArith Lia Ascii String SpecFloat.
From stdpp Require Import base tactics numbers list gmap strings.
From S2P Require Import Prelude GoStrings GoFloat GoTime Subscription Programs.
From S2P Require Import PaymentData PaymentProvider PaymentRejection PaymentStore PaymentFulfillment PaymentLifecycle PaymentRefund.
From S2P Require Import PaymentExamples PaymentInvariant PaymentLogic PaymentStatements PaymentSafety PaymentRefundCorrect.

Open Scope go_scope.

(** The tables a completion is about. *)
Record same_core (s s' : DB) : Prop := mkCore {
  core_orders : db_orders s' = db_orders s;
  core_codes : db_codes s' = db_codes s;
  core_users : db_users s' = db_users s;
  core_now : db_now s' = db_now s
}.

#[export] Instance same_core_preorder : PreOrder same_core.
Proof. split; [by intros s|]. intros s1 s2 s3 [????] [????]. split; congruence. Qed.

Lemma core_audit s a : same_core s (set_audit a s).
Proof. done. Qed.

Section Completes.
Context `{UnicodeCase} `{Location} `{Numeric} `{DecimalLib}.
Variable registry : gmap string string.
Variables (i : nat) (w : world) (rebate : float64).
Context (Hfault : w_fault w = NoFault) (Hyes : w_yes w = true) (Hrebate : w_rebate w = Some rebate).
Abbreviation solo := (solo exec i w).

Implicit Types (o : PaymentOrder) (b : OrderBase).

Lemma solo_audit_core oid action d s :
  ∃ s', solo (writeAuditLog oid action d) s = (inr tt, s') ∧ same_core s s'.
Proof. destruct (solo_audit i w oid action d s) as [a ->]. by eexists. Qed.

Lemma rebate_runs oid s : ∃ s', rebate_tx oid i w s = inr (tt, s') ∧ same_core s s'.
Proof.
  unfold rebate_tx, tryClaimAffiliateRebateAudit, has_audit, create_audit, ask, emit,
    updateClaimedAffiliateRebateAudit, mbind, tx_bind, read, mret, tx_ret.
  destruct (existsb _ _) eqn:Hseen; [by exists s|].
  destruct (db_audit s !! (oid, rebate_applied)) eqn:Ha.
  { simpl in Hseen. by rewrite Ha, bool_decide_true in Hseen by by eexists. }
  simpl. rewrite Hrebate. destruct (rebate <=. fzero); simpl; rewrite lookup_insert_eq; by eexists.
Qed.

Lemma rebate_completes o s :
  ∃ s', solo (applyAffiliateRebateForOrder o) s = (inr tt, s') ∧ same_core s s'.
Proof.
  unfold applyAffiliateRebateForOrder. case_match; [by exists s|].
  rewrite solo_bind, solo_sql by done. destruct (rebate_runs (po_ID (po_base o)) s) as (s' & -> & Hs').
  by exists s'.
Qed.

(** A balance code that can be used is redeemed. *)
Lemma redeem_completes code r uid u s :
  db_codes s !! code = Some r → rc_Code r = code → rc_Type r = RedeemTypeBalance →
  rc_Status r = StatusUnused → rc_ExpiresAt r = None →
  (as_float (rc_Value r) <. fzero) = false → db_users s !! uid = Some u →
  ∃ r' s' u', solo (redeemForPaymentFulfillment uid code) s = (inr r', s') ∧ db_orders s' = db_orders s
    ∧ db_now s' = db_now s ∧ db_users s' !! uid = Some u'
    ∧ u_Balance u' = u_Balance u + column (as_float (rc_Value r)).
Proof.
  intros Hr Hcode Hty Hst Hexp Hneg Hu. unfold redeemForPaymentFulfillment, redeem.
  rewrite solo_bind. cbn [Programs.solo]. rewrite solo_bind, solo_call. cbn [exec]. rewrite Hyes. cbn [negb].
  rewrite solo_bind. unfold redeem_locked. rewrite solo_try, solo_sql by done. cbn [GetByCode read].
  rewrite Hr, solo_bind, solo_call. cbn [exec].
  unfold IsExpiredAt, CanUse, IsExpiredAt. rewrite Hst, Hexp, Hty. cbn [andb orb negb].
  change (String.eqb StatusUnused StatusExpired) with false. change (String.eqb StatusUnused StatusUnused) with true.
  change (String.eqb RedeemTypeBalance RedeemTypeSubscription) with false.
  change (String.eqb RedeemTypeBalance RedeemTypeBalance) with true. cbn [andb orb negb].
  rewrite solo_try, solo_sql by done. unfold get_user, get. rewrite Hu.
  rewrite solo_try, solo_sql by done. unfold redeem_tx, Use, mbind, tx_bind.
  rewrite Hcode, Hr, Z.eqb_refl, Hst. change (String.eqb StatusUnused StatusUnused) with true. cbn [andb].
  unfold grant. rewrite Hty. change (String.eqb RedeemTypeBalance RedeemTypeBalance) with true. cbv zeta.
  rewrite Hneg, UpdateBalance_run. cbn [set_codes db_users]. rewrite Hu.
  rewrite solo_sql by done. unfold get_code_by_id, get.
  set (s1 := move_balance _ _ _ _ _). set (r1 := mkCode _ _ _ _ _ _ _ _ _ _) in *.
  assert (∃ r', head (filter (λ r', rc_ID r' = rc_ID r) (map_to_list (db_codes s1)).*2) = Some r') as [r' Hr'].
  { destruct (filter _ _) as [|r' l] eqn:Hf; [exfalso|by exists r'].
    assert (r1 ∈ filter (λ r', rc_ID r' = rc_ID r) (map_to_list (db_codes s1)).*2) as Hin.
    { apply list_elem_of_filter. split; [done|]. apply list_elem_of_fmap. exists (code, r1).
      split; [done|]. apply elem_of_map_to_list. simpl. by rewrite lookup_insert_eq. }
    rewrite Hf in Hin. by apply not_elem_of_nil in Hin. }
  rewrite Hr'. cbv beta iota. cbn. eexists r', s1, _. do 3 (split; [done|]).
  split; [apply lookup_insert_eq|done].
Qed.

(** ** The order *)

Lemma solo_update oid cond set o s :
  db_orders s !! oid = Some o → cond o = true →
  solo (sql (update_order oid cond set)) s
  = (inr 1, set_orders (<[oid := set (touched (db_now s) o)]> (db_orders s)) s).
Proof. intros Ho Hc. rewrite solo_sql by done. unfold update_order. by rewrite Ho, Hc. Qed.

Lemma solo_get_order oid o s : db_orders s !! oid = Some o → solo (sql (get_order oid)) s = (inr o, s).
Proof. intros Ho. rewrite solo_sql by done. unfold get_order, get. by rewrite Ho. Qed.

Lemma solo_now s : solo (call Now) s = (db_now s, s).
Proof. done. Qed.

Lemma markCompleted_completes o lease action c s :
  db_orders s !! po_ID (po_base o) = Some c → holds_lease lease c = true →
  ∃ s' c', solo (markCompleted o lease action) s = (inr tt, s') ∧ db_users s' = db_users s
    ∧ db_orders s' !! po_ID (po_base o) = Some c' ∧ po_Status c' = OrderStatusCompleted.
Proof.
  intros Hc Hl. unfold markCompleted. cbv zeta. rewrite solo_bind, solo_now. cbv beta iota.
  rewrite solo_try, (solo_update _ _ _ c) by done. cbn [Z.eqb]. rewrite solo_bind.
  set (s1 := set_orders _ s).
  destruct (solo_has_audit i w (po_ID (po_base o)) action s1) as (logged & -> & _).
  destruct logged; [|destruct (solo_audit_core (po_ID (po_base o)) action "fulfilled" s1) as (s2 & -> & Hs2)].
  - eexists s1, _. do 2 (split; [done|]). split; [apply lookup_insert_eq|done].
  - eexists s2, _. split; [done|]. split; [by rewrite (core_users _ _ Hs2)|].
    split; [rewrite (core_orders _ _ Hs2); apply lookup_insert_eq|done].
Qed.

Lemma CreateCode_run code typ value s :
  TrimSpace code = code → code ≠ ""%string → feq value fzero = false → db_codes s !! code = None →
  solo (CreateCode code typ value) s =
  (inr tt, set_codes (<[code := mkCode (db_next_code s) code (default_type typ) (column value) StatusUnused
                                  None None None None 0]> (db_codes s)) (db_next_code s + 1) s).
Proof.
  intros Ht Hne Hv Hc. unfold CreateCode. cbv zeta. rewrite Ht.
  destruct (String.eqb_spec code ""); [done|]. rewrite Hv, andb_false_r.
  rewrite solo_sql by done. unfold create_code. by rewrite Hc.
Qed.

(** The order can be credited: its code is proper and not taken, the user exists. *)
Record creditable (b : OrderBase) (u : user_row) (s : DB) : Prop := mkCreditable {
  cr_code : TrimSpace (po_RechargeCode b) = po_RechargeCode b;
  cr_named : po_RechargeCode b ≠ ""%string;
  cr_fresh : db_codes s !! po_RechargeCode b = None;
  cr_amount : feq (po_Amount b) fzero = false;
  cr_positive : (as_float (column (po_Amount b)) <. fzero) = false;
  cr_user : db_users s !! po_UserID b = Some u
}.

Definition credited_amount (b : OrderBase) : Z := column (as_float (column (po_Amount b))).

(** The order is completed and the user has its amount. *)
Definition completed (b : OrderBase) (u : user_row) (s' : DB) : Prop :=
  (∃ c', db_orders s' !! po_ID b = Some c' ∧ po_Status c' = OrderStatusCompleted)
  ∧ ∃ u', db_users s' !! po_UserID b = Some u' ∧ u_Balance u' = u_Balance u + credited_amount b.

Lemma doBalance_completes o lease c u s :
  db_orders s !! po_ID (po_base o) = Some c → holds_lease lease c = true → creditable (po_base o) u s →
  ∃ s', solo (doBalance o lease) s = (inr tt, s') ∧ completed (po_base o) u s'.
Proof.
  intros Hc Hl [Ht Hne Hf Ha Hp Hu]. unfold doBalance. cbv zeta.
  rewrite solo_try, solo_sql by done. cbn [GetByCode read]. rewrite Hf, solo_try, CreateCode_run by done.
  set (r1 := mkCode _ _ _ _ _ _ _ _ _ _). set (s1 := set_codes _ _ s). rewrite solo_try.
  destruct (redeem_completes (po_RechargeCode (po_base o)) r1 (po_UserID (po_base o)) u s1)
    as (r & s2 & u2 & -> & Ho2 & _ & Hu2 & Hb2); [apply lookup_insert_eq|done..|].
  cbv beta iota. rewrite solo_try. destruct (rebate_completes o s2) as (s3 & -> & Hs3).
  destruct (markCompleted_completes o lease "RECHARGE_SUCCESS" c s3) as (s4 & c4 & -> & Hu4 & Hc4 & Hst); [|done|].
  { by rewrite (core_orders _ _ Hs3), Ho2. }
  exists s4. split; [done|]. split; [by exists c4|]. exists u2.
  by rewrite Hu4, (core_users _ _ Hs3).
Qed.

Lemma acquire_lease_run o c s :
  db_orders s !! po_ID (po_base o) = Some c → status_in [OrderStatusPaid; OrderStatusFailed] c = true →
  ∃ s' c', solo (acquirePaymentFulfillmentLease o) s = (inr (Some (po_UpdatedAt c')), s')
    ∧ db_orders s' !! po_ID (po_base o) = Some c' ∧ po_Status c' = OrderStatusRecharging
    ∧ db_users s' = db_users s ∧ db_codes s' = db_codes s.
Proof.
  intros Hc Hst. unfold acquirePaymentFulfillmentLease. cbv zeta. rewrite solo_bind, solo_now. cbv beta iota.
  rewrite solo_try, (solo_update _ _ _ c) by (try done; by rewrite Hst). cbn [Z.eqb].
  set (c1 := set_status _ _). set (s1 := set_orders _ s).
  assert (db_orders s1 !! po_ID (po_base o) = Some c1) as Hc1 by apply lookup_insert_eq.
  rewrite solo_try, (solo_get_order _ c1) by done. rewrite bool_decide_true by done.
  by exists s1, c1.
Qed.

Lemma may_fulfill_paid o : po_Status o = OrderStatusPaid → may_fulfill o = None.
Proof. intros Hst. unfold may_fulfill, status_in. by rewrite Hst. Qed.

Lemma creditable_frame b u s s' :
  db_codes s' = db_codes s → db_users s' = db_users s → creditable b u s → creditable b u s'.
Proof. intros Hc Hu [????? ?]. split; try done; congruence. Qed.

Lemma balance_fulfillment_completes oid o u s :
  db_orders s !! oid = Some o → po_ID (po_base o) = oid → po_Status o = OrderStatusPaid →
  po_OrderType (po_base o) = OrderTypeBalance → creditable (po_base o) u s →
  ∃ s', solo (executeFulfillment oid) s = (inr tt, s') ∧ completed (po_base o) u s'.
Proof.
  intros Ho <- Hst Hty Hcr. unfold executeFulfillment.
  rewrite solo_try, (solo_get_order _ o), Hty by done.
  change (String.eqb OrderTypeBalance OrderTypeSubscription) with false. rewrite String.eqb_refl.
  unfold ExecuteBalanceFulfillment. rewrite solo_bind, (solo_get_order _ o) by done.
  rewrite Hty, String.eqb_refl, Hst, may_fulfill_paid by done. simpl (negb _). cbv iota.
  rewrite bool_decide_false by done. unfold with_lease. rewrite solo_try.
  destruct (acquire_lease_run o o s) as (s1 & c1 & -> & Hc1 & Hst1 & Hu1 & Hco1);
    [done|by unfold status_in; rewrite Hst|]. cbv iota. rewrite solo_bind.
  destruct (doBalance_completes o (po_UpdatedAt c1) c1 u s1) as (s2 & -> & Hs2); [done| | |by exists s2].
  - unfold holds_lease, status_in. by rewrite Hst1, Z.eqb_refl.
  - by eapply creditable_frame.
Qed.

Lemma toPaid_completes o tradeNo paid u s :
  db_orders s !! po_ID (po_base o) = Some o → po_Status o = OrderStatusPending →
  po_OrderType (po_base o) = OrderTypeBalance → creditable (po_base o) u s →
  ∃ s', solo (toPaid o tradeNo paid) s = (inr tt, s') ∧ completed (po_base o) u s'.
Proof.
  intros Ho Hst Hty Hcr. unfold toPaid. cbv zeta. rewrite solo_bind, solo_now. cbv beta iota.
  rewrite solo_try, (solo_update _ _ _ o); [|done|by unfold payable, status_in; rewrite Hst].
  cbn [Z.eqb]. set (o1 := set_status _ _). set (s1 := set_orders _ s). rewrite solo_try.
  replace (status_in [OrderStatusCancelled; OrderStatusExpired] o) with false by by unfold status_in; rewrite Hst.
  cbn [Programs.solo ok]. rewrite solo_try.
  destruct (solo_audit_core (po_ID (po_base o)) "ORDER_PAID" tradeNo s1) as (s2 & -> & Hs2).
  apply (balance_fulfillment_completes _ o1); try done.
  - rewrite (core_orders _ _ Hs2). apply lookup_insert_eq.
  - eapply (creditable_frame _ _ s); [by rewrite (core_codes _ _ Hs2)|by rewrite (core_users _ _ Hs2)|done].
Qed.

Lemma find_by_number_run o s no :
  db_orders s !! po_ID (po_base o) = Some o → po_OutTradeNo (po_base o) = no →
  (∀ oid o', db_orders s !! oid = Some o' → po_OutTradeNo (po_base o') = no → oid = po_ID (po_base o)) →
  find_by_out_trade_no no i w s = inr (o, s).
Proof.
  intros Ho Hno Huniq. unfold find_by_out_trade_no, read, mbind, tx_bind.
  enough (filter (λ o, po_OutTradeNo (po_base o) = no) (map_to_list (db_orders s)).*2 = [o]) as -> by done.
  apply Permutation_singleton_r. rewrite <- (map_to_list_delete _ _ _ Ho). rewrite fmap_cons, filter_cons_True by done.
  apply perm_skip. apply Permutation_nil_r.
  destruct (filter _ _) as [|o' l] eqn:Hf; [done|exfalso].
  assert (o' ∈ o' :: l) as Hin by left. rewrite <- Hf in Hin.
  apply list_elem_of_filter in Hin as [Hno' Hin]. apply list_elem_of_fmap in Hin as ([oid o''] & -> & Hin).
  apply elem_of_map_to_list in Hin. apply lookup_delete_Some in Hin as [Hne Hin]. by eapply Hne, eq_sym, Huniq.
Qed.

(** C10. A proper notification ([improper] says what is not: it comes from the provider
    and is about the merchant the order is bound to, and its amount is within the
    tolerance of the amount the order's column holds) of the payment of a pending
    balance order completes the order when nothing interferes and every call is
    answered: the whole handler returns, the order is COMPLETED and the user's balance
    has grown by its amount, as the columns store it.  For a currency with three
    decimals even the exact payment may be improper ([three_decimal_payment_refused]). *)
Theorem paid_order_completes o u n pk s :
  db_orders s !! po_ID (po_base o) = Some o →
  (∀ oid o', db_orders s !! oid = Some o' → po_OutTradeNo (po_base o') = pn_OrderID n → oid = po_ID (po_base o)) →
  po_Status o = OrderStatusPending →
  po_OrderType (po_base o) = OrderTypeBalance →
  creditable (po_base o) u s →
  pn_Status n = NotificationStatusSuccess →
  pn_OrderID n = po_OutTradeNo (po_base o) →
  ¬ improper (mkProviders (db_instances s) registry) o (pn_Amount n) pk (pn_Metadata n) →
  ∃ s', solo (HandlePaymentNotification registry n pk) s = (inr tt, s') ∧ completed (po_base o) u s'.
Proof.
  intros Ho Huniq Hst Hty Hcr Hn Hno Hok%confirm_rejection_None. unfold HandlePaymentNotification. rewrite Hn, String.eqb_refl. simpl (negb _).
  cbv iota. rewrite solo_bind, solo_sql, (find_by_number_run o) by done. unfold confirmPayment.
  rewrite solo_bind, (solo_get_order _ o), solo_bind, solo_sql by done. cbn [read]. rewrite Hok.
  by apply toPaid_completes.
Qed.
End Completes.

(** ** A concrete run *)

#[local] Existing Instances ascii_case demo_numeric demo_decimal.
#[local] Instance demo_zone : Location := fixed_zone 0.

Lemma paid_order_completes_witness :
  ∃ s', solo exec 0 calm (HandlePaymentNotification ∅ (demo_notification 7) "alipay") demo_db = (inr tt, s')
    ∧ status_of 7 s' = OrderStatusCompleted ∧ balance_of 1 s' = Some 1050000000.
Proof.
  destruct (paid_order_completes ∅ 0 calm (usd 100) eq_refl eq_refl eq_refl
              (demo_order 7 "balance" OrderStatusPending "" None) (mkUser 50000000 0 5)
              (demo_notification 7) "alipay" demo_db) as (s' & Hrun & (c & Hc & Hst) & (u & Hu & Hb)).
  - by vm_compute.
  - intros oid o'. simpl. rewrite lookup_insert. case_decide; [by intros [= <-]|].
    rewrite lookup_singleton. case_decide; [|done]. intros [= <-]. by vm_compute.
  - done.
  - done.
  - split; by vm_compute.
  - done.
  - by vm_compute.
  - rewrite <-confirm_rejection_spec. apply eq_None_not_Some. by vm_compute.
  - exists s'. split; [exact Hrun|]. unfold status_of, balance_of.
    change (po_ID _) with 7 in Hc. change (po_UserID _) with 1 in Hu. rewrite Hc, Hu. split; [done|].
    simpl. rewrite Hb. by vm_compute.
Defined.
