(* ===== verification/ProxyLifecycle.v ===== *)
(** * Proxy expiry, fallback and restoration

    Models [service/proxy.go], [service/proxy_fallback.go], the expiry sweep of
    [repository/proxy_repo.go], the restoration of
    [repository/account_repo.go] and the scheduler outbox insert of
    [repository/scheduler_outbox_repo.go].  Tables are finite maps from the
    primary key to the columns the modelled statements read or write; an SQL
    statement is a function on the table. *)

From Stdlib Require Import ZArith Lia.
From stdpp Require Import base tactics numbers list gmap strings sorting.
From S2P Require Import Prelude.

(** ** Data *)

Definition StatusActive : string := "active".
Definition StatusDisabled : string := "disabled".
Definition StatusExpired : string := "expired".

Definition FallbackModeNone : string := "none".
Definition FallbackModeProxy : string := "proxy".
Definition FallbackModeDirect : string := "direct".

(** The columns of [proxies] the fallback reads ([px_deleted] is
    [deleted_at IS NOT NULL]). *)
Record Proxy := mkProxy {
  px_ID : Z;
  px_Status : string;
  px_ExpiresAt : option Z;
  px_FallbackMode : string;
  px_BackupProxyID : option Z;
  px_deleted : bool
}.

Definition set_px_Status (s : string) (p : Proxy) : Proxy :=
  mkProxy (px_ID p) s (px_ExpiresAt p) (px_FallbackMode p) (px_BackupProxyID p)
    (px_deleted p).

Definition Proxy_IsActive (p : Proxy) : bool := (px_Status p =? StatusActive)%string.

Definition Proxy_IsExpired (p : Proxy) (now : Z) : bool :=
  match px_ExpiresAt p with
  | None => false
  | Some e => negb (time_after e now)
  end.

(** ** Choosing the fallback target *)

(** The loop of [ResolveProxyFallbackTarget].  The outer [None] is exhausted
    fuel; the result is Go's [( *int64, bool)]. *)
Fixpoint fallback_loop (fuel : nat) (byID : gmap Z Proxy) (now : Z)
    (visited : gset Z) (curID : option Z) : option (option Z * bool) :=
  match fuel with
  | O => None
  | S fuel =>
      match curID with
      | None => Some (None, false)
      | Some cur =>
          if bool_decide (cur ∈ visited) then Some (None, false)
          else match byID !! cur with
          | None => Some (None, false)
          | Some p =>
              if Proxy_IsActive p && negb (Proxy_IsExpired p now)
              then Some (Some (px_ID p), true)
              else if (px_FallbackMode p =? FallbackModeDirect)%string
              then Some (None, true)
              else if (px_FallbackMode p =? FallbackModeProxy)%string
              then fallback_loop fuel byID now ({[cur]} ∪ visited) (px_BackupProxyID p)
              else Some (None, false)
          end
      end
  end.

Definition resolve_fuel (fuel : nat) (start : Proxy) (byID : gmap Z Proxy) (now : Z)
    : option (option Z * bool) :=
  if (px_FallbackMode start =? FallbackModeDirect)%string then Some (None, true)
  else if (px_FallbackMode start =? FallbackModeProxy)%string
  then fallback_loop fuel byID now {[px_ID start]} (px_BackupProxyID start)
  else Some (None, false).

(** One more iteration than there are proxies is always enough
    ([resolve_fuel_total]); the default is never used. *)
Definition ResolveProxyFallbackTarget (start : Proxy) (byID : gmap Z Proxy) (now : Z)
    : option Z * bool :=
  default (None, false) (resolve_fuel (S (size byID)) start byID now).

(** ** Tables *)

(** The columns of [accounts] the modelled statements touch.  [ac_extra] is the
    top level of the JSON column; [None] is JSON [null]. *)
Record Account := mkAccount {
  ac_ProxyID : option Z;
  ac_ProxyFallbackOriginID : option Z;
  ac_Type : string;
  ac_Platform : string;
  ac_extra : gmap string (option string);
  ac_deleted : bool
}.

Record OutboxEvent := mkOutboxEvent {
  ev_type : string;
  ev_account_id : option Z;
  ev_group_id : option Z;
  ev_account_ids : list Z;
  ev_dedup_key : option string
}.

Record ProxyDB := mkProxyDB {
  db_proxies : gmap Z Proxy;
  db_accounts : gmap Z Account;
  db_outbox : list OutboxEvent
}.

(** [UPDATE t SET f WHERE c ... RETURNING id]. *)
Definition sql_update {A} (c : A → bool) (f : A → A) (t : gmap Z A) : gmap Z A :=
  (λ r, if c r then f r else r) <$> t.

Definition sql_ids {A} (c : A → bool) (t : gmap Z A) : list Z :=
  (map_to_list (filter (λ kv, c kv.2 = true) t)).*1.

Definition bound_to (pid : Z) (a : Account) : bool :=
  bool_decide (ac_ProxyID a = Some pid) && negb (ac_deleted a).

(** ** Scheduler outbox *)

Definition SchedulerOutboxEventAccountChanged : string := "account_changed".
Definition SchedulerOutboxEventGroupChanged : string := "group_changed".
Definition SchedulerOutboxEventFullRebuild : string := "full_rebuild".
Definition SchedulerOutboxEventAccountBulkChanged : string := "account_bulk_changed".

Definition schedulerOutboxEventSupportsDedup (eventType : string) : bool :=
  (eventType =? SchedulerOutboxEventAccountChanged)%string
  || (eventType =? SchedulerOutboxEventGroupChanged)%string
  || (eventType =? SchedulerOutboxEventFullRebuild)%string.

Definition sorted_ids (l : list Z) : list Z := merge_sort Z.le l.

(** The in-place compaction of [sortedUniqueAccountIDs]: an element equal to
    the last one written is skipped. *)
Fixpoint compact_from (last : Z) (l : list Z) : list Z :=
  match l with
  | [] => []
  | x :: l => if x =? last then compact_from last l else x :: compact_from x l
  end.

Definition sortedUniqueAccountIDs (l : list Z) : list Z :=
  if (length l <? 2)%nat then l
  else match sorted_ids l with
  | [] => []
  | x :: l => x :: compact_from x l
  end.

Definition proxyProbeOutboxAccountChunkSize : nat := 500.

(** [for start := 0; start < len; start += n]: the slices [l[start:end]]. *)
Fixpoint chunks_of (fuel : nat) (n : nat) (l : list Z) : list (list Z) :=
  match fuel, l with
  | O, _ | _, [] => []
  | S fuel, _ => take n l :: chunks_of fuel n (drop n l)
  end.

(** A double quote, as a one-character string. *)
Definition dquote : string := String (Ascii.ascii_of_nat 34) EmptyString.

Definition nul : string := String Ascii.zero EmptyString.

Fixpoint join_with (sep : string) (l : list string) : string :=
  match l with
  | [] => EmptyString
  | [x] => x
  | x :: l => x +:+ sep +:+ join_with sep l
  end.

(** [json.Marshal(map[string]any{"account_ids": ids})]. *)
Definition account_ids_json (ids : list Z) : string :=
  "{" +:+ dquote +:+ "account_ids" +:+ dquote +:+ ":[" +:+
  join_with "," (FormatInt <$> ids) +:+ "]}".

Definition dedup_preimage (eventType : string) (accountID groupID : option Z)
    (payloadJSON : string) : string :=
  eventType +:+ nul +:+ from_option FormatInt EmptyString accountID +:+ nul +:+
  from_option FormatInt EmptyString groupID +:+ nul +:+ payloadJSON.

Section Sweep.
(** [hex.EncodeToString] of the SHA-256 digest. *)
Variable sha256hex : string → string.

Definition schedulerOutboxDedupKey (eventType : string) (accountID groupID : option Z)
    (payloadJSON : string) : string :=
  "scheduler_outbox:" +:+ sha256hex (dedup_preimage eventType accountID groupID payloadJSON).

(** The insert; [ON CONFLICT (dedup_key) DO NOTHING] when the event type is
    deduplicated.  [ids = []] stands for a nil payload. *)
Definition enqueueSchedulerOutbox (eventType : string) (accountID groupID : option Z)
    (ids : list Z) (ob : list OutboxEvent) : list OutboxEvent :=
  let payloadJSON := match ids with [] => EmptyString | _ => account_ids_json ids end in
  if schedulerOutboxEventSupportsDedup eventType then
    let key := schedulerOutboxDedupKey eventType accountID groupID payloadJSON in
    if existsb (λ e, bool_decide (ev_dedup_key e = Some key)) ob then ob
    else ob ++ [mkOutboxEvent eventType accountID groupID ids (Some key)]
  else ob ++ [mkOutboxEvent eventType accountID groupID ids None].

Definition enqueueProxyProbeAccountChanges (ids : list Z) (ob : list OutboxEvent)
    : list OutboxEvent :=
  let ids := sortedUniqueAccountIDs ids in
  foldl (λ ob c, enqueueSchedulerOutbox SchedulerOutboxEventAccountBulkChanged None None c ob)
    ob (chunks_of (length ids) proxyProbeOutboxAccountChunkSize ids).

Definition ollamaCloudUsagePlatforms : list string :=
  ["openai"; "anthropic"; "kimi"; "zhipu"; "deepseek"; "minimax"]%string.

Definition ollama_snapshot_key : string := "ollama_cloud_usage_snapshot".

Definition remove_extra (keys : list string) (a : Account) : Account :=
  mkAccount (ac_ProxyID a) (ac_ProxyFallbackOriginID a) (ac_Type a) (ac_Platform a)
    (foldr delete (ac_extra a) keys) (ac_deleted a).

Definition has_ollama_snapshot (pid : Z) (a : Account) : bool :=
  bound_to pid a && (ac_Type a =? "apikey")%string
  && existsb (String.eqb (ac_Platform a)) ollamaCloudUsagePlatforms
  && match ac_extra a !! ollama_snapshot_key with Some (Some _) => true | _ => false end.

Definition has_cn_generation (pid : Z) (a : Account) : bool :=
  bound_to pid a
  && existsb (String.eqb (ac_Platform a)) ["kimi"; "zhipu"; "minimax"]%string
  && bool_decide (is_Some (ac_extra a !! (ac_Platform a +:+ "_quota_generation"))).

Definition invalidateProxyCNQuotaSnapshots (pid : Z) (t : gmap Z Account) : gmap Z Account :=
  sql_update (has_cn_generation pid)
    (remove_extra ["kimi_quota_generation"; "zhipu_quota_generation";
                   "minimax_quota_generation"]%string) t.

Definition listProxyBoundAccountIDs (pid : Z) (t : gmap Z Account) : list Z :=
  merge_sort Z.le (sql_ids (bound_to pid) t).

Definition invalidateProxyProbeSnapshots (pid : Z) (t : gmap Z Account)
    : gmap Z Account * list Z :=
  let t := sql_update (has_ollama_snapshot pid) (remove_extra [ollama_snapshot_key]) t in
  let t := invalidateProxyCNQuotaSnapshots pid t in
  (t, listProxyBoundAccountIDs pid t).

(** [SET proxy_id = target, proxy_fallback_origin_id =
    COALESCE(proxy_fallback_origin_id, pid)]. *)
Definition rebind (pid : Z) (target : option Z) (a : Account) : Account :=
  mkAccount target
    (match ac_ProxyFallbackOriginID a with Some o => Some o | None => Some pid end)
    (ac_Type a) (ac_Platform a) (ac_extra a) (ac_deleted a).

Definition sweepOneExpiredProxyOnExec (pid : Z) (target : option Z) (change : bool)
    (db : ProxyDB) : ProxyDB * list Z :=
  let proxies := alter (λ p, if px_deleted p then p else set_px_Status StatusExpired p)
                   pid (db_proxies db) in
  if change then
    (mkProxyDB proxies (sql_update (bound_to pid) (rebind pid target) (db_accounts db))
       (db_outbox db),
     sql_ids (bound_to pid) (db_accounts db))
  else
    let '(accounts, _) := invalidateProxyProbeSnapshots pid (db_accounts db) in
    (mkProxyDB proxies accounts (db_outbox db), listProxyBoundAccountIDs pid accounts).

(** The [FOR UPDATE] snapshot: the rows the soft-delete mixin leaves visible. *)
Definition live_proxies (db : ProxyDB) : gmap Z Proxy :=
  filter (λ kv, px_deleted kv.2 = false) (db_proxies db).

Definition sweep_row (byID : gmap Z Proxy) (now : Z)
    (acc : ProxyDB * Z * list Z) (pid : Z) : ProxyDB * Z * list Z :=
  let '(db, totalChanged, changedIDs) := acc in
  match byID !! pid with
  | None => acc
  | Some p =>
      if negb (Proxy_IsActive p) || negb (Proxy_IsExpired p now) then acc
      else
        let '(target, change) := ResolveProxyFallbackTarget p byID now in
        let '(db, ids) := sweepOneExpiredProxyOnExec (px_ID p) target change db in
        (db, if change then totalChanged + Z.of_nat (length ids) else totalChanged,
         changedIDs ++ ids)
  end.

Definition SweepExpiredProxies (now : Z) (db : ProxyDB) : ProxyDB * Z :=
  let byID := live_proxies db in
  let order := merge_sort Z.le (map_to_list byID).*1 in
  let '(db, totalChanged, changedIDs) :=
    foldl (sweep_row byID now) (db, 0, []) order in
  (mkProxyDB (db_proxies db) (db_accounts db)
     (enqueueProxyProbeAccountChanges changedIDs (db_outbox db)), totalChanged).

Inductive revert_error := ErrAccountNotInFallback | ErrProxyNotFound.

Definition lockLiveAccountProxy (db : ProxyDB) (pid : Z) : option revert_error :=
  match db_proxies db !! pid with
  | Some p => if px_deleted p then Some ErrProxyNotFound else None
  | None => Some ErrProxyNotFound
  end.

Definition RevertProxyFallback (accountID : Z) (db : ProxyDB) : ProxyDB + revert_error :=
  match db_accounts db !! accountID with
  | None => inr ErrAccountNotInFallback
  | Some a =>
      if ac_deleted a then inr ErrAccountNotInFallback
      else match ac_ProxyFallbackOriginID a with
      | None => inr ErrAccountNotInFallback
      | Some origin =>
          match lockLiveAccountProxy db origin with
          | Some e => inr e
          | None =>
              inl (mkProxyDB (db_proxies db)
                (<[accountID := mkAccount (Some origin) None (ac_Type a) (ac_Platform a)
                                  (ac_extra a) (ac_deleted a)]> (db_accounts db))
                (enqueueSchedulerOutbox SchedulerOutboxEventAccountChanged
                   (Some accountID) None [] (db_outbox db)))
          end
      end
  end.
End Sweep.

(** ** Specification of the fallback *)

(** The map is keyed by proxy id, as the sweep builds it. *)
Definition byID_wf (byID : gmap Z Proxy) : Prop :=
  ∀ k p, byID !! k = Some p → px_ID p = k.

Definition eligible (now : Z) (p : Proxy) : Prop :=
  Proxy_IsActive p = true ∧ Proxy_IsExpired p now = false.

(** [a] is an unusable proxy that hands over to [b]. *)
Definition hands_over (byID : gmap Z Proxy) (now : Z) (a b : Z) : Prop :=
  ∃ p, byID !! a = Some p ∧ ¬ eligible now p
    ∧ px_FallbackMode p = FallbackModeProxy ∧ px_BackupProxyID p = Some b.

(** [t] is the first usable proxy of the chain that starts at [first]. *)
Definition first_eligible (byID : gmap Z Proxy) (now : Z) (first t : Z) : Prop :=
  rtc (hands_over byID now) first t ∧ ∃ p, byID !! t = Some p ∧ eligible now p.

Section FallbackFacts.
Context (byID : gmap Z Proxy) (now : Z).

Lemma eligible_test p :
  Proxy_IsActive p && negb (Proxy_IsExpired p now) = true ↔ eligible now p.
Proof. unfold eligible. rewrite andb_true_iff, negb_true_iff. done. Qed.

Lemma mode_direct_not_proxy m :
  (m =? FallbackModeDirect)%string = true → (m =? FallbackModeProxy)%string = false.
Proof. intros H%String.eqb_eq. by subst. Qed.

Lemma hands_over_det a b c :
  hands_over byID now a b → hands_over byID now a c → b = c.
Proof. intros (p & ? & _ & _ & ?) (q & ? & _ & _ & ?). simplify_eq. done. Qed.

Lemma chain_length_unique t p n m x :
  byID !! t = Some p → eligible now p →
  nsteps (hands_over byID now) n x t → nsteps (hands_over byID now) m x t → n = m.
Proof.
  intros Ht He. revert m x.
  assert (∀ y, ¬ hands_over byID now t y) as Hstop.
  { intros y (q & ? & Hne & _). simplify_eq. done. }
  induction n as [|n IH]; intros m x Hn Hm.
  - inversion Hn; subst. inversion Hm; subst; [done|]. by edestruct Hstop.
  - inversion Hn as [|? ? y ? Hxy Hyt]; subst.
    inversion Hm as [|m' ? z ? Hxz Hzt]; subst; [by edestruct Hstop|].
    rewrite (hands_over_det _ _ _ Hxz Hxy) in Hzt. f_equal. by apply (IH m' y).
Qed.

Lemma fallback_loop_total fuel visited cur :
  (size (dom byID ∖ visited) < fuel)%nat →
  is_Some (fallback_loop fuel byID now visited cur).
Proof.
  revert visited cur. induction fuel as [|fuel IH]; intros visited cur Hf; [lia|].
  simpl. destruct cur as [cur|]; [|by eexists].
  case_bool_decide as Hv; [by eexists|].
  destruct (byID !! cur) as [p|] eqn:Hp; [|by eexists].
  repeat case_match; try by eexists.
  apply IH.
  assert (cur ∈ dom byID ∖ visited) as Hin.
  { apply elem_of_difference. split; [apply elem_of_dom; by eexists | done]. }
  assert (dom byID ∖ visited = {[cur]} ∪ dom byID ∖ ({[cur]} ∪ visited)) as Heq.
  { apply leibniz_equiv. intros x. rewrite elem_of_union, !elem_of_difference,
      elem_of_union, elem_of_singleton. destruct (decide (x = cur)); set_solver. }
  rewrite Heq, size_union, size_singleton in Hf by set_solver. lia.
Qed.

Lemma fallback_loop_mono fuel visited cur r k :
  fallback_loop fuel byID now visited cur = Some r →
  fallback_loop (fuel + k) byID now visited cur = Some r.
Proof.
  revert visited cur. induction fuel as [|fuel IH]; intros visited cur; simpl; [done|].
  intros H. repeat case_match; simplify_eq; auto.
Qed.

Lemma fallback_loop_sound fuel visited cur t :
  byID_wf byID →
  fallback_loop fuel byID now visited cur = Some (Some t, true) →
  t ∉ visited ∧ ∃ c, cur = Some c ∧ first_eligible byID now c t.
Proof.
  intros Hwf. revert visited cur. induction fuel as [|fuel IH]; intros visited cur; simpl;
    [done|].
  destruct cur as [c|]; [|done].
  case_bool_decide as Hv; [done|].
  destruct (byID !! c) as [p|] eqn:Hp; [|done].
  destruct (Proxy_IsActive p && negb (Proxy_IsExpired p now)) eqn:He.
  - intros [= <-]. apply eligible_test in He. rewrite (Hwf _ _ Hp).
    split; [done|]. exists c. split; [done|]. split; [apply rtc_refl | by eexists].
  - destruct (_ =? FallbackModeDirect)%string; [done|].
    destruct (_ =? FallbackModeProxy)%string eqn:Hm; [|done].
    intros (Hnv & d & Hd & Hchain & Helig)%IH. split; [set_solver|].
    exists c. split; [done|]. split; [|done].
    eapply rtc_l; [|exact Hchain]. exists p. apply String.eqb_eq in Hm.
    rewrite <- eligible_test, He. done.
Qed.

Lemma fallback_loop_complete fuel visited c t n p :
  byID_wf byID → byID !! t = Some p → eligible now p →
  nsteps (hands_over byID now) n c t →
  (∀ x k, x ∈ visited → (k ≤ n)%nat → ¬ nsteps (hands_over byID now) k x t) →
  is_Some (fallback_loop fuel byID now visited (Some c)) →
  fallback_loop fuel byID now visited (Some c) = Some (Some t, true).
Proof.
  intros Hwf Ht He. revert visited c n.
  induction fuel as [|fuel IH]; intros visited c n Hn Havoid Hsome; simpl in *;
    [by destruct Hsome|].
  rewrite bool_decide_false in * by (intros Hc; by eapply (Havoid c n)).
  inversion Hn as [|n' ? d ? (q & Hq & Hne & Hm & Hb) Hd]; subst.
  - rewrite Ht in *. apply eligible_test in He as ->. by rewrite (Hwf _ _ Ht).
  - rewrite Hq in *. rewrite <- eligible_test, not_true_iff_false in Hne. rewrite Hne in *.
    rewrite Hm, Hb in *. simpl in *. apply (IH _ _ n'); [done| |done].
    intros x k [->%elem_of_singleton|Hx]%elem_of_union Hk Hstep.
    + pose proof (chain_length_unique t p (S n') k c Ht He Hn Hstep). lia.
    + by apply (Havoid x k Hx); [lia|].
Qed.
End FallbackFacts.

Lemma resolve_fuel_enough start byID now k :
  resolve_fuel (S (size byID) + k) start byID now
  = Some (ResolveProxyFallbackTarget start byID now).
Proof.
  unfold ResolveProxyFallbackTarget, resolve_fuel.
  destruct (_ =? FallbackModeDirect)%string; [done|].
  destruct (_ =? FallbackModeProxy)%string; [|done].
  destruct (fallback_loop_total byID now (S (size byID)) {[px_ID start]}
              (px_BackupProxyID start)) as [r Hr].
  - rewrite <- size_dom. apply Nat.lt_succ_r, subseteq_size. set_solver.
  - rewrite (fallback_loop_mono _ _ _ _ _ _ k Hr). by rewrite Hr.
Qed.

Lemma resolve_proxy_mode start byID now :
  px_FallbackMode start = FallbackModeProxy →
  fallback_loop (S (size byID)) byID now {[px_ID start]} (px_BackupProxyID start)
  = Some (ResolveProxyFallbackTarget start byID now).
Proof.
  intros Hm. rewrite <- (resolve_fuel_enough start byID now 0), Nat.add_0_r.
  unfold resolve_fuel. by rewrite Hm.
Qed.

(** ** The sweep, one account at a time *)

(** What a binding is: the current proxy, the remembered origin, deletion. *)
Definition binding (a : Account) : option Z * option Z * bool :=
  (ac_ProxyID a, ac_ProxyFallbackOriginID a, ac_deleted a).

Definition sweepable (byID : gmap Z Proxy) (now : Z) (pid : Z) : Prop :=
  ∃ p, byID !! pid = Some p ∧ Proxy_IsActive p = true ∧ Proxy_IsExpired p now = true.

#[export] Instance sweepable_dec byID now pid : Decision (sweepable byID now pid).
Proof.
  refine (match byID !! pid as o return byID !! pid = o → Decision (sweepable byID now pid) with
    | Some p => λ Hp, cast_if_and (decide (Proxy_IsActive p = true))
                        (decide (Proxy_IsExpired p now = true))
    | None => λ Hp, right _ end eq_refl);
  unfold sweepable; first [by exists p | intros (q & ? & ? & ?); simplify_eq; done].
Defined.

Definition fallback_of (byID : gmap Z Proxy) (now : Z) (pid : Z) : option Z * bool :=
  match byID !! pid with
  | Some p => ResolveProxyFallbackTarget p byID now
  | None => (None, false)
  end.

(** The binding an account ends up with after the sweep. *)
Definition expected_binding (byID : gmap Z Proxy) (now : Z) (a : Account)
    : option Z * option Z * bool :=
  match ac_ProxyID a with
  | Some pid =>
      if bool_decide (sweepable byID now pid) && negb (ac_deleted a)
         && (fallback_of byID now pid).2
      then binding (rebind pid (fallback_of byID now pid).1 a)
      else binding a
  | None => binding a
  end.

(** The effect of one [sweep_row] on one binding. *)
Definition row_binding (byID : gmap Z Proxy) (now : Z) (b : option Z * option Z * bool)
    (pid : Z) : option Z * option Z * bool :=
  let '(cur, origin, del) := b in
  if bool_decide (sweepable byID now pid) && (fallback_of byID now pid).2
     && bool_decide (cur = Some pid) && negb del
  then ((fallback_of byID now pid).1, Some (default pid origin), del)
  else b.

Section SweepFacts.
Context (byID : gmap Z Proxy) (now : Z) (Hwf : byID_wf byID).

Lemma fallback_loop_target_or_direct fuel visited cur o c :
  fallback_loop fuel byID now visited cur = Some (o, c) → c = false → o = None.
Proof.
  revert visited cur. induction fuel as [|fuel IH]; intros visited cur; simpl; [done|].
  intros H ->. repeat case_match; simplify_eq; eauto.
Qed.

Lemma fallback_of_eligible pid t :
  fallback_of byID now pid = (Some t, true) → ∃ p, byID !! t = Some p ∧ eligible now p.
Proof using Hwf.
  unfold fallback_of, ResolveProxyFallbackTarget, resolve_fuel.
  destruct (byID !! pid) as [p|]; [|done].
  destruct (_ =? FallbackModeDirect)%string; [done|].
  destruct (_ =? FallbackModeProxy)%string; [|done].
  destruct (fallback_loop _ _ _ _ _) as [r|] eqn:Hr; [|done].
  simpl. intros ->. by apply fallback_loop_sound in Hr as (_ & c & _ & _ & ?).
Qed.

Lemma eligible_not_sweepable t p :
  byID !! t = Some p → eligible now p → ¬ sweepable byID now t.
Proof. intros ? [? ?] (q & ? & ? & ?). simplify_eq. congruence. Qed.

(** A rebound account is not touched again by the same sweep. *)
Lemma row_binding_settled pid origin del l :
  (fallback_of byID now pid).2 = true →
  foldl (row_binding byID now) ((fallback_of byID now pid).1, origin, del) l
  = ((fallback_of byID now pid).1, origin, del).
Proof using Hwf.
  intros Hc. induction l as [|x l IH]; [done|]. simpl.
  destruct (bool_decide (sweepable byID now x)) eqn:Hs; simpl; [|done].
  destruct (decide ((fallback_of byID now pid).1 = Some x)) as [Ht|Ht];
    [|by rewrite (bool_decide_false (_ = Some x)), andb_false_r by done].
  apply bool_decide_eq_true_1 in Hs.
  destruct (fallback_of_eligible pid x) as (p & Hp & He).
  { destruct (fallback_of byID now pid). simpl in *. by subst. }
  by destruct (eligible_not_sweepable x p Hp He).
Qed.

Lemma row_binding_idle cur origin del l :
  (∀ pid, cur = Some pid → pid ∉ l) →
  foldl (row_binding byID now) (cur, origin, del) l = (cur, origin, del).
Proof.
  intros Hni. induction l as [|x l IH]; [done|]. simpl.
  rewrite (bool_decide_false (cur = Some x)).
  - rewrite andb_false_r. simpl. apply IH. intros pid Hpid Hin.
    eapply Hni; [done|]. by right.
  - intros Hc. eapply Hni; [done|]. by left.
Qed.

Lemma row_binding_hit pid origin del :
  row_binding byID now (Some pid, origin, del) pid
  = if bool_decide (sweepable byID now pid) && (fallback_of byID now pid).2 && negb del
    then ((fallback_of byID now pid).1, Some (default pid origin), del)
    else (Some pid, origin, del).
Proof.
  unfold row_binding. rewrite (bool_decide_true (Some pid = Some pid)) by done.
  by rewrite andb_true_r.
Qed.

Lemma row_binding_all a l :
  (∀ pid, is_Some (byID !! pid) → pid ∈ l) → NoDup l →
  foldl (row_binding byID now) (binding a) l = expected_binding byID now a.
Proof using Hwf.
  intros Hall Hnd. unfold expected_binding, binding.
  destruct (ac_ProxyID a) as [pid|]; [|by apply row_binding_idle].
  destruct (decide (pid ∈ l)) as [Hin|Hout].
  2:{ rewrite row_binding_idle by (by intros ? [= <-]).
      rewrite bool_decide_false; [done|]. intros (p & Hp & _). eauto. }
  apply list_elem_of_split in Hin as (l1 & l2 & ->).
  apply NoDup_app in Hnd as (_ & Hl1 & Hnd). apply NoDup_cons in Hnd as [Hl2 _].
  rewrite foldl_app.
  rewrite row_binding_idle by (intros q [= <-] Hq; eapply Hl1; [done|by left]).
  rewrite foldl_step, row_binding_hit.
  rewrite <- andb_assoc, (andb_comm _ (negb (ac_deleted a))), andb_assoc.
  destruct (bool_decide (sweepable byID now pid) && negb (ac_deleted a)) eqn:Hgo; simpl;
    [|by rewrite row_binding_idle by (by intros ? [= <-])].
  destruct (fallback_of byID now pid).2 eqn:Hc;
    [|by rewrite row_binding_idle by (by intros ? [= <-])].
  rewrite (row_binding_settled pid _ _ l2 Hc). by destruct (ac_ProxyFallbackOriginID a).
Qed.
End SweepFacts.

Section SweepTables.
Context (byID : gmap Z Proxy) (now : Z) (Hwf : byID_wf byID).

Lemma sweep_row_skip acc pid : ¬ sweepable byID now pid → sweep_row byID now acc pid = acc.
Proof.
  unfold sweepable, sweep_row. destruct acc as [[db n] ids]. intros Hns.
  destruct (byID !! pid) as [p|] eqn:Hp; [|done].
  destruct (Proxy_IsActive p) eqn:Ha; simpl; [|done].
  destruct (Proxy_IsExpired p now) eqn:He; simpl; [|done].
  destruct Hns. eauto.
Qed.

Lemma sweep_row_do db n ids pid :
  sweepable byID now pid →
  ∃ n' ids', sweep_row byID now (db, n, ids) pid
    = ((sweepOneExpiredProxyOnExec pid (fallback_of byID now pid).1
          (fallback_of byID now pid).2 db).1, n', ids').
Proof using Hwf.
  intros (p & Hp & Ha & He). unfold sweep_row, fallback_of. rewrite Hp, Ha, He. simpl.
  rewrite (Hwf _ _ Hp).
  destruct (ResolveProxyFallbackTarget p byID now) as [t c]. simpl.
  destruct (sweepOneExpiredProxyOnExec _ _ _ _) as [db' ids'] eqn:Hs. simpl. eauto.
Qed.

Lemma lookup_sql_update {A} (c : A → bool) f (t : gmap Z A) k r :
  t !! k = Some r → sql_update c f t !! k = Some (if c r then f r else r).
Proof. intros H. unfold sql_update. by rewrite lookup_fmap, H. Qed.

Lemma binding_remove_extra keys a : binding (remove_extra keys a) = binding a.
Proof. done. Qed.

Lemma lookup_sql_update_binding c keys (t : gmap Z Account) k a :
  t !! k = Some a →
  ∃ a', sql_update c (remove_extra keys) t !! k = Some a' ∧ binding a' = binding a.
Proof.
  intros H. rewrite (lookup_sql_update _ _ _ _ _ H). eexists. split; [done|].
  by destruct (c a).
Qed.

(** One statement of the sweep acts on one account as [row_binding]. *)
Lemma sweepOne_binding pid db id a :
  sweepable byID now pid →
  db_accounts db !! id = Some a →
  ∃ a', db_accounts (sweepOneExpiredProxyOnExec pid (fallback_of byID now pid).1
                      (fallback_of byID now pid).2 db).1 !! id = Some a'
    ∧ binding a' = row_binding byID now (binding a) pid.
Proof.
  intros Hs Ha. unfold sweepOneExpiredProxyOnExec.
  unfold row_binding, binding at 2. rewrite (bool_decide_true (sweepable _ _ _)) by done.
  destruct (fallback_of byID now pid) as [t [|]]; simpl.
  - rewrite (lookup_sql_update _ _ _ _ _ Ha). eexists. split; [done|].
    unfold bound_to, rebind, binding.
    destruct (bool_decide (ac_ProxyID a = Some pid) && negb (ac_deleted a)); [|done].
    by destruct (ac_ProxyFallbackOriginID a).
  - unfold invalidateProxyCNQuotaSnapshots.
    destruct (lookup_sql_update_binding (has_ollama_snapshot pid) [ollama_snapshot_key] _ _ _ Ha)
      as (a1 & H1 & Hb1).
    destruct (lookup_sql_update_binding (has_cn_generation pid)
      ["kimi_quota_generation"; "zhipu_quota_generation"; "minimax_quota_generation"]%string
      _ _ _ H1) as (a2 & H2 & Hb2).
    exists a2. split; [exact H2|]. by rewrite Hb2, Hb1.
Qed.

Lemma sweep_rows_binding l db id a :
  db_accounts db !! id = Some a →
  ∃ a', db_accounts (foldl (sweep_row byID now) (db, 0, []) l).1.1 !! id = Some a'
    ∧ binding a' = foldl (row_binding byID now) (binding a) l.
Proof using Hwf.
  intros Ha.
  apply (foldl_simulation
    (λ (acc : ProxyDB * Z * list Z) b, ∃ a', db_accounts acc.1.1 !! id = Some a' ∧ binding a' = b)
    (sweep_row byID now) (row_binding byID now) l); [|by exists a].
  intros [[db1 n] ids] b pid (a1 & Ha1 & <-). simpl in Ha1.
  destruct (decide (sweepable byID now pid)) as [Hs|Hs].
  - destruct (sweep_row_do db1 n ids pid Hs) as (n' & ids' & ->). by apply sweepOne_binding.
  - rewrite sweep_row_skip by done. exists a1. split; [done|].
    unfold row_binding, binding. by rewrite bool_decide_false.
Qed.

(** Rows of [proxies]: only the status of a swept row changes. *)
Definition row_proxy (k : Z) (p : Proxy) (pid : Z) : Proxy :=
  if bool_decide (sweepable byID now pid) && bool_decide (pid = k) && negb (px_deleted p)
  then set_px_Status StatusExpired p else p.

Lemma sweep_rows_proxies l db k p :
  db_proxies db !! k = Some p →
  db_proxies (foldl (sweep_row byID now) (db, 0, []) l).1.1 !! k
  = Some (foldl (row_proxy k) p l).
Proof using Hwf.
  intros Hp.
  apply (foldl_simulation
    (λ (acc : ProxyDB * Z * list Z) q, db_proxies acc.1.1 !! k = Some q)
    (sweep_row byID now) (row_proxy k) l); [|done].
  intros [[db1 n] ids] q pid Hq. simpl in Hq. unfold row_proxy.
  destruct (decide (sweepable byID now pid)) as [Hs|Hs].
  - destruct (sweep_row_do db1 n ids pid Hs) as (n' & ids' & ->). simpl.
    rewrite (bool_decide_true (sweepable _ _ _)) by done. simpl.
    assert (db_proxies (sweepOneExpiredProxyOnExec pid (fallback_of byID now pid).1
      (fallback_of byID now pid).2 db1).1 =
      alter (λ p, if px_deleted p then p else set_px_Status StatusExpired p) pid
        (db_proxies db1)) as ->.
    { unfold sweepOneExpiredProxyOnExec. by destruct (fallback_of byID now pid).2. }
    rewrite lookup_alter. case_decide; subst; rewrite Hq; simpl.
    + rewrite bool_decide_true by done. by destruct (px_deleted q).
    + by rewrite bool_decide_false.
  - rewrite sweep_row_skip by done. simpl. by rewrite bool_decide_false.
Qed.

Lemma row_proxy_fold k p l :
  foldl (row_proxy k) p l
  = if bool_decide (sweepable byID now k) && bool_decide (k ∈ l) && negb (px_deleted p)
    then set_px_Status StatusExpired p else p.
Proof.
  revert p. induction l as [|x l IH]; intros p.
  - rewrite (bool_decide_false (k ∈ [])) by apply not_elem_of_nil.
    by rewrite andb_false_r.
  - rewrite foldl_step, IH. unfold row_proxy.
    destruct (decide (x = k)) as [->|Hne].
    + rewrite (bool_decide_true (k = k)) by done.
      rewrite (bool_decide_true (k ∈ k :: l)) by (by left).
      destruct (bool_decide (sweepable byID now k)); simpl; [|done].
      destruct (px_deleted p) eqn:Hd; simpl; [by rewrite Hd, andb_false_r|].
      rewrite Hd, andb_true_r. by destruct (bool_decide (k ∈ l)).
    + rewrite (bool_decide_false (x = k)), andb_false_r by done. simpl.
      rewrite (bool_decide_ext (k ∈ x :: l) (k ∈ l)); [done|].
      rewrite elem_of_cons. naive_solver.
Qed.
End SweepTables.

(** Every row is stored under its primary key. *)
Definition db_wf (db : ProxyDB) : Prop := byID_wf (db_proxies db).

Section SweepWhole.
Context (sha256hex : string → string).

Definition sweep_order (db : ProxyDB) : list Z :=
  merge_sort Z.le (map_to_list (live_proxies db)).*1.

Definition sweep_fold (now : Z) (db : ProxyDB) : ProxyDB * Z * list Z :=
  foldl (sweep_row (live_proxies db) now) (db, 0, []) (sweep_order db).

Lemma sweep_unfold now db :
  SweepExpiredProxies sha256hex now db
  = (mkProxyDB (db_proxies (sweep_fold now db).1.1) (db_accounts (sweep_fold now db).1.1)
       (enqueueProxyProbeAccountChanges sha256hex (sweep_fold now db).2
          (db_outbox (sweep_fold now db).1.1)),
     (sweep_fold now db).1.2).
Proof.
  unfold SweepExpiredProxies. fold (sweep_order db). fold (sweep_fold now db).
  by destruct (sweep_fold now db) as [[db' n] ids].
Qed.

Lemma live_proxies_wf db : db_wf db → byID_wf (live_proxies db).
Proof. intros Hwf k p Hp. apply Hwf. by apply map_lookup_filter_Some in Hp as [? _]. Qed.

Lemma elem_of_sweep_order db pid : pid ∈ sweep_order db ↔ is_Some (live_proxies db !! pid).
Proof.
  unfold sweep_order. rewrite merge_sort_Permutation, list_elem_of_fmap. split.
  - intros ([k p] & -> & Hp%elem_of_map_to_list). by exists p.
  - intros [p Hp]. exists (pid, p). split; [done|]. by apply elem_of_map_to_list.
Qed.

Lemma sweep_order_nodup db : NoDup (sweep_order db).
Proof.
  unfold sweep_order. rewrite merge_sort_Permutation. apply NoDup_fst_map_to_list.
Qed.

Lemma sweep_account now db id a :
  db_wf db → db_accounts db !! id = Some a →
  ∃ a', db_accounts (SweepExpiredProxies sha256hex now db).1 !! id = Some a'
    ∧ binding a' = expected_binding (live_proxies db) now a.
Proof.
  intros Hwf Ha. rewrite sweep_unfold. simpl.
  destruct (sweep_rows_binding (live_proxies db) now (live_proxies_wf db Hwf)
    (sweep_order db) db id a Ha) as (a' & Ha' & Hb).
  exists a'. split; [exact Ha'|]. rewrite Hb. apply row_binding_all.
  - by apply live_proxies_wf.
  - intros pid. apply elem_of_sweep_order.
  - apply sweep_order_nodup.
Qed.

Lemma sweep_proxy now db k p :
  db_wf db → db_proxies db !! k = Some p →
  db_proxies (SweepExpiredProxies sha256hex now db).1 !! k
  = Some (if negb (px_deleted p) && Proxy_IsActive p && Proxy_IsExpired p now
          then set_px_Status StatusExpired p else p).
Proof.
  intros Hwf Hp. rewrite sweep_unfold. simpl.
  unfold sweep_fold.
  rewrite (sweep_rows_proxies _ _ (live_proxies_wf db Hwf) _ _ _ _ Hp), row_proxy_fold.
  destruct (px_deleted p) eqn:Hd; simpl; [by rewrite andb_false_r|].
  assert (live_proxies db !! k = Some p) as Hlive by (by apply map_lookup_filter_Some).
  rewrite (bool_decide_true (k ∈ sweep_order db)) by (rewrite elem_of_sweep_order; eauto).
  rewrite !andb_true_r. destruct (Proxy_IsActive p && Proxy_IsExpired p now) eqn:Ht.
  - rewrite bool_decide_true; [done|]. exists p. by apply andb_true_iff in Ht.
  - rewrite bool_decide_false; [done|]. intros (q & Hq & Ha & He).
    rewrite Hlive in Hq. injection Hq as <-. by rewrite Ha, He in Ht.
Qed.

Lemma sweep_proxy_none now db k :
  db_wf db → db_proxies db !! k = None →
  db_proxies (SweepExpiredProxies sha256hex now db).1 !! k = None.
Proof.
  intros Hwf Hp. rewrite sweep_unfold. simpl. unfold sweep_fold.
  apply (foldl_invariant (λ acc : ProxyDB * Z * list Z, db_proxies acc.1.1 !! k = None));
    [|done].
  intros [[db1 n] ids] pid H1. simpl in H1.
  destruct (decide (sweepable (live_proxies db) now pid)) as [Hs|Hs];
    [|by rewrite sweep_row_skip].
  destruct (sweep_row_do _ now (live_proxies_wf db Hwf) db1 n ids pid Hs)
    as (n' & ids' & ->). simpl.
  assert (∀ t c, db_proxies (sweepOneExpiredProxyOnExec pid t c db1).1 !! k = None) as Hn.
  { intros t c. unfold sweepOneExpiredProxyOnExec. destruct (decide (pid = k)) as [->|Hk];
      destruct c; simpl; rewrite ?lookup_alter_eq, ?lookup_alter_ne by done; by rewrite H1. }
  apply Hn.
Qed.

Lemma sweep_wf now db : db_wf db → db_wf (SweepExpiredProxies sha256hex now db).1.
Proof.
  intros Hwf k q Hq. destruct (db_proxies db !! k) as [p|] eqn:Hp.
  - rewrite (sweep_proxy now db k p Hwf Hp) in Hq. specialize (Hwf _ _ Hp).
    simplify_eq. by case_match.
  - by rewrite (sweep_proxy_none now db k Hwf Hp) in Hq.
Qed.

Lemma sweep_nothing now db :
  (∀ pid, ¬ sweepable (live_proxies db) now pid) →
  SweepExpiredProxies sha256hex now db = (db, 0).
Proof.
  intros Hno. rewrite sweep_unfold.
  assert (sweep_fold now db = (db, 0, [])) as ->.
  { unfold sweep_fold.
    apply (foldl_invariant (λ acc, acc = (db, 0, []))); [|done].
    intros acc pid ->. by apply sweep_row_skip. }
  simpl. by destruct db.
Qed.

Lemma not_sweepable_after now db pid :
  db_wf db → ¬ sweepable (live_proxies (SweepExpiredProxies sha256hex now db).1) now pid.
Proof.
  intros Hwf (q & Hq & Ha & He). apply map_lookup_filter_Some in Hq as [Hq Hd]. simpl in Hd.
  destruct (db_proxies db !! pid) as [p|] eqn:Hp.
  - rewrite (sweep_proxy now db pid p Hwf Hp) in Hq. simplify_eq.
    destruct (negb (px_deleted p) && Proxy_IsActive p && Proxy_IsExpired p now) eqn:Ht; simpl in *.
    + done.
    + rewrite Hd, Ha, He in Ht. done.
  - by rewrite (sweep_proxy_none now db pid Hwf Hp) in Hq.
Qed.

(** Bindings reached from an original binding to [p0]. *)
Definition origin_kept (p0 : Z) (b : option Z * option Z * bool) : Prop :=
  b = (Some p0, None, false) ∨ ∃ cur, b = (cur, Some p0, false).

Lemma origin_kept_step byID now p0 a :
  origin_kept p0 (binding a) → origin_kept p0 (expected_binding byID now a).
Proof.
  unfold expected_binding. intros Ho. destruct (ac_ProxyID a) as [pid|] eqn:Hp; [|done].
  case_match eqn:Ht; [|done]. right.
  unfold binding, rebind in *; simpl. rewrite Hp in Ho.
  destruct Ho as [[= -> -> ->]|(cur & [= _ -> ->])]; eauto.
Qed.

Definition sweeps (nows : list Z) (db : ProxyDB) : ProxyDB :=
  foldl (λ db now, (SweepExpiredProxies sha256hex now db).1) db nows.

Lemma sweeps_origin_kept nows db id a p0 :
  db_wf db → db_accounts db !! id = Some a → origin_kept p0 (binding a) →
  ∃ a', db_accounts (sweeps nows db) !! id = Some a' ∧ origin_kept p0 (binding a').
Proof.
  revert db a. induction nows as [|now nows IH]; intros db a Hwf Ha Ho; [by exists a|].
  destruct (sweep_account now db id a Hwf Ha) as (a1 & Ha1 & Hb1).
  apply (IH _ a1); [by apply sweep_wf | done |]. rewrite Hb1. by apply origin_kept_step.
Qed.

Lemma sweeps_proxy_live nows db k p :
  db_wf db → db_proxies db !! k = Some p → px_deleted p = false →
  ∃ q, db_proxies (sweeps nows db) !! k = Some q ∧ px_deleted q = false.
Proof.
  revert db p. induction nows as [|now nows IH]; intros db p Hwf Hp Hd; [by exists p|].
  eapply IH; [by apply sweep_wf | by apply sweep_proxy |]. by case_match.
Qed.
End SweepWhole.

(** ** Properties *)

(**  The fallback walk always ends: with one more iteration than there are
    proxies (or any larger bound) the loop of [ResolveProxyFallbackTarget]
    returns, whatever cycles the backup links contain, and further fuel does not
    change its answer. *)
Theorem fallback_walk_terminates start byID now k :
  resolve_fuel (S (size byID) + k) start byID now
  = Some (ResolveProxyFallbackTarget start byID now).
Proof. apply resolve_fuel_enough. Qed.

(**  An unusable proxy in mode [proxy] is rerouted to [t] exactly when [t]
    is the first active, unexpired proxy of its backup chain; cycles, missing
    links and chains that end otherwise never produce a target. *)
Theorem fallback_target_is_first_eligible start byID now first t
    (Hwf : byID_wf byID) (Hself : byID !! px_ID start = Some start)
    (Hbad : ¬ eligible now start) (Hmode : px_FallbackMode start = FallbackModeProxy)
    (Hbackup : px_BackupProxyID start = Some first) :
  ResolveProxyFallbackTarget start byID now = (Some t, true) ↔
  first_eligible byID now first t.
Proof.
  pose proof (resolve_proxy_mode start byID now Hmode) as Hr. rewrite Hbackup in Hr.
  split.
  - intros Ht. rewrite Ht in Hr.
    apply (fallback_loop_sound byID now (S (size byID))) in Hr as (_ & c & [= <-] & ?); done.
  - intros ((n & Hn)%rtc_nsteps & p & Hp & He).
    rewrite (fallback_loop_complete byID now (S (size byID)) _ first t n p) in Hr;
      [by injection Hr| done..| |by eexists].
    intros x k ->%elem_of_singleton Hk Hstep.
    assert (nsteps (hands_over byID now) (S n) (px_ID start) t) as Hlong.
    { eapply nsteps_l; [|exact Hn]. by exists start. }
    pose proof (chain_length_unique byID now t p _ _ _ Hp He Hlong Hstep). lia.
Qed.

(** C19.  After a sweep every live account whose proxy was active and expired is
    bound to the target its proxy resolved to (or to no proxy), remembers the
    first proxy it was moved from, and a proxy it is moved to is active and
    unexpired in the final table; an unresolved chain leaves the binding as it
    was. *)
Theorem sweep_moves_accounts sha now db id a pid p
    (Hwf : db_wf db) (Ha : db_accounts db !! id = Some a) (Hlive : ac_deleted a = false)
    (Hbound : ac_ProxyID a = Some pid) (Hp : db_proxies db !! pid = Some p)
    (Hpl : px_deleted p = false) (Hact : Proxy_IsActive p = true)
    (Hexp : Proxy_IsExpired p now = true) :
  let db' := (SweepExpiredProxies sha now db).1 in
  ∃ a', db_accounts db' !! id = Some a' ∧
    match ResolveProxyFallbackTarget p (live_proxies db) now with
    | (target, true) =>
        ac_ProxyID a' = target
        ∧ ac_ProxyFallbackOriginID a' = Some (default pid (ac_ProxyFallbackOriginID a))
        ∧ ∀ t, target = Some t → ∃ q, db_proxies db' !! t = Some q ∧ eligible now q
    | (_, false) => binding a' = binding a
    end.
Proof.
  intros db'. destruct (sweep_account sha now db id a Hwf Ha) as (a' & Ha' & Hb).
  exists a'. split; [exact Ha'|].
  assert (live_proxies db !! pid = Some p) as Hlp by (by apply map_lookup_filter_Some).
  assert (fallback_of (live_proxies db) now pid
          = ResolveProxyFallbackTarget p (live_proxies db) now) as Hf
    by (unfold fallback_of; by rewrite Hlp).
  unfold expected_binding in Hb. rewrite Hbound, Hlive in Hb.
  rewrite bool_decide_true in Hb by (by exists p).
  rewrite Hf in Hb. destruct (ResolveProxyFallbackTarget p (live_proxies db) now)
    as [target [|]] eqn:Hres; simpl in Hb; [|done].
  unfold binding, rebind in Hb. simpl in Hb. injection Hb as Hb1 Hb2 _.
  split; [done|]. split; [rewrite Hb2; by destruct (ac_ProxyFallbackOriginID a)|].
  intros t ->. destruct (fallback_of_eligible _ now (live_proxies_wf db Hwf) pid t Hf)
    as (q & [Hq Hqd]%map_lookup_filter_Some & Hqa & Hqe).
  exists q. split; [|done]. unfold db'.
  rewrite (sweep_proxy sha now db t q Hwf Hq), Hqe. by rewrite andb_false_r.
Qed.

(**  Repeating a completed sweep changes nothing: no row, no binding and no
    outbox event, and it reports zero changed accounts. *)
Theorem sweep_idempotent sha now db (Hwf : db_wf db) :
  SweepExpiredProxies sha now (SweepExpiredProxies sha now db).1
  = ((SweepExpiredProxies sha now db).1, 0).
Proof. apply sweep_nothing. intros pid. by apply not_sweepable_after. Qed.

(** C30.  Whatever sequence of sweeps moved an account away from the proxy [p0] it
    was assigned to, manual restoration brings it back to [p0] and clears the
    recovery marker, as long as the row of [p0] has not been deleted; an account
    that never left [p0] is reported as not being in fallback. *)
Theorem restore_undoes_sweeps sha nows db id a p0 p
    (Hwf : db_wf db) (Ha : db_accounts db !! id = Some a)
    (Hb : binding a = (Some p0, None, false))
    (Hp : db_proxies db !! p0 = Some p) (Hlive : px_deleted p = false) :
  match RevertProxyFallback sha id (sweeps sha nows db) with
  | inl db' => binding <$> db_accounts db' !! id = Some (Some p0, None, false)
  | inr e => e = ErrAccountNotInFallback
      ∧ binding <$> db_accounts (sweeps sha nows db) !! id = Some (Some p0, None, false)
  end.
Proof.
  destruct (sweeps_origin_kept sha nows db id a p0 Hwf Ha (or_introl Hb)) as (a' & Ha' & Ho).
  destruct (sweeps_proxy_live sha nows db p0 p Hwf Hp Hlive) as (q & Hq & Hqd).
  unfold RevertProxyFallback. rewrite Ha'.
  destruct Ho as [Hb'|(cur & Hb')]; injection Hb' as Hcur Horg Hdel; rewrite Hdel, Horg.
  - split; [done|]. simpl. unfold binding. by rewrite Hcur, Horg, Hdel.
  - unfold lockLiveAccountProxy. rewrite Hq, Hqd. simpl. by rewrite lookup_insert_eq.
Qed.

(** *** A concrete deployment

    Proxy 1 has expired and hands over to 2, which is disabled and hands over
    to 3; proxy 4 has expired and its backup link is a cycle. *)

Definition demo_proxies : gmap Z Proxy :=
  <[1 := mkProxy 1 StatusActive (Some 50) FallbackModeProxy (Some 2) false]>
  (<[2 := mkProxy 2 StatusDisabled None FallbackModeProxy (Some 3) false]>
  (<[3 := mkProxy 3 StatusActive (Some 500) FallbackModeNone None false]>
  (<[4 := mkProxy 4 StatusActive (Some 60) FallbackModeProxy (Some 4) false]> ∅))).

Definition demo_db : ProxyDB :=
  mkProxyDB demo_proxies
    (<[10 := mkAccount (Some 1) None "oauth" "openai" ∅ false]>
    (<[11 := mkAccount (Some 4) None "apikey" "kimi" ∅ false]> ∅)) [].

Example demo_sweep_bindings :
  binding <$> db_accounts (SweepExpiredProxies id 100 demo_db).1 !! 10
    = Some (Some 3, Some 1, false)
  ∧ binding <$> db_accounts (SweepExpiredProxies id 100 demo_db).1 !! 11
    = Some (Some 4, None, false)
  ∧ (SweepExpiredProxies id 100 demo_db).2 = 1.
Proof. vm_compute. done. Qed.

Lemma fallback_target_is_first_eligible_witness :
  first_eligible demo_proxies 100 2 3.
Proof.
  apply (fallback_target_is_first_eligible
    (mkProxy 1 StatusActive (Some 50) FallbackModeProxy (Some 2) false) demo_proxies 100 2 3);
    [unfold byID_wf; solve_concrete_map | reflexivity | intros [_ H]; discriminate H
    | reflexivity | reflexivity | vm_compute; reflexivity].
Defined.

Lemma sweep_moves_accounts_witness :
  ∃ a', db_accounts (SweepExpiredProxies id 100 demo_db).1 !! 10 = Some a'
    ∧ ac_ProxyID a' = Some 3.
Proof.
  destruct (sweep_moves_accounts id 100 demo_db 10
    (mkAccount (Some 1) None "oauth" "openai" ∅ false) 1
    (mkProxy 1 StatusActive (Some 50) FallbackModeProxy (Some 2) false)) as (a' & Ha & Hb);
    [unfold db_wf, byID_wf; solve_concrete_map | reflexivity .. |].
  exists a'. split; [exact Ha|]. vm_compute in Hb. apply Hb.
Defined.

Lemma sweep_idempotent_witness :
  SweepExpiredProxies id 100 (SweepExpiredProxies id 100 demo_db).1
  = ((SweepExpiredProxies id 100 demo_db).1, 0).
Proof. apply sweep_idempotent. unfold db_wf, byID_wf. solve_concrete_map. Defined.

Lemma restore_undoes_sweeps_witness :
  match RevertProxyFallback id 10 (sweeps id [100; 700] demo_db) with
  | inl db' => binding <$> db_accounts db' !! 10 = Some (Some 1, None, false)
  | inr _ => False
  end.
Proof.
  pose proof (restore_undoes_sweeps id [100; 700] demo_db 10
    (mkAccount (Some 1) None "oauth" "openai" ∅ false) 1
    (mkProxy 1 StatusActive (Some 50) FallbackModeProxy (Some 2) false)) as H.
  assert (∃ db', RevertProxyFallback id 10 (sweeps id [100; 700] demo_db) = inl db') as [db' Hdb].
  { vm_compute. eexists. reflexivity. }
  rewrite Hdb in *. apply H; [unfold db_wf, byID_wf; solve_concrete_map | reflexivity ..].
Defined.
