(* ===== verification/BillingData.v ===== *)
(** * Usage billing: the tables and transactions on them

    The tables that repository/usage_billing_repo.go reads and writes, as records
    of the columns it uses; columns NUMERIC(20,8) hold units of 1e-8 and columns
    NUMERIC(20,10) units of 1e-10.  A transaction ([tx]) changes the tables or fails
    and changes nothing.  The quotas of an account are keys of a JSON document, so
    the JSON operators its statements use are here as well. *)

From Stdlib Require Import ZArith Lia Ascii String.
From stdpp Require Import base tactics numbers list gmap strings.
From S2P Require Import Prelude GoStrings GoFloat GoTime GoDecimal ProxyLifecycle.

Open Scope go_scope.

(** ** JSON documents *)

#[warnings="-register-all"]
Inductive json :=
| JNull
| JBool (b : bool)
| JNumber (n : numeric)
| JString (s : string)
| JArray (l : list json)
| JObject (o : gmap string json).

(** What PostgreSQL makes of a text; [json_text] is the text of a document that is
    not a string. *)
Class SqlText := {
  cast_numeric : string → option numeric;
  cast_int : string → option Z;
  cast_timestamptz : string → option Z;
  json_text : json → string;
  format_us : Z → string;                        (* YYYY-MM-DD"T"HH24:MI:SS.US"Z", UTC *)
  format_s : Z → string;                         (* YYYY-MM-DD"T"HH24:MI:SS"Z", UTC *)
  zone_named : string → option Location
}.

(** [extra->key]: SQL NULL unless [extra] is an object with the key. *)
Definition json_get (key : string) (extra : option json) : option json :=
  match extra with Some (JObject o) => o !! key | _ => None end.

Definition json_elements (j : json) : list json :=
  match j with JArray l => l | _ => [j] end.

(** [a || b]: objects are merged, anything else is concatenated as arrays. *)
Definition json_concat (a b : json) : json :=
  match a, b with
  | JObject o, JObject o' => JObject (o' ∪ o)
  | _, _ => JArray (json_elements a ++ json_elements b)
  end.

(** ** Rows *)

Definition StatusAPIKeyActive : string := "active".
Definition StatusAPIKeyQuotaExhausted : string := "quota_exhausted".

Record UserRow := mkUserRow {
  ur_balance : Z;
  ur_frozen_balance : Z;
  ur_deleted : bool
}.

Record APIKeyRow := mkAPIKeyRow {
  kr_quota : Z;
  kr_quota_used : Z;
  kr_status : string;
  kr_usage_5h : Z;
  kr_usage_1d : Z;
  kr_usage_7d : Z;
  kr_window_5h_start : option Z;
  kr_window_1d_start : option Z;
  kr_window_7d_start : option Z;
  kr_deleted : bool
}.

Record SubscriptionRow := mkSubscriptionRow {
  sr_group_id : Z;
  sr_status : string;
  sr_starts_at : Z;
  sr_expires_at : Z;
  sr_daily_usage_usd : Z;
  sr_weekly_usage_usd : Z;
  sr_monthly_usage_usd : Z;
  sr_five_hour_usage_usd : Z;
  sr_daily_window_start : option Z;
  sr_weekly_window_start : option Z;
  sr_monthly_window_start : option Z;
  sr_five_hour_window_start : option Z;
  sr_quota_follow_reset_event_id : Z;
  sr_updated_at : Z;
  sr_deleted : bool
}.

Record GroupRow := mkGroupRow {
  gr_platform : string;
  gr_subscription_type : string;
  gr_monthly_limit_usd : option Z;
  gr_quota_reset_source_account_id : option Z;
  gr_quota_reset_config_version : Z;
  gr_deleted : bool
}.

Record AccountRow := mkAccountRow {
  ar_platform : string;
  ar_type : string;
  ar_status : string;
  ar_credentials : string;
  ar_proxy_id : option Z;
  ar_parent_account_id : option Z;
  ar_extra : option json;
  ar_deleted : bool
}.

(** A proxy, as the text that a credential generation depends on. *)
Record ProxyRow := mkProxyRow { pr_descriptor : string; pr_deleted : bool }.

(** A row of group_quota_follow_reset_events. *)
Record ResetEventRow := mkResetEventRow {
  er_group_id : Z;
  er_source_account_id : Z;
  er_config_version : Z;
  er_owner_generation : string;
  er_status : string;
  er_effective_at : Z;
  er_include_monthly : bool
}.

(** A row of usage_billing_dedup or of its archive. *)
Record DedupRow := mkDedupRow { dr_request_fingerprint : string; dr_created_at : Z }.

(** The columns of usage_logs that billing determines. *)
Record UsageLogRow := mkUsageLogRow {
  lr_request_id : option string;
  lr_api_key_id : Z;
  lr_user_id : Z;
  lr_actual_cost : Z
}.

Record BillingDB := mkBillingDB {
  bd_users : gmap Z UserRow;
  bd_api_keys : gmap Z APIKeyRow;
  bd_subscriptions : gmap Z SubscriptionRow;
  bd_groups : gmap Z GroupRow;
  bd_accounts : gmap Z AccountRow;
  bd_account_groups : gset (Z * Z);              (* (group_id, account_id) *)
  bd_proxies : gmap Z ProxyRow;
  bd_reset_events : gmap Z ResetEventRow;
  bd_dedup : gmap (string * Z) DedupRow;
  bd_archive : gmap (string * Z) DedupRow;
  bd_usage_logs : list UsageLogRow;
  bd_outbox : list OutboxEvent
}.

Definition with_users (m : gmap Z UserRow) (d : BillingDB) : BillingDB :=
  mkBillingDB m (bd_api_keys d) (bd_subscriptions d) (bd_groups d) (bd_accounts d)
    (bd_account_groups d) (bd_proxies d) (bd_reset_events d) (bd_dedup d) (bd_archive d)
    (bd_usage_logs d) (bd_outbox d).
Definition with_api_keys (m : gmap Z APIKeyRow) (d : BillingDB) : BillingDB :=
  mkBillingDB (bd_users d) m (bd_subscriptions d) (bd_groups d) (bd_accounts d)
    (bd_account_groups d) (bd_proxies d) (bd_reset_events d) (bd_dedup d) (bd_archive d)
    (bd_usage_logs d) (bd_outbox d).
Definition with_subscriptions (m : gmap Z SubscriptionRow) (d : BillingDB) : BillingDB :=
  mkBillingDB (bd_users d) (bd_api_keys d) m (bd_groups d) (bd_accounts d)
    (bd_account_groups d) (bd_proxies d) (bd_reset_events d) (bd_dedup d) (bd_archive d)
    (bd_usage_logs d) (bd_outbox d).
Definition with_accounts (m : gmap Z AccountRow) (d : BillingDB) : BillingDB :=
  mkBillingDB (bd_users d) (bd_api_keys d) (bd_subscriptions d) (bd_groups d) m
    (bd_account_groups d) (bd_proxies d) (bd_reset_events d) (bd_dedup d) (bd_archive d)
    (bd_usage_logs d) (bd_outbox d).
Definition with_dedup (hot cold : gmap (string * Z) DedupRow) (d : BillingDB) : BillingDB :=
  mkBillingDB (bd_users d) (bd_api_keys d) (bd_subscriptions d) (bd_groups d) (bd_accounts d)
    (bd_account_groups d) (bd_proxies d) (bd_reset_events d) hot cold (bd_usage_logs d) (bd_outbox d).
Definition with_usage_logs (l : list UsageLogRow) (d : BillingDB) : BillingDB :=
  mkBillingDB (bd_users d) (bd_api_keys d) (bd_subscriptions d) (bd_groups d) (bd_accounts d)
    (bd_account_groups d) (bd_proxies d) (bd_reset_events d) (bd_dedup d) (bd_archive d)
    l (bd_outbox d).
Definition with_outbox (l : list OutboxEvent) (d : BillingDB) : BillingDB :=
  mkBillingDB (bd_users d) (bd_api_keys d) (bd_subscriptions d) (bd_groups d) (bd_accounts d)
    (bd_account_groups d) (bd_proxies d) (bd_reset_events d) (bd_dedup d) (bd_archive d)
    (bd_usage_logs d) l.

(** A row that exists and is not deleted: [WHERE id = $1 AND deleted_at IS NULL]. *)
Definition live {A} (deleted : A → bool) (m : gmap Z A) (id : Z) : option A :=
  match m !! id with
  | Some r => if deleted r then None else Some r
  | None => None
  end.

(** ** Transactions *)

Inductive billing_error :=
| ErrUsageBillingRequestIDRequired
| ErrUsageBillingRequestConflict
| ErrSubscriptionNotFound
| ErrUserNotFound
| ErrAPIKeyNotFound
| ErrAccountNotFound
| ErrBatchImageInsufficientBalance
| ErrBatchImageSettlementCostExceedsHold
| ErrFrozenBalanceInsufficient         (* "batch image frozen balance is insufficient" *)
| ErrResetSourceChanged                (* "quota reset source changed during billing; ..." *)
| ErrSubscriptionGroupChanged          (* "subscription group changed while ..." *)
| ErrDatabase.

#[export] Instance billing_error_eq_dec : EqDecision billing_error.
Proof. solve_decision. Defined.

Definition tx (A : Type) : Type := BillingDB → billing_error + A * BillingDB.

#[export] Instance tx_ret : MRet tx := λ A a d, inr (a, d).
#[export] Instance tx_bind : MBind tx := λ A B f m d,
  match m d with inl e => inl e | inr (a, d') => f a d' end.

#[export] Instance tx_fmap : FMap tx := λ A B f m d,
  match m d with inl e => inl e | inr (a, d') => inr (f a, d') end.

Definition throw {A} (e : billing_error) : tx A := λ _, inl e.
Definition select {A} (f : BillingDB → A) : tx A := λ d, inr (f d, d).
Definition change (f : BillingDB → BillingDB) : tx unit := λ d, inr (tt, f d).

(** An expression of SQL that may fail, as a cast does. *)
Definition evaluate {A} (e : billing_error + A) : tx A :=
  match e with inl err => throw err | inr a => mret a end.

(** [m], with error [e] replaced by a value: [errors.Is(err, e)] tolerated. *)
Definition tolerate {A} (e : billing_error) (a : A) (m : tx A) : tx A := λ d,
  match m d with
  | inl e' => if decide (e' = e) then inr (a, d) else inl e'
  | r => r
  end.

(** A float64 sent as NUMERIC; NaN and the infinities are not numbers a column of
    fixed precision can take. *)
Section Amounts.
Context `{ShortestDecimal}.

Definition argument (a : float64) : option numeric :=
  if IsNaN a || IsInf a then None else Some (shortest a).

(** A value stored in a column NUMERIC(20, scale): rounded, and refused from
    twenty digits on. *)
Definition column_limit : Z := 10 ^ 20.

Definition store (scale : Z) (x : numeric) : tx Z :=
  let u := to_units scale x in
  if Z.abs u <? column_limit then mret u else throw ErrDatabase.

Definition sent (a : float64) : tx numeric :=
  match argument a with Some x => mret x | None => throw ErrDatabase end.
End Amounts.

(** ** Reading transactions *)

Lemma tx_bind_inv {A B} (m : tx A) (f : A → tx B) d r :
  (m ≫= f) d = inr r → ∃ a d', m d = inr (a, d') ∧ f a d' = inr r.
Proof. unfold mbind, tx_bind. destruct (m d) as [|[a d']]; [done|]. eauto. Qed.

Lemma bind_run {A B} (m : tx A) (f : A → tx B) d :
  (m ≫= f) d = match m d with inl e => inl e | inr (a, d') => f a d' end.
Proof. done. Qed.

Lemma store_run scale x u d :
  to_units scale x = u → Z.abs u < column_limit → store scale x d = inr (u, d).
Proof. intros <- Hu. unfold store. by rewrite (proj2 (Z.ltb_lt _ _) Hu). Qed.

Lemma sent_run `{ShortestDecimal} a x d : argument a = Some x → sent a d = inr (x, d).
Proof. unfold sent. by intros ->. Qed.

Lemma ret_inv {A} (a : A) d r d' : mret (M := tx) a d = inr (r, d') → r = a ∧ d' = d.
Proof. by intros [= <- <-]. Qed.

Lemma select_inv {A} (f : BillingDB → A) d r d' : select f d = inr (r, d') → r = f d ∧ d' = d.
Proof. by intros [= <- <-]. Qed.

Lemma change_inv f d r d' : change f d = inr (r, d') → r = tt ∧ d' = f d.
Proof. by intros [= <- <-]. Qed.

Lemma tx_fmap_inv {A B} (f : A → B) (m : tx A) d b d' :
  (f <$> m) d = inr (b, d') → ∃ a, m d = inr (a, d') ∧ b = f a.
Proof. unfold fmap, tx_fmap. destruct (m d) as [|[a d1]]; [done|]. intros [= <- <-]. eauto. Qed.

Lemma store_inv scale x d u d' :
  store scale x d = inr (u, d') → u = to_units scale x ∧ d' = d.
Proof. unfold store. destruct (_ <? _); [intros [= <- <-]; done|done]. Qed.

Lemma sent_inv `{ShortestDecimal} a d x d' :
  sent a d = inr (x, d') → argument a = Some x ∧ d' = d.
Proof. unfold sent. destruct (argument a); [intros [= <- <-]; done|done]. Qed.

Lemma tolerate_inv {A} e (a : A) m d r d' :
  tolerate e a m d = inr (r, d') → m d = inr (r, d') ∨ m d = inl e ∧ r = a ∧ d' = d.
Proof.
  unfold tolerate. destruct (m d) as [e'|]; [|by left].
  destruct (decide (e' = e)) as [->|]; [intros [= <- <-]; by right|done].
Qed.

Lemma live_Some {A} (deleted : A → bool) (m : gmap Z A) id r :
  live deleted m id = Some r ↔ m !! id = Some r ∧ deleted r = false.
Proof.
  unfold live. destruct (m !! id) as [r'|]; [|by split; intros; destruct_and?].
  destruct (deleted r') eqn:E; (split; [|intros [[= <-] ?]]); try done; try congruence.
  by intros [= <-].
Qed.

(** Takes a successful transaction apart. *)
Ltac tx_inv :=
  repeat match goal with
  | H : (_ ≫= _) _ = inr _ |- _ =>
      let a := fresh "a" in let d := fresh "d" in let H1 := fresh "Hrun" in let H2 := fresh "Hrun" in
      apply tx_bind_inv in H as (a & d & H1 & H2)
  | H : (_ <$> _) _ = inr (_, _) |- _ =>
      let a := fresh "a" in let H1 := fresh "Hrun" in
      apply tx_fmap_inv in H as (a & H1 & ?); subst
  | H : mret _ _ = inr (_, _) |- _ => apply ret_inv in H as [? ?]; subst
  | H : throw _ _ = inr _ |- _ => discriminate H
  | H : select _ _ = inr (_, _) |- _ => apply select_inv in H as [? ?]; subst
  | H : change _ _ = inr (_, _) |- _ => apply change_inv in H as [? ?]; subst
  | H : store _ _ _ = inr (_, _) |- _ => apply store_inv in H as [? ?]; subst
  | H : sent _ _ = inr (_, _) |- _ => apply sent_inv in H as [? ?]; subst
  end.
