(* ===== verification/UsageBilling.v ===== *)
(** * Usage billing: charges and balance holds

    service/usage_billing.go and repository/usage_billing_repo.go.  A charge is
    claimed under (request id, API key) and applied in the same transaction: to the
    balance of the user, the usage of the subscription, the quota and the rate-limit
    windows of the key and the quotas of the account.  A batch job reserves part of
    a balance ([Reserve]), and later captures or releases it.  Claims move to an
    archive by [CleanupUsageBillingDedup] of repository/dashboard_aggregation_repo.go.

    Each Go function that runs inside a transaction is a [tx]; [now] is the start
    of the transaction (SQL NOW()), [clock] what clock_timestamp() answers. *)

From Stdlib Require Import ZArith Lia Ascii String SpecFloat.
From stdpp Require Import base tactics numbers list gmap strings sorting.
From S2P Require Import Prelude GoStrings GoFloat GoTime GoDecimal ProxyLifecycle BillingData.

Open Scope go_scope.
Open Scope string_scope.
Open Scope Z_scope.

(** ** Commands *)

Record UsageLog := mkUsageLog {
  ul_RequestID : string;
  ul_APIKeyID : Z;
  ul_UserID : Z;
  ul_ActualCost : float64
}.

Record UsageBillingCommand := mkUsageBillingCommand {
  uc_RequestID : string;
  uc_APIKeyID : Z;
  uc_RequestFingerprint : string;
  uc_RequestPayloadHash : string;
  uc_UserID : Z;
  uc_AccountID : Z;
  uc_SubscriptionID : option Z;
  uc_AccountType : string;
  uc_Model : string;
  uc_ServiceTier : string;
  uc_ReasoningEffort : string;
  uc_BillingType : Z;
  uc_InputTokens : Z;
  uc_OutputTokens : Z;
  uc_CacheCreationTokens : Z;
  uc_CacheReadTokens : Z;
  uc_ImageCount : Z;
  uc_MediaType : string;
  uc_BalanceCost : float64;
  uc_SubscriptionCost : float64;
  uc_APIKeyQuotaCost : float64;
  uc_APIKeyRateLimitCost : float64;
  uc_AccountQuotaCost : float64;
  uc_UsageLog : option UsageLog;
  uc_AccountQuotaHasDailyLimit : bool;
  uc_AccountQuotaHasWeeklyLimit : bool
}.

Record BatchImageBalanceHoldCommand := mkHoldCommand {
  hc_RequestID : string;
  hc_APIKeyID : Z;
  hc_RequestFingerprint : string;
  hc_RequestPayloadHash : string;
  hc_UserID : Z;
  hc_BatchID : string;
  hc_HoldAmount : float64;
  hc_ActualAmount : float64;
  hc_UsageLog : option UsageLog
}.

(** All values are after the increment. *)
Record AccountQuotaState := mkQuotaState {
  qs_TotalUsed : float64;
  qs_TotalLimit : float64;
  qs_DailyUsed : float64;
  qs_DailyLimit : float64;
  qs_WeeklyUsed : float64;
  qs_WeeklyLimit : float64
}.

Record UsageBillingApplyResult := mkApplyResult {
  rs_Applied : bool;
  rs_UsageLogPersisted : bool;
  rs_APIKeyQuotaExhausted : bool;
  rs_NewBalance : option float64;
  rs_BalanceOverdrafted : bool;
  rs_QuotaState : option AccountQuotaState
}.

Record BatchImageBalanceHoldResult := mkHoldResult {
  hr_Applied : bool;
  hr_UsageLogPersisted : bool;
  hr_NewBalance : option float64;
  hr_FrozenBalance : option float64
}.

Definition not_applied : UsageBillingApplyResult := mkApplyResult false false false None false None.
Definition no_hold : BatchImageBalanceHoldResult := mkHoldResult false false None None.

(** ** Amounts and fingerprints *)

Definition UsageBillingMonetaryScale : Z := 8.

(** [hex.EncodeToString] of the SHA-256 digest of a string. *)
Class Digest := sha256_hex : string → string.

Section Normalise.
Context `{ShortestDecimal} `{Digest}.

Definition QuantizeUsageBillingAmount (v : float64) : float64 :=
  if feq v fzero || IsNaN v || IsInf v then v
  else to_float (Round UsageBillingMonetaryScale (shortest v)).

(** [n] digits of [u], with leading zeros. *)
Fixpoint pad_zeros (fuel : nat) (n : Z) (s : string) : string :=
  match fuel with
  | O => s
  | S fuel => if len s <? n then pad_zeros fuel n ("0" +:+ s) else s
  end.

Definition round_half_even (x d : Z) : Z :=
  let q := x `div` d in
  let r := 2 * (x `mod` d) in
  if r <? d then q else if d <? r then q + 1 else if Z.even q then q else q + 1.

(** [fmt.Sprintf("%0.10f", v)]. *)
Definition format_10f (v : float64) : string :=
  match v with
  | S754_nan => "NaN"
  | S754_infinity s => if s then "-Inf" else "+Inf"
  | _ =>
      let u := round_half_even (Z.abs (exact v)) (10 ^ (places - 10)) in
      let sign := match v with S754_zero true | S754_finite true _ _ => "-" | _ => "" end in
      sign +:+ FormatInt (u `div` 10 ^ 10) +:+ "." +:+ pad_zeros 10 10 (FormatInt (u `mod` 10 ^ 10))
  end.

Definition valueOrZero (v : option Z) : Z := default 0 v.

Definition with_payload (raw hash : string) : string :=
  let payloadHash := TrimSpace hash in
  if String.eqb payloadHash "" then raw else raw +:+ "|" +:+ payloadHash.

Definition buildUsageBillingFingerprint (c : UsageBillingCommand) : string :=
  let raw := join_with "|" [
    FormatInt (uc_UserID c); FormatInt (uc_AccountID c); FormatInt (uc_APIKeyID c);
    TrimSpace (uc_AccountType c); TrimSpace (uc_Model c); TrimSpace (uc_ServiceTier c);
    TrimSpace (uc_ReasoningEffort c); FormatInt (uc_BillingType c); FormatInt (uc_InputTokens c);
    FormatInt (uc_OutputTokens c); FormatInt (uc_CacheCreationTokens c);
    FormatInt (uc_CacheReadTokens c); FormatInt (uc_ImageCount c); TrimSpace (uc_MediaType c);
    FormatInt (valueOrZero (uc_SubscriptionID c)); format_10f (uc_BalanceCost c);
    format_10f (uc_SubscriptionCost c); format_10f (uc_APIKeyQuotaCost c);
    format_10f (uc_APIKeyRateLimitCost c); format_10f (uc_AccountQuotaCost c) ] in
  sha256_hex (with_payload raw (uc_RequestPayloadHash c)).

Definition quantizeMonetaryFields (c : UsageBillingCommand) : UsageBillingCommand :=
  let q := QuantizeUsageBillingAmount in
  mkUsageBillingCommand (uc_RequestID c) (uc_APIKeyID c) (uc_RequestFingerprint c)
    (uc_RequestPayloadHash c) (uc_UserID c) (uc_AccountID c) (uc_SubscriptionID c)
    (uc_AccountType c) (uc_Model c) (uc_ServiceTier c) (uc_ReasoningEffort c)
    (uc_BillingType c) (uc_InputTokens c) (uc_OutputTokens c) (uc_CacheCreationTokens c)
    (uc_CacheReadTokens c) (uc_ImageCount c) (uc_MediaType c)
    (q (uc_BalanceCost c)) (q (uc_SubscriptionCost c)) (q (uc_APIKeyQuotaCost c))
    (q (uc_APIKeyRateLimitCost c)) (q (uc_AccountQuotaCost c))
    (uc_UsageLog c) (uc_AccountQuotaHasDailyLimit c) (uc_AccountQuotaHasWeeklyLimit c).

Definition with_identity (requestID fingerprint : string) (c : UsageBillingCommand)
    : UsageBillingCommand :=
  mkUsageBillingCommand requestID (uc_APIKeyID c) fingerprint
    (uc_RequestPayloadHash c) (uc_UserID c) (uc_AccountID c) (uc_SubscriptionID c)
    (uc_AccountType c) (uc_Model c) (uc_ServiceTier c) (uc_ReasoningEffort c)
    (uc_BillingType c) (uc_InputTokens c) (uc_OutputTokens c) (uc_CacheCreationTokens c)
    (uc_CacheReadTokens c) (uc_ImageCount c) (uc_MediaType c)
    (uc_BalanceCost c) (uc_SubscriptionCost c) (uc_APIKeyQuotaCost c)
    (uc_APIKeyRateLimitCost c) (uc_AccountQuotaCost c)
    (uc_UsageLog c) (uc_AccountQuotaHasDailyLimit c) (uc_AccountQuotaHasWeeklyLimit c).

(** The fingerprint is that of the amounts before they are quantised. *)
Definition Normalize (c : UsageBillingCommand) : UsageBillingCommand :=
  let fingerprint :=
    if String.eqb (TrimSpace (uc_RequestFingerprint c)) "" then buildUsageBillingFingerprint c
    else uc_RequestFingerprint c in
  quantizeMonetaryFields (with_identity (TrimSpace (uc_RequestID c)) fingerprint c).

Definition buildBatchImageBalanceHoldFingerprint (c : BatchImageBalanceHoldCommand) : string :=
  let raw := join_with "|" [
    FormatInt (hc_UserID c); FormatInt (hc_APIKeyID c); TrimSpace (hc_BatchID c);
    format_10f (hc_HoldAmount c); format_10f (hc_ActualAmount c) ] in
  sha256_hex (with_payload raw (hc_RequestPayloadHash c)).

(** Amounts of holds are not quantised. *)
Definition NormalizeHold (c : BatchImageBalanceHoldCommand) : BatchImageBalanceHoldCommand :=
  let batchID := TrimSpace (hc_BatchID c) in
  let fingerprint :=
    if String.eqb (TrimSpace (hc_RequestFingerprint c)) "" then buildBatchImageBalanceHoldFingerprint c
    else hc_RequestFingerprint c in
  mkHoldCommand (TrimSpace (hc_RequestID c)) (hc_APIKeyID c) fingerprint (hc_RequestPayloadHash c)
    (hc_UserID c) batchID (hc_HoldAmount c) (hc_ActualAmount c) (hc_UsageLog c).
End Normalise.

(** ** Claims *)

(** At most once per (request id, key): inserted, or known with this fingerprint,
    or a conflict.  A row found in the archive leaves the inserted one to the
    caller, who rolls back or keeps it. *)
Definition claimUsageBillingRequest (now : Z) (requestID : string) (apiKeyID : Z)
    (requestFingerprint : string) : tx bool :=
  let key := (requestID, apiKeyID) in
  hot ← select bd_dedup;
  cold ← select bd_archive;
  match hot !! key with
  | Some row =>
      if String.eqb (TrimSpace (dr_request_fingerprint row)) (TrimSpace requestFingerprint)
      then mret false else throw ErrUsageBillingRequestConflict
  | None =>
      change (with_dedup (<[key := mkDedupRow requestFingerprint now]> hot) cold);;
      match cold !! key with
      | Some row =>
          if String.eqb (TrimSpace (dr_request_fingerprint row)) (TrimSpace requestFingerprint)
          then mret false else throw ErrUsageBillingRequestConflict
      | None => mret true
      end
  end.

Definition batchImageHoldClaimExists (holdRequestID : string) (apiKeyID : Z) : tx bool :=
  hot ← select bd_dedup;
  cold ← select bd_archive;
  let key := (holdRequestID, apiKeyID) in
  mret (bool_decide (is_Some (hot !! key)) || bool_decide (is_Some (cold !! key))).

Definition usageBillingDedupCleanupBatchSize : Z := 10000.

(** One statement: some rows older than the cutoff, a batch at most, are archived. *)
Definition archive_batch (victims : list ((string * Z) * DedupRow)) (d : BillingDB) : BillingDB :=
  with_dedup (foldr delete (bd_dedup d) victims.*1) (bd_archive d ∪ list_to_map victims) d.

Definition expired_claims (cutoff : Z) (d : BillingDB) : list ((string * Z) * DedupRow) :=
  map_to_list (filter (λ kv, dr_created_at kv.2 < cutoff) (bd_dedup d)).

Fixpoint cleanup_loop (fuel : nat) (cutoff : Z) (d : BillingDB) : BillingDB :=
  match fuel with
  | O => d
  | S fuel =>
      let victims := take (Z.to_nat usageBillingDedupCleanupBatchSize) (expired_claims cutoff d) in
      let d := archive_batch victims d in
      if Z.of_nat (length victims) <? usageBillingDedupCleanupBatchSize then d
      else cleanup_loop fuel cutoff d
  end.

(** Each full batch removes rows, so as many rounds as rows are enough. *)
Definition CleanupUsageBillingDedup (cutoff : Z) (d : BillingDB) : BillingDB :=
  cleanup_loop (S (size (bd_dedup d))) cutoff d.

(** ** Effects of a charge *)

(** [OpenAICodexObservationGeneration] of an account and the descriptor of its
    proxy, and whether the credentials parse: service/openai_codex_usage_observation.go,
    which is not modelled. *)
Class CodexOwners := {
  observation_generation : Z → AccountRow → option string → string;
  credentials_parse : string → bool
}.

Section Effects.
Context `{ShortestDecimal} `{Digest} `{UnicodeCase} `{SqlText} `{CodexOwners} `{Location}.
Variable now clock : Z.

Definition PlatformOpenAI : string := "openai".
Definition AccountTypeOAuth : string := "oauth".
Definition AccountTypeAPIKey : string := "apikey".
Definition AccountTypeBedrock : string := "bedrock".
Definition AccountTypeServiceAccount : string := "service_account".
Definition StatusAccountActive : string := "active".
Definition SubscriptionStatusActive : string := "active".
Definition SubscriptionTypeSubscription : string := "subscription".

Definition AccountTypeSupportsQuota (accountType : string) : bool :=
  let t := ToLower accountType in
  String.eqb t AccountTypeAPIKey || String.eqb t AccountTypeBedrock
  || String.eqb t AccountTypeServiceAccount.

(** A required row: no row is [ErrSubscriptionNotFound]. *)
Definition require {A} (e : billing_error) (r : option A) : tx A :=
  match r with Some a => mret a | None => throw e end.

(** The generation of the source account, [""] when it has none.  A missing account
    or proxy is no error. *)
Definition source_generation (source : option Z) : tx string :=
  match source with
  | None => mret ""
  | Some accountID =>
      accounts ← select bd_accounts;
      proxies ← select bd_proxies;
      match live ar_deleted accounts accountID with
      | Some a =>
          if bool_decide (is_Some (ar_parent_account_id a)) then mret ""
          else if negb (credentials_parse (ar_credentials a)) then throw ErrDatabase
          else
            let generation (px : option string) :=
              if String.eqb (ar_platform a) PlatformOpenAI && String.eqb (ar_type a) AccountTypeOAuth
                 && String.eqb (ar_status a) StatusAccountActive
              then observation_generation accountID a px else "" in
            match ar_proxy_id a with
            | None => mret (generation None)
            | Some p =>
                match live pr_deleted proxies p with
                | Some px => mret (generation (Some (pr_descriptor px)))
                | None => mret ""
                end
            end
      | None => mret ""
      end
  end.

(** The events a subscription has to follow; and whether each resets the month. *)
Definition resets_monthly (g : GroupRow) (e : ResetEventRow) : bool :=
  er_include_monthly e && match gr_monthly_limit_usd g with Some l => 0 <? l | None => false end.

Definition eligible_event (d : BillingDB) (groupID : Z) (g : GroupRow) (s : SubscriptionRow)
    (generation : string) (id : Z) (e : ResetEventRow) : bool :=
  (er_group_id e =? groupID) && (sr_quota_follow_reset_event_id s <? id)
  && (String.eqb (er_status e) "pending" || String.eqb (er_status e) "completed")
  && negb (String.eqb (er_owner_generation e) "") && String.eqb (er_owner_generation e) generation
  && match live ar_deleted (bd_accounts d) (er_source_account_id e) with
     | Some a => String.eqb (ar_platform a) PlatformOpenAI && String.eqb (ar_type a) AccountTypeOAuth
                 && negb (bool_decide (is_Some (ar_parent_account_id a)))
     | None => false
     end
  && bool_decide ((groupID, er_source_account_id e) ∈ bd_account_groups d)
  && bool_decide (gr_quota_reset_source_account_id g = Some (er_source_account_id e))
  && (er_config_version e =? gr_quota_reset_config_version g)
  && String.eqb (gr_platform g) PlatformOpenAI
  && String.eqb (gr_subscription_type g) SubscriptionTypeSubscription
  && (sr_starts_at s <=? er_effective_at e) && (er_effective_at e <? sr_expires_at s).

Definition eligible_events (d : BillingDB) (groupID : Z) (g : GroupRow) (s : SubscriptionRow)
    (generation : string) : list (Z * ResetEventRow) :=
  map_to_list (filter (λ ie, eligible_event d groupID g s generation ie.1 ie.2 = true)
                 (bd_reset_events d)).

(** The event with the greatest id, and the latest instant among some. *)
Definition newest_event (l : list (Z * ResetEventRow)) : option (Z * ResetEventRow) :=
  foldr (λ ie best, match best with
                    | Some b => if b.1 <? ie.1 then Some ie else best
                    | None => Some ie
                    end) None l.

Definition latest_instant (l : list (Z * ResetEventRow)) : option Z :=
  foldr (λ ie best, match best with
                    | Some t => Some (Z.max t (er_effective_at ie.2))
                    | None => Some (er_effective_at ie.2)
                    end) None l.

Definition follow_reset (id : Z) (e : ResetEventRow) (monthly : option Z) (s : SubscriptionRow)
    : SubscriptionRow :=
  mkSubscriptionRow (sr_group_id s) (sr_status s) (sr_starts_at s) (sr_expires_at s) 0 0
    (if monthly is Some _ then 0 else sr_monthly_usage_usd s) 0
    (Some (er_effective_at e)) (Some (er_effective_at e))
    (match monthly with Some t => Some t | None => sr_monthly_window_start s end)
    (Some (er_effective_at e)) id (Z.max clock (sr_updated_at s + 1000)) (sr_deleted s).

Definition applyPendingQuotaFollowResetForSubscription (subscriptionID : Z) : tx unit :=
  subs ← select bd_subscriptions;
  first ← require ErrSubscriptionNotFound (live sr_deleted subs subscriptionID);
  let groupID := sr_group_id first in
  groups ← select bd_groups;
  observed ← require ErrSubscriptionNotFound (live gr_deleted groups groupID);
  generation ← source_generation (gr_quota_reset_source_account_id observed);
  groups ← select bd_groups;
  g ← require ErrSubscriptionNotFound (live gr_deleted groups groupID);
  if negb (bool_decide (gr_quota_reset_source_account_id g = gr_quota_reset_source_account_id observed))
  then throw ErrResetSourceChanged else
  subs ← select bd_subscriptions;
  s ← require ErrSubscriptionNotFound (live sr_deleted subs subscriptionID);
  if negb (sr_group_id s =? groupID) then throw ErrSubscriptionGroupChanged else
  if negb (String.eqb (sr_status s) SubscriptionStatusActive) then mret tt else
  d ← select id;
  let events := eligible_events d groupID g s generation in
  match newest_event events with
  | None => mret tt
  | Some (id, e) =>
      let monthly := latest_instant (filter (λ ie, resets_monthly g ie.2 = true) events) in
      change (with_subscriptions (<[subscriptionID := follow_reset id e monthly s]> subs))
  end.

(** A usage window at [now]: still open, or opened by this charge. *)
Definition window_passed (span : Z) (start : option Z) : bool :=
  match start with None => true | Some s => s + span <=? now end.

Definition charge_subscription (x : numeric) (s : SubscriptionRow) : tx SubscriptionRow :=
  daily ← store 10 (of_units 10 (sr_daily_usage_usd s) + x);
  weekly ← store 10 (of_units 10 (sr_weekly_usage_usd s) + x);
  monthly ← store 10 (of_units 10 (sr_monthly_usage_usd s) + x);
  let fresh := window_passed (5 * Hour) (sr_five_hour_window_start s) in
  five ← store 10 (if x <=? 0 then of_units 10 (sr_five_hour_usage_usd s)
                   else if fresh then x else of_units 10 (sr_five_hour_usage_usd s) + x);
  mret (mkSubscriptionRow (sr_group_id s) (sr_status s) (sr_starts_at s) (sr_expires_at s)
    daily weekly monthly five
    (sr_daily_window_start s) (sr_weekly_window_start s) (sr_monthly_window_start s)
    (if x <=? 0 then sr_five_hour_window_start s
     else if fresh then Some now else sr_five_hour_window_start s)
    (sr_quota_follow_reset_event_id s) (Z.max clock (sr_updated_at s + 1000)) (sr_deleted s)).

Definition incrementUsageBillingSubscription (subscriptionID : Z) (costUSD : float64) : tx unit :=
  applyPendingQuotaFollowResetForSubscription subscriptionID;;
  subs ← select bd_subscriptions;
  groups ← select bd_groups;
  match live sr_deleted subs subscriptionID with
  | Some s =>
      match live gr_deleted groups (sr_group_id s) with
      | Some _ =>
          x ← sent costUSD;
          s ← charge_subscription x s;
          change (with_subscriptions (<[subscriptionID := s]> subs))
      | None => throw ErrSubscriptionNotFound
      end
  | None => throw ErrSubscriptionNotFound
  end.

(** The sufficient-balance statement, then the one that records the debt. *)
Definition set_balance (userID balance frozen : Z) : tx unit :=
  users ← select bd_users;
  change (with_users (<[userID := mkUserRow balance frozen false]> users)).

Definition deductUsageBillingBalance (userID : Z) (amount : float64) : tx (float64 * bool) :=
  users ← select bd_users;
  match live ur_deleted users userID with
  | None => throw ErrUserNotFound
  | Some u =>
      x ← sent amount;
      balance ← store 8 (of_units 8 (ur_balance u) - x);
      set_balance userID balance (ur_frozen_balance u);;
      mret (to_float (of_units 8 balance), x <=? of_units 8 (ur_balance u))
  end.

Definition incrementUsageBillingAPIKeyQuota (apiKeyID : Z) (amount : float64) : tx bool :=
  keys ← select bd_api_keys;
  match live kr_deleted keys apiKeyID with
  | None => throw ErrAPIKeyNotFound
  | Some k =>
      x ← sent amount;
      used ← store 8 (of_units 8 (kr_quota_used k) + x);
      let status :=
        if (0 <? kr_quota k) && String.eqb (kr_status k) StatusAPIKeyActive
           && (kr_quota_used k <? kr_quota k)
           && (of_units 8 (kr_quota k) <=? of_units 8 (kr_quota_used k) + x)
        then StatusAPIKeyQuotaExhausted else kr_status k in
      change (with_api_keys (<[apiKeyID :=
        mkAPIKeyRow (kr_quota k) used status (kr_usage_5h k) (kr_usage_1d k) (kr_usage_7d k)
          (kr_window_5h_start k) (kr_window_1d_start k) (kr_window_7d_start k) false]> keys));;
      mret ((0 <? kr_quota k) && (kr_quota k <=? used)
            && (of_units 8 used - x <? of_units 8 (kr_quota k)))
  end.

(** The usage of a key is not reset by the charge that opens its first window. *)
Definition window_usage (span : Z) (start : option Z) (usage : Z) (x : numeric) : numeric :=
  match start with
  | Some s => if s + span <=? now then x else of_units 8 usage + x
  | None => of_units 8 usage + x
  end.

Definition window_start (span : Z) (start : option Z) (opened : Z) : option Z :=
  if window_passed span start then Some opened else start.

Definition incrementUsageBillingAPIKeyRateLimit (apiKeyID : Z) (cost : float64) : tx unit :=
  keys ← select bd_api_keys;
  match live kr_deleted keys apiKeyID with
  | None => throw ErrAPIKeyNotFound
  | Some k =>
      x ← sent cost;
      u5 ← store 8 (window_usage (5 * Hour) (kr_window_5h_start k) (kr_usage_5h k) x);
      u1 ← store 8 (window_usage (24 * Hour) (kr_window_1d_start k) (kr_usage_1d k) x);
      u7 ← store 8 (window_usage (7 * Day) (kr_window_7d_start k) (kr_usage_7d k) x);
      change (with_api_keys (<[apiKeyID :=
        mkAPIKeyRow (kr_quota k) (kr_quota_used k) (kr_status k) u5 u1 u7
          (window_start (5 * Hour) (kr_window_5h_start k) now)
          (window_start (24 * Hour) (kr_window_1d_start k) (StartOfDay now))
          (window_start (7 * Day) (kr_window_7d_start k) (StartOfDay now)) false]> keys))
  end.

(** ** Quotas of an account

    Usage and limits of an account are numbers in its [extra] document: a total, and
    a daily and a weekly quota that restart when their period has passed. *)

(** [extra->>key]. *)
Definition text_field (key : string) (extra : option json) : option string :=
  match json_get key extra with
  | None | Some JNull => None
  | Some (JString s) => Some s
  | Some j => Some (json_text j)
  end.

(** [(extra->>key)::numeric]; a number needs no text. *)
Definition numeric_field (key : string) (extra : option json) : billing_error + option numeric :=
  match json_get key extra with
  | Some (JNumber n) => inr (Some n)
  | _ => match text_field key extra with
         | None => inr None
         | Some t => match cast_numeric t with Some n => inr (Some n) | None => inl ErrDatabase end
         end
  end.

Definition int_field (key : string) (extra : option json) : billing_error + option Z :=
  match text_field key extra with
  | None => inr None
  | Some t => match cast_int t with Some n => inr (Some n) | None => inl ErrDatabase end
  end.

Definition timestamptz_field (key : string) (extra : option json) : billing_error + option Z :=
  match text_field key extra with
  | None => inr None
  | Some t => match cast_timestamptz t with Some n => inr (Some n) | None => inl ErrDatabase end
  end.

(** '1970-01-01'::timestamptz. *)
Definition UnixEpoch : Z := 62135596800 * Second.

(** The keys of one period. *)
Record quota_keys := mkQuotaKeys {
  k_limit : string;
  k_used : string;
  k_start : string;
  k_mode : string;
  k_reset_at : string;
  k_span : Z
}.

Definition daily_keys : quota_keys :=
  mkQuotaKeys "quota_daily_limit" "quota_daily_used" "quota_daily_start" "quota_daily_reset_mode"
    "quota_daily_reset_at" (24 * Hour).
Definition weekly_keys : quota_keys :=
  mkQuotaKeys "quota_weekly_limit" "quota_weekly_used" "quota_weekly_start" "quota_weekly_reset_mode"
    "quota_weekly_reset_at" (168 * Hour).

Definition is_fixed (k : quota_keys) (extra : option json) : bool :=
  String.eqb (default "rolling" (text_field (k_mode k) extra)) "fixed".

(** dailyExpiredExpr, weeklyExpiredExpr. *)
Definition expired_expr (k : quota_keys) (extra : option json) : billing_error + bool :=
  if is_fixed k extra then
    match timestamptz_field (k_reset_at k) extra with
    | inl e => inl e
    | inr t => inr (default UnixEpoch t <=? now)
    end
  else
    match timestamptz_field (k_start k) extra with
    | inl e => inl e
    | inr t => inr (default UnixEpoch t + k_span k <=? now)
    end.

(** The zone of the fixed resets. *)
Definition reset_zone (extra : option json) : billing_error + Location :=
  match zone_named (default "UTC" (text_field "quota_reset_timezone" extra)) with
  | Some l => inr l
  | None => inl ErrDatabase
  end.

(** Midnight of today in a zone, [days] days and [hours] hours later, as an instant. *)
Definition reset_point (zone : Location) (days hours : Z) : Z :=
  @from_wall zone (@day_number zone now * Day + days * Day + hours * Hour).

(** nextDailyResetAtExpr: [None] is SQL NULL. *)
Definition nextDailyResetAtExpr (extra : option json) : billing_error + option string :=
  if is_fixed daily_keys extra then
    match reset_zone extra, int_field "quota_daily_reset_hour" extra with
    | inr zone, inr hour =>
        let hour := default 0 hour in
        inr (Some (format_s (if reset_point zone 0 hour <=? now then reset_point zone 1 hour
                             else reset_point zone 0 hour)))
    | _, _ => inl ErrDatabase
    end
  else inr None.

(** EXTRACT(DOW ...): 0 is Sunday; January 1 of year 1 was a Monday. *)
Definition day_of_week (zone : Location) : Z := (@day_number zone now + 1) `mod` 7.

Definition nextWeeklyResetAtExpr (extra : option json) : billing_error + option string :=
  if is_fixed weekly_keys extra then
    match reset_zone extra, int_field "quota_weekly_reset_hour" extra,
          int_field "quota_weekly_reset_day" extra with
    | inr zone, inr hour, inr day =>
        let hour := default 0 hour in
        let days_forward := Z.rem (default 1 day - day_of_week zone + 7) 7 in
        inr (Some (format_s
          (if (days_forward =? 0) && (reset_point zone 0 hour <=? now) then reset_point zone 7 hour
           else reset_point zone days_forward hour)))
    | _, _, _ => inl ErrDatabase
    end
  else inr None.

Definition next_reset_expr (k : quota_keys) (extra : option json) : billing_error + option string :=
  if String.eqb (k_limit k) (k_limit daily_keys) then nextDailyResetAtExpr extra
  else nextWeeklyResetAtExpr extra.

(** [jsonb_build_object] of some pairs. *)
Definition build_object (l : list (string * json)) : json := JObject (list_to_map l).

(** accountQuotaTotalIncrementExpr. *)
Definition total_increment (x : numeric) (extra : option json) : billing_error + json :=
  match numeric_field "quota_used" extra with
  | inl e => inl e
  | inr used =>
      inr (json_concat (default (JObject ∅) extra)
             (build_object [("quota_used", JNumber (default 0 used + x))]))
  end.

(** accountQuotaDailyIncrementExpr and accountQuotaWeeklyIncrementExpr: what is
    appended for one period. *)
Definition period_increment (k : quota_keys) (x : numeric) (extra : option json)
    : billing_error + json :=
  match numeric_field (k_limit k) extra with
  | inl e => inl e
  | inr limit =>
      if default 0 limit <=? 0 then inr (JObject ∅) else
      match expired_expr k extra with
      | inl e => inl e
      | inr true =>
          match next_reset_expr k extra with
          | inl e => inl e
          | inr next =>
              inr (json_concat
                (build_object [(k_used k, JNumber x); (k_start k, JString (format_us now))])
                (match next with
                 | Some t => build_object [(k_reset_at k, JString t)]
                 | None => JObject ∅
                 end))
          end
      | inr false =>
          match numeric_field (k_used k) extra with
          | inl e => inl e
          | inr used =>
              inr (json_concat
                (build_object [(k_used k, JNumber (default 0 used + x));
                               (k_start k, JString (default (format_us now) (text_field (k_start k) extra)))])
                (JObject ∅))
          end
      end
  end.

(** accountQuotaDailyLimitUnsetCond, accountQuotaWeeklyLimitUnsetCond. *)
Definition limit_unset (k : quota_keys) (extra : option json) : bool :=
  match json_get (k_limit k) extra with
  | None | Some JNull => true
  | Some (JNumber n) => n <=? 0
  | Some _ => false
  end.

(** accountQuotaExtraIsObjectCond. *)
Definition extra_is_object (extra : option json) : bool :=
  match extra with Some (JObject _) => true | _ => false end.

(** One of the four statements of buildAccountQuotaIncrementSQLs: its WHERE and its
    SET. *)
Definition increment_applies (daily weekly : bool) (extra : option json) : bool :=
  ((daily && weekly) || extra_is_object extra)
  && (daily || limit_unset daily_keys extra) && (weekly || limit_unset weekly_keys extra).

Definition concat_period (included : bool) (k : quota_keys) (x : numeric) (extra : option json)
    (j : json) : billing_error + json :=
  if included then
    match period_increment k x extra with inl e => inl e | inr p => inr (json_concat j p) end
  else inr j.

Definition increment_extra (daily weekly : bool) (x : numeric) (extra : option json)
    : billing_error + json :=
  match total_increment x extra with
  | inl e => inl e
  | inr j =>
      match concat_period daily daily_keys x extra j with
      | inl e => inl e
      | inr j => concat_period weekly weekly_keys x extra j
      end
  end.

(** [COALESCE((extra->>key)::numeric, 0)], scanned. *)
Definition scan_field (key : string) (extra : option json) : tx float64 :=
  n ← evaluate (numeric_field key extra);
  mret (to_float (default 0 n)).

Definition returning_quota (extra : option json) : tx AccountQuotaState :=
  total ← scan_field "quota_used" extra;
  total_limit ← scan_field "quota_limit" extra;
  daily ← scan_field "quota_daily_used" extra;
  daily_limit ← scan_field "quota_daily_limit" extra;
  weekly ← scan_field "quota_weekly_used" extra;
  weekly_limit ← scan_field "quota_weekly_limit" extra;
  mret (mkQuotaState total total_limit daily daily_limit weekly weekly_limit).

Definition with_extra (extra : option json) (a : AccountRow) : AccountRow :=
  mkAccountRow (ar_platform a) (ar_type a) (ar_status a) (ar_credentials a) (ar_proxy_id a)
    (ar_parent_account_id a) extra (ar_deleted a).

Definition execAccountQuotaIncrement (daily weekly : bool) (accountID : Z) (amount : float64)
    : tx (option AccountQuotaState) :=
  accounts ← select bd_accounts;
  match live ar_deleted accounts accountID with
  | None => mret None
  | Some a =>
      if negb (increment_applies daily weekly (ar_extra a)) then mret None else
      x ← sent amount;
      j ← evaluate (increment_extra daily weekly x (ar_extra a));
      change (with_accounts (<[accountID := with_extra (Some j) a]> accounts));;
      state ← returning_quota (Some j);
      mret (Some state)
  end.

Definition crossed (used limit amount : float64) : bool :=
  (fzero <. limit) && (limit <=. used) && (fsub used amount <. limit).

Definition incrementUsageBillingAccountQuota (accountID : Z) (amount : float64)
    (hasDaily hasWeekly : bool) : tx AccountQuotaState :=
  state ← execAccountQuotaIncrement hasDaily hasWeekly accountID amount;
  state ← (match state with
           | None => if negb (hasDaily && hasWeekly)
                     then execAccountQuotaIncrement true true accountID amount else mret None
           | Some _ => mret state
           end);
  match state with
  | None => throw ErrAccountNotFound
  | Some st =>
      (if crossed (qs_TotalUsed st) (qs_TotalLimit st) amount
          || crossed (qs_DailyUsed st) (qs_DailyLimit st) amount
          || crossed (qs_WeeklyUsed st) (qs_WeeklyLimit st) amount
       then
         outbox ← select bd_outbox;
         change (with_outbox (enqueueSchedulerOutbox sha256_hex SchedulerOutboxEventAccountChanged
                                (Some accountID) None [] outbox))
       else mret tt);;
      mret st
  end.

(** ** Charges *)

(** The insert of [createSingle]: nothing on a conflict of (request id, key), which
    an empty request id never has.  The answer is whether a row was inserted. *)
Definition createSingle (log : UsageLog) : tx bool :=
  let requestID := TrimSpace (ul_RequestID log) in
  let arg := if String.eqb requestID "" then None else Some requestID in
  logs ← select bd_usage_logs;
  x ← sent (ul_ActualCost log);
  cost ← store 10 x;
  let same l := bool_decide (lr_request_id l = arg ∧ lr_api_key_id l = ul_APIKeyID log) in
  if bool_decide (is_Some arg) && existsb same logs then mret false else
  change (with_usage_logs (logs ++ [mkUsageLogRow arg (ul_APIKeyID log) (ul_UserID log) cost]));;
  mret true.

Definition persist_log (log : option UsageLog) : tx bool :=
  match log with
  | Some l => createSingle l;; mret true
  | None => mret false
  end.

Definition quantize_log (l : UsageLog) : UsageLog :=
  mkUsageLog (ul_RequestID l) (ul_APIKeyID l) (ul_UserID l) (QuantizeUsageBillingAmount (ul_ActualCost l)).

(** The five parts of applyUsageBillingEffects.  A key or an account that no longer
    exists skips its own counters. *)
Definition subscription_effect (cmd : UsageBillingCommand) : tx unit :=
  match uc_SubscriptionID cmd with
  | Some id => if fzero <. uc_SubscriptionCost cmd
               then incrementUsageBillingSubscription id (uc_SubscriptionCost cmd) else mret tt
  | None => mret tt
  end.

Definition balance_effect (cmd : UsageBillingCommand) : tx (option (float64 * bool)) :=
  if fzero <. uc_BalanceCost cmd
  then Some <$> deductUsageBillingBalance (uc_UserID cmd) (uc_BalanceCost cmd)
  else mret None.

Definition key_quota_effect (cmd : UsageBillingCommand) : tx bool :=
  if fzero <. uc_APIKeyQuotaCost cmd
  then tolerate ErrAPIKeyNotFound false
         (incrementUsageBillingAPIKeyQuota (uc_APIKeyID cmd) (uc_APIKeyQuotaCost cmd))
  else mret false.

Definition key_rate_effect (cmd : UsageBillingCommand) : tx unit :=
  if fzero <. uc_APIKeyRateLimitCost cmd
  then tolerate ErrAPIKeyNotFound tt
         (incrementUsageBillingAPIKeyRateLimit (uc_APIKeyID cmd) (uc_APIKeyRateLimitCost cmd))
  else mret tt.

Definition account_effect (cmd : UsageBillingCommand) : tx (option AccountQuotaState) :=
  if (fzero <. uc_AccountQuotaCost cmd) && AccountTypeSupportsQuota (uc_AccountType cmd)
  then tolerate ErrAccountNotFound None
         (Some <$> incrementUsageBillingAccountQuota (uc_AccountID cmd) (uc_AccountQuotaCost cmd)
                     (uc_AccountQuotaHasDailyLimit cmd) (uc_AccountQuotaHasWeeklyLimit cmd))
  else mret None.

Definition applyUsageBillingEffects (cmd : UsageBillingCommand) : tx UsageBillingApplyResult :=
  subscription_effect cmd;;
  balance ← balance_effect cmd;
  exhausted ← key_quota_effect cmd;
  key_rate_effect cmd;;
  quota ← account_effect cmd;
  mret (mkApplyResult true false exhausted (fst <$> balance)
          (match balance with Some b => negb b.2 | None => false end) quota).

(** How the transaction ends: it commits, something fails before it does, or it
    commits and the answer is lost. *)
Inductive outcome := Commits | Fails | CommitLost.

(** The deferred rollback: the body says whether it reaches Commit. *)
Definition transact {A} (o : outcome) (body : tx (A * bool)) (d : BillingDB)
    : (billing_error + A) * BillingDB :=
  match body d with
  | inl e => (inl e, d)
  | inr (a, commit, d') =>
      match o with
      | Fails => (inl ErrDatabase, d)
      | Commits => (inr a, if commit then d' else d)
      | CommitLost => if commit then (inl ErrDatabase, d') else (inr a, d)
      end
  end.

Definition persisted (r : UsageBillingApplyResult) (p : bool) : UsageBillingApplyResult :=
  mkApplyResult (rs_Applied r) p (rs_APIKeyQuotaExhausted r) (rs_NewBalance r)
    (rs_BalanceOverdrafted r) (rs_QuotaState r).

Definition apply_body (cmd : UsageBillingCommand) : tx (UsageBillingApplyResult * bool) :=
  applied ← claimUsageBillingRequest now (uc_RequestID cmd) (uc_APIKeyID cmd) (uc_RequestFingerprint cmd);
  if negb applied then mret (not_applied, false) else
  result ← applyUsageBillingEffects cmd;
  p ← persist_log (quantize_log <$> uc_UsageLog cmd);
  mret (persisted result p, true).

Definition Apply (o : outcome) (cmd : UsageBillingCommand) (d : BillingDB)
    : (billing_error + UsageBillingApplyResult) * BillingDB :=
  let cmd := Normalize cmd in
  if String.eqb (uc_RequestID cmd) "" then (inl ErrUsageBillingRequestIDRequired, d) else
  transact o (apply_body cmd) d.
End Effects.

(** ** Holds *)

Section Holds.
Context `{ShortestDecimal} `{Digest}.
Variable now : Z.

Definition batchImageHoldRequestPrefix : string := "batch_image_hold:".
Definition batchImageCaptureRequestPrefix : string := "batch_image_capture:".
Definition batchImageReleaseRequestPrefix : string := "batch_image_release:".

Definition BatchImageHoldRequestID (batchID : string) : string :=
  batchImageHoldRequestPrefix +:+ TrimSpace batchID.
Definition BatchImageCaptureRequestID (batchID : string) : string :=
  batchImageCaptureRequestPrefix +:+ TrimSpace batchID.
Definition BatchImageReleaseRequestID (batchID : string) : string :=
  batchImageReleaseRequestPrefix +:+ TrimSpace batchID.

(** [COALESCE(column, 0) >= $1]: nothing reaches NaN or an infinity. *)
Definition at_least (units : Z) (x : option numeric) : bool :=
  match x with Some x => x <=? of_units 8 units | None => false end.

Definition hold_result (balance frozen : Z) : BatchImageBalanceHoldResult :=
  mkHoldResult true false (Some (to_float (of_units 8 balance))) (Some (to_float (of_units 8 frozen))).

Definition userExistsForBilling (userID : Z) : tx bool :=
  users ← select bd_users;
  mret (bool_decide (is_Some (live ur_deleted users userID))).

(** No row was updated: is it the user or the guard? *)
Definition explain_miss {A} (userID : Z) (e : billing_error) : tx A :=
  exists_ ← userExistsForBilling userID;
  if negb exists_ then throw ErrUserNotFound else throw e.

Definition reserveUsageBillingBatchImageBalance (cmd : BatchImageBalanceHoldCommand)
    : tx BatchImageBalanceHoldResult :=
  if hc_HoldAmount cmd <=. fzero then mret no_hold else
  users ← select bd_users;
  match live ur_deleted users (hc_UserID cmd) with
  | Some u =>
      if at_least (ur_balance u) (argument (hc_HoldAmount cmd)) then
        x ← sent (hc_HoldAmount cmd);
        balance ← store 8 (of_units 8 (ur_balance u) - x);
        frozen ← store 8 (of_units 8 (ur_frozen_balance u) + x);
        set_balance (hc_UserID cmd) balance frozen;;
        mret (hold_result balance frozen)
      else explain_miss (hc_UserID cmd) ErrBatchImageInsufficientBalance
  | None => explain_miss (hc_UserID cmd) ErrBatchImageInsufficientBalance
  end.

(** A NaN as the actual amount is an error here; PostgreSQL would store it. *)
Definition captureUsageBillingBatchImageBalance (cmd : BatchImageBalanceHoldCommand)
    : tx BatchImageBalanceHoldResult :=
  let hold := hc_HoldAmount cmd in
  let actual := hc_ActualAmount cmd in
  if (hold <=. fzero) && (actual <=. fzero) then mret no_hold else
  if decimal_literal 1 8 <. fsub actual hold then throw ErrBatchImageSettlementCostExceedsHold else
  users ← select bd_users;
  match live ur_deleted users (hc_UserID cmd) with
  | Some u =>
      if at_least (ur_frozen_balance u) (argument hold) then
        h ← sent hold;
        a ← sent actual;
        balance ← store 8 (of_units 8 (ur_balance u) + (if a <? h then h - a else 0)
                           - (if h <? a then a - h else 0));
        frozen ← store 8 (of_units 8 (ur_frozen_balance u) - h);
        set_balance (hc_UserID cmd) balance frozen;;
        mret (hold_result balance frozen)
      else explain_miss (hc_UserID cmd) ErrFrozenBalanceInsufficient
  | None => explain_miss (hc_UserID cmd) ErrFrozenBalanceInsufficient
  end.

Definition releaseUsageBillingBatchImageBalance (cmd : BatchImageBalanceHoldCommand)
    : tx BatchImageBalanceHoldResult :=
  if hc_HoldAmount cmd <=. fzero then mret no_hold else
  held ← batchImageHoldClaimExists (BatchImageHoldRequestID (hc_BatchID cmd)) (hc_APIKeyID cmd);
  if negb held then mret no_hold else
  users ← select bd_users;
  match live ur_deleted users (hc_UserID cmd) with
  | Some u =>
      if at_least (ur_frozen_balance u) (argument (hc_HoldAmount cmd)) then
        x ← sent (hc_HoldAmount cmd);
        balance ← store 8 (of_units 8 (ur_balance u) + x);
        frozen ← store 8 (of_units 8 (ur_frozen_balance u) - x);
        set_balance (hc_UserID cmd) balance frozen;;
        mret (hold_result balance frozen)
      else explain_miss (hc_UserID cmd) ErrFrozenBalanceInsufficient
  | None => explain_miss (hc_UserID cmd) ErrFrozenBalanceInsufficient
  end.

Definition with_applied (r : BatchImageBalanceHoldResult) (applied p : bool) : BatchImageBalanceHoldResult :=
  mkHoldResult applied p (hr_NewBalance r) (hr_FrozenBalance r).

(** A repeated command still persists its usage log. *)
Definition hold_body (cmd : BatchImageBalanceHoldCommand)
    (apply : BatchImageBalanceHoldCommand → tx BatchImageBalanceHoldResult)
    : tx (BatchImageBalanceHoldResult * bool) :=
  applied ← claimUsageBillingRequest now (hc_RequestID cmd) (hc_APIKeyID cmd) (hc_RequestFingerprint cmd);
  if negb applied then
    p ← persist_log (hc_UsageLog cmd);
    mret (with_applied no_hold false p, p)
  else
    result ← apply cmd;
    p ← persist_log (hc_UsageLog cmd);
    mret (with_applied result true p, true).

Definition applyBatchImageBalanceHold (o : outcome) (cmd : BatchImageBalanceHoldCommand)
    (apply : BatchImageBalanceHoldCommand → tx BatchImageBalanceHoldResult) (d : BillingDB)
    : (billing_error + BatchImageBalanceHoldResult) * BillingDB :=
  let cmd := NormalizeHold cmd in
  if String.eqb (hc_RequestID cmd) "" then (inl ErrUsageBillingRequestIDRequired, d) else
  transact o (hold_body cmd apply) d.

Definition ReserveBatchImageBalance (o : outcome) (cmd : BatchImageBalanceHoldCommand) (d : BillingDB) :=
  applyBatchImageBalanceHold o cmd reserveUsageBillingBatchImageBalance d.
Definition CaptureBatchImageBalance (o : outcome) (cmd : BatchImageBalanceHoldCommand) (d : BillingDB) :=
  applyBatchImageBalanceHold o cmd captureUsageBillingBatchImageBalance d.
Definition ReleaseBatchImageBalance (o : outcome) (cmd : BatchImageBalanceHoldCommand) (d : BillingDB) :=
  applyBatchImageBalanceHold o cmd releaseUsageBillingBatchImageBalance d.
End Holds.
