(* ===== verification/UsageBillingExamples.v ===== *)
(** * Usage billing: a small database to run it on

    Concrete answers of the code that is not modelled, and a database with one row
    per table, for the examples of the files that follow. *)

From Stdlib Require Import ZArith Ascii String SpecFloat.
From stdpp Require Import base tactics numbers list gmap strings.
From S2P Require Import Prelude GoStrings GoFloat GoTime GoDecimal ProxyLifecycle BillingData UsageBilling.

Open Scope go_scope.
Open Scope string_scope.
Open Scope Z_scope.

(** A digest without collisions. *)
Definition plain_digest : Digest := λ s, s.

(** Numbers of the examples are numbers in the document, never texts; instants are
    written as integers, and the one zone is UTC. *)
Definition demo_sql : SqlText := {|
  cast_numeric := λ _, None;
  cast_int := λ _, None;
  cast_timestamptz := λ _, None;
  json_text := λ j, match j with JNumber n => FormatInt (to_units 0 n) | _ => "" end;
  format_us := FormatInt;
  format_s := FormatInt;
  zone_named := λ name, if String.eqb name "UTC" then Some (fixed_zone 0) else None
|}.

Definition demo_owners : CodexOwners := {|
  observation_generation := λ id _ _, FormatInt id;
  credentials_parse := λ _, true
|}.

(** A day well after the epoch, at noon. *)
Definition demo_noon : Z := 738000 * Day + 12 * Hour.

(** [10^8] units of 1e-8: one dollar. *)
Definition dollar : Z := 10 ^ 8.

Definition demo_key : APIKeyRow :=
  mkAPIKeyRow (5 * dollar) (4 * dollar) StatusAPIKeyActive 0 0 0 None None None false.

Definition demo_subscription : SubscriptionRow :=
  mkSubscriptionRow 2 SubscriptionStatusActive (demo_noon - 5 * Day) (demo_noon + 25 * Day)
    (3 * 10 ^ 10) (3 * 10 ^ 10) (3 * 10 ^ 10) 0 (Some (demo_noon - Day)) (Some (demo_noon - Day)) None None
    0 (demo_noon - Hour) false.

Definition demo_group : GroupRow :=
  mkGroupRow PlatformOpenAI SubscriptionTypeSubscription None (Some 9) 1 false.

Definition demo_extra : gmap string json :=
  list_to_map [("quota_used", JNumber 0); ("quota_daily_limit", JNumber 3); ("note", JString "kept")].

Definition demo_account : AccountRow :=
  mkAccountRow PlatformOpenAI AccountTypeOAuth StatusAccountActive "{}" None None
    (Some (JObject demo_extra)) false.

Definition demo_event : ResetEventRow :=
  mkResetEventRow 2 9 1 "9" "pending" (demo_noon - 2 * Hour) false.

Definition demo_billing : BillingDB :=
  mkBillingDB {[7 := mkUserRow (100 * dollar) 0 false]} {[3 := demo_key]} {[5 := demo_subscription]}
    {[2 := demo_group]} {[9 := demo_account]} {[(2, 9)]} ∅ {[1 := demo_event]} ∅ ∅ [] [].

(** A database that holds one user and nothing else. *)
Definition one_user (balance frozen : Z) : BillingDB :=
  mkBillingDB {[7 := mkUserRow balance frozen false]} ∅ ∅ ∅ ∅ ∅ ∅ ∅ ∅ ∅ [] [].

(** A charge of one amount to user 7, to the quota and the rates of key 3 if it has a
    subscription 5, and to that. *)
Definition demo_charge (request fingerprint : string) (sub : option Z) (cost : float64) : UsageBillingCommand :=
  let rest := if sub is Some _ then cost else fzero in
  mkUsageBillingCommand request 3 fingerprint "" 7 9 sub AccountTypeAPIKey "m" "" "" 0 10 20 0 0 0 ""
    cost rest rest rest fzero None true true.

Definition demo_hold (request batch : string) (hold actual : float64) : BatchImageBalanceHoldCommand :=
  mkHoldCommand request 3 "f" "" 7 batch hold actual None.

(** One dollar. *)
Definition demo_cost : float64 := to_float (of_units 8 dollar).
