(* ===== verification/UsageBillingCorrect.v ===== *)
(** * Usage billing: what charges and holds guarantee

    A charge moves every ledger by the same quantised amount; a request takes effect
    once, however often it is repeated and whatever fails; holds conserve money;
    windows, quotas and flags are exact. *)

From Stdlib Require Import ZArith Lia Ascii String SpecFloat.
From stdpp Require Import base tactics numbers list gmap strings sorting.
From S2P Require Import Prelude GoStrings GoFloat GoTime GoDecimal ProxyLifecycle BillingData UsageBilling UsageBillingExamples.

Open Scope go_scope.
Open Scope string_scope.
Open Scope Z_scope.

#[local] Opaque Z.pow places to_float shortest.

(** ** Amounts *)

(** The units of 1e-8 that an amount is worth, and the amounts for which float64
    does not lose them: numbers below ten million. *)
Definition units {SD : ShortestDecimal} (c : float64) : Z := to_units 8 (shortest c).

Definition payable {SD : ShortestDecimal} (c : float64) : Prop :=
  IsNaN c = false ∧ IsInf c = false ∧ Z.abs (units c) < fifteen_digits.

Section Amounts.
Context `{ShortestDecimal}.

Lemma scale8 : 8 ≤ places.
Proof. by rewrite places_eq. Qed.

Lemma shortest_zero : shortest fzero = 0.
Proof.
  pose proof (shortest_fifteen 0) as H0. unfold of_units in H0. rewrite Z.mul_0_l in H0.
  change fzero with (to_float 0). apply H0. unfold fifteen_digits. pose proof (pow10_pos 15). lia.
Qed.

Lemma feq_zero c : feq c fzero = true → ∃ s, c = S754_zero s.
Proof. destruct c as [s|[]| |[] m e]; try done. by exists s. Qed.

(** A quantised amount is the float64 of its units, a zero keeps its sign. *)
Lemma Quantize_units c :
  payable c → feq c fzero = false → QuantizeUsageBillingAmount c = to_float (of_units 8 (units c)).
Proof. intros (Hn & Hi & _) Hz. unfold QuantizeUsageBillingAmount. by rewrite Hn, Hi, Hz. Qed.

(** What the database receives is exactly that many units. *)
Lemma argument_Quantize c :
  payable c → fzero <. QuantizeUsageBillingAmount c = true →
  argument (QuantizeUsageBillingAmount c) = Some (of_units 8 (units c)) ∧ 0 < units c.
Proof.
  intros Hc Hpos. destruct (feq c fzero) eqn:Hz.
  { destruct (feq_zero c Hz) as [s ->]. destruct s; discriminate Hpos. }
  rewrite Quantize_units in * by done. destruct Hc as (_ & _ & Hu).
  unfold argument. rewrite to_float_not_nan, to_float_not_inf, shortest_fifteen by done.
  rewrite to_float_positive in Hpos by done. split; [done|lia].
Qed.

Lemma Quantize_positive c :
  payable c → feq c fzero = false → fzero <. QuantizeUsageBillingAmount c = (0 <? units c).
Proof.
  intros Hc Hz. rewrite Quantize_units by done. apply to_float_positive. by destruct Hc as (_ & _ & ?).
Qed.

(** What a cost takes from a ledger, in units of 1e-8. *)
Definition charge_of (c : float64) : Z :=
  if fzero <. QuantizeUsageBillingAmount c then units c else 0.

(** The float64 of [n] units of 1e-8. *)
Definition is_amount (c : float64) (n : Z) : Prop :=
  c = to_float (of_units 8 n) ∧ Z.abs n < fifteen_digits.

Lemma amount_argument c n : is_amount c n → argument c = Some (of_units 8 n).
Proof.
  intros [-> Hn]. unfold argument. by rewrite to_float_not_nan, to_float_not_inf, shortest_fifteen by done.
Qed.

Lemma amount_units c n : is_amount c n → units c = n.
Proof. intros [-> Hn]. unfold units. rewrite shortest_fifteen by done. by apply to_units_of_units, scale8. Qed.

Lemma amount_payable c n : is_amount c n → payable c.
Proof.
  intros Hc. split; [|split]; [..|by rewrite (amount_units _ _ Hc); destruct Hc];
    destruct Hc as [-> Hn]; by rewrite ?to_float_not_nan, ?to_float_not_inf.
Qed.

Lemma amount_positive c n : is_amount c n → 0 < n → feq c fzero = false ∧ fzero <. c = true.
Proof.
  intros [-> Hn] Hpos. destruct (to_float_units n Hn) as [_ [[_ ->]|(q & e & E & _)]]; [lia|].
  rewrite E. by rewrite (proj2 (Z.ltb_ge _ _)) by lia.
Qed.

(** An amount is quantised already. *)
Lemma Quantize_amount c n : is_amount c n → 0 < n → QuantizeUsageBillingAmount c = c.
Proof.
  intros Hc Hn. rewrite Quantize_units, (amount_units _ _ Hc);
    [by destruct Hc as [-> _]|by eapply amount_payable|by eapply amount_positive].
Qed.

Lemma charge_of_amount c n : is_amount c n → 0 < n → charge_of c = n.
Proof.
  intros Hc Hn. unfold charge_of. rewrite (Quantize_amount _ _ Hc), (amount_units _ _ Hc) by done.
  by rewrite (proj2 (amount_positive _ _ Hc Hn)).
Qed.

(** Quantising again changes nothing. *)
Lemma Quantize_idem c :
  payable c → QuantizeUsageBillingAmount (QuantizeUsageBillingAmount c) = QuantizeUsageBillingAmount c.
Proof.
  intros Hc. destruct (feq c fzero) eqn:Hz.
  { destruct (feq_zero c Hz) as [s ->]. done. }
  rewrite (Quantize_units c) by done. destruct Hc as (_ & _ & Hu).
  unfold QuantizeUsageBillingAmount at 1. destruct (_ || _ || _); [done|].
  rewrite shortest_fifteen by done. unfold Round. by rewrite to_units_of_units by apply scale8.
Qed.
End Amounts.

(** ** Frames: what a transaction leaves alone *)

Definition preserves {A B} (f : BillingDB → B) (m : tx A) : Prop :=
  ∀ d r d', m d = inr (r, d') → f d' = f d.

Section Frames.
Context {B : Type} (f : BillingDB → B).

Lemma preserves_bind {A A'} (m : tx A) (k : A → tx A') :
  preserves f m → (∀ a, preserves f (k a)) → preserves f (m ≫= k).
Proof.
  intros Hm Hk d r d' Hr. apply tx_bind_inv in Hr as (a & d1 & H1 & H2).
  rewrite (Hk a d1 r d' H2). by apply (Hm d a).
Qed.

Lemma preserves_fmap {A A'} (g : A → A') (m : tx A) : preserves f m → preserves f (g <$> m).
Proof. intros Hm d r d' Hr. apply tx_fmap_inv in Hr as (a & H1 & _). by apply (Hm d a). Qed.

Lemma preserves_ret {A} (a : A) : preserves f (mret a).
Proof. intros d r d' Hr. by tx_inv. Qed.

Lemma preserves_throw {A} e : preserves f (throw e : tx A).
Proof. done. Qed.

Lemma preserves_select {A} (g : BillingDB → A) : preserves f (select g).
Proof. intros d r d' Hr. by tx_inv. Qed.

Lemma preserves_change g : (∀ d, f (g d) = f d) → preserves f (change g).
Proof. intros Hg d r d' Hr. tx_inv. apply Hg. Qed.

Lemma preserves_evaluate {A} (e : billing_error + A) : preserves f (evaluate e).
Proof. destruct e; [apply preserves_throw|apply preserves_ret]. Qed.

Lemma preserves_require {A} e (r : option A) : preserves f (require e r).
Proof. destruct r; [apply preserves_ret|apply preserves_throw]. Qed.

Lemma preserves_store scale x : preserves f (store scale x).
Proof. intros d r d' Hr. by tx_inv. Qed.

Lemma preserves_sent `{ShortestDecimal} a : preserves f (sent a).
Proof. intros d r d' Hr. by tx_inv. Qed.

Lemma preserves_tolerate {A} e (a : A) m : preserves f m → preserves f (tolerate e a m).
Proof. intros Hm d r d' [Hr|(_ & _ & ->)]%tolerate_inv; [by apply (Hm d r)|done]. Qed.
End Frames.

Create HintDb frames.
#[export] Hint Resolve preserves_fmap preserves_ret preserves_throw preserves_select
  preserves_evaluate preserves_require preserves_store preserves_sent preserves_tolerate : frames.

Ltac frame :=
  repeat first
    [ progress intros
    | solve [eauto with frames nocore]
    | apply preserves_bind
    | apply preserves_change; solve [auto]
    | case_match ].

Section EffectFrames.
Context `{ShortestDecimal} `{Digest} `{UnicodeCase} `{SqlText} `{CodexOwners} `{Location}.
Variable now clock : Z.

Lemma set_balance_frame {B} (f : BillingDB → B) id b fr :
  (∀ m d, f (with_users m d) = f d) → preserves f (set_balance id b fr).
Proof. intros Hf. unfold set_balance. frame. Qed.
#[local] Hint Resolve set_balance_frame : frames.

Lemma source_generation_frame {B} (f : BillingDB → B) s :
  preserves f (source_generation s).
Proof. unfold source_generation. frame. Qed.
#[local] Hint Resolve source_generation_frame : frames.

Lemma follow_frame {B} (f : BillingDB → B) id :
  (∀ m d, f (with_subscriptions m d) = f d) →
  preserves f (applyPendingQuotaFollowResetForSubscription clock id).
Proof.
  intros Hf. unfold applyPendingQuotaFollowResetForSubscription.
  frame.
Qed.
#[local] Hint Resolve follow_frame : frames.

Lemma subscription_frame {B} (f : BillingDB → B) id c :
  (∀ m d, f (with_subscriptions m d) = f d) →
  preserves f (incrementUsageBillingSubscription now clock id c).
Proof.
  intros Hf. unfold incrementUsageBillingSubscription, charge_subscription.
  frame.
Qed.
#[local] Hint Resolve subscription_frame : frames.

Lemma deduct_frame {B} (f : BillingDB → B) id c :
  (∀ m d, f (with_users m d) = f d) → preserves f (deductUsageBillingBalance id c).
Proof. intros Hf. unfold deductUsageBillingBalance. frame. Qed.
#[local] Hint Resolve deduct_frame : frames.

Lemma key_quota_frame {B} (f : BillingDB → B) id c :
  (∀ m d, f (with_api_keys m d) = f d) → preserves f (incrementUsageBillingAPIKeyQuota id c).
Proof. intros Hf. unfold incrementUsageBillingAPIKeyQuota. frame. Qed.
#[local] Hint Resolve key_quota_frame : frames.

Lemma key_rate_frame {B} (f : BillingDB → B) id c :
  (∀ m d, f (with_api_keys m d) = f d) → preserves f (incrementUsageBillingAPIKeyRateLimit now id c).
Proof. intros Hf. unfold incrementUsageBillingAPIKeyRateLimit. frame. Qed.
#[local] Hint Resolve key_rate_frame : frames.

Lemma account_quota_frame {B} (f : BillingDB → B) id c hd hw :
  (∀ m d, f (with_accounts m d) = f d) → (∀ m d, f (with_outbox m d) = f d) →
  preserves f (incrementUsageBillingAccountQuota now id c hd hw).
Proof.
  intros Hf Hf'. unfold incrementUsageBillingAccountQuota, execAccountQuotaIncrement, returning_quota, scan_field.
  frame.
Qed.
#[local] Hint Resolve account_quota_frame : frames.

Lemma persist_frame {B} (f : BillingDB → B) l :
  (∀ m d, f (with_usage_logs m d) = f d) → preserves f (persist_log l).
Proof. intros Hf. unfold persist_log, createSingle. frame. Qed.
#[local] Hint Resolve persist_frame : frames.

Lemma claim_frame {B} (f : BillingDB → B) id key fp :
  (∀ h c d, f (with_dedup h c d) = f d) → preserves f (claimUsageBillingRequest now id key fp).
Proof. intros Hf. unfold claimUsageBillingRequest. frame. Qed.
#[local] Hint Resolve claim_frame : frames.

Lemma subscription_effect_frame {B} (f : BillingDB → B) cmd :
  (∀ m d, f (with_subscriptions m d) = f d) → preserves f (subscription_effect now clock cmd).
Proof. intros Hf. unfold subscription_effect. frame. Qed.
#[local] Hint Resolve subscription_effect_frame : frames.

Lemma balance_effect_frame {B} (f : BillingDB → B) cmd :
  (∀ m d, f (with_users m d) = f d) → preserves f (balance_effect cmd).
Proof. intros Hf. unfold balance_effect. frame. Qed.
#[local] Hint Resolve balance_effect_frame : frames.

Lemma key_quota_effect_frame {B} (f : BillingDB → B) cmd :
  (∀ m d, f (with_api_keys m d) = f d) → preserves f (key_quota_effect cmd).
Proof. intros Hf. unfold key_quota_effect. frame. Qed.
#[local] Hint Resolve key_quota_effect_frame : frames.

Lemma key_rate_effect_frame {B} (f : BillingDB → B) cmd :
  (∀ m d, f (with_api_keys m d) = f d) → preserves f (key_rate_effect now cmd).
Proof. intros Hf. unfold key_rate_effect. frame. Qed.
#[local] Hint Resolve key_rate_effect_frame : frames.

Lemma account_effect_frame {B} (f : BillingDB → B) cmd :
  (∀ m d, f (with_accounts m d) = f d) → (∀ m d, f (with_outbox m d) = f d) →
  preserves f (account_effect now cmd).
Proof. intros Hf Hf'. unfold account_effect. frame. Qed.
#[local] Hint Resolve account_effect_frame : frames.

(** The effects of a charge leave the claims and the logs alone. *)
Lemma effects_frame {B} (f : BillingDB → B) cmd :
  (∀ m d, f (with_subscriptions m d) = f d) → (∀ m d, f (with_users m d) = f d) →
  (∀ m d, f (with_api_keys m d) = f d) → (∀ m d, f (with_accounts m d) = f d) →
  (∀ m d, f (with_outbox m d) = f d) →
  preserves f (applyUsageBillingEffects now clock cmd).
Proof. intros. unfold applyUsageBillingEffects. frame. Qed.
#[local] Hint Resolve effects_frame : frames.

(** ** What each effect does *)

Lemma store_units u d r d' : store 8 (of_units 8 u) d = inr (r, d') → r = u ∧ d' = d.
Proof. intros [-> ->]%store_inv. by rewrite to_units_of_units by apply scale8. Qed.

Definition charge_user (n : Z) (u : UserRow) : UserRow :=
  mkUserRow (ur_balance u - n) (ur_frozen_balance u) (ur_deleted u).

Lemma deduct_spec id c d r d' n :
  argument c = Some (of_units 8 n) → deductUsageBillingBalance id c d = inr (r, d') →
  d' = with_users (alter (charge_user n) id (bd_users d)) d ∧
  ∃ u, live ur_deleted (bd_users d) id = Some u ∧
    r = (to_float (of_units 8 (ur_balance u - n)), n <=? ur_balance u).
Proof.
  intros Hc Hr. unfold deductUsageBillingBalance, set_balance in Hr. tx_inv.
  destruct (live ur_deleted (bd_users d) id) as [u|] eqn:Hu; [|by tx_inv]. tx_inv. simplify_eq.
  rewrite to_units_sub_units by apply scale8. apply live_Some in Hu as [Hu Hd]. split.
  - f_equal. apply map_eq. intros j. rewrite lookup_insert, lookup_alter. case_decide; [subst|done].
    rewrite Hu. simpl. unfold charge_user. by rewrite Hd.
  - exists u. split; [done|]. f_equal. apply eq_bool_prop_intro.
    rewrite !Is_true_true, !Z.leb_le. apply of_units_le, scale8.
Qed.

(** The key's quota: the flag is raised by the charge that reaches it. *)
Definition reaches_quota (n : Z) (k : APIKeyRow) : bool :=
  (0 <? kr_quota k) && (kr_quota_used k <? kr_quota k) && (kr_quota k <=? kr_quota_used k + n).

Definition charge_quota (n : Z) (k : APIKeyRow) : APIKeyRow :=
  if kr_deleted k then k else
  mkAPIKeyRow (kr_quota k) (kr_quota_used k + n)
    (if reaches_quota n k && String.eqb (kr_status k) StatusAPIKeyActive
     then StatusAPIKeyQuotaExhausted else kr_status k)
    (kr_usage_5h k) (kr_usage_1d k) (kr_usage_7d k)
    (kr_window_5h_start k) (kr_window_1d_start k) (kr_window_7d_start k) false.

Lemma of_units_leb s u v : s ≤ places → (of_units s u <=? of_units s v) = (u <=? v).
Proof.
  intros. apply eq_bool_prop_intro. rewrite !Is_true_true, !Z.leb_le. by apply of_units_le.
Qed.

Lemma of_units_ltb s u v : s ≤ places → (of_units s u <? of_units s v) = (u <? v).
Proof. intros. rewrite !Z.ltb_antisym. by rewrite of_units_leb. Qed.

Lemma of_units_add s u v : of_units s u + of_units s v = of_units s (u + v).
Proof. unfold of_units. lia. Qed.

Lemma of_units_sub s u v : of_units s u - of_units s v = of_units s (u - v).
Proof. unfold of_units. lia. Qed.

Lemma alter_live {A} (deleted : A → bool) (g : A → A) (m : gmap Z A) id k :
  live deleted m id = Some k → <[id := g k]> m = alter g id m.
Proof.
  intros [Hk _]%live_Some. apply map_eq. intros j. rewrite lookup_insert, lookup_alter.
  case_decide; [subst; by rewrite Hk|done].
Qed.

Lemma key_quota_spec id c d r d' n :
  argument c = Some (of_units 8 n) → incrementUsageBillingAPIKeyQuota id c d = inr (r, d') →
  d' = with_api_keys (alter (charge_quota n) id (bd_api_keys d)) d ∧
  ∃ k, live kr_deleted (bd_api_keys d) id = Some k ∧ r = reaches_quota n k.
Proof.
  intros Hc Hr. unfold incrementUsageBillingAPIKeyQuota in Hr. tx_inv.
  destruct (live kr_deleted (bd_api_keys d) id) as [k|] eqn:Hk; [|by tx_inv]. tx_inv. simplify_eq.
  rewrite to_units_add_units, of_units_add, of_units_sub, of_units_leb, of_units_ltb by apply scale8.
  pose proof Hk as [_ Hd]%live_Some. split.
  - f_equal. rewrite <-(alter_live _ (charge_quota n) _ _ _ Hk). f_equal. unfold charge_quota. rewrite Hd.
    f_equal. unfold reaches_quota. by destruct (_ <? _), (String.eqb _ _), (_ <? _), (_ <=? _).
  - exists k. split; [done|]. unfold reaches_quota. replace (kr_quota_used k + n - n) with (kr_quota_used k) by lia.
    by destruct (0 <? _), (_ <=? _), (_ <? _).
Qed.

(** A window of the key: restarted by the first charge after it has passed. *)
Definition charged_window (span : Z) (start : option Z) (usage n : Z) : Z :=
  match start with Some s => if s + span <=? now then n else usage + n | None => usage + n end.

Definition charge_windows (n : Z) (k : APIKeyRow) : APIKeyRow :=
  if kr_deleted k then k else
  mkAPIKeyRow (kr_quota k) (kr_quota_used k) (kr_status k)
    (charged_window (5 * Hour) (kr_window_5h_start k) (kr_usage_5h k) n)
    (charged_window (24 * Hour) (kr_window_1d_start k) (kr_usage_1d k) n)
    (charged_window (7 * Day) (kr_window_7d_start k) (kr_usage_7d k) n)
    (window_start now (5 * Hour) (kr_window_5h_start k) now)
    (window_start now (24 * Hour) (kr_window_1d_start k) (StartOfDay now))
    (window_start now (7 * Day) (kr_window_7d_start k) (StartOfDay now)) false.

Lemma window_usage_units span start usage n :
  to_units 8 (window_usage now span start usage (of_units 8 n)) = charged_window span start usage n.
Proof.
  unfold window_usage, charged_window.
  destruct start as [s|]; [destruct (_ <=? _)|];
    rewrite ?to_units_add_units, ?to_units_of_units by apply scale8; done.
Qed.

Lemma key_rate_spec id c d r d' n :
  argument c = Some (of_units 8 n) → incrementUsageBillingAPIKeyRateLimit now id c d = inr (r, d') →
  d' = with_api_keys (alter (charge_windows n) id (bd_api_keys d)) d.
Proof.
  intros Hc Hr. unfold incrementUsageBillingAPIKeyRateLimit in Hr. tx_inv.
  destruct (live kr_deleted (bd_api_keys d) id) as [k|] eqn:Hk; [|by tx_inv]. tx_inv. simplify_eq.
  rewrite !window_usage_units. pose proof Hk as [_ Hd]%live_Some. f_equal.
  rewrite <-(alter_live _ (charge_windows n) _ _ _ Hk). unfold charge_windows. by rewrite Hd.
Qed.

Lemma scale10 : 10 ≤ places.
Proof. by rewrite places_eq. Qed.

Lemma of_units_8_10 n : of_units 8 n = of_units 10 (100 * n).
Proof.
  unfold of_units. replace (places - 8) with (2 + (places - 10)) by lia.
  rewrite Z.pow_add_r by (pose proof places_eq; lia). change (10 ^ 2) with 100. lia.
Qed.

(** Usage of a subscription counts in units of 1e-10. *)
Definition charge_sub (n : Z) (s : SubscriptionRow) : SubscriptionRow :=
  let fresh := window_passed now (5 * Hour) (sr_five_hour_window_start s) in
  mkSubscriptionRow (sr_group_id s) (sr_status s) (sr_starts_at s) (sr_expires_at s)
    (sr_daily_usage_usd s + 100 * n) (sr_weekly_usage_usd s + 100 * n)
    (sr_monthly_usage_usd s + 100 * n)
    (if fresh then 100 * n else sr_five_hour_usage_usd s + 100 * n)
    (sr_daily_window_start s) (sr_weekly_window_start s) (sr_monthly_window_start s)
    (if fresh then Some now else sr_five_hour_window_start s)
    (sr_quota_follow_reset_event_id s) (Z.max clock (sr_updated_at s + 1000)) (sr_deleted s).

Lemma charge_subscription_spec s d r d' n :
  0 < n → charge_subscription now clock (of_units 8 n) s d = inr (r, d') → r = charge_sub n s ∧ d' = d.
Proof.
  intros Hn Hr. unfold charge_subscription in Hr. tx_inv. split; [|done].
  rewrite !of_units_8_10, !to_units_add_units by apply scale10.
  pose proof (of_units_pos 10 (100 * n) scale10).
  destruct (Z.leb_spec (of_units 10 (100 * n)) 0); [lia|]. unfold charge_sub.
  destruct (window_passed _ _ _); by rewrite ?to_units_add_units, ?to_units_of_units by apply scale10.
Qed.

Lemma subscription_spec id c d r d' n :
  argument c = Some (of_units 8 n) → 0 < n →
  incrementUsageBillingSubscription now clock id c d = inr (r, d') →
  ∃ d1 s, applyPendingQuotaFollowResetForSubscription clock id d = inr (tt, d1) ∧ live sr_deleted (bd_subscriptions d1) id = Some s ∧
    d' = with_subscriptions (<[id := charge_sub n s]> (bd_subscriptions d1)) d1.
Proof.
  intros Hc Hn Hr. unfold incrementUsageBillingSubscription in Hr. tx_inv.
  destruct (live sr_deleted _ id) as [s|] eqn:Hs; [|by tx_inv].
  destruct (live gr_deleted _ _) as [g|]; [|by tx_inv]. tx_inv. simplify_eq.
  match goal with H : charge_subscription _ _ _ _ _ = _ |- _ => apply charge_subscription_spec in H as [-> ->]; [|done] end.
  destruct a. eauto 10.
Qed.

(** ** A charge *)

Definition when_positive {A} (n : Z) (f : Z → A → A) : A → A := if 0 <? n then f n else id.

Lemma claim_true key kid fp d d' :
  claimUsageBillingRequest now key kid fp d = inr (true, d') →
  bd_dedup d !! (key, kid) = None ∧ bd_archive d !! (key, kid) = None ∧
  d' = with_dedup (<[(key, kid) := mkDedupRow fp now]> (bd_dedup d)) (bd_archive d) d.
Proof.
  intros Hr. unfold claimUsageBillingRequest in Hr. tx_inv.
  destruct (bd_dedup d !! _) eqn:E1; [destruct (String.eqb _ _); by tx_inv|].
  tx_inv. destruct (bd_archive d !! _) eqn:E2; [destruct (String.eqb _ _); by tx_inv|]. by tx_inv.
Qed.

Lemma claim_false key kid fp d d' :
  claimUsageBillingRequest now key kid fp d = inr (false, d') →
  ∃ row, (bd_dedup d ∪ bd_archive d) !! (key, kid) = Some row ∧
    TrimSpace (dr_request_fingerprint row) = TrimSpace fp.
Proof.
  intros Hr. unfold claimUsageBillingRequest in Hr. tx_inv.
  destruct (bd_dedup d !! _) as [row|] eqn:E1.
  - exists row. split; [by apply lookup_union_Some_l|].
    destruct (String.eqb_spec (TrimSpace (dr_request_fingerprint row)) (TrimSpace fp)); [done|by tx_inv].
  - tx_inv. destruct (bd_archive d !! _) as [row|] eqn:E2; [|by tx_inv]. exists row.
    rewrite lookup_union_r by done. split; [done|].
    destruct (String.eqb_spec (TrimSpace (dr_request_fingerprint row)) (TrimSpace fp)); [done|by tx_inv].
Qed.

Lemma Apply_applied o cmd d r d' :
  Apply now clock o cmd d = (inr r, d') → rs_Applied r = true →
  o = Commits ∧ ∃ d1 r0 d2 p,
    claimUsageBillingRequest now (uc_RequestID (Normalize cmd)) (uc_APIKeyID cmd)
      (uc_RequestFingerprint (Normalize cmd)) d = inr (true, d1) ∧
    applyUsageBillingEffects now clock (Normalize cmd) d1 = inr (r0, d2) ∧
    persist_log (quantize_log <$> uc_UsageLog cmd) d2 = inr (p, d') ∧ r = persisted r0 p.
Proof.
  unfold Apply. destruct (String.eqb _ _); [done|]. unfold transact.
  destruct (apply_body _ _ _ d) as [|[[r1 commit] d3]] eqn:Hb; [done|]. unfold apply_body in Hb. tx_inv.
  destruct a; simpl in *; tx_inv.
  - simplify_eq. destruct o; [|done|done]. intros [= <- <-] _. split; [done|].
    match goal with H : claimUsageBillingRequest _ _ _ _ _ = _ |- _ => exists d0 end.
    eauto 10.
  - simplify_eq. destruct o; [intros [= <- <-]|done|intros [= <- <-]]; done.
Qed.

Lemma charge_of_positive c :
  payable c → fzero <. QuantizeUsageBillingAmount c = true →
  argument (QuantizeUsageBillingAmount c) = Some (of_units 8 (charge_of c)) ∧ 0 < charge_of c.
Proof. intros Hc Hpos. unfold charge_of. rewrite Hpos. by apply argument_Quantize. Qed.

Lemma charge_of_zero c : fzero <. QuantizeUsageBillingAmount c = false → charge_of c = 0.
Proof. unfold charge_of. by intros ->. Qed.

Lemma when_positive_true {A} n (f : Z → A → A) : 0 < n → when_positive n f = f n.
Proof. intros. unfold when_positive. by rewrite (proj2 (Z.ltb_lt _ _)). Qed.

Lemma when_positive_zero {A} n (f : Z → A → A) : n = 0 → when_positive n f = id.
Proof. by intros ->. Qed.

Lemma balance_effect_spec cmd d r d' :
  payable (uc_BalanceCost cmd) → balance_effect (Normalize cmd) d = inr (r, d') →
  bd_users d' = when_positive (charge_of (uc_BalanceCost cmd))
                  (λ n, alter (charge_user n) (uc_UserID cmd)) (bd_users d).
Proof.
  intros Hc Hr. unfold balance_effect in Hr; simpl in Hr. case_match eqn:Hpos; tx_inv.
  - destruct (charge_of_positive _ Hc Hpos) as [Harg Hn]. rewrite when_positive_true by done.
    by eapply deduct_spec in Hrun as [-> _].
  - by rewrite when_positive_zero by by apply charge_of_zero.
Qed.

Lemma alter_dead {A} (deleted : A → bool) (g : A → A) (m : gmap Z A) id :
  (∀ a, deleted a = true → g a = a) → live deleted m id = None → alter g id m = m.
Proof.
  intros Hg Hl. apply map_eq. intros j. rewrite lookup_alter. case_decide; [subst|done].
  unfold live in Hl. destruct (m !! j) as [a|]; [|done]. simpl. f_equal. apply Hg. by destruct (deleted a).
Qed.

(** A charge to a key that is gone is no charge. *)
Lemma tolerated_key {A} (a : A) (m : tx A) (g : APIKeyRow → APIKeyRow) id d r d' :
  (∀ k, kr_deleted k = true → g k = k) →
  (m d = inl ErrAPIKeyNotFound → live kr_deleted (bd_api_keys d) id = None) →
  (∀ r d', m d = inr (r, d') → bd_api_keys d' = alter g id (bd_api_keys d)) →
  tolerate ErrAPIKeyNotFound a m d = inr (r, d') → bd_api_keys d' = alter g id (bd_api_keys d).
Proof.
  intros Hg He Hm [Hr|(Hr & -> & ->)]%tolerate_inv; [by eapply Hm|].
  by rewrite (alter_dead kr_deleted) by auto.
Qed.

Lemma sent_error {A} c (k : numeric → tx A) d e :
  (∀ x e', k x d = inl e' → e' = ErrDatabase) → (sent c ≫= k) d = inl e → e = ErrDatabase.
Proof.
  intros Hk. unfold mbind, tx_bind, sent. destruct (argument c) as [x|]; [apply Hk|by intros [= <-]].
Qed.

Lemma store_error {A} scale x (k : Z → tx A) d e :
  (∀ u e', k u d = inl e' → e' = ErrDatabase) → (store scale x ≫= k) d = inl e → e = ErrDatabase.
Proof.
  intros Hk. unfold mbind, tx_bind, store. destruct (_ <? _); [apply Hk|by intros [= <-]].
Qed.

Lemma key_quota_missing id c d :
  incrementUsageBillingAPIKeyQuota id c d = inl ErrAPIKeyNotFound →
  live kr_deleted (bd_api_keys d) id = None.
Proof.
  unfold incrementUsageBillingAPIKeyQuota, mbind at 1, tx_bind at 1; simpl.
  destruct (live _ _ _); [|done]. intros Hr. exfalso.
  enough (ErrAPIKeyNotFound = ErrDatabase) by done.
  eapply sent_error; [|exact Hr]. intros x e'. apply store_error. done.
Qed.

Lemma key_rate_missing id c d :
  incrementUsageBillingAPIKeyRateLimit now id c d = inl ErrAPIKeyNotFound →
  live kr_deleted (bd_api_keys d) id = None.
Proof.
  unfold incrementUsageBillingAPIKeyRateLimit, mbind at 1, tx_bind at 1; simpl.
  destruct (live _ _ _); [|done]. intros Hr. exfalso.
  enough (ErrAPIKeyNotFound = ErrDatabase) by done.
  eapply sent_error; [|exact Hr]. intros x e'. apply store_error. intros ? ?. apply store_error.
  intros ? ?. apply store_error. done.
Qed.

Lemma charge_quota_dead n k : kr_deleted k = true → charge_quota n k = k.
Proof. unfold charge_quota. by intros ->. Qed.

Lemma charge_windows_dead n k : kr_deleted k = true → charge_windows n k = k.
Proof. unfold charge_windows. by intros ->. Qed.

Lemma key_quota_effect_spec cmd d r d' :
  payable (uc_APIKeyQuotaCost cmd) → key_quota_effect (Normalize cmd) d = inr (r, d') →
  bd_api_keys d' = when_positive (charge_of (uc_APIKeyQuotaCost cmd))
                     (λ n, alter (charge_quota n) (uc_APIKeyID cmd)) (bd_api_keys d).
Proof.
  intros Hc Hr. unfold key_quota_effect in Hr; simpl in Hr. case_match eqn:Hpos; tx_inv.
  - destruct (charge_of_positive _ Hc Hpos) as [Harg Hn]. rewrite when_positive_true by done.
    eapply tolerated_key; [apply charge_quota_dead|apply key_quota_missing| |exact Hr].
    intros r' d'' Hq. by eapply key_quota_spec in Hq as [-> _].
  - by rewrite when_positive_zero by by apply charge_of_zero.
Qed.

Lemma key_rate_effect_spec cmd d r d' :
  payable (uc_APIKeyRateLimitCost cmd) → key_rate_effect now (Normalize cmd) d = inr (r, d') →
  bd_api_keys d' = when_positive (charge_of (uc_APIKeyRateLimitCost cmd))
                     (λ n, alter (charge_windows n) (uc_APIKeyID cmd)) (bd_api_keys d).
Proof.
  intros Hc Hr. unfold key_rate_effect in Hr; simpl in Hr. case_match eqn:Hpos; tx_inv.
  - destruct (charge_of_positive _ Hc Hpos) as [Harg Hn]. rewrite when_positive_true by done.
    eapply tolerated_key; [apply charge_windows_dead|apply key_rate_missing| |exact Hr].
    intros r' d'' Hq. by eapply key_rate_spec in Hq as ->.
  - by rewrite when_positive_zero by by apply charge_of_zero.
Qed.

Lemma subscription_effect_spec cmd sid d r d' :
  payable (uc_SubscriptionCost cmd) → 0 < charge_of (uc_SubscriptionCost cmd) →
  uc_SubscriptionID cmd = Some sid →
  subscription_effect now clock (Normalize cmd) d = inr (r, d') →
  ∃ d1 s, applyPendingQuotaFollowResetForSubscription clock sid d = inr (tt, d1) ∧
    live sr_deleted (bd_subscriptions d1) sid = Some s ∧
    bd_subscriptions d' = <[sid := charge_sub (charge_of (uc_SubscriptionCost cmd)) s]> (bd_subscriptions d1).
Proof.
  intros Hc Hn Hid Hr. unfold subscription_effect in Hr; simpl in Hr. rewrite Hid in Hr.
  case_match eqn:Hpos; [|rewrite charge_of_zero in Hn by done; lia].
  destruct (charge_of_positive _ Hc Hpos) as [Harg _].
  eapply subscription_spec in Hr as (d1 & s & Hf & Hl & ->); [|done..]. eauto.
Qed.

(** The effects on each ledger, with the log that follows them. *)
Lemma effects_users cmd l d r d1 p d' :
  payable (uc_BalanceCost cmd) →
  applyUsageBillingEffects now clock (Normalize cmd) d = inr (r, d1) → persist_log l d1 = inr (p, d') →
  bd_users d' = when_positive (charge_of (uc_BalanceCost cmd))
                  (λ n, alter (charge_user n) (uc_UserID cmd)) (bd_users d).
Proof.
  intros Hb Heff Hl. unfold applyUsageBillingEffects in Heff. tx_inv.
  match goal with
  | H1 : subscription_effect _ _ _ _ = inr _, H2 : balance_effect _ _ = inr _,
    H3 : key_quota_effect _ _ = inr _, H4 : key_rate_effect _ _ _ = inr _,
    H5 : account_effect _ _ _ = inr _ |- _ =>
      apply (subscription_effect_frame bd_users _ ltac:(done)) in H1;
      apply (balance_effect_spec _ _ _ _ Hb) in H2;
      apply (key_quota_effect_frame bd_users _ ltac:(done)) in H3;
      apply (key_rate_effect_frame bd_users _ ltac:(done)) in H4;
      apply (account_effect_frame bd_users _ ltac:(done) ltac:(done)) in H5;
      apply (persist_frame bd_users _ ltac:(done)) in Hl
  end.
  congruence.
Qed.

Lemma effects_api_keys cmd l d r d1 p d' :
  payable (uc_APIKeyQuotaCost cmd) → payable (uc_APIKeyRateLimitCost cmd) →
  applyUsageBillingEffects now clock (Normalize cmd) d = inr (r, d1) → persist_log l d1 = inr (p, d') →
  bd_api_keys d' = when_positive (charge_of (uc_APIKeyRateLimitCost cmd))
                     (λ n, alter (charge_windows n) (uc_APIKeyID cmd))
                     (when_positive (charge_of (uc_APIKeyQuotaCost cmd))
                        (λ n, alter (charge_quota n) (uc_APIKeyID cmd)) (bd_api_keys d)).
Proof.
  intros Hq Hw Heff Hl. unfold applyUsageBillingEffects in Heff. tx_inv.
  match goal with
  | H1 : subscription_effect _ _ _ _ = inr _, H2 : balance_effect _ _ = inr _,
    H3 : key_quota_effect _ _ = inr _, H4 : key_rate_effect _ _ _ = inr _,
    H5 : account_effect _ _ _ = inr _ |- _ =>
      apply (subscription_effect_frame bd_api_keys _ ltac:(done)) in H1;
      apply (balance_effect_frame bd_api_keys _ ltac:(done)) in H2;
      apply (key_quota_effect_spec _ _ _ _ Hq) in H3;
      apply (key_rate_effect_spec _ _ _ _ Hw) in H4;
      apply (account_effect_frame bd_api_keys _ ltac:(done) ltac:(done)) in H5;
      apply (persist_frame bd_api_keys _ ltac:(done)) in Hl
  end.
  congruence.
Qed.

(** *** The rows that are not charged *)

(** Following a reset changes the row of that subscription only. *)
Lemma follow_rows id d r d' :
  applyPendingQuotaFollowResetForSubscription clock id d = inr (r, d') →
  ∀ id', id' ≠ id → bd_subscriptions d' !! id' = bd_subscriptions d !! id'.
Proof.
  intros Hr id' Hne.
  assert (preserves (λ d, bd_subscriptions d !! id') (applyPendingQuotaFollowResetForSubscription clock id)) as Hp;
    [|by apply Hp in Hr].
  clear Hr d r d'. unfold applyPendingQuotaFollowResetForSubscription. intros d r d' Hr. tx_inv.
  repeat (case_match; tx_inv; try done); simpl in *;
    repeat match goal with
    | H : require _ _ _ = inr _ |- _ => apply (preserves_require (λ d, bd_subscriptions d)) in H
    | H : source_generation _ _ = inr _ |- _ => apply (source_generation_frame bd_subscriptions) in H
    end; try rewrite lookup_insert_ne by done; congruence.
Qed.

(** What does not fail for want of a row fails with [ErrDatabase]. *)
Definition database_errors {A} (m : tx A) : Prop := ∀ d e, m d = inl e → e = ErrDatabase.

Lemma database_errors_bind {A B} (m : tx A) (k : A → tx B) :
  database_errors m → (∀ a, database_errors (k a)) → database_errors (m ≫= k).
Proof.
  intros Hm Hk d e. rewrite bind_run. destruct (m d) as [e'|[a d1]] eqn:E; [|apply Hk].
  intros [= <-]. by eapply Hm.
Qed.

Lemma numeric_field_errors key extra e : numeric_field key extra = inl e → e = ErrDatabase.
Proof. unfold numeric_field. repeat case_match; by intros [= <-]. Qed.

Lemma period_increment_errors k x extra e : period_increment now k x extra = inl e → e = ErrDatabase.
Proof.
  unfold period_increment, expired_expr, next_reset_expr, nextDailyResetAtExpr, nextWeeklyResetAtExpr, timestamptz_field.
  repeat case_match; intros; simplify_eq; try done; by eapply numeric_field_errors.
Qed.

Lemma increment_errors daily weekly x extra e :
  increment_extra now daily weekly x extra = inl e → e = ErrDatabase.
Proof.
  unfold increment_extra, total_increment, concat_period.
  repeat case_match; intros; simplify_eq; try done;
    (by eapply numeric_field_errors) || (by eapply period_increment_errors).
Qed.

Lemma scan_field_errors key extra : database_errors (scan_field key extra).
Proof.
  unfold scan_field. apply database_errors_bind; [|done]. intros d e. unfold evaluate.
  destruct (numeric_field key extra) eqn:E; [|done]. intros [= <-]. by eapply numeric_field_errors.
Qed.

(** A statement changes the document of the account, or nothing when no row matches. *)
Lemma exec_increment_row daily weekly id c d r d' :
  execAccountQuotaIncrement now daily weekly id c d = inr (r, d') →
  match r with
  | Some _ => ∃ a extra, live ar_deleted (bd_accounts d) id = Some a ∧
      bd_accounts d' = <[id := with_extra extra a]> (bd_accounts d)
  | None => d' = d
  end.
Proof.
  intros Hr. unfold execAccountQuotaIncrement in Hr. tx_inv.
  destruct (live ar_deleted (bd_accounts d) id) as [a|] eqn:Ha; [|by tx_inv].
  destruct (negb _); [by tx_inv|]. tx_inv.
  match goal with H : returning_quota (Some ?j) _ = inr _ |- _ =>
    exists a, (Some j); assert (preserves bd_accounts (returning_quota (Some j))) as Hp
      by (unfold returning_quota, scan_field; frame); by rewrite (Hp _ _ _ H) end.
Qed.

Lemma account_quota_row id c hd hw d r d' :
  incrementUsageBillingAccountQuota now id c hd hw d = inr (r, d') →
  ∃ a extra, live ar_deleted (bd_accounts d) id = Some a ∧
    bd_accounts d' = <[id := with_extra extra a]> (bd_accounts d).
Proof.
  intros Hr. unfold incrementUsageBillingAccountQuota in Hr. apply tx_bind_inv in Hr as (r1 & d1 & Hfst & Hr).
  apply exec_increment_row in Hfst. apply tx_bind_inv in Hr as (r2 & d2 & Hsnd & Hr).
  assert (match r2 with
          | Some _ => ∃ a extra, live ar_deleted (bd_accounts d) id = Some a ∧
              bd_accounts d2 = <[id := with_extra extra a]> (bd_accounts d)
          | None => True
          end) as Hrow.
  { destruct r1 as [st|]; [tx_inv; by simplify_eq|]. subst d1. destruct (negb _); [|tx_inv; by simplify_eq].
    apply exec_increment_row in Hsnd. by destruct r2. }
  destruct r2 as [st|]; [|by tx_inv]. destruct Hrow as (a & extra & Ha & Hacc). exists a, extra. split; [done|].
  rewrite <-Hacc. revert Hr. match goal with |- ?m d2 = _ → _ => assert (preserves bd_accounts m) as Hp by frame end.
  apply Hp.
Qed.

Lemma exec_increment_errors daily weekly id c : database_errors (execAccountQuotaIncrement now daily weekly id c).
Proof.
  unfold execAccountQuotaIncrement. apply database_errors_bind; [done|]. intros accounts.
  destruct (live ar_deleted accounts id) as [a|]; [|done].
  destruct (increment_applies daily weekly (ar_extra a)); [|done]. simpl.
  apply database_errors_bind; [intros ? ?; unfold sent; by case_match; intros [= <-]|]. intros x.
  apply database_errors_bind.
  { intros ? ?. unfold evaluate. destruct (increment_extra _ _ _ _ _) eqn:E; intros [= <-]. by eapply increment_errors. }
  intros j. apply database_errors_bind; [done|]. intros _. apply database_errors_bind; [|done].
  unfold returning_quota. repeat (apply database_errors_bind; [apply scan_field_errors|intros ?]). done.
Qed.

(** The full statement finds every live account. *)
Lemma exec_full_found id c d a d' :
  live ar_deleted (bd_accounts d) id = Some a → execAccountQuotaIncrement now true true id c d ≠ inr (None, d').
Proof.
  intros Ha Hr. unfold execAccountQuotaIncrement in Hr. rewrite bind_run in Hr. simpl in Hr. rewrite Ha in Hr.
  change (increment_applies true true (ar_extra a)) with true in Hr. simpl in Hr. by tx_inv.
Qed.

(** The charge of an account fails for want of a row only when there is none. *)
Lemma account_missing id c hd hw d :
  incrementUsageBillingAccountQuota now id c hd hw d = inl ErrAccountNotFound →
  live ar_deleted (bd_accounts d) id = None.
Proof.
  destruct (live ar_deleted (bd_accounts d) id) as [a|] eqn:Ha; [|done]. intros Hr. exfalso.
  unfold incrementUsageBillingAccountQuota in Hr. rewrite bind_run in Hr.
  destruct (execAccountQuotaIncrement now hd hw id c d) as [e|[[st|] d1]] eqn:E1.
  - injection Hr as ->. by apply exec_increment_errors in E1.
  - rewrite bind_run in Hr. simpl in Hr. rewrite bind_run in Hr. by destruct (_ || _ || _).
  - pose proof (exec_increment_row _ _ _ _ _ _ _ E1) as ->. rewrite bind_run in Hr.
    destruct (negb (hd && hw)) eqn:Hb.
    + destruct (execAccountQuotaIncrement now true true id c d) as [e|[[st|] d2]] eqn:E2.
      * injection Hr as ->. by apply exec_increment_errors in E2.
      * rewrite bind_run in Hr. by destruct (_ || _ || _).
      * by apply (exec_full_found id c d a d2) in Ha.
    + apply negb_false_iff, andb_true_iff in Hb as [-> ->]. by apply (exec_full_found id c d a d) in Ha.
Qed.

(** Whether a charge has a part for the account. *)
Definition account_charged (cmd : UsageBillingCommand) : bool :=
  (0 <? charge_of (uc_AccountQuotaCost cmd)) && AccountTypeSupportsQuota (uc_AccountType cmd).

(** The accounts after a charge: the one charged takes the document that the increment
    of its quota writes, and nothing else changes. *)
Inductive accounts_charged (cmd : UsageBillingCommand) (m m' : gmap Z AccountRow) : Prop :=
| account_gone : live ar_deleted m (uc_AccountID cmd) = None → m' = m → accounts_charged cmd m m'
| account_moved a extra d0 st d1 :
    live ar_deleted m (uc_AccountID cmd) = Some a → bd_accounts d0 = m →
    incrementUsageBillingAccountQuota now (uc_AccountID cmd) (QuantizeUsageBillingAmount (uc_AccountQuotaCost cmd))
      (uc_AccountQuotaHasDailyLimit cmd) (uc_AccountQuotaHasWeeklyLimit cmd) d0 = inr (st, d1) →
    bd_accounts d1 = m' → m' = <[uc_AccountID cmd := with_extra extra a]> m → accounts_charged cmd m m'.

Lemma account_effect_spec cmd d r d' :
  payable (uc_AccountQuotaCost cmd) → account_effect now (Normalize cmd) d = inr (r, d') →
  if account_charged cmd then accounts_charged cmd (bd_accounts d) (bd_accounts d') else bd_accounts d' = bd_accounts d.
Proof.
  intros Hc Hr. unfold account_effect in Hr. simpl in Hr. unfold account_charged.
  destruct (fzero <. QuantizeUsageBillingAmount (uc_AccountQuotaCost cmd)) eqn:Hpos.
  - destruct (charge_of_positive _ Hc Hpos) as [_ Hn]. rewrite (proj2 (Z.ltb_lt _ _) Hn). simpl in *.
    destruct (AccountTypeSupportsQuota _); [|by tx_inv].
    apply tolerate_inv in Hr as [Hr|(Hr & _ & ->)].
    + tx_inv. match goal with H : incrementUsageBillingAccountQuota _ _ _ _ _ _ = _ |- _ => rename H into Hi end.
      pose proof Hi as Hrow. apply account_quota_row in Hrow as (acc & extra & Hacc & Hrow). by eapply account_moved.
    + apply account_gone; [|done]. eapply account_missing. unfold fmap, tx_fmap in Hr.
      destruct (incrementUsageBillingAccountQuota _ _ _ _ _ d) as [e|[? ?]] eqn:Ei; [|done].
      injection Hr as ->. exact Ei.
  - rewrite (charge_of_zero _ Hpos). simpl in *. by tx_inv.
Qed.

Lemma effects_accounts cmd l d r d1 p d' :
  payable (uc_AccountQuotaCost cmd) →
  applyUsageBillingEffects now clock (Normalize cmd) d = inr (r, d1) → persist_log l d1 = inr (p, d') →
  if account_charged cmd then accounts_charged cmd (bd_accounts d) (bd_accounts d') else bd_accounts d' = bd_accounts d.
Proof.
  intros Hc Heff Hl. unfold applyUsageBillingEffects in Heff. tx_inv.
  match goal with
  | H1 : subscription_effect _ _ _ _ = inr _, H2 : balance_effect _ _ = inr _,
    H3 : key_quota_effect _ _ = inr _, H4 : key_rate_effect _ _ _ = inr _,
    H5 : account_effect _ _ ?before = inr _ |- _ =>
      apply (subscription_effect_frame bd_accounts _ ltac:(done)) in H1;
      apply (balance_effect_frame bd_accounts _ ltac:(done)) in H2;
      apply (key_quota_effect_frame bd_accounts _ ltac:(done)) in H3;
      apply (key_rate_effect_frame bd_accounts _ ltac:(done)) in H4;
      apply (account_effect_spec _ _ _ _ Hc) in H5;
      apply (persist_frame bd_accounts _ ltac:(done)) in Hl; rewrite Hl;
      replace (bd_accounts d) with (bd_accounts before) by congruence
  end.
  done.
Qed.

(** The subscriptions after a charge: without a part for a subscription they stay, and
    otherwise the row of the subscription follows its pending resets and is charged. *)
Inductive subscriptions_charged (cmd : UsageBillingCommand) (d : BillingDB) (m' : gmap Z SubscriptionRow) : Prop :=
| no_subscription_charged :
    uc_SubscriptionID cmd = None ∨ charge_of (uc_SubscriptionCost cmd) = 0 → m' = bd_subscriptions d →
    subscriptions_charged cmd d m'
| subscription_moved sid claims archive d1 s :
    uc_SubscriptionID cmd = Some sid → 0 < charge_of (uc_SubscriptionCost cmd) →
    applyPendingQuotaFollowResetForSubscription clock sid (with_dedup claims archive d) = inr (tt, d1) →
    live sr_deleted (bd_subscriptions d1) sid = Some s →
    m' !! sid = Some (charge_sub (charge_of (uc_SubscriptionCost cmd)) s) →
    (∀ id, id ≠ sid → m' !! id = bd_subscriptions d !! id) → subscriptions_charged cmd d m'.

Lemma effects_subscriptions cmd l claims archive d0 r d1 p d' :
  let d := with_dedup claims archive d0 in
  payable (uc_SubscriptionCost cmd) →
  applyUsageBillingEffects now clock (Normalize cmd) d = inr (r, d1) → persist_log l d1 = inr (p, d') →
  subscriptions_charged cmd d0 (bd_subscriptions d').
Proof.
  intros d Hs Heff Hl. unfold applyUsageBillingEffects in Heff. tx_inv.
  match goal with
  | H1 : subscription_effect _ _ _ ?d1 = inr (_, ?d2), H2 : balance_effect _ _ = inr _,
    H3 : key_quota_effect _ _ = inr _, H4 : key_rate_effect _ _ _ = inr _,
    H5 : account_effect _ _ _ = inr _ |- _ =>
      apply (balance_effect_frame bd_subscriptions _ ltac:(done)) in H2;
      apply (key_quota_effect_frame bd_subscriptions _ ltac:(done)) in H3;
      apply (key_rate_effect_frame bd_subscriptions _ ltac:(done)) in H4;
      apply (account_effect_frame bd_subscriptions _ ltac:(done) ltac:(done)) in H5;
      apply (persist_frame bd_subscriptions _ ltac:(done)) in Hl;
      replace (bd_subscriptions d') with (bd_subscriptions d2) by congruence; rename H1 into Hsub
  end.
  destruct (uc_SubscriptionID cmd) as [sid|] eqn:Hid.
  - destruct (fzero <. QuantizeUsageBillingAmount (uc_SubscriptionCost cmd)) eqn:Hpos.
    + destruct (charge_of_positive _ Hs Hpos) as [_ Hn].
      destruct (subscription_effect_spec cmd sid _ _ _ Hs Hn Hid Hsub) as (df & s & Hf & Hlive & ->).
      eapply (subscription_moved _ _ _ sid claims archive df s); try done; [by rewrite lookup_insert_eq|].
      intros id Hne. rewrite lookup_insert_ne by done. by apply (follow_rows sid d tt df).
    + apply no_subscription_charged; [right; by apply charge_of_zero|].
      unfold subscription_effect in Hsub. simpl in Hsub. rewrite Hid, Hpos in Hsub. by tx_inv.
  - apply no_subscription_charged; [by left|].
    unfold subscription_effect in Hsub. simpl in Hsub. rewrite Hid in Hsub. by tx_inv.
Qed.

(** C9. A charge that is applied moves every ledger by the same amount, the cost rounded
    half away to eight decimals: the balance of the user goes down by it, the quota and
    the open rate-limit windows of the API key and the usage of the subscription, after
    the resets it follows, go up by it, with no rounding of their own; the account takes
    the increment of its quota; parts that are not positive change nothing.  No other
    row of these tables changes, and no other table but the claims, the usage logs and
    the scheduler's outbox. *)
Theorem charge_exact o cmd d r d' :
  payable (uc_BalanceCost cmd) → payable (uc_APIKeyQuotaCost cmd) →
  payable (uc_APIKeyRateLimitCost cmd) → payable (uc_SubscriptionCost cmd) → payable (uc_AccountQuotaCost cmd) →
  Apply now clock o cmd d = (inr r, d') → rs_Applied r = true →
  bd_users d' = when_positive (charge_of (uc_BalanceCost cmd))
                  (λ n, alter (charge_user n) (uc_UserID cmd)) (bd_users d) ∧
  bd_api_keys d' = when_positive (charge_of (uc_APIKeyRateLimitCost cmd))
                     (λ n, alter (charge_windows n) (uc_APIKeyID cmd))
                     (when_positive (charge_of (uc_APIKeyQuotaCost cmd))
                        (λ n, alter (charge_quota n) (uc_APIKeyID cmd)) (bd_api_keys d)) ∧
  subscriptions_charged cmd d (bd_subscriptions d') ∧
  (if account_charged cmd then accounts_charged cmd (bd_accounts d) (bd_accounts d')
   else bd_accounts d' = bd_accounts d) ∧
  bd_groups d' = bd_groups d ∧ bd_account_groups d' = bd_account_groups d ∧ bd_proxies d' = bd_proxies d ∧
  bd_reset_events d' = bd_reset_events d.
Proof.
  intros Hb Hq Hw Hs Ha Hrun Happ.
  apply Apply_applied in Hrun as (-> & d1 & r0 & d2 & p & Hcl & Heff & Hlog & ->); [|done].
  apply claim_true in Hcl as (_ & _ & ->). set (d1 := with_dedup _ _ d) in *.
  split; [by eapply (effects_users _ _ d1)|]. split; [by eapply (effects_api_keys _ _ d1)|].
  split; [by eapply (effects_subscriptions cmd _ _ _ d)|]. split; [by eapply (effects_accounts _ _ d1)|].
  assert (∀ {B} (f : BillingDB → B), (∀ m d, f (with_subscriptions m d) = f d) → (∀ m d, f (with_users m d) = f d) →
    (∀ m d, f (with_api_keys m d) = f d) → (∀ m d, f (with_accounts m d) = f d) →
    (∀ m d, f (with_outbox m d) = f d) → (∀ m d, f (with_usage_logs m d) = f d) → f d' = f d1) as Hframe.
  { intros B f F1 F2 F3 F4 F5 F6. rewrite (persist_frame f _ F6 _ _ _ Hlog).
    by rewrite (effects_frame f _ F1 F2 F3 F4 F5 _ _ _ Heff). }
  split_and!; by rewrite Hframe.
Qed.
End EffectFrames.

#[export] Hint Resolve source_generation_frame set_balance_frame follow_frame subscription_frame
  deduct_frame key_quota_frame key_rate_frame account_quota_frame persist_frame claim_frame
  subscription_effect_frame balance_effect_frame key_quota_effect_frame key_rate_effect_frame
  account_effect_frame effects_frame : frames.

(** ** Charges that succeed *)

Section Runs.
Context `{ShortestDecimal}.

Lemma tolerate_run {A} e (a : A) m d r d' : m d = inr (r, d') → tolerate e a m d = inr (r, d').
Proof. unfold tolerate. by intros ->. Qed.

Lemma deduct_cost_run uid c n d u :
  argument c = Some (of_units 8 n) → live ur_deleted (bd_users d) uid = Some u →
  Z.abs (ur_balance u - n) < column_limit → ∃ r d', deductUsageBillingBalance uid c d = inr (r, d').
Proof.
  intros Hc Hu Hn. unfold deductUsageBillingBalance. rewrite bind_run. simpl. rewrite Hu.
  rewrite bind_run, (sent_run _ _ _ Hc), bind_run, (store_run _ _ (ur_balance u - n));
    [by do 2 eexists|by apply to_units_sub_units, scale8|done].
Qed.

Lemma key_quota_run id c n d k :
  argument c = Some (of_units 8 n) → live kr_deleted (bd_api_keys d) id = Some k →
  Z.abs (kr_quota_used k + n) < column_limit → ∃ r d', incrementUsageBillingAPIKeyQuota id c d = inr (r, d').
Proof.
  intros Hc Hk Hn. unfold incrementUsageBillingAPIKeyQuota. rewrite bind_run. simpl. rewrite Hk.
  rewrite bind_run, (sent_run _ _ _ Hc), bind_run, (store_run _ _ (kr_quota_used k + n));
    [by do 2 eexists|by apply to_units_add_units, scale8|done].
Qed.

Lemma key_rate_run `{Location} now id c n d k :
  argument c = Some (of_units 8 n) → live kr_deleted (bd_api_keys d) id = Some k →
  (∀ span start u, u ∈ [kr_usage_5h k; kr_usage_1d k; kr_usage_7d k] →
     Z.abs (charged_window now span start u n) < column_limit) →
  ∃ r d', incrementUsageBillingAPIKeyRateLimit now id c d = inr (r, d').
Proof.
  intros Hc Hk Hn. unfold incrementUsageBillingAPIKeyRateLimit. rewrite bind_run. simpl. rewrite Hk.
  rewrite bind_run, (sent_run _ _ _ Hc).
  do 3 (rewrite bind_run; erewrite store_run; [|apply window_usage_units|apply Hn; set_solver]).
  by do 2 eexists.
Qed.

Lemma charge_subscription_run now clock n s d :
  0 < n → (∀ u, u ∈ [0; sr_daily_usage_usd s; sr_weekly_usage_usd s; sr_monthly_usage_usd s; sr_five_hour_usage_usd s] →
     Z.abs (u + 100 * n) < column_limit) →
  ∃ s', charge_subscription now clock (of_units 8 n) s d = inr (s', d).
Proof.
  intros Hn Hu. unfold charge_subscription. rewrite !of_units_8_10.
  pose proof (of_units_pos 10 (100 * n) scale10). rewrite (proj2 (Z.leb_gt (of_units 10 (100 * n)) 0)) by lia.
  do 3 (rewrite bind_run; erewrite store_run; [|apply to_units_add_units, scale10|apply Hu; set_solver]).
  rewrite bind_run. destruct (window_passed _ _ _).
  - erewrite store_run; [by eexists|apply to_units_of_units, scale10|]. apply (Hu 0). set_solver.
  - erewrite store_run; [by eexists|apply to_units_add_units, scale10|apply Hu; set_solver].
Qed.

Lemma subscription_run `{CodexOwners} now clock id c n d d1 s g :
  argument c = Some (of_units 8 n) → 0 < n → applyPendingQuotaFollowResetForSubscription clock id d = inr (tt, d1) →
  live sr_deleted (bd_subscriptions d1) id = Some s → live gr_deleted (bd_groups d1) (sr_group_id s) = Some g →
  (∀ u, u ∈ [0; sr_daily_usage_usd s; sr_weekly_usage_usd s; sr_monthly_usage_usd s; sr_five_hour_usage_usd s] →
     Z.abs (u + 100 * n) < column_limit) →
  ∃ s', incrementUsageBillingSubscription now clock id c d =
    inr (tt, with_subscriptions (<[id := s']> (bd_subscriptions d1)) d1).
Proof.
  intros Hc Hn Hf Hs Hg Hu. unfold incrementUsageBillingSubscription. rewrite bind_run, Hf, bind_run. simpl.
  rewrite bind_run. simpl. rewrite Hs, Hg, bind_run, (sent_run _ _ _ Hc), bind_run.
  destruct (charge_subscription_run now clock n s d1 Hn Hu) as [s' ->]. by exists s'.
Qed.

Lemma returning_quota_runs `{UnicodeCase} `{SqlText} extra d :
  Forall (λ key, ∃ n, numeric_field key extra = inr n)
    ["quota_used"; "quota_limit"; "quota_daily_used"; "quota_daily_limit"; "quota_weekly_used"; "quota_weekly_limit"] →
  ∃ st, returning_quota extra d = inr (st, d).
Proof.
  rewrite !Forall_cons. intros ([? E1] & [? E2] & [? E3] & [? E4] & [? E5] & [? E6] & _).
  eexists. unfold returning_quota, scan_field. rewrite E1, E2, E3, E4, E5, E6. reflexivity.
Qed.

Lemma full_statement_runs `{Digest} `{UnicodeCase} `{SqlText} `{CodexOwners} `{Location} now id c x d a j :
  argument c = Some x → live ar_deleted (bd_accounts d) id = Some a →
  increment_extra now true true x (ar_extra a) = inr j → (∀ d, ∃ st, returning_quota (Some j) d = inr (st, d)) →
  ∃ st d', incrementUsageBillingAccountQuota now id c true true d = inr (st, d').
Proof.
  intros Hx Ha Hj Hst. unfold incrementUsageBillingAccountQuota, execAccountQuotaIncrement.
  rewrite !bind_run. simpl. rewrite Ha. simpl. rewrite bind_run, (sent_run _ _ _ Hx), bind_run, Hj. simpl.
  rewrite bind_run. simpl. rewrite bind_run.
  destruct (Hst (with_accounts (<[id:=with_extra (Some j) a]> (bd_accounts d)) d)) as [st E]. rewrite E. simpl.
  rewrite bind_run. simpl. rewrite bind_run.
  destruct (_ || _ || _); [rewrite bind_run|]; simpl; do 2 eexists; reflexivity.
Qed.

End Runs.

(** ** A concrete charge *)

#[local] Transparent Z.pow.

Section Examples.
#[local] Existing Instances ascii_case FewestDigits plain_digest demo_sql demo_owners.
#[local] Instance utc : Location := fixed_zone 0.

(** A charge with every part: user 7, subscription 5, API key 3 and account 9. *)
Definition demo_full_charge (c : float64) : UsageBillingCommand :=
  mkUsageBillingCommand "r" 3 "f" "" 7 9 (Some 5) AccountTypeAPIKey "m" "" "" 0 10 20 0 0 0 "" c c c c c None true true.

Lemma demo_amount : is_amount demo_cost dollar.
Proof. by split. Qed.

Lemma no_amount : is_amount fzero 0.
Proof. by split. Qed.

(** The database once the claim is inserted, and once the reset is followed. *)
Definition demo_claimed : BillingDB :=
  with_dedup {[("r", 3) := mkDedupRow "f" demo_noon]} ∅ demo_billing.

Definition demo_followed : BillingDB :=
  match applyPendingQuotaFollowResetForSubscription demo_noon 5 demo_claimed with inr (_, d) => d | inl _ => demo_claimed end.

Lemma demo_subscription_runs c :
  argument c = Some (of_units 8 dollar) →
  ∃ s', incrementUsageBillingSubscription demo_noon demo_noon 5 c demo_claimed =
    inr (tt, with_subscriptions (<[5 := s']> (bd_subscriptions demo_followed)) demo_followed).
Proof.
  intros Hc.
  destruct (live sr_deleted (bd_subscriptions demo_followed) 5) as [s|] eqn:Es; [|vm_compute in Es; discriminate].
  apply (subscription_run demo_noon demo_noon 5 c dollar demo_claimed demo_followed s demo_group Hc); [done|..].
  - vm_compute. reflexivity.
  - exact Es.
  - vm_compute in Es. injection Es as <-. reflexivity.
  - vm_compute in Es. injection Es as <-. intros u Hu. repeat (apply elem_of_cons in Hu as [->|Hu]; [reflexivity|]).
    by apply not_elem_of_nil in Hu.
Qed.

Lemma demo_account_runs x c d :
  argument c = Some x → bd_accounts d = bd_accounts demo_billing →
  ∃ st d', incrementUsageBillingAccountQuota demo_noon 9 c true true d = inr (st, d').
Proof.
  intros Hx Hd. eapply (full_statement_runs demo_noon 9 c x d demo_account);
    [exact Hx|by rewrite Hd|vm_compute; reflexivity|].
  intros d'. apply returning_quota_runs. repeat apply Forall_cons_2; [..|apply Forall_nil_2];
    eexists; vm_compute; reflexivity.
Qed.

Lemma demo_charge_runs c :
  is_amount c dollar →
  ∃ r d', Apply demo_noon demo_noon Commits (demo_full_charge c) demo_billing = (inr r, d') ∧ rs_Applied r = true.
Proof.
  intros Hc. pose proof (amount_argument _ _ Hc) as Harg. pose proof (Quantize_amount _ _ Hc eq_refl) as Hq.
  pose proof (proj2 (amount_positive _ _ Hc eq_refl)) as Hpos. clear Hc.
  unfold Apply, apply_body, applyUsageBillingEffects, subscription_effect, balance_effect, key_quota_effect,
    key_rate_effect, account_effect, demo_full_charge, Normalize. simpl.
  rewrite Hq, Hpos. unfold transact. rewrite bind_run.
  assert (claimUsageBillingRequest demo_noon (TrimSpace "r") 3 "f" demo_billing = inr (true, demo_claimed)) as ->
    by reflexivity. simpl. rewrite bind_run.
  destruct (demo_subscription_runs c Harg) as [s' Hs]. rewrite bind_run, Hs, bind_run. unfold fmap, tx_fmap.
  set (d2 := with_subscriptions _ demo_followed).
  destruct (deduct_cost_run 7 c dollar d2 (mkUserRow (100 * dollar) 0 false) Harg eq_refl eq_refl) as (r3 & d3 & E3).
  rewrite E3, bind_run. apply (deduct_spec 7 c d2 r3 d3 dollar Harg) in E3 as [-> _].
  set (d3 := with_users _ d2).
  destruct (key_quota_run 3 c dollar d3 demo_key Harg eq_refl eq_refl) as (r4 & d4 & E4).
  rewrite (tolerate_run _ _ _ _ _ _ E4), bind_run. apply (key_quota_spec 3 c d3 r4 d4 dollar Harg) in E4 as [-> _].
  set (d4 := with_api_keys _ d3).
  destruct (key_rate_run demo_noon 3 c dollar d4 (charge_quota dollar demo_key) Harg eq_refl) as (r5 & d5 & E5).
  { intros span start u Hu. assert (u = 0) as -> by (repeat (apply elem_of_cons in Hu as [->|Hu]; [reflexivity|]);
      by apply not_elem_of_nil in Hu).
    unfold charged_window. by repeat case_match. }
  rewrite (tolerate_run _ _ _ _ _ _ E5), bind_run. apply (key_rate_spec demo_noon 3 c d4 r5 d5 dollar Harg) in E5 as ->.
  set (d5 := with_api_keys _ d4).
  destruct (demo_account_runs _ c d5 Harg eq_refl) as (st & d6 & E6).
  erewrite (tolerate_run _ _ _ d5); [|by rewrite E6]. by do 2 eexists.
Qed.

(** Every ledger of the demo moves by one dollar; the subscription takes over its pending
    reset first. *)
Lemma charge_exact_witness :
  ∃ d', bd_users d' = alter (charge_user dollar) 7 (bd_users demo_billing) ∧
    bd_api_keys d' = alter (charge_windows demo_noon dollar) 3 (alter (charge_quota dollar) 3 (bd_api_keys demo_billing)) ∧
    sr_daily_usage_usd <$> bd_subscriptions d' !! 5 = Some (100 * dollar) ∧
    is_Some (bd_accounts d' !! 9) ∧ bd_groups d' = bd_groups demo_billing.
Proof.
  destruct (demo_charge_runs _ demo_amount) as (r & d' & E & Hr). pose proof (amount_payable _ _ demo_amount) as Hc.
  destruct (charge_exact demo_noon demo_noon Commits (demo_full_charge demo_cost) demo_billing r d' Hc Hc Hc Hc Hc E Hr)
    as (Hu & Hk & Hs & Ha & Hg & _).
  assert (charge_of demo_cost = dollar) as Hn by exact (charge_of_amount demo_cost dollar demo_amount eq_refl).
  cbn [demo_full_charge uc_BalanceCost uc_APIKeyQuotaCost uc_APIKeyRateLimitCost uc_UserID uc_APIKeyID] in Hu, Hk.
  rewrite Hn in Hu, Hk. exists d'. split; [exact Hu|]. split; [exact Hk|].
  split; [|split; [|exact Hg]].
  - destruct Hs as [[H0|H0] _|sid claims archive d1 s H0 _ Hf Hlive H1 _]; [discriminate H0| |].
    + cbn [demo_full_charge uc_SubscriptionCost] in H0. rewrite Hn in H0. discriminate H0.
    + injection H0 as <-. rewrite H1. cbn [demo_full_charge uc_SubscriptionCost]. rewrite Hn.
      vm_compute in Hf. injection Hf as <-. vm_compute in Hlive. injection Hlive as <-. reflexivity.
  - unfold account_charged in Ha. cbn [demo_full_charge uc_AccountQuotaCost uc_AccountType] in Ha. rewrite Hn in Ha.
    destruct Ha as [H0 _|a extra d0 st d1 _ _ _ _ ->]; [discriminate H0|]. cbn [demo_full_charge uc_AccountID].
    rewrite lookup_insert_eq. by eexists.
Defined.
End Examples.
