(* ===== verification/UsageBillingClaims.v ===== *)
(** * Usage billing: a request takes effect once

    Any sequence of charges, holds, clean-ups and changes made elsewhere, with
    failures before a commit and answers lost after one.  A claim is a row of the
    dedup table or of its archive. *)

From Stdlib Require Import ZArith Lia Ascii String SpecFloat.
From stdpp Require Import base tactics numbers list gmap strings sorting.
From S2P Require Import Prelude GoStrings GoFloat GoTime GoDecimal ProxyLifecycle BillingData UsageBilling UsageBillingExamples UsageBillingCorrect.

Open Scope go_scope.
Open Scope string_scope.
Open Scope Z_scope.

Definition claims (d : BillingDB) : gmap (string * Z) DedupRow := bd_dedup d ∪ bd_archive d.

Definition fingerprint_of (r : DedupRow) : string := TrimSpace (dr_request_fingerprint r).

(** A key in both tables has one fingerprint. *)
Definition claims_agree (d : BillingDB) : Prop :=
  ∀ k r r', bd_dedup d !! k = Some r → bd_archive d !! k = Some r' → fingerprint_of r = fingerprint_of r'.

Lemma empty_archive_agrees d : bd_archive d = ∅ → claims_agree d.
Proof. intros Hc k r r'. by rewrite Hc, lookup_empty. Qed.

(** What a step may do to the claims. *)
Record claims_kept (d d' : BillingDB) (new : option (string * Z)) : Prop := {
  kept_agree : claims_agree d → claims_agree d';
  kept_fresh k : new = Some k → claims d !! k = None;
  kept_dom : claims_agree d → ∀ k, is_Some (claims d' !! k) ↔ is_Some (claims d !! k) ∨ new = Some k;
  kept_fingerprint : claims_agree d → ∀ k r, claims d !! k = Some r →
    ∃ r', claims d' !! k = Some r' ∧ fingerprint_of r' = fingerprint_of r
}.

Lemma claims_kept_same d d' :
  bd_dedup d' = bd_dedup d → bd_archive d' = bd_archive d → claims_kept d d' None.
Proof.
  intros Hd Ha. split.
  - unfold claims_agree. by rewrite Hd, Ha.
  - done.
  - intros _ k. unfold claims. rewrite Hd, Ha. naive_solver.
  - intros _ k r. unfold claims. rewrite Hd, Ha. eauto.
Qed.

Lemma claims_lookup d k :
  claims d !! k = match bd_dedup d !! k with Some r => Some r | None => bd_archive d !! k end.
Proof.
  unfold claims. destruct (bd_dedup d !! k) as [r|] eqn:E; [by apply lookup_union_Some_l|].
  by rewrite lookup_union_r.
Qed.

(** ** The claim of a request *)

Section Claims.
Context `{ShortestDecimal} `{Digest} `{UnicodeCase} `{SqlText} `{CodexOwners} `{Location}.

Lemma claim_kept now key kid fp d a d' :
  claimUsageBillingRequest now key kid fp d = inr (a, d') →
  claims_kept d d' (if a : bool then Some (key, kid) else None) ∧
  (a = false → ∃ r, claims d !! (key, kid) = Some r ∧ fingerprint_of r = TrimSpace fp).
Proof.
  intros Hr. destruct a.
  - apply claim_true in Hr as (Hh & Hc & ->). split; [|done]. split.
    + intros Ha k r r'. simpl. rewrite lookup_insert. case_decide; [subst; congruence|apply Ha].
    + intros k [= <-]. by rewrite claims_lookup, Hh.
    + intros _ k. rewrite !claims_lookup. simpl. rewrite lookup_insert. case_decide; [subst; naive_solver|].
      destruct (bd_dedup d !! k); naive_solver.
    + intros _ k r. rewrite !claims_lookup. simpl. rewrite lookup_insert. case_decide; [subst|by eauto].
      rewrite Hh, Hc. done.
  - pose proof (claim_false _ _ _ _ _ _ Hr) as (r & Hcl & Hfp). split; [|by eauto].
    unfold claimUsageBillingRequest in Hr. tx_inv.
    destruct (bd_dedup d !! (key, kid)) as [r1|] eqn:E1;
      [destruct (String.eqb _ _); tx_inv; by apply claims_kept_same|].
    tx_inv. destruct (bd_archive d !! (key, kid)) as [r2|] eqn:E2; [|by tx_inv].
    destruct (String.eqb_spec (TrimSpace (dr_request_fingerprint r2)) (TrimSpace fp)) as [Heq|]; tx_inv.
    split.
    + intros Ha k x x'. simpl. rewrite lookup_insert. case_decide; [subst|apply Ha].
      intros [= <-] ?. unfold fingerprint_of. simpl. by simplify_eq.
    + done.
    + intros _ k. rewrite !claims_lookup. simpl. rewrite lookup_insert. case_decide; [subst|naive_solver].
      rewrite E1, E2. naive_solver.
    + intros _ k x. rewrite !claims_lookup. simpl. rewrite lookup_insert. case_decide; [subst|by eauto].
      rewrite E1, E2. intros [= <-]. eexists. split; [done|]. by unfold fingerprint_of.
Qed.

Lemma kept_then d d1 d2 new :
  claims_kept d d1 new → bd_dedup d2 = bd_dedup d1 → bd_archive d2 = bd_archive d1 → claims_kept d d2 new.
Proof.
  intros [K1 K2 K3 K4] Hd Ha. assert (claims d2 = claims d1) as E by (unfold claims; congruence).
  split; [|done| |]; try (rewrite E; done). intros Hag. unfold claims_agree. rewrite Hd, Ha. by apply K1.
Qed.

(** ** Steps *)

Inductive hold_kind := Reserve | Capture | Release.

Inductive billing_step :=
| Charge (now clock : Z) (o : outcome) (cmd : UsageBillingCommand)
| Hold (kind : hold_kind) (now : Z) (o : outcome) (cmd : BatchImageBalanceHoldCommand)
| Cleanup (cutoff : Z)
| Elsewhere (f : BillingDB → BillingDB).   (* any change outside the claims *)

Definition hold_apply (kind : hold_kind) : BatchImageBalanceHoldCommand → tx BatchImageBalanceHoldResult :=
  match kind with
  | Reserve => reserveUsageBillingBatchImageBalance
  | Capture => captureUsageBillingBatchImageBalance
  | Release => releaseUsageBillingBatchImageBalance
  end.

Definition step_key (s : billing_step) : option (string * Z) :=
  match s with
  | Charge _ _ _ cmd => Some (uc_RequestID (Normalize cmd), uc_APIKeyID cmd)
  | Hold _ _ _ cmd => Some (hc_RequestID (NormalizeHold cmd), hc_APIKeyID cmd)
  | _ => None
  end.

Definition perform (s : billing_step) (d : BillingDB) : BillingDB :=
  match s with
  | Charge now clock o cmd => (Apply now clock o cmd d).2
  | Hold Reserve now o cmd => (ReserveBatchImageBalance now o cmd d).2
  | Hold Capture now o cmd => (CaptureBatchImageBalance now o cmd d).2
  | Hold Release now o cmd => (ReleaseBatchImageBalance now o cmd d).2
  | Cleanup cutoff => CleanupUsageBillingDedup cutoff d
  | Elsewhere f => with_dedup (bd_dedup d) (bd_archive d) (f d)
  end.

(** The caller was told that the request is settled. *)
Definition answered (s : billing_step) (d : BillingDB) : bool :=
  match s with
  | Charge now clock o cmd => match (Apply now clock o cmd d).1 with inr _ => true | inl _ => false end
  | Hold kind now o cmd =>
      match (applyBatchImageBalanceHold now o cmd (hold_apply kind) d).1 with inr _ => true | inl _ => false end
  | _ => false
  end.

(** The body ran its effects and the transaction committed. *)
Definition commits (o : outcome) : bool := match o with Fails => false | _ => true end.

Definition takes_effect (s : billing_step) (d : BillingDB) : bool :=
  match s with
  | Charge now clock o cmd =>
      commits o && negb (String.eqb (uc_RequestID (Normalize cmd)) "")
      && match apply_body now clock (Normalize cmd) d with inr (r, _, _) => rs_Applied r | inl _ => false end
  | Hold kind now o cmd =>
      commits o && negb (String.eqb (hc_RequestID (NormalizeHold cmd)) "")
      && match hold_body now (NormalizeHold cmd) (hold_apply kind) d with
         | inr (r, _, _) => hr_Applied r | inl _ => false end
  | _ => false
  end.

(** What customers are charged by. *)
Definition ledgers (d : BillingDB) :=
  (bd_users d, bd_api_keys d, bd_subscriptions d, bd_accounts d).

Definition step_new (s : billing_step) (d : BillingDB) : option (string * Z) :=
  if takes_effect s d then step_key s else None.

(** ** Bodies *)

Lemma apply_body_claims now clock cmd d r commit d' :
  apply_body now clock cmd d = inr (r, commit, d') →
  commit = rs_Applied r ∧
  claims_kept d d' (if rs_Applied r then Some (uc_RequestID cmd, uc_APIKeyID cmd) else None) ∧
  (rs_Applied r = false → ∃ row, claims d !! (uc_RequestID cmd, uc_APIKeyID cmd) = Some row ∧
     fingerprint_of row = TrimSpace (uc_RequestFingerprint cmd)).
Proof.
  intros Hr. unfold apply_body in Hr. tx_inv.
  match goal with H : claimUsageBillingRequest _ _ _ _ _ = inr (?a, _) |- _ =>
    apply claim_kept in H as [Hk Hf]; destruct a; simpl in * end; tx_inv; simplify_eq; simpl.
  - match goal with
    | He : applyUsageBillingEffects _ _ _ _ = inr (?r0, _), Hp : persist_log _ _ = inr _ |- _ =>
        pose proof (effects_frame _ _ bd_dedup _ ltac:(done) ltac:(done) ltac:(done) ltac:(done) ltac:(done) _ _ _ He);
        pose proof (effects_frame _ _ bd_archive _ ltac:(done) ltac:(done) ltac:(done) ltac:(done) ltac:(done) _ _ _ He);
        pose proof (persist_frame bd_dedup _ ltac:(done) _ _ _ Hp);
        pose proof (persist_frame bd_archive _ ltac:(done) _ _ _ Hp);
        assert (rs_Applied r0 = true) as Happ by (unfold applyUsageBillingEffects in He; by tx_inv)
    end.
    rewrite Happ. split; [done|]. split; [|done]. eapply kept_then; [exact Hk|congruence..].
  - done.
Qed.

Lemma hold_apply_frame {B} (f : BillingDB → B) kind cmd :
  (∀ m d, f (with_users m d) = f d) → preserves f (hold_apply kind cmd).
Proof.
  intros Hf. destruct kind; simpl;
    unfold reserveUsageBillingBatchImageBalance, captureUsageBillingBatchImageBalance,
      releaseUsageBillingBatchImageBalance, batchImageHoldClaimExists, explain_miss, userExistsForBilling;
    frame.
Qed.

Lemma hold_body_claims now kind cmd d r commit d' :
  hold_body now cmd (hold_apply kind) d = inr (r, commit, d') →
  (hr_Applied r = true → commit = true) ∧
  claims_kept d d' (if hr_Applied r then Some (hc_RequestID cmd, hc_APIKeyID cmd) else None) ∧
  (hr_Applied r = false → ledgers d' = ledgers d ∧
     ∃ row, claims d !! (hc_RequestID cmd, hc_APIKeyID cmd) = Some row ∧
       fingerprint_of row = TrimSpace (hc_RequestFingerprint cmd)).
Proof.
  intros Hr. unfold hold_body in Hr. tx_inv.
  match goal with H : claimUsageBillingRequest _ _ _ _ _ = inr (?a, _) |- _ =>
    pose proof (claim_frame now ledgers _ _ _ ltac:(done) _ _ _ H) as Hled;
    apply claim_kept in H as [Hk Hf]; destruct a; simpl in * end; tx_inv; simplify_eq; simpl.
  - match goal with
    | He : hold_apply _ _ _ = inr _, Hp : persist_log _ _ = inr _ |- _ =>
        pose proof (hold_apply_frame bd_dedup _ _ ltac:(done) _ _ _ He);
        pose proof (hold_apply_frame bd_archive _ _ ltac:(done) _ _ _ He);
        pose proof (persist_frame bd_dedup _ ltac:(done) _ _ _ Hp);
        pose proof (persist_frame bd_archive _ ltac:(done) _ _ _ Hp)
    end.
    split; [done|]. split; [|done]. eapply kept_then; [exact Hk|congruence..].
  - match goal with
    | Hp : persist_log _ _ = inr _ |- _ =>
        pose proof (persist_frame bd_dedup _ ltac:(done) _ _ _ Hp);
        pose proof (persist_frame bd_archive _ ltac:(done) _ _ _ Hp);
        pose proof (persist_frame ledgers _ ltac:(done) _ _ _ Hp)
    end.
    split; [done|]. split; [eapply kept_then; [exact Hk|congruence..]|]. intros _.
    split; [unfold ledgers in *; congruence|by apply Hf].
Qed.

(** ** Archiving *)

Lemma archive_batch_kept victims d :
  NoDup victims.*1 → (∀ k r, (k, r) ∈ victims → bd_dedup d !! k = Some r) →
  claims_kept d (archive_batch victims d) None.
Proof.
  intros Hnd Hv. unfold archive_batch. set (m := list_to_map victims : gmap (string * Z) DedupRow).
  assert (∀ k, foldr delete (bd_dedup d) victims.*1 !! k = if decide (k ∈ victims.*1) then None else bd_dedup d !! k)
    as Hhot.
  { clear Hnd Hv. intros k. induction victims as [|[k' r'] l IH]; csimpl; [done|].
    rewrite lookup_delete, IH. repeat case_decide; set_solver. }
  assert (∀ k r, m !! k = Some r ↔ (k, r) ∈ victims) as Hmap.
  { intros k r. unfold m. by rewrite elem_of_list_to_map. }
  assert (∀ k, m !! k = None ↔ k ∉ victims.*1) as Hnone.
  { intros k. unfold m. by rewrite not_elem_of_list_to_map. }
  assert (∀ k, (bd_archive d ∪ m) !! k =
    match bd_archive d !! k with Some r => Some r | None => m !! k end) as Hcold.
  { intros k. destruct (bd_archive d !! k) eqn:E; [by apply lookup_union_Some_l|by rewrite lookup_union_r]. }
  assert (∀ k, k ∈ victims.*1 → ∃ r, bd_dedup d !! k = Some r ∧ m !! k = Some r)
    as Hin.
  { intros k ([k' r] & -> & Hin)%list_elem_of_fmap. exists r. split; [by apply Hv|by apply Hmap]. }
  split.
  - intros Ha k r r'. simpl. rewrite Hhot, Hcold. case_decide as Hk; [done|]. intros Hr.
    destruct (bd_archive d !! k) eqn:E; [intros [= <-]; by eapply Ha|]. by rewrite (proj2 (Hnone k) Hk).
  - done.
  - intros _ k. rewrite !claims_lookup. simpl. rewrite Hhot, Hcold. case_decide as Hk.
    + destruct (Hin k Hk) as (r & -> & ->). destruct (bd_archive d !! k); naive_solver.
    + destruct (bd_dedup d !! k), (bd_archive d !! k); rewrite ?(proj2 (Hnone k) Hk); naive_solver.
  - intros Ha k x. rewrite !claims_lookup. simpl. rewrite Hhot, Hcold. case_decide as Hk.
    + destruct (Hin k Hk) as (r & Hr & ->). rewrite Hr. intros [= <-].
      destruct (bd_archive d !! k) as [r'|] eqn:E; [|by eauto]. exists r'. split; [done|].
      symmetry. by eapply Ha.
    + destruct (bd_dedup d !! k), (bd_archive d !! k); rewrite ?(proj2 (Hnone k) Hk); naive_solver.
Qed.

Lemma claims_kept_trans d d1 d2 :
  claims_kept d d1 None → claims_kept d1 d2 None → claims_kept d d2 None.
Proof.
  intros K L. split.
  - intros Ha. by apply (kept_agree _ _ _ L), (kept_agree _ _ _ K).
  - done.
  - intros Ha k. rewrite (kept_dom _ _ _ L (kept_agree _ _ _ K Ha)), (kept_dom _ _ _ K Ha). naive_solver.
  - intros Ha k r Hr. destruct (kept_fingerprint _ _ _ K Ha k r Hr) as (r1 & Hr1 & <-).
    apply (kept_fingerprint _ _ _ L); [by apply (kept_agree _ _ _ K)|done].
Qed.

Lemma expired_claims_spec cutoff d k r :
  (k, r) ∈ expired_claims cutoff d ↔ bd_dedup d !! k = Some r ∧ dr_created_at r < cutoff.
Proof. unfold expired_claims. rewrite elem_of_map_to_list, map_lookup_filter_Some. naive_solver. Qed.

Lemma cleanup_loop_kept fuel cutoff d : claims_kept d (cleanup_loop fuel cutoff d) None.
Proof.
  revert d. induction fuel as [|fuel IH]; intros d; simpl; [by apply claims_kept_same|].
  set (victims := take _ _).
  assert (claims_kept d (archive_batch victims d) None) as Hb.
  { apply archive_batch_kept.
    - unfold victims. rewrite fmap_take. apply sublist_NoDup with (expired_claims cutoff d).*1; [|apply sublist_take].
      apply NoDup_fst_map_to_list.
    - intros k r Hk. apply expired_claims_spec with cutoff. by eapply subseteq_take. }
  case_match; [done|]. by eapply claims_kept_trans.
Qed.

(** ** Sequences of steps *)

Lemma perform_hold kind now o cmd d :
  perform (Hold kind now o cmd) d = (applyBatchImageBalanceHold now o cmd (hold_apply kind) d).2.
Proof. by destruct kind. Qed.

Lemma step_kept s d : claims_kept d (perform s d) (step_new s d).
Proof.
  unfold step_new. destruct s as [now clock o cmd|kind now o cmd|cutoff|f].
  - simpl. unfold Apply, transact. destruct (String.eqb _ ""); [rewrite andb_false_r; by apply claims_kept_same|].
    destruct (apply_body _ _ _ d) as [|[[r commit] d']] eqn:Hb; [rewrite !andb_false_r; by apply claims_kept_same|].
    apply apply_body_claims in Hb as (-> & Hk & _). rewrite andb_true_r.
    destruct o, (rs_Applied r); simpl; first [exact Hk|by apply claims_kept_same].
  - rewrite perform_hold. simpl. unfold applyBatchImageBalanceHold, transact.
    destruct (String.eqb _ ""); [rewrite andb_false_r; by apply claims_kept_same|].
    destruct (hold_body _ _ _ d) as [|[[r commit] d']] eqn:Hb; [rewrite !andb_false_r; by apply claims_kept_same|].
    apply hold_body_claims in Hb as (Hc & Hk & _). rewrite andb_true_r.
    destruct (hr_Applied r); [rewrite (Hc eq_refl)|destruct commit];
      destruct o; simpl; first [exact Hk|by apply claims_kept_same].
  - apply cleanup_loop_kept.
  - by apply claims_kept_same.
Qed.

(** The keys of the steps that took effect, and of those answered without an error. *)
Fixpoint settled_keys (ss : list billing_step) (d : BillingDB) : list (string * Z) :=
  match ss with
  | [] => []
  | s :: ss => option_list (step_new s d) ++ settled_keys ss (perform s d)
  end.

Fixpoint answered_keys (ss : list billing_step) (d : BillingDB) : list (string * Z) :=
  match ss with
  | [] => []
  | s :: ss => (if answered s d then option_list (step_key s) else []) ++ answered_keys ss (perform s d)
  end.

(** A request that is answered is claimed afterwards. *)
Lemma answered_claimed s d k :
  claims_agree d → answered s d = true → step_key s = Some k →
  is_Some (claims d !! k) ∨ step_new s d = Some k.
Proof.
  intros Ha Hans Hk. unfold step_new. destruct s as [now clock o cmd|kind now o cmd|cutoff|f]; try done.
  - simpl in *. simplify_eq. revert Hans. unfold Apply, transact. destruct (String.eqb _ ""); [done|].
    destruct (apply_body _ _ _ d) as [|[[r commit] d']] eqn:Hb; [done|].
    apply apply_body_claims in Hb as (-> & _ & Hf). destruct (rs_Applied r).
    + destruct o; simpl; [by right|done|done].
    + destruct (Hf eq_refl) as (row & Hrow & _). eauto.
  - simpl in *. simplify_eq. revert Hans. unfold applyBatchImageBalanceHold, transact.
    destruct (String.eqb _ ""); [done|].
    destruct (hold_body _ _ _ d) as [|[[r commit] d']] eqn:Hb; [done|].
    apply hold_body_claims in Hb as (Hc & _ & Hf). destruct (hr_Applied r).
    + rewrite (Hc eq_refl). destruct o; simpl; [by right|done|done].
    + destruct (Hf eq_refl) as (_ & row & Hrow & _). eauto.
Qed.

Lemma settled_unclaimed ss d k : claims_agree d → k ∈ settled_keys ss d → claims d !! k = None.
Proof.
  revert d. induction ss as [|s ss IH]; intros d Ha; simpl; [by intros ?%elem_of_nil|].
  pose proof (step_kept s d) as K. rewrite elem_of_app. intros [Hk|Hk].
  - apply (kept_fresh _ _ _ K). by destruct (step_new s d); [apply list_elem_of_singleton in Hk as ->|apply elem_of_nil in Hk].
  - apply IH in Hk; [|by apply (kept_agree _ _ _ K)]. apply eq_None_not_Some. intros Hs.
    apply eq_None_not_Some in Hk. apply Hk. apply (kept_dom _ _ _ K Ha). by left.
Qed.

Lemma settled_once ss d : claims_agree d → NoDup (settled_keys ss d).
Proof.
  revert d. induction ss as [|s ss IH]; intros d Ha; simpl; [constructor|].
  pose proof (step_kept s d) as K. pose proof (kept_agree _ _ _ K Ha) as Ha'.
  destruct (step_new s d) as [k|] eqn:Hn; simpl; [|by apply IH]. constructor; [|by apply IH].
  intros Hk%settled_unclaimed; [|done]. apply eq_None_not_Some in Hk. apply Hk.
  apply (kept_dom _ _ _ K Ha). by right.
Qed.

Lemma answered_settled ss d k :
  claims_agree d → claims d !! k = None → k ∈ answered_keys ss d → k ∈ settled_keys ss d.
Proof.
  revert d. induction ss as [|s ss IH]; intros d Ha Hfree; simpl; [done|].
  pose proof (step_kept s d) as K. rewrite !elem_of_app. intros [Hk|Hk].
  - left. destruct (answered s d) eqn:Hans; [|by apply elem_of_nil in Hk].
    destruct (step_key s) as [k'|] eqn:Hkey; [|by apply elem_of_nil in Hk].
    apply list_elem_of_singleton in Hk as ->.
    destruct (answered_claimed s d k' Ha Hans Hkey) as [[? ?]| ->]; [congruence|]. by apply list_elem_of_singleton.
  - destruct (claims (perform s d) !! k) as [r|] eqn:E.
    + left. destruct (proj1 (kept_dom _ _ _ K Ha k) ltac:(eauto)) as [[? ?]| ->]; [congruence|].
      by apply list_elem_of_singleton.
    + right. apply IH; [by apply (kept_agree _ _ _ K)|done|done].
Qed.

(** C1. In any sequence of charges, holds, archivings and changes made elsewhere, with
    failures before a commit and answers lost after it, no two steps that take effect
    have the same request; and a request that was answered without an error, at
    whatever attempt, took effect in one of them. *)
Theorem settled_exactly_once ss d :
  claims_agree d →
  NoDup (settled_keys ss d) ∧
  ∀ k, claims d !! k = None → k ∈ answered_keys ss d → k ∈ settled_keys ss d.
Proof. intros Ha. split; [by apply settled_once|]. intros k. by apply answered_settled. Qed.

(** A charge or a hold that does not take effect leaves balances, keys,
    subscriptions and accounts as they are. *)
Theorem unsettled_no_effect s d :
  takes_effect s d = false → is_Some (step_key s) → ledgers (perform s d) = ledgers d.
Proof.
  destruct s as [now clock o cmd|kind now o cmd|cutoff|f]; [| |by intros _ [? ?]..]; intros Ht _.
  - simpl in *. revert Ht. unfold Apply, transact. destruct (String.eqb _ ""); [done|].
    destruct (apply_body _ _ _ d) as [|[[r commit] d']] eqn:Hb; [done|].
    apply apply_body_claims in Hb as (-> & _ & _). rewrite andb_true_r.
    by destruct o, (rs_Applied r).
  - rewrite perform_hold. simpl in *. revert Ht. unfold applyBatchImageBalanceHold, transact.
    destruct (String.eqb _ ""); [done|].
    destruct (hold_body _ _ _ d) as [|[[r commit] d']] eqn:Hb; [done|].
    apply hold_body_claims in Hb as (_ & _ & Hf). rewrite andb_true_r.
    destruct o; simpl; [intros Ht|done|intros Ht]; destruct (Hf Ht) as [Hl _]; by destruct commit.
Qed.

(** ** Answers to a claimed request *)

Lemma claim_known now key kid fp d row :
  claims d !! (key, kid) = Some row →
  if decide (fingerprint_of row = TrimSpace fp)
  then ∃ d', claimUsageBillingRequest now key kid fp d = inr (false, d')
  else claimUsageBillingRequest now key kid fp d = inl ErrUsageBillingRequestConflict.
Proof.
  rewrite claims_lookup. unfold claimUsageBillingRequest, mbind, tx_bind, select, change, fingerprint_of; simpl.
  destruct (bd_dedup d !! _) as [r|]; [|intros ->]; [intros [= ->]|];
    destruct (String.eqb_spec (TrimSpace (dr_request_fingerprint row)) (TrimSpace fp)) as [Heq|Hne];
    case_decide; try done; by eexists.
Qed.

(** C35. A request that is claimed is not applied again: with the fingerprint of the
    claim the answer says so, with another one it is a conflict; nothing changes
    either way. *)
Theorem claimed_request_replay now clock o cmd d row :
  uc_RequestID (Normalize cmd) ≠ "" →
  claims d !! (uc_RequestID (Normalize cmd), uc_APIKeyID cmd) = Some row →
  Apply now clock o cmd d =
    (if decide (fingerprint_of row = TrimSpace (uc_RequestFingerprint (Normalize cmd)))
     then if o is Fails then inl ErrDatabase else inr not_applied
     else inl ErrUsageBillingRequestConflict, d).
Proof.
  intros Hid Hrow. unfold Apply.
  destruct (String.eqb_spec (uc_RequestID (Normalize cmd)) ""); [done|].
  pose proof (claim_known now _ _ (uc_RequestFingerprint (Normalize cmd)) d row Hrow) as Hc.
  unfold transact, apply_body, mbind, tx_bind. simpl in Hc |- *. case_decide.
  - destruct Hc as [d' Hc]. rewrite Hc. by destruct o.
  - by rewrite Hc.
Qed.

(** ** Archiving ends, and takes exactly the old claims *)

Lemma foldr_delete_keys {A} (ks : list (string * Z)) (m : gmap (string * Z) A) k :
  foldr delete m ks !! k = if decide (k ∈ ks) then None else m !! k.
Proof.
  induction ks as [|k' ks IH]; simpl; [done|]. rewrite lookup_delete, IH. repeat case_decide; set_solver.
Qed.

Lemma foldr_delete_size {A} (ks : list (string * Z)) (m : gmap (string * Z) A) :
  NoDup ks → (∀ k, k ∈ ks → is_Some (m !! k)) → size m = (length ks + size (foldr delete m ks))%nat.
Proof.
  revert m. induction ks as [|k ks IH]; intros m Hnd Hin; simpl; [done|].
  apply NoDup_cons in Hnd as [Hk Hnd]. rewrite (IH m) by (done || set_solver).
  destruct (Hin k) as [x Hx]; [set_solver|].
  rewrite map_size_delete, foldr_delete_keys, decide_False, Hx by done.
  assert (size (foldr delete m ks) ≠ 0%nat); [|simpl; lia].
  intros Hz%map_size_empty_inv. assert (foldr delete m ks !! k = Some x) as E
    by (rewrite foldr_delete_keys, decide_False; done). rewrite Hz in E. done.
Qed.

Definition victims (cutoff : Z) (d : BillingDB) : list ((string * Z) * DedupRow) :=
  take (Z.to_nat usageBillingDedupCleanupBatchSize) (expired_claims cutoff d).

Lemma victims_spec cutoff d :
  NoDup (victims cutoff d).*1 ∧ ∀ k, k ∈ (victims cutoff d).*1 →
    ∃ r, bd_dedup d !! k = Some r ∧ dr_created_at r < cutoff.
Proof.
  split.
  - unfold victims. rewrite fmap_take. apply sublist_NoDup with (expired_claims cutoff d).*1; [|apply sublist_take].
    apply NoDup_fst_map_to_list.
  - intros k ([k' r] & -> & Hin)%list_elem_of_fmap. exists r. apply expired_claims_spec.
    by eapply subseteq_take.
Qed.

Lemma cleanup_loop_spec fuel cutoff d :
  (size (bd_dedup d) < fuel)%nat →
  ∀ k r, bd_dedup (cleanup_loop fuel cutoff d) !! k = Some r ↔
         bd_dedup d !! k = Some r ∧ cutoff ≤ dr_created_at r.
Proof.
  revert d. induction fuel as [|fuel IH]; intros d Hsz k r; [lia|]. simpl.
  fold (victims cutoff d). destruct (victims_spec cutoff d) as [Hnd Hv].
  assert (∀ k r, bd_dedup (archive_batch (victims cutoff d) d) !! k = Some r ↔
            bd_dedup d !! k = Some r ∧ k ∉ (victims cutoff d).*1) as Hb.
  { intros k' r'. simpl. rewrite foldr_delete_keys. case_decide; naive_solver. }
  destruct (Z.ltb_spec (Z.of_nat (length (victims cutoff d))) usageBillingDedupCleanupBatchSize) as [Hl|Hl].
  - rewrite Hb. assert (victims cutoff d = expired_claims cutoff d) as ->.
    { unfold victims in *. apply take_ge. rewrite length_take in Hl.
      unfold usageBillingDedupCleanupBatchSize in *. lia. }
    split; intros [Hr Hc]; (split; [done|]).
    + apply Z.nlt_ge. intros Hlt. apply Hc. apply list_elem_of_fmap. exists (k, r). split; [done|].
      by apply expired_claims_spec.
    + intros ([k' r'] & -> & Hin)%list_elem_of_fmap. apply expired_claims_spec in Hin as [? ?].
      simpl in *. simplify_eq. lia.
  - rewrite IH.
    + rewrite Hb. split; intros [? ?]; [naive_solver|]. split; [|done]. split; [done|].
      intros Hin. destruct (Hv k Hin) as (r' & ? & ?). simplify_eq. lia.
    + simpl. pose proof (foldr_delete_size (victims cutoff d).*1 (bd_dedup d) Hnd) as Hs.
      rewrite length_fmap in Hs. unfold usageBillingDedupCleanupBatchSize in Hl.
      assert (size (bd_dedup d) = (length (victims cutoff d) + size (foldr delete (bd_dedup d) (victims cutoff d).*1))%nat);
        [|lia]. apply Hs. intros k' Hk'. destruct (Hv k' Hk') as (? & ? & _). eauto.
Qed.

(** Archiving stops, with exactly the claims before the cutoff moved: the hot
    table keeps the others, no request becomes claimable and no fingerprint
    changes. *)
Theorem cleanup_archives cutoff d :
  claims_agree d →
  let d' := CleanupUsageBillingDedup cutoff d in
  (∀ k r, bd_dedup d' !! k = Some r ↔ bd_dedup d !! k = Some r ∧ cutoff ≤ dr_created_at r) ∧
  (∀ k, is_Some (claims d' !! k) ↔ is_Some (claims d !! k)) ∧
  (∀ k r, claims d !! k = Some r → ∃ r', claims d' !! k = Some r' ∧ fingerprint_of r' = fingerprint_of r).
Proof.
  intros Ha d'. pose proof (cleanup_loop_kept (S (size (bd_dedup d))) cutoff d) as K. split; [|split].
  - apply cleanup_loop_spec. lia.
  - intros k. unfold d', CleanupUsageBillingDedup. rewrite (kept_dom _ _ _ K Ha). naive_solver.
  - apply (kept_fingerprint _ _ _ K Ha).
Qed.
End Claims.

(** ** A charge whose answer is lost *)

Section Examples.
#[local] Existing Instances ascii_case FewestDigits plain_digest demo_sql demo_owners.
#[local] Instance utc : Location := fixed_zone 0.

(** It fails, commits without an answer, is archived and sent again. *)
Definition demo_steps : list billing_step :=
  let cmd := demo_charge "r" "f" None fzero in
  [ Charge demo_noon demo_noon Fails cmd; Charge demo_noon demo_noon CommitLost cmd;
    Cleanup (demo_noon + Day); Charge demo_noon demo_noon Commits cmd ].

Lemma settled_exactly_once_witness :
  NoDup (settled_keys demo_steps demo_billing) ∧
  answered_keys demo_steps demo_billing = [("r", 3)] ∧ ("r", 3) ∈ settled_keys demo_steps demo_billing.
Proof.
  assert (claims_agree demo_billing) as Ha by done.
  destruct (settled_exactly_once demo_steps demo_billing Ha) as [Hnd Hin].
  assert (answered_keys demo_steps demo_billing = [("r", 3)]) as E by (vm_compute; reflexivity).
  split; [exact Hnd|]. split; [exact E|].
  apply Hin; [reflexivity|]. rewrite E. by apply list_elem_of_singleton.
Defined.

(** The request above is claimed. *)
Definition claimed_db : BillingDB :=
  with_dedup {[("r", 3) := mkDedupRow "f" demo_noon]} ∅ demo_billing.

Lemma claimed_request_replay_witness :
  Apply demo_noon demo_noon Commits (demo_charge "r" "g" None fzero) claimed_db
    = (inl ErrUsageBillingRequestConflict, claimed_db).
Proof.
  assert (uc_RequestID (Normalize (demo_charge "r" "g" None fzero)) ≠ "") as Hid by (vm_compute; discriminate).
  rewrite (claimed_request_replay demo_noon demo_noon Commits (demo_charge "r" "g" None fzero) claimed_db
             (mkDedupRow "f" demo_noon) Hid eq_refl).
  reflexivity.
Defined.

Lemma unsettled_no_effect_witness :
  ledgers (perform (Charge demo_noon demo_noon Fails (demo_charge "r" "f" None fzero)) demo_billing)
  = ledgers demo_billing.
Proof. apply unsettled_no_effect; [vm_compute; reflexivity|eexists; vm_compute; reflexivity]. Defined.

Lemma cleanup_archives_witness :
  let d' := CleanupUsageBillingDedup (demo_noon + Day) claimed_db in
  bd_dedup d' !! ("r", 3) = None ∧ is_Some (claims d' !! ("r", 3)).
Proof.
  pose proof (empty_archive_agrees claimed_db eq_refl) as Ha.
  destruct (cleanup_archives (demo_noon + Day) claimed_db Ha) as (_ & Hin & _). split.
  - vm_compute. reflexivity.
  - apply Hin. by eexists.
Defined.
End Examples.
