(* ===== verification/UsageBillingFunds.v ===== *)
(** * Usage billing: where the money is

    A user's funds are the balance and the frozen balance.  Reserving and releasing
    move money between the two, a capture takes the actual cost, a charge takes
    its cost; nothing else moves money, when amounts have eight decimals.  Holds are not
    quantised as charges are, and with nine decimals money is created; a release that
    comes before its hold leaves the hold in place for good. *)

From Stdlib Require Import ZArith Lia Ascii String SpecFloat.
From stdpp Require Import base tactics numbers list gmap strings sorting.
From S2P Require Import Prelude GoStrings GoFloat GoTime GoDecimal ProxyLifecycle BillingData UsageBilling UsageBillingExamples UsageBillingCorrect UsageBillingClaims.

Open Scope go_scope.
Open Scope string_scope.
Open Scope Z_scope.

#[local] Opaque Z.pow places to_float shortest.

Section Funds.
Context `{ShortestDecimal} `{Digest} `{UnicodeCase} `{SqlText} `{CodexOwners} `{Location}.

Lemma amount_le_zero c n : is_amount c n → c <=. fzero = (n <=? 0).
Proof.
  intros [-> Hn]. destruct (to_float_units n Hn) as [_ [[-> ->]|(q & e & -> & Hz)]]; [done|].
  destruct (Z.ltb_spec n 0), (Z.leb_spec n 0); done || lia.
Qed.

(** What a successful hold operation does to its user. *)
Definition move_funds (db df : Z) (u : UserRow) : UserRow :=
  mkUserRow (ur_balance u + db) (ur_frozen_balance u + df) (ur_deleted u).

Definition captured (kind : hold_kind) (h a : Z) : Z :=
  match kind with Capture => if (h <=? 0) && (a <=? 0) then 0 else a | _ => 0 end.

Record moved (kind : hold_kind) (uid h a : Z) (d d' : BillingDB) : Prop := {
  moved_users : ∃ db df,
    bd_users d' = alter (move_funds db df) uid (bd_users d) ∧
    db + df = - captured kind h a ∧
    (∀ u, bd_users d !! uid = Some u → 0 ≤ ur_frozen_balance u → 0 ≤ ur_frozen_balance u + df) ∧
    (kind = Reserve → ∀ u, bd_users d !! uid = Some u → db = 0 ∨ 0 ≤ ur_balance u + db)
}.

Lemma moved_nothing kind uid h a d d' :
  bd_users d' = bd_users d → captured kind h a = 0 → moved kind uid h a d d'.
Proof.
  intros Hu Hc. split. exists 0, 0. rewrite Hu, Hc. repeat split; [|lia|by left].
  apply map_eq. intros j. rewrite lookup_alter. case_decide; [subst|done].
  destruct (bd_users d !! j) as [[b f x]|]; simpl; [|done]. unfold move_funds. simpl. by rewrite !Z.add_0_r.
Qed.

Lemma set_balance_moved uid (u : UserRow) db df d r d' :
  live ur_deleted (bd_users d) uid = Some u →
  set_balance uid (ur_balance u + db) (ur_frozen_balance u + df) d = inr (r, d') →
  bd_users d' = alter (move_funds db df) uid (bd_users d).
Proof.
  intros Hu Hr. unfold set_balance in Hr. tx_inv. simpl. rewrite <-(alter_live _ _ _ _ _ Hu). f_equal.
  apply live_Some in Hu as [_ Hd]. unfold move_funds. by rewrite Hd.
Qed.

Lemma explain_miss_inv {A} uid e d (r : A) d' : explain_miss uid e d = inr (r, d') → False.
Proof. unfold explain_miss, userExistsForBilling. intros Hr. tx_inv. case_match; by tx_inv. Qed.

Lemma at_least_units u n : at_least u (Some (of_units 8 n)) = (n <=? u).
Proof. unfold at_least. by rewrite of_units_leb by apply scale8. Qed.

(** Amounts that were sent are what they are worth. *)
Ltac sent_amounts :=
  repeat match goal with
  | Hc : is_amount ?c ?n, Ha : argument ?c = Some ?x |- _ =>
      rewrite (amount_argument _ _ Hc) in Ha; apply (inj Some) in Ha; subst x
  end.

Ltac miss := exfalso; by eapply explain_miss_inv.

Lemma reserve_moved cmd h a d r d' :
  is_amount (hc_HoldAmount cmd) h →
  reserveUsageBillingBatchImageBalance cmd d = inr (r, d') → moved Reserve (hc_UserID cmd) h a d d'.
Proof.
  intros Hh Hr. unfold reserveUsageBillingBatchImageBalance in Hr. rewrite (amount_le_zero _ _ Hh) in Hr.
  destruct (Z.leb_spec h 0); [tx_inv; by apply moved_nothing|]. tx_inv.
  destruct (live ur_deleted _ _) as [u|] eqn:Hu; [|miss].
  rewrite (amount_argument _ _ Hh), at_least_units in *. destruct (Z.leb_spec h (ur_balance u)); [|miss].
  tx_inv. sent_amounts.
  rewrite to_units_sub_units, to_units_add_units in * by apply scale8.
  split. exists (- h), h. split; [by eapply set_balance_moved|]. split; [simpl; lia|].
  apply live_Some in Hu as [Hu _]. split; [intros; lia|]. intros _ u' Hu'. simplify_eq. lia.
Qed.

(** The two cases of the capture statement are one difference. *)
Lemma settle_units b h a :
  to_units 8 (of_units 8 b + (if of_units 8 a <? of_units 8 h then of_units 8 h - of_units 8 a else 0)
              - (if of_units 8 h <? of_units 8 a then of_units 8 a - of_units 8 h else 0)) = b + (h - a).
Proof.
  rewrite !of_units_ltb by apply scale8.
  destruct (Z.ltb_spec a h), (Z.ltb_spec h a); [lia|..];
    rewrite ?of_units_sub, ?Z.sub_0_r, ?Z.add_0_r, ?of_units_add, ?of_units_sub, to_units_of_units by apply scale8; lia.
Qed.

Lemma capture_moved cmd h a d r d' :
  is_amount (hc_HoldAmount cmd) h → is_amount (hc_ActualAmount cmd) a →
  captureUsageBillingBatchImageBalance cmd d = inr (r, d') → moved Capture (hc_UserID cmd) h a d d'.
Proof.
  intros Hh Ha Hr. unfold captureUsageBillingBatchImageBalance in Hr.
  rewrite (amount_le_zero _ _ Hh), (amount_le_zero _ _ Ha) in Hr.
  destruct ((h <=? 0) && (a <=? 0)) eqn:Hz;
    [tx_inv; apply moved_nothing; [done|]; simpl; by rewrite Hz|].
  case_match; [by tx_inv|]. tx_inv.
  destruct (live ur_deleted _ _) as [u|] eqn:Hu; [|miss].
  rewrite (amount_argument _ _ Hh), at_least_units in *. destruct (Z.leb_spec h (ur_frozen_balance u)); [|miss].
  tx_inv. sent_amounts.
  rewrite settle_units, to_units_sub_units in * by apply scale8.
  split. exists (h - a), (- h). split; [by eapply set_balance_moved|]. split; [simpl; rewrite Hz; lia|].
  apply live_Some in Hu as [Hu _]. split; [|done]. intros u' Hu'. rewrite Hu in Hu'. injection Hu' as <-. lia.
Qed.

Lemma release_moved cmd h a d r d' :
  is_amount (hc_HoldAmount cmd) h →
  releaseUsageBillingBatchImageBalance cmd d = inr (r, d') → moved Release (hc_UserID cmd) h a d d'.
Proof.
  intros Hh Hr. unfold releaseUsageBillingBatchImageBalance, batchImageHoldClaimExists in Hr.
  rewrite (amount_le_zero _ _ Hh) in Hr.
  destruct (Z.leb_spec h 0); [tx_inv; by apply moved_nothing|]. tx_inv.
  case_match; [tx_inv; by apply moved_nothing|]. tx_inv.
  destruct (live ur_deleted _ _) as [u|] eqn:Hu; [|miss].
  rewrite (amount_argument _ _ Hh), at_least_units in *. destruct (Z.leb_spec h (ur_frozen_balance u)); [|miss].
  tx_inv. sent_amounts.
  rewrite to_units_sub_units, to_units_add_units in * by apply scale8.
  split. exists h, (- h). split; [by eapply set_balance_moved|]. split; [simpl; lia|].
  apply live_Some in Hu as [Hu _]. split; [|done]. intros u' Hu'. rewrite Hu in Hu'. injection Hu' as <-. lia.
Qed.

Lemma hold_apply_moved kind cmd h a d r d' :
  is_amount (hc_HoldAmount cmd) h → is_amount (hc_ActualAmount cmd) a →
  hold_apply kind cmd d = inr (r, d') → moved kind (hc_UserID cmd) h a d d'.
Proof. destruct kind; [intros ? _|..|intros ? _]; eauto using reserve_moved, capture_moved, release_moved. Qed.

(** ** Sequences of steps *)

(** The units a step takes from a user's funds. *)
Definition taken (s : billing_step) (d : BillingDB) (uid : Z) : Z :=
  if takes_effect s d then
    match s with
    | Charge _ _ _ cmd => if uc_UserID cmd =? uid then Z.max 0 (charge_of (uc_BalanceCost cmd)) else 0
    | Hold kind _ _ cmd =>
        if hc_UserID cmd =? uid then captured kind (units (hc_HoldAmount cmd)) (units (hc_ActualAmount cmd)) else 0
    | _ => 0
    end
  else 0.

Fixpoint taken_along (ss : list billing_step) (d : BillingDB) (uid : Z) : Z :=
  match ss with
  | [] => 0
  | s :: ss => taken s d uid + taken_along ss (perform s d) uid
  end.

Definition run (ss : list billing_step) (d : BillingDB) : BillingDB := foldl (flip perform) d ss.

(** Amounts with eight decimals, and changes elsewhere that leave the funds alone. *)
Definition well_formed_step (s : billing_step) : Prop :=
  match s with
  | Charge _ _ _ cmd => payable (uc_BalanceCost cmd)
  | Hold _ _ _ cmd => (∃ h, is_amount (hc_HoldAmount cmd) h) ∧ ∃ a, is_amount (hc_ActualAmount cmd) a
  | Cleanup _ => True
  | Elsewhere f => ∀ d, bd_users (f d) = bd_users d
  end.

Definition funds (d : BillingDB) (uid : Z) : option Z :=
  (λ u, ur_balance u + ur_frozen_balance u) <$> bd_users d !! uid.

Definition frozen_ok (d : BillingDB) : Prop :=
  map_Forall (λ _ u, 0 ≤ ur_frozen_balance u) (bd_users d).

Lemma charge_step_funds now clock o cmd d :
  payable (uc_BalanceCost cmd) → takes_effect (Charge now clock o cmd) d = true →
  bd_users (perform (Charge now clock o cmd) d) =
    when_positive (charge_of (uc_BalanceCost cmd)) (λ n, alter (charge_user n) (uc_UserID cmd)) (bd_users d).
Proof.
  intros Hc. simpl. unfold Apply, transact. destruct (String.eqb _ ""); [by rewrite andb_false_r|].
  destruct (apply_body _ _ _ d) as [|[[r commit] d']] eqn:Hb; [by rewrite andb_false_r|].
  intros Ht. pose proof Hb as (-> & _ & _)%apply_body_claims.
  destruct (rs_Applied r) eqn:Happ; [|by rewrite andb_false_r in Ht].
  assert (bd_users d' = when_positive (charge_of (uc_BalanceCost cmd))
            (λ n, alter (charge_user n) (uc_UserID cmd)) (bd_users d)) as <-; [|by destruct o].
  unfold apply_body in Hb. tx_inv.
  match goal with H : claimUsageBillingRequest _ _ _ _ _ = inr (?a, _) |- _ =>
    pose proof (claim_frame now bd_users _ _ _ ltac:(done) _ _ _ H) as Hu; destruct a; simpl in *; tx_inv end;
    [|by simplify_eq].
  erewrite effects_users by eauto. congruence.
Qed.

Lemma hold_step_moved kind now o cmd h a d :
  is_amount (hc_HoldAmount cmd) h → is_amount (hc_ActualAmount cmd) a →
  takes_effect (Hold kind now o cmd) d = true →
  moved kind (hc_UserID cmd) h a d (perform (Hold kind now o cmd) d).
Proof.
  intros Hh Ha. rewrite perform_hold. simpl. unfold applyBatchImageBalanceHold, transact.
  destruct (String.eqb _ ""); [by rewrite andb_false_r|].
  destruct (hold_body _ _ _ d) as [|[[r commit] d']] eqn:Hb; [by rewrite andb_false_r|].
  intros Ht. pose proof Hb as (Hcm & _ & _)%hold_body_claims.
  destruct (hr_Applied r) eqn:Happ; [|by rewrite andb_false_r in Ht]. rewrite (Hcm eq_refl).
  enough (moved kind (hc_UserID cmd) h a d d') by by destruct o.
  unfold hold_body in Hb. tx_inv.
  match goal with H : claimUsageBillingRequest _ _ _ _ _ = inr (?a, _) |- _ =>
    pose proof (claim_frame now bd_users _ _ _ ltac:(done) _ _ _ H) as Hu; destruct a; simpl in *; tx_inv end;
    [|by simplify_eq].
  match goal with
  | He : hold_apply _ _ ?d1 = inr (_, ?d2), Hp : persist_log _ _ = inr _ |- _ =>
      apply (persist_frame bd_users _ ltac:(done)) in Hp;
      destruct (hold_apply_moved _ (NormalizeHold cmd) h a _ _ _ Hh Ha He) as [(db & df & E & Hrest)]
  end.
  split. exists db, df. simpl in E. rewrite <-Hu. split; [congruence|done].
Qed.

Lemma cleanup_users fuel cutoff d : bd_users (cleanup_loop fuel cutoff d) = bd_users d.
Proof.
  revert d. induction fuel as [|fuel IH]; intros d; [done|]. simpl.
  case_match; [done|]. by rewrite IH.
Qed.

(** A step that takes no effect moves no money. *)
Lemma untaken_users s d :
  well_formed_step s → takes_effect s d = false → bd_users (perform s d) = bd_users d.
Proof.
  intros Hw Ht. destruct s as [now clock o cmd|kind now o cmd|cutoff|f]; [| |apply cleanup_users|apply Hw];
    pose proof (unsettled_no_effect _ _ Ht ltac:(eauto)) as Hl; unfold ledgers in Hl; congruence.
Qed.

Lemma step_funds s d uid v :
  well_formed_step s → funds d uid = Some v → funds (perform s d) uid = Some (v - taken s d uid).
Proof.
  intros Hw Hv. unfold taken. destruct (takes_effect s d) eqn:Ht.
  - destruct s as [now clock o cmd|kind now o cmd|cutoff|f]; [| |done..].
    + simpl in Hw. unfold funds in *. rewrite charge_step_funds by done. unfold when_positive.
      destruct (Z.ltb_spec 0 (charge_of (uc_BalanceCost cmd))); simpl; rewrite ?lookup_alter;
        destruct (Z.eqb_spec (uc_UserID cmd) uid) as [<-|]; try case_decide; try congruence;
        destruct (bd_users d !! _) as [u|]; simpl in *; simplify_eq; f_equal; lia.
    + destruct Hw as [[h Hh] [a Ha]].
      destruct (hold_step_moved kind now o cmd h a d Hh Ha Ht) as [(db & df & E & Hsum & _)].
      unfold funds in *. rewrite E, lookup_alter, (amount_units _ _ Hh), (amount_units _ _ Ha).
      destruct (Z.eqb_spec (hc_UserID cmd) uid) as [<-|]; case_decide; try congruence;
        destruct (bd_users d !! _) as [u|]; simpl in *; simplify_eq; f_equal; lia.
  - unfold funds in *. rewrite untaken_users by done. rewrite Hv. f_equal. lia.
Qed.

(** C3. In any sequence of charges, holds, captures, releases, archivings and changes
    elsewhere that leave the users alone, with any failures and lost answers, a user's funds (balance and frozen together) are the
    opening funds less the charges and the captured costs of the steps that took
    effect: reserving and releasing create and lose nothing.  The amounts of holds and
    captures are those with at most eight decimals and those of charges are in range
    ([well_formed_step]); without that a reservation and its release create money
    ([unquantised_hold_creates_money]). *)
Theorem funds_conserved ss d uid v :
  Forall well_formed_step ss → funds d uid = Some v →
  funds (run ss d) uid = Some (v - taken_along ss d uid).
Proof.
  intros Hw. revert d v. induction Hw as [|s ss Hs Hw IH]; intros d v Hv; simpl; [by rewrite Z.sub_0_r|].
  unfold run. simpl. fold (run ss (perform s d)).
  rewrite (IH _ _ (step_funds _ _ _ _ Hs Hv)). f_equal. lia.
Qed.

Lemma step_frozen s d : well_formed_step s → frozen_ok d → frozen_ok (perform s d).
Proof.
  intros Hw Hf. destruct (takes_effect s d) eqn:Ht.
  - destruct s as [now clock o cmd|kind now o cmd|cutoff|f]; [| |done..].
    + unfold frozen_ok. rewrite charge_step_funds by done. unfold when_positive. case_match; [|done].
      intros j u. rewrite lookup_alter. case_decide; [subst|by apply Hf].
      intros (u' & Hu' & ->)%fmap_Some. simpl. by apply (Hf _ _ Hu').
    + destruct Hw as [[h Hh] [a Ha]].
      destruct (hold_step_moved kind now o cmd h a d Hh Ha Ht) as [(db & df & E & _ & Hfz & _)].
      unfold frozen_ok. rewrite E. intros j u. rewrite lookup_alter. case_decide; [subst|by apply Hf].
      intros (u' & Hu' & ->)%fmap_Some. simpl. apply Hfz; [done|]. by apply (Hf _ _ Hu').
  - enough (bd_users (perform s d) = bd_users d) as E by (unfold frozen_ok; by rewrite E).
    by apply untaken_users.
Qed.

(** Frozen balances never become negative, whatever the order of holds, captures,
    releases and charges. *)
Theorem frozen_never_negative ss d : Forall well_formed_step ss → frozen_ok d → frozen_ok (run ss d).
Proof.
  intros Hw. revert d. induction Hw as [|s ss Hs Hw IH]; intros d Hf; [done|].
  unfold run. simpl. apply (IH (perform s d)). by apply step_frozen.
Qed.

(** Only charges overdraw a balance: a hold is reserved from a sufficient one. *)
Lemma reserve_sufficient now o cmd h a d uid u :
  is_amount (hc_HoldAmount cmd) h → is_amount (hc_ActualAmount cmd) a →
  takes_effect (Hold Reserve now o cmd) d = true → bd_users d !! uid = Some u → 0 ≤ ur_balance u →
  ∃ u', bd_users (perform (Hold Reserve now o cmd) d) !! uid = Some u' ∧ 0 ≤ ur_balance u'.
Proof.
  intros Hh Ha Ht Hu Hb.
  destruct (hold_step_moved Reserve now o cmd h a d Hh Ha Ht) as [(db & df & E & _ & _ & Hr)].
  rewrite E, lookup_alter. case_decide; [subst; rewrite Hu|by eauto].
  eexists. split; [reflexivity|]. simpl. destruct (Hr eq_refl _ Hu); lia.
Qed.

(** ** Holds that are not quantised *)

Lemma round_half_away_scale x d k : 0 < d → 0 < k → round_half_away (x * k) (d * k) = round_half_away x d.
Proof.
  intros Hd Hk. unfold round_half_away. rewrite Z.sgn_mul, (Z.sgn_pos k), Z.mul_1_r, Z.abs_mul, (Z.abs_eq k) by lia.
  replace (2 * (Z.abs x * k) + d * k) with ((2 * Z.abs x + d) * k) by lia.
  rewrite Z.mul_assoc, Z.div_mul_cancel_r by lia. done.
Qed.

(** A balance and nine decimals, in units of the ninth. *)
Lemma nine_decimals b x : of_units 8 b + of_units 9 x = of_units 9 (10 * b + x).
Proof.
  unfold of_units. replace (places - 8) with (1 + (places - 9)) by lia.
  rewrite Z.pow_add_r, Z.pow_1_r by places_lia. lia.
Qed.

Lemma nine_decimals_sub b x : of_units 8 b - of_units 9 x = of_units 9 (10 * b - x).
Proof. rewrite <-(Z.add_opp_r (10 * b)), <-nine_decimals. unfold of_units. lia. Qed.

Lemma to_units_nine x : to_units 8 (of_units 9 x) = round_half_away x 10.
Proof.
  unfold to_units, of_units. replace (places - 8) with (1 + (places - 9)) by lia.
  rewrite Z.pow_add_r, Z.pow_1_r by places_lia. apply round_half_away_scale; [done|]. apply pow10_pos. places_lia.
Qed.

Lemma half_up b x : 0 ≤ b → x = 10 * b + 5 → round_half_away x 10 = b + 1.
Proof.
  intros Hb ->. unfold round_half_away. rewrite Z.abs_eq, Z.sgn_pos by lia.
  replace (2 * (10 * b + 5) + 10) with ((b + 1) * (2 * 10)) by lia. rewrite Z.div_mul by lia. lia.
Qed.

(** A value [x] at the ninth decimal, stored at the eighth. *)
Lemma store_half b x y d :
  0 ≤ b < 10 ^ 19 → x = of_units 9 y → y = 10 * b + 5 → store 8 x d = inr (b + 1, d).
Proof.
  intros Hb -> Hy. apply store_run; [rewrite to_units_nine; apply half_up; [lia|exact Hy]|].
  assert (column_limit = 10 * 10 ^ 19) as -> by reflexivity. assert (1 < 10 ^ 19) by reflexivity. lia.
Qed.

Lemma nine_leb n y : (of_units 9 y <=? of_units 8 n) = (y <=? 10 * n).
Proof.
  rewrite <-(Z.add_0_r (of_units 8 n)). change 0 with (of_units 9 0) at 1.
  rewrite nine_decimals, Z.add_0_r. apply of_units_leb. places_lia.
Qed.

(** A hold with a half at the ninth decimal that is reserved and released creates
    money: the database rounds each of the four sums up, so that the balance and
    the frozen balance both end one unit above where they began. *)
Theorem unquantised_hold_creates_money cmd m d u :
  fle (hc_HoldAmount cmd) fzero = false → argument (hc_HoldAmount cmd) = Some (of_units 9 (10 * m + 5)) →
  0 ≤ m < ur_balance u → 0 ≤ ur_frozen_balance u → ur_balance u + ur_frozen_balance u + 1 < 10 ^ 19 →
  live ur_deleted (bd_users d) (hc_UserID cmd) = Some u →
  is_Some (bd_dedup d !! (BatchImageHoldRequestID (hc_BatchID cmd), hc_APIKeyID cmd)) →
  ∃ r1 d1 r2 d2,
    reserveUsageBillingBatchImageBalance cmd d = inr (r1, d1) ∧
    releaseUsageBillingBatchImageBalance cmd d1 = inr (r2, d2) ∧
    bd_users d2 = alter (move_funds 1 1) (hc_UserID cmd) (bd_users d).
Proof.
  intros Hpos Harg Hm Hf Hmax Hu Hheld.
  set (b := ur_balance u) in *. set (f := ur_frozen_balance u) in *.
  pose proof (λ d, store_half (b - m - 1) _ _ d ltac:(lia) (nine_decimals_sub b (10 * m + 5)) ltac:(lia)) as S1.
  pose proof (λ d, store_half (f + m) _ _ d ltac:(lia) (nine_decimals f (10 * m + 5)) ltac:(lia)) as S2.
  pose proof (λ d, store_half b _ _ d ltac:(lia) (nine_decimals (b - m - 1 + 1) (10 * m + 5)) ltac:(lia)) as S3.
  pose proof (λ d, store_half f _ _ d ltac:(lia) (nine_decimals_sub (f + m + 1) (10 * m + 5)) ltac:(lia)) as S4.
  unfold reserveUsageBillingBatchImageBalance, releaseUsageBillingBatchImageBalance, batchImageHoldClaimExists.
  rewrite Hpos, Harg. do 4 eexists. split; [|split].
  - rewrite bind_run. simpl. rewrite Hu, nine_leb, (proj2 (Z.leb_le _ _)) by lia.
    rewrite bind_run, (sent_run _ _ _ Harg), bind_run, S1, bind_run, S2. reflexivity.
  - rewrite !bind_run. simpl. rewrite bool_decide_eq_true_2 by done. simpl.
    rewrite bind_run. simpl. unfold live. rewrite lookup_insert_eq. simpl.
    rewrite nine_leb, (proj2 (Z.leb_le _ _)) by lia.
    rewrite bind_run, (sent_run _ _ _ Harg), bind_run, S3, bind_run, S4. reflexivity.
  - simpl. rewrite insert_insert_eq. apply map_eq. intros j. rewrite lookup_insert, lookup_alter.
    apply live_Some in Hu as [Hu Hd]. case_decide; [subst j; rewrite Hu|done].
    simpl. unfold move_funds. by rewrite Hd.
Qed.
(** ** A release before the hold *)

Lemma claimed_stays ss d k : claims_agree d → is_Some (claims d !! k) → is_Some (claims (run ss d) !! k) ∧ claims_agree (run ss d).
Proof.
  revert d. induction ss as [|s ss IH]; intros d Ha Hk; [done|]. simpl.
  pose proof (step_kept s d) as K. apply IH; [by eapply kept_agree|]. apply (kept_dom _ _ _ K Ha). by left.
Qed.

Lemma claimed_no_effect s d k :
  claims_agree d → step_key s = Some k → is_Some (claims d !! k) → takes_effect s d = false.
Proof.
  intros Ha Hs Hk. apply not_true_iff_false. intros Ht.
  assert (k ∈ settled_keys [s] d) as Hin.
  { simpl. unfold step_new. rewrite Ht, Hs. simpl. by apply list_elem_of_singleton. }
  apply settled_unclaimed in Hin; [|done]. rewrite Hin in Hk. by destruct Hk.
Qed.

Lemma early_release_run now cmd d :
  hc_RequestID (NormalizeHold cmd) ≠ "" → hc_UsageLog cmd = None → fle (hc_HoldAmount cmd) fzero = false →
  claims d !! (hc_RequestID (NormalizeHold cmd), hc_APIKeyID cmd) = None →
  claims d !! (BatchImageHoldRequestID (hc_BatchID (NormalizeHold cmd)), hc_APIKeyID cmd) = None →
  BatchImageHoldRequestID (hc_BatchID (NormalizeHold cmd)) ≠ hc_RequestID (NormalizeHold cmd) →
  perform (Hold Release now Commits cmd) d
  = with_dedup (<[(hc_RequestID (NormalizeHold cmd), hc_APIKeyID cmd) :=
                    mkDedupRow (hc_RequestFingerprint (NormalizeHold cmd)) now]> (bd_dedup d)) (bd_archive d) d.
Proof.
  intros Hid Hlog Hpos Hfree Hheld Hne. rewrite claims_lookup in Hfree, Hheld.
  assert (hc_HoldAmount (NormalizeHold cmd) = hc_HoldAmount cmd) as Eh by done.
  assert (hc_UsageLog (NormalizeHold cmd) = None) as El by done.
  assert (hc_APIKeyID (NormalizeHold cmd) = hc_APIKeyID cmd) as Ek by done.
  cbn [perform]. unfold ReleaseBatchImageBalance, applyBatchImageBalanceHold.
  set (c := NormalizeHold cmd) in *. clearbody c.
  destruct (String.eqb_spec (hc_RequestID c) ""); [done|]. unfold transact, hold_body, claimUsageBillingRequest.
  rewrite Ek, El. destruct (bd_dedup d !! (hc_RequestID c, _)) eqn:E1; [done|].
  destruct (bd_dedup d !! (BatchImageHoldRequestID _, _)) eqn:E2; [done|].
  unfold releaseUsageBillingBatchImageBalance, batchImageHoldClaimExists, mbind, tx_bind, select, change.
  rewrite E1, Hfree. simpl. rewrite Eh, Hpos. simpl.
  simpl. rewrite Ek, lookup_insert_ne by congruence. by rewrite E2, Hheld.
Qed.

(** A release that runs before its hold changes no balance and claims its request: no
    later release of it moves anything, whatever happened in between, the hold
    included. *)
Theorem early_release_strands_hold now cmd d ss now' o :
  hc_RequestID (NormalizeHold cmd) ≠ "" → hc_UsageLog cmd = None → fle (hc_HoldAmount cmd) fzero = false →
  claims_agree d → claims d !! (hc_RequestID (NormalizeHold cmd), hc_APIKeyID cmd) = None →
  claims d !! (BatchImageHoldRequestID (hc_BatchID (NormalizeHold cmd)), hc_APIKeyID cmd) = None →
  BatchImageHoldRequestID (hc_BatchID (NormalizeHold cmd)) ≠ hc_RequestID (NormalizeHold cmd) →
  let d1 := perform (Hold Release now Commits cmd) d in
  ledgers d1 = ledgers d ∧
  ledgers (perform (Hold Release now' o cmd) (run ss d1)) = ledgers (run ss d1).
Proof.
  intros Hid Hlog Hpos Ha Hfree Hheld Hne d1.
  assert (d1 = _) as E by (by apply early_release_run).
  assert (is_Some (claims d1 !! (hc_RequestID (NormalizeHold cmd), hc_APIKeyID cmd))) as Hc.
  { rewrite claims_lookup, E. simpl. rewrite lookup_insert_eq. by eexists. }
  split; [by rewrite E|]. apply unsettled_no_effect; [|by eexists].
  destruct (claimed_stays ss d1 _ ltac:(eapply kept_agree; [apply step_kept|done]) Hc) as [Hk Ha'].
  by eapply claimed_no_effect.
Qed.
End Funds.

(** ** Concrete runs *)

#[local] Transparent Z.pow places to_float.

Section Examples.
#[local] Existing Instances FewestDigits plain_digest.
#[local] Existing Instances ascii_case demo_sql demo_owners.
#[local] Instance utc : Location := fixed_zone 0.

(** A hold of one dollar, captured at no cost, and a charge of nothing. *)
Definition demo_run : list billing_step :=
  [ Hold Reserve demo_noon Commits (demo_hold (BatchImageHoldRequestID "b") "b" demo_cost fzero);
    Hold Capture demo_noon CommitLost (demo_hold (BatchImageCaptureRequestID "b") "b" demo_cost fzero);
    Charge demo_noon demo_noon Commits (demo_charge "r" "f" None fzero) ].

Lemma demo_run_well_formed : Forall well_formed_step demo_run.
Proof.
  apply Forall_cons_2; [|apply Forall_cons_2; [|apply Forall_cons_2; [|apply Forall_nil_2]]].
  - exact (conj (ex_intro _ _ demo_amount) (ex_intro _ _ no_amount)).
  - exact (conj (ex_intro _ _ demo_amount) (ex_intro _ _ no_amount)).
  - exact (amount_payable _ _ no_amount).
Qed.

Lemma funds_conserved_witness :
  funds (run demo_run demo_billing) 7 = Some (100 * dollar - taken_along demo_run demo_billing 7).
Proof. exact (funds_conserved demo_run demo_billing 7 (100 * dollar) demo_run_well_formed eq_refl). Defined.

Lemma frozen_never_negative_witness : frozen_ok (run demo_run demo_billing).
Proof.
  apply (frozen_never_negative demo_run demo_billing demo_run_well_formed).
  intros i u. unfold demo_billing. simpl. intros [<- <-]%lookup_singleton_Some. done.
Defined.

(** The release comes first, then the hold of one dollar, then the release again. *)
Definition early_release : BatchImageBalanceHoldCommand := demo_hold (BatchImageReleaseRequestID "b") "b" demo_cost fzero.

Lemma early_release_strands_hold_witness :
  let d := run [Hold Reserve demo_noon Commits (demo_hold (BatchImageHoldRequestID "b") "b" demo_cost fzero)]
             (perform (Hold Release demo_noon Commits early_release) demo_billing) in
  ledgers (perform (Hold Release demo_noon Commits early_release) d) = ledgers d.
Proof.
  assert (hc_RequestID (NormalizeHold early_release) = "batch_image_release:b"
    ∧ BatchImageHoldRequestID (hc_BatchID (NormalizeHold early_release)) = "batch_image_hold:b") as [E1 E2]
    by (split; vm_compute; reflexivity).
  assert (fle (hc_HoldAmount early_release) fzero = false) as Hpos
    by (change (hc_HoldAmount early_release) with demo_cost; rewrite (amount_le_zero _ _ demo_amount); exact eq_refl).
  refine (proj2 (early_release_strands_hold demo_noon early_release demo_billing _ demo_noon Commits
                   _ eq_refl Hpos _ _ _ _)); rewrite ?E1, ?E2;
    [discriminate|by apply empty_archive_agrees|reflexivity..|discriminate].
Defined.
End Examples.
