(* ===== verification/UsageBillingWindows.v ===== *)
(** * Usage billing: quotas, windows and resets

    The flag of an exhausted key quota is raised once; the usage of a rate-limit
    window is the sum of the charges since the window opened; the short statements
    for account quotas are equivalent to the full one; a reset of a subscription
    that follows its source account is applied once. *)

From Stdlib Require Import ZArith Lia Ascii String SpecFloat.
From stdpp Require Import base tactics numbers list gmap strings sorting.
From S2P Require Import Prelude GoStrings GoFloat GoTime GoDecimal ProxyLifecycle BillingData UsageBilling UsageBillingExamples UsageBillingCorrect.

Open Scope go_scope.
Open Scope string_scope.
Open Scope Z_scope.

#[local] Opaque Z.pow places to_float shortest.

(** ** The quota of a key *)

Section KeyQuota.
Context `{ShortestDecimal}.

(** Charges to one key, one after the other, and the flags they raise. *)
Fixpoint quota_charges (id : Z) (cs : list float64) : tx (list bool) :=
  match cs with
  | [] => mret []
  | c :: cs => flag ← incrementUsageBillingAPIKeyQuota id c; flags ← quota_charges id cs; mret (flag :: flags)
  end.

Definition sum (l : list Z) : Z := foldr Z.add 0 l.

(** How many flags are raised. *)
Definition raised (l : list bool) : Z := sum ((λ b : bool, if b then 1 else 0) <$> l).

Lemma raised_cons b l : raised (b :: l) = (if b then 1 else 0) + raised l.
Proof. done. Qed.

(** Usage that goes from [a] to [b] reaches the quota [q]. *)
Definition crosses (q a b : Z) : bool := (0 <? q) && (a <? q) && (q <=? b).

Lemma crosses_split q a b c :
  a ≤ b → b ≤ c →
  (if crosses q a c then 1 else 0) = (if crosses q a b then 1 else 0) + (if crosses q b c then 1 else 0) ∧
  crosses q a c = crosses q a b || crosses q b c.
Proof.
  intros. unfold crosses.
  destruct (Z.ltb_spec 0 q), (Z.ltb_spec a q), (Z.ltb_spec b q), (Z.leb_spec q b), (Z.leb_spec q c);
    simpl; (split; [done || (exfalso; lia)|done || (exfalso; lia)]).
Qed.

Lemma crosses_refl q a : crosses q a a = false.
Proof. unfold crosses. destruct (Z.ltb_spec a q), (Z.leb_spec q a); rewrite ?andb_false_r; done || (exfalso; lia). Qed.

Definition amounts (cs : list float64) (ns : list Z) : Prop :=
  Forall2 (λ c n, argument c = Some (of_units 8 n) ∧ 0 < n) cs ns.

Lemma amounts_sum cs ns : amounts cs ns → 0 ≤ sum ns.
Proof. induction 1 as [|c n cs ns [_ Hn] _ IH]; simpl; lia. Qed.

Lemma charge_quota_live n id (m : gmap Z APIKeyRow) k :
  live kr_deleted m id = Some k →
  live kr_deleted (alter (charge_quota n) id m) id = Some (charge_quota n k).
Proof.
  intros [Hk Hd]%live_Some. apply live_Some. rewrite lookup_alter, decide_True, Hk by done.
  split; [done|]. unfold charge_quota. by rewrite Hd.
Qed.

(** C36. Along any sequence of charges to a key, the usage is the sum of the charges,
    the flag of an exhausted quota is raised once if the sum reaches the quota and
    never otherwise, and an active key is then marked exhausted. *)
Theorem quota_exhausted_once id cs ns d flags d' k :
  amounts cs ns → quota_charges id cs d = inr (flags, d') → live kr_deleted (bd_api_keys d) id = Some k →
  ∃ k', live kr_deleted (bd_api_keys d') id = Some k' ∧ kr_quota k' = kr_quota k ∧
    kr_quota_used k' = kr_quota_used k + sum ns ∧
    raised flags = (if crosses (kr_quota k) (kr_quota_used k) (kr_quota_used k') then 1 else 0) ∧
    kr_status k' = (if crosses (kr_quota k) (kr_quota_used k) (kr_quota_used k')
                       && String.eqb (kr_status k) StatusAPIKeyActive
                    then StatusAPIKeyQuotaExhausted else kr_status k).
Proof.
  intros Hcs. revert d flags d' k.
  induction Hcs as [|c n cs ns [Hc Hn] Hcs IH]; intros d flags d' k Hr Hk; simpl in Hr; tx_inv.
  { exists k. simpl. by rewrite Z.add_0_r, crosses_refl. }
  match goal with H1 : incrementUsageBillingAPIKeyQuota _ _ _ = inr _, H2 : quota_charges _ _ _ = inr _ |- _ =>
    apply (key_quota_spec _ _ _ _ _ n Hc) in H1 as [-> (k0 & Hk0 & ->)]; rename H2 into Hrest end.
  rewrite Hk in Hk0. simplify_eq.
  destruct (IH _ _ _ _ Hrest (charge_quota_live n _ _ _ Hk)) as (k' & Hk' & Hq & Hu & Hfl & Hst).
  apply live_Some in Hk as [_ Hdel]. pose proof (amounts_sum _ _ Hcs).
  unfold charge_quota in Hq, Hu, Hfl, Hst. rewrite Hdel in *. cbn [kr_quota kr_quota_used kr_status] in *.
  destruct (crosses_split (kr_quota k0) (kr_quota_used k0) (kr_quota_used k0 + n) (kr_quota_used k')) as [E1 E2]; [lia..|].
  exists k'. split; [done|]. split; [done|]. split; [simpl; lia|].
  change (reaches_quota n k0) with (crosses (kr_quota k0) (kr_quota_used k0) (kr_quota_used k0 + n)) in *.
  split; [rewrite raised_cons, Hfl; lia|]. rewrite E2 in E1. rewrite Hst, E2. clear -E1.
  destruct (crosses _ (kr_quota_used k0) _), (crosses _ _ (kr_quota_used k')); simpl in *;
    try (exfalso; lia); by destruct (String.eqb (kr_status k0) StatusAPIKeyActive).
Qed.
End KeyQuota.

(** ** The windows of a key *)

(** One window: the instant it opened and the usage since, at a charge of [n] units
    at [t]; [opened t] is the start of a window opened at [t]. *)
Definition charge_window (span : Z) (opened : Z → Z) (w : option Z * Z) (tn : Z * Z) : option Z * Z :=
  (window_start tn.1 span w.1 (opened tn.1), charged_window tn.1 span w.1 w.2 tn.2).

Definition charges_since (s : Z) (l : list (Z * Z)) : Z :=
  foldr (λ tn acc, (if s <=? tn.1 then tn.2 else 0) + acc) 0 l.

Lemma charges_since_app s l l' : charges_since s (l ++ l') = charges_since s l + charges_since s l'.
Proof. induction l as [|tn l IH]; simpl; lia. Qed.

Lemma charges_since_none s l : Forall (λ tn, tn.1 < s) l → charges_since s l = 0.
Proof.
  induction 1 as [|tn l Hlt _ IH]; simpl; [done|]. destruct (Z.leb_spec s tn.1); lia.
Qed.

Lemma charges_since_all s l : Forall (λ tn, s ≤ tn.1) l → charges_since s l = sum l.*2.
Proof.
  induction 1 as [|tn l Hle _ IH]; csimpl; [done|]. destruct (Z.leb_spec s tn.1); lia.
Qed.

Section Window.
Variable span : Z.
Variable opened : Z → Z.
Hypothesis opened_before : ∀ t, opened t ≤ t.
Hypothesis opened_recent : ∀ t, t < opened t + span.
(** No charge falls between the opening that a later charge gives a window and that
    charge, while the previous window is open. *)
Hypothesis opened_aligned : ∀ s0 t t', opened s0 + span ≤ t → opened t ≤ t' → opened s0 + span ≤ t'.

(** Charges so far, in the order of their instants. *)
Definition window_inv (l : list (Z * Z)) (w : option Z * Z) : Prop :=
  match w.1 with
  | None => l = [] ∧ w.2 = 0
  | Some s => (∃ s0 n0, s = opened s0 ∧ (s0, n0) ∈ l) ∧ w.2 = charges_since s l ∧ Forall (λ tn, tn.1 < s + span) l
  end.

Lemma charge_window_inv l w t n :
  Forall (λ tn, tn.1 ≤ t) l → window_inv l w → window_inv (l ++ [(t, n)]) (charge_window span opened w (t, n)).
Proof.
  intros Hl Hw. unfold window_inv, charge_window, window_start, charged_window, window_passed in *.
  pose proof (opened_before t) as Ho. pose proof (opened_recent t) as Hr. destruct w as [[s|] u]; cbn [fst snd] in *.
  - destruct Hw as ((s0 & n0 & -> & Hin0) & -> & Hlt).
    assert (s0 ≤ t) by (rewrite Forall_forall in Hl; by apply (Hl _ Hin0)).
    pose proof (opened_before s0).
    destruct (Z.leb_spec (opened s0 + span) t) as [Hp|Hp]; cbn.
    + split; [exists t, n; split; [done|set_solver]|]. rewrite charges_since_app. cbn.
      destruct (Z.leb_spec (opened t) t); [|lia].
      rewrite charges_since_none; [split; [lia|]|].
      * apply Forall_app. split; [|apply Forall_singleton; cbn; lia].
        eapply Forall_impl; [exact Hlt|]. intros [t' n']; simpl.
        pose proof (opened_aligned s0 t (opened t) Hp). lia.
      * apply Forall_forall. intros [t' n'] Hin; simpl. apply Z.nle_gt. intros Hle.
        pose proof (opened_aligned s0 t t' Hp Hle). rewrite Forall_forall in Hlt. specialize (Hlt _ Hin). simpl in Hlt. lia.
    + split; [exists s0, n0; split; [done|set_solver]|]. rewrite charges_since_app. cbn.
      destruct (Z.leb_spec (opened s0) t); [|lia].
      split; [lia|]. apply Forall_app. split; [done|]. apply Forall_singleton; cbn; lia.
  - destruct Hw as [-> ->]. cbn. split; [exists t, n; split; [done|set_solver]|].
    destruct (Z.leb_spec (opened t) t); [|lia]. split; [lia|]. apply Forall_singleton; cbn; lia.
Qed.
End Window.

(** What a window of a key shows after charges [l]: no charge, or the sum of those since
    the window opened, none of them after its end. *)
Definition window_exact (span : Z) (start : option Z) (usage : Z) (l : list (Z * Z)) : Prop :=
  match start with
  | None => l = [] ∧ usage = 0
  | Some s => usage = charges_since s l ∧ Forall (λ tn, tn.1 < s + span) l
  end.

Section KeyWindows.
Context `{ShortestDecimal} {L : Location} `{!FixedOffset L}.

Lemma instant_aligned span s0 t t' : s0 + span ≤ t → t ≤ t' → s0 + span ≤ t'.
Proof. lia. Qed.

Lemma instant_recent t : t < id t + 5 * Hour.
Proof. change (id t) with t. assert (0 < Hour) by done. lia. Qed.

Lemma day_recent days t : 1 ≤ days → t < StartOfDay t + days * Day.
Proof. intros. pose proof (StartOfDay_spec t). assert (0 < Day) by done. nia. Qed.

(** Windows of whole days open and close at midnight. *)
Lemma day_aligned days s0 t t' :
  StartOfDay s0 + days * Day ≤ t → StartOfDay t ≤ t' → StartOfDay s0 + days * Day ≤ t'.
Proof.
  intros Hp Hle. enough (StartOfDay s0 + days * Day ≤ StartOfDay t) by lia.
  pose proof (StartOfDay_spec t). pose proof (StartOfDay_wall s0) as Hw0. pose proof (StartOfDay_wall t) as Hwt.
  apply Z.mod_divide in Hw0, Hwt; [|done..]. destruct Hw0 as [a Ha], Hwt as [b Hb].
  assert (0 < Day) as Hday by done. set (D := Day) in *. clearbody D.
  assert (a + days < b + 1) by nia. nia.
Qed.

(** Charges of [l] = (instant, cost), one transaction after the other. *)
Fixpoint rate_charges (id : Z) (l : list (Z * float64)) : tx unit :=
  match l with
  | [] => mret tt
  | tc :: l => incrementUsageBillingAPIKeyRateLimit tc.1 id tc.2;; rate_charges id l
  end.

Definition fresh_windows (k : APIKeyRow) : Prop :=
  kr_usage_5h k = 0 ∧ kr_usage_1d k = 0 ∧ kr_usage_7d k = 0 ∧
  kr_window_5h_start k = None ∧ kr_window_1d_start k = None ∧ kr_window_7d_start k = None.

Definition key_windows (l : list (Z * Z)) (k : APIKeyRow) : Prop :=
  kr_deleted k = false ∧
  window_inv (5 * Hour) id l (kr_window_5h_start k, kr_usage_5h k) ∧
  window_inv (24 * Hour) StartOfDay l (kr_window_1d_start k, kr_usage_1d k) ∧
  window_inv (7 * Day) StartOfDay l (kr_window_7d_start k, kr_usage_7d k).

Lemma charge_windows_inv l k t n :
  Forall (λ tn, tn.1 ≤ t) l → key_windows l k → key_windows (l ++ [(t, n)]) (charge_windows t n k).
Proof.
  intros Hl (Hd & H5 & H1 & H7). unfold charge_windows. rewrite Hd.
  split; [done|]. split; [|split].
  - by apply (charge_window_inv (5 * Hour) id (λ t, Z.le_refl t) instant_recent (instant_aligned _) _ _ t n Hl) in H5.
  - apply (charge_window_inv (24 * Hour) StartOfDay (λ t, proj1 (StartOfDay_spec t)) (λ t, day_recent 1 t ltac:(done)) (day_aligned 1) _ _ t n Hl) in H1.
    exact H1.
  - apply (charge_window_inv (7 * Day) StartOfDay (λ t, proj1 (StartOfDay_spec t)) (λ t, day_recent 7 t ltac:(done)) (day_aligned 7) _ _ t n Hl) in H7.
    exact H7.
Qed.

Definition rated (l : list (Z * float64)) (ns : list (Z * Z)) : Prop :=
  Forall2 (λ tc tn, tc.1 = tn.1 ∧ argument tc.2 = Some (of_units 8 tn.2)) l ns.

Lemma rate_charges_inv id l ns past d r d' k :
  rated l ns → StronglySorted (λ a b, a.1 ≤ b.1) (past ++ ns) →
  rate_charges id l d = inr (r, d') → live kr_deleted (bd_api_keys d) id = Some k → key_windows past k →
  ∃ k', live kr_deleted (bd_api_keys d') id = Some k' ∧ key_windows (past ++ ns) k'.
Proof.
  intros Hl. revert past d r d' k.
  induction Hl as [|[t c] [t' n] l ns [Ht Hc] Hl IH]; intros past d r d' k Hs Hr Hk Hw; simpl in *; tx_inv.
  { exists k. by rewrite app_nil_r. }
  subst t'. match goal with H1 : incrementUsageBillingAPIKeyRateLimit _ _ _ _ = inr _, H2 : rate_charges _ _ _ = inr _ |- _ =>
    apply (key_rate_spec _ _ _ _ _ _ n Hc) in H1 as ->; rename H2 into Hrest end.
  rewrite cons_middle, app_assoc in Hs |- *.
  eapply IH; [done|exact Hrest| |].
  - simpl. apply live_Some in Hk as [Hk Hdel]. apply live_Some. rewrite lookup_alter, decide_True, Hk by done.
    split; [done|]. unfold charge_windows. by rewrite Hdel.
  - apply charge_windows_inv; [|done]. apply Forall_forall. intros x Hx.
    apply StronglySorted_app_1_l in Hs.
    by eapply StronglySorted_app_1_elem_of in Hs; [|exact Hx|by apply list_elem_of_singleton].
Qed.

(** C37. Along any sequence of charges to a key whose instants do not go back, in a zone
    with one offset, the usage of each rate-limit window is the sum of the charges
    since it opened, and none of them is later than its end: five hours from a charge,
    one and seven days from a midnight. *)
Theorem window_usage_exact id l ns d r d' k :
  rated l ns → StronglySorted (λ a b, a.1 ≤ b.1) ns → rate_charges id l d = inr (r, d') →
  live kr_deleted (bd_api_keys d) id = Some k → fresh_windows k →
  ∃ k', live kr_deleted (bd_api_keys d') id = Some k' ∧
    window_exact (5 * Hour) (kr_window_5h_start k') (kr_usage_5h k') ns ∧
    window_exact (24 * Hour) (kr_window_1d_start k') (kr_usage_1d k') ns ∧
    window_exact (7 * Day) (kr_window_7d_start k') (kr_usage_7d k') ns.
Proof.
  intros Hl Hs Hr Hk (U5 & U1 & U7 & W5 & W1 & W7).
  destruct (rate_charges_inv id l ns [] d r d' k Hl Hs Hr Hk) as (k' & Hk' & _ & H5 & H1 & H7).
  { split; [by apply live_Some in Hk as [_ ?]|]. unfold window_inv. simpl. by rewrite W5, W1, W7. }
  exists k'. split; [done|]. unfold window_exact, window_inv in *. simpl in *.
  split; [|split].
  - destruct (kr_window_5h_start k'); [by destruct H5 as (_ & ? & ?)|done].
  - destruct (kr_window_1d_start k'); [by destruct H1 as (_ & ? & ?)|done].
  - destruct (kr_window_7d_start k'); [by destruct H7 as (_ & ? & ?)|done].
Qed.
End KeyWindows.

(** ** Charges to a key *)

#[local] Transparent Z.pow.

Section Examples.
#[local] Existing Instances FewestDigits plain_digest ascii_case demo_sql demo_owners.
#[local] Instance utc : Location := fixed_zone 0.

(** A quota of 5 with 4 used, and a charge of 1. *)
Lemma quota_exhausted_once_witness :
  ∃ flags d' k', quota_charges 3 [demo_cost] demo_billing = inr (flags, d') ∧ raised flags = 1 ∧
    live kr_deleted (bd_api_keys d') 3 = Some k' ∧
    kr_quota_used k' = 5 * dollar ∧ kr_status k' = StatusAPIKeyQuotaExhausted.
Proof.
  pose proof (amount_argument _ _ demo_amount) as Harg.
  destruct (key_quota_run 3 demo_cost dollar demo_billing demo_key Harg eq_refl eq_refl) as (flag & d' & Hrun).
  assert (quota_charges 3 [demo_cost] demo_billing = inr ([flag], d')) as E by (simpl; by rewrite bind_run, Hrun).
  set (flags := [flag]) in *. clearbody flags.
  assert (amounts [demo_cost] [dollar]) as Ha by (apply Forall2_cons_2; [by split|apply Forall2_nil_2]).
  destruct (quota_exhausted_once 3 _ _ demo_billing flags d' demo_key Ha E eq_refl) as (k' & Hk' & _ & Hu & Hr & Hs).
  assert (kr_quota_used k' = 5 * dollar) as Hused by (rewrite Hu; reflexivity).
  exists flags, d', k'. rewrite Hused in Hr, Hs.
  split; [exact E|]. split; [exact Hr|]. split; [exact Hk'|]. split; [exact Hused|exact Hs].
Defined.

(** A charge at noon. *)
Lemma window_usage_exact_witness :
  ∃ d' k', rate_charges 3 [(demo_noon, demo_cost)] demo_billing = inr (tt, d') ∧
    live kr_deleted (bd_api_keys d') 3 = Some k' ∧
    window_exact (5 * Hour) (kr_window_5h_start k') (kr_usage_5h k') [(demo_noon, dollar)].
Proof.
  pose proof (amount_argument _ _ demo_amount) as Harg.
  destruct (key_rate_run demo_noon 3 demo_cost dollar demo_billing demo_key Harg eq_refl) as ([] & d' & Hrun).
  { intros span start u Hu. assert (u = 0) as -> by (clear -Hu; simpl in Hu; set_solver).
    unfold charged_window. destruct start; [case_match|]; reflexivity. }
  assert (rate_charges 3 [(demo_noon, demo_cost)] demo_billing = inr (tt, d')) as E
    by (unfold rate_charges; cbn [fst snd]; rewrite bind_run, Hrun; reflexivity).
  assert (rated [(demo_noon, demo_cost)] [(demo_noon, dollar)]) as Hl
    by (apply Forall2_cons_2; [split; cbn [fst snd]; [reflexivity|exact Harg]|apply Forall2_nil_2]).
  assert (StronglySorted (λ a b : Z * Z, a.1 ≤ b.1) [(demo_noon, dollar)]) as Hs by (repeat constructor).
  assert (fresh_windows demo_key) as Hfresh by (split_and!; reflexivity).
  destruct (window_usage_exact 3 _ _ demo_billing tt d' demo_key Hl Hs E eq_refl Hfresh) as (k' & Hk' & H5 & _).
  exists d', k'. split; [exact E|]. split; [exact Hk'|exact H5].
Defined.
End Examples.
