(* ===== verification/UsageBillingQuotas.v ===== *)
(** * Usage billing: account quotas and followed resets

    The four statements that charge an account are one: a short statement is
    equivalent to the full one.  A charge changes exactly the quota keys of the
    account's document, a fixed reset is the next one, and a subscription takes a
    reset of its source account over once. *)

From Stdlib Require Import ZArith Lia Ascii String SpecFloat.
From stdpp Require Import base tactics numbers list gmap strings sorting.
From S2P Require Import Prelude GoStrings GoFloat GoTime GoDecimal ProxyLifecycle BillingData UsageBilling UsageBillingExamples UsageBillingCorrect.

Open Scope go_scope.
Open Scope string_scope.
Open Scope Z_scope.

#[local] Opaque Z.pow places to_float shortest.

Section Quotas.
Context `{ShortestDecimal} `{Digest} `{UnicodeCase} `{SqlText} `{CodexOwners} `{Location}.
Variable now : Z.

(** ** Short statements *)

Lemma period_unset k x extra : limit_unset k extra = true → period_increment now k x extra = inr (JObject ∅).
Proof.
  unfold limit_unset, period_increment, numeric_field, text_field.
  destruct (json_get (k_limit k) extra) as [[]|]; intros Hu; try done. simpl. by rewrite Hu.
Qed.

Lemma concat_empty j : extra_is_object (Some j) = true → json_concat j (JObject ∅) = j.
Proof. destruct j; try done. intros _. simpl. by rewrite (left_id_L ∅ (∪)). Qed.

(** A period that is left out because its limit is not set adds nothing. *)
Lemma concat_period_skip b k x extra j :
  b || limit_unset k extra = true → extra_is_object (Some j) = true →
  concat_period now b k x extra j = concat_period now true k x extra j.
Proof.
  intros Hb Hj. destruct b; [done|]. simpl in Hb. unfold concat_period.
  by rewrite period_unset, concat_empty.
Qed.

Lemma concat_object a b : extra_is_object (Some a) = true → extra_is_object (Some b) = true →
  extra_is_object (Some (json_concat a b)) = true.
Proof. by destruct a, b. Qed.

Lemma period_object k x extra p : period_increment now k x extra = inr p → extra_is_object (Some p) = true.
Proof.
  unfold period_increment. repeat (case_match; try done); intros [= <-]; try done.
Qed.

Lemma concat_period_object b k x extra j j' :
  extra_is_object (Some j) = true → concat_period now b k x extra j = inr j' → extra_is_object (Some j') = true.
Proof.
  intros Hj. unfold concat_period. destruct b; [|by intros [= <-]].
  destruct (period_increment _ _ _ _) as [|p] eqn:Hp; [done|]. intros [= <-].
  apply concat_object; [done|by eapply period_object].
Qed.

Lemma total_object x extra j :
  extra_is_object extra = true → total_increment x extra = inr j → extra_is_object (Some j) = true.
Proof.
  intros He. unfold total_increment. case_match; [done|]. intros [= <-]. destruct extra as [[]|]; done.
Qed.

Lemma increment_extra_full daily weekly x extra :
  increment_applies daily weekly extra = true →
  increment_extra now daily weekly x extra = increment_extra now true true x extra.
Proof.
  unfold increment_applies. intros Ha. bool_to_prop. unfold increment_extra.
  destruct (daily && weekly) eqn:Hdw; [by apply andb_true_iff in Hdw as [-> ->]|].
  destruct (extra_is_object extra) eqn:Ho; [|naive_solver].
  destruct (total_increment x extra) as [|j] eqn:Ht; [done|]. pose proof (total_object _ _ _ Ho Ht) as Hj.
  rewrite (concat_period_skip daily) by (done || by apply orb_true_iff).
  destruct (concat_period now true daily_keys x extra j) as [|j'] eqn:Hc; [done|].
  apply concat_period_skip; [by apply orb_true_iff|by eapply concat_period_object].
Qed.

(** A short statement does what the full one does, or hits no row. *)
Lemma exec_short daily weekly id amount d :
  execAccountQuotaIncrement now daily weekly id amount d = execAccountQuotaIncrement now true true id amount d ∨
  execAccountQuotaIncrement now daily weekly id amount d = inr (None, d).
Proof.
  unfold execAccountQuotaIncrement. rewrite !bind_run. simpl.
  destruct (live ar_deleted (bd_accounts d) id) as [a|]; [|by right].
  destruct (increment_applies daily weekly (ar_extra a)) eqn:He; [left|by right]. simpl.
  rewrite !bind_run. destruct (sent amount d) as [|[x d1]]; [done|]. by rewrite (increment_extra_full _ _ _ _ He).
Qed.

(** No row means an account that is gone. *)
Lemma exec_full_miss id amount d d' :
  execAccountQuotaIncrement now true true id amount d = inr (None, d') → d' = d.
Proof. unfold execAccountQuotaIncrement. intros Hr. tx_inv. case_match; [case_match|]; by tx_inv. Qed.

(** C38. Charging an account with the statement chosen by what the caller believes
    about its limits has the same result, error or state, as the full statement: for
    every document in [extra], object or not. *)
Theorem short_statement_equivalent accountID amount hasDaily hasWeekly d :
  incrementUsageBillingAccountQuota now accountID amount hasDaily hasWeekly d =
  incrementUsageBillingAccountQuota now accountID amount true true d.
Proof.
  unfold incrementUsageBillingAccountQuota.
  destruct (hasDaily && hasWeekly) eqn:Hb; [by apply andb_true_iff in Hb as [-> ->]|].
  rewrite !bind_run. destruct (exec_short hasDaily hasWeekly accountID amount d) as [->| ->].
  - destruct (execAccountQuotaIncrement now true true accountID amount d) as [|[[st|] d1]] eqn:E; [done..|].
    apply exec_full_miss in E as E'. subst d1. rewrite !bind_run. simpl. by rewrite E.
  - rewrite !bind_run. simpl.
    destruct (execAccountQuotaIncrement now true true accountID amount d) as [|[[st|] d1]]; done.
Qed.

(** ** What a charge does to the document *)









(** ** Fixed resets *)

Lemma reset_point_fixed (zone : Location) `{!FixedOffset zone} days hours :
  reset_point now zone days hours = @day_number zone now * Day + days * Day + hours * Hour - fixed_offset.
Proof. unfold reset_point. by rewrite from_wall_fixed. Qed.

Lemma day_number_spec (zone : Location) `{!FixedOffset zone} :
  @day_number zone now * Day ≤ now + fixed_offset < (@day_number zone now + 1) * Day.
Proof.
  unfold day_number. rewrite wall_fixed.
  pose proof (Z_div_mod_eq_full (now + fixed_offset) Day).
  pose proof (Z.mod_pos_bound (now + fixed_offset) Day ltac:(done)). lia.
Qed.

(** The wall clock of an instant in a zone, from midnight, and its day of the week. *)
Definition wall_clock (zone : Location) `{!FixedOffset zone} (t : Z) : Z := (t + fixed_offset) `mod` Day.
Definition weekday (zone : Location) `{!FixedOffset zone} (t : Z) : Z := ((t + fixed_offset) `div` Day + 1) `mod` 7.

Lemma wall_clock_at (zone : Location) `{!FixedOffset zone} d hours :
  0 ≤ hours < 24 →
  let t := d * Day + hours * Hour - fixed_offset in
  wall_clock zone t = hours * Hour ∧ (t + fixed_offset) `div` Day = d.
Proof.
  intros Hh t. assert (t + fixed_offset = hours * Hour + d * Day) as E by (unfold t; lia).
  assert (0 ≤ hours * Hour < Day) as Hb by (unfold Day; assert (0 < Hour) by done; nia).
  unfold wall_clock. rewrite E. rewrite Z.mod_add, Z.div_add by done.
  by rewrite Z.mod_small, Z.div_small by done.
Qed.

(** A fixed daily quota restarts at the next occurrence of its hour on the wall clock
    of its zone: after now, within a day. *)
Theorem next_daily_reset (zone : Location) `{!FixedOffset zone} extra hour s :
  reset_zone extra = inr zone → int_field "quota_daily_reset_hour" extra = inr hour →
  0 ≤ default 0 hour < 24 → nextDailyResetAtExpr now extra = inr (Some s) →
  ∃ t, s = format_s t ∧ now < t ≤ now + Day ∧ wall_clock zone t = default 0 hour * Hour.
Proof.
  intros Hz Hh Hr. unfold nextDailyResetAtExpr. case_match; [|done]. rewrite Hz, Hh. intros [= <-].
  eexists. split; [done|]. rewrite !(reset_point_fixed zone).
  pose proof (day_number_spec zone) as Hd. set (h := default 0 hour) in *. set (D := @day_number zone now) in *.
  assert (0 ≤ h * Hour < Day) by (unfold Day; assert (0 < Hour) by done; nia).
  destruct (Z.leb_spec (D * Day + 0 * Day + h * Hour - fixed_offset) now).
  - split; [lia|]. replace (D * Day + 1 * Day) with ((D + 1) * Day) by lia. by apply wall_clock_at.
  - split; [lia|]. replace (D * Day + 0 * Day) with (D * Day) by lia. by apply wall_clock_at.
Qed.

(** A fixed weekly quota restarts at the next occurrence of its hour on its weekday:
    after now, within a week. *)
Theorem next_weekly_reset (zone : Location) `{!FixedOffset zone} extra hour day s :
  reset_zone extra = inr zone → int_field "quota_weekly_reset_hour" extra = inr hour →
  int_field "quota_weekly_reset_day" extra = inr day →
  0 ≤ default 0 hour < 24 → 0 ≤ default 1 day < 7 → nextWeeklyResetAtExpr now extra = inr (Some s) →
  ∃ t, s = format_s t ∧ now < t ≤ now + 7 * Day ∧
    wall_clock zone t = default 0 hour * Hour ∧ weekday zone t = default 1 day.
Proof.
  intros Hz Hh Hd Hr Hw. unfold nextWeeklyResetAtExpr. case_match; [|done]. rewrite Hz, Hh, Hd. intros [= <-].
  eexists. split; [done|]. rewrite !(reset_point_fixed zone).
  pose proof (day_number_spec zone) as HD. unfold day_of_week.
  set (h := default 0 hour) in *. set (w := default 1 day) in *. set (D := @day_number zone now) in *.
  assert (0 ≤ h * Hour < Day) as Hhour by (unfold Day; assert (0 < Hour) by done; nia).
  pose proof (Z.mod_pos_bound (D + 1) 7 ltac:(lia)) as Hm.
  rewrite Z.rem_mod_nonneg by lia.
  set (f := (w - (D + 1) `mod` 7 + 7) `mod` 7).
  assert (0 ≤ f < 7) as Hf by by apply Z.mod_pos_bound.
  assert ((D + f + 1) `mod` 7 = w) as Hday.
  { unfold f. rewrite <-(Z.mod_small w 7) at 2 by lia.
    replace (D + (w - (D + 1) `mod` 7 + 7) `mod` 7 + 1) with ((D + 1) + (w - (D + 1) `mod` 7 + 7) `mod` 7) by lia.
    rewrite Zplus_mod_idemp_r. pose proof (Z_div_mod_eq_full (D + 1) 7).
    replace (D + 1 + (w - (D + 1) `mod` 7 + 7)) with (w + ((D + 1) `div` 7 + 1) * 7) by lia.
    by rewrite Z.mod_add. }
  assert (0 < Day) by done.
  destruct ((f =? 0) && (D * Day + 0 * Day + h * Hour - fixed_offset <=? now)) eqn:Ht.
  - apply andb_true_iff in Ht as [Hf0 Hle]. apply Z.eqb_eq in Hf0. apply Z.leb_le in Hle.
    split; [lia|]. replace (D * Day + 7 * Day) with ((D + 7) * Day) by lia.
    destruct (wall_clock_at zone (D + 7) h) as [E1 E2]; [lia|]. split; [done|]. unfold weekday. rewrite E2.
    replace (D + 7 + 1) with (D + f + 1 + 1 * 7) by lia. by rewrite Z.mod_add.
  - replace (D * Day + f * Day) with ((D + f) * Day) by lia.
    assert (now < (D + f) * Day + h * Hour - fixed_offset) as Hlt.
    { apply andb_false_iff in Ht as [Hf0|Hle]; [apply Z.eqb_neq in Hf0; nia|].
      apply Z.leb_gt in Hle. nia. }
    split; [nia|]. destruct (wall_clock_at zone (D + f) h) as [E1 E2]; [lia|].
    split; [done|]. unfold weekday. by rewrite E2.
Qed.

(** ** Followed resets *)

Lemma newest_event_spec l :
  match newest_event l with
  | Some ie => ie ∈ l ∧ ∀ ie', ie' ∈ l → ie'.1 ≤ ie.1
  | None => l = []
  end.
Proof.
  induction l as [|ie l IH]; simpl; [done|]. fold (newest_event l).
  destruct (newest_event l) as [b|]; [|subst l; split; [set_solver|]; intros ie' ->%list_elem_of_singleton; done].
  destruct IH as [Hin Hmax]. destruct (Z.ltb_spec b.1 ie.1).
  - split; [set_solver|]. intros ie' [->|Hie]%elem_of_cons; [done|]. specialize (Hmax _ Hie). lia.
  - split; [set_solver|]. intros ie' [->|Hie]%elem_of_cons; [done|]. by apply Hmax.
Qed.

(** The generation of a source does not depend on subscriptions, and reading it
    changes nothing. *)
Lemma source_generation_with src d gen d' m :
  source_generation src d = inr (gen, d') →
  d' = d ∧ source_generation src (with_subscriptions m d) = inr (gen, with_subscriptions m d).
Proof.
  intros Hr. split; [by apply (source_generation_frame (λ d, d)) in Hr|].
  revert Hr. unfold source_generation. destruct src as [id|]; [|by intros [= <- <-]].
  rewrite !bind_run. simpl. rewrite !bind_run. simpl.
  destruct (live ar_deleted (bd_accounts d) id) as [a|]; [|by intros [= <- <-]].
  destruct (bool_decide _); [by intros [= <- <-]|]. destruct (negb _); [done|].
  destruct (ar_proxy_id a) as [p|]; [|by intros [= <- <-]].
  destruct (live pr_deleted (bd_proxies d) p); by intros [= <- <-].
Qed.

(** What the reset does, as one case distinction. *)
Definition follow_outcome (clock sid : Z) (g : GroupRow) (s : SubscriptionRow) (gen : string) (d : BillingDB)
    : BillingDB :=
  if String.eqb (sr_status s) SubscriptionStatusActive then
    let events := eligible_events d (sr_group_id s) g s gen in
    match newest_event events with
    | None => d
    | Some (id, e) =>
        with_subscriptions (<[sid := follow_reset clock id e
          (latest_instant (filter (λ ie, resets_monthly g ie.2 = true) events)) s]> (bd_subscriptions d)) d
    end
  else d.

Lemma follow_eq clock sid d s g gen :
  live sr_deleted (bd_subscriptions d) sid = Some s → live gr_deleted (bd_groups d) (sr_group_id s) = Some g →
  source_generation (gr_quota_reset_source_account_id g) d = inr (gen, d) →
  applyPendingQuotaFollowResetForSubscription clock sid d = inr (tt, follow_outcome clock sid g s gen d).
Proof.
  intros Hs Hg Hsrc. unfold applyPendingQuotaFollowResetForSubscription.
  rewrite bind_run. simpl. rewrite Hs, bind_run. simpl. rewrite bind_run. simpl. rewrite Hg, bind_run. simpl.
  rewrite bind_run, Hsrc, bind_run. simpl. rewrite Hg, bind_run. simpl.
  rewrite bool_decide_eq_true_2 by done. simpl. rewrite bind_run. simpl. rewrite Hs, bind_run. simpl.
  rewrite Z.eqb_refl. simpl. unfold follow_outcome. destruct (String.eqb _ _); [|done]. simpl.
  rewrite bind_run. simpl. by destruct (newest_event _) as [[id e]|].
Qed.

Lemma follow_inv clock sid d d1 :
  applyPendingQuotaFollowResetForSubscription clock sid d = inr (tt, d1) →
  ∃ s g gen, live sr_deleted (bd_subscriptions d) sid = Some s ∧
    live gr_deleted (bd_groups d) (sr_group_id s) = Some g ∧
    source_generation (gr_quota_reset_source_account_id g) d = inr (gen, d) ∧
    d1 = follow_outcome clock sid g s gen d.
Proof.
  intros Hr. pose proof Hr as Hr'. unfold applyPendingQuotaFollowResetForSubscription in Hr.
  rewrite bind_run in Hr. simpl in Hr.
  destruct (live sr_deleted (bd_subscriptions d) sid) as [s|] eqn:Hs; [|done].
  rewrite !bind_run in Hr. simpl in Hr. rewrite !bind_run in Hr. simpl in Hr.
  destruct (live gr_deleted (bd_groups d) (sr_group_id s)) as [g|] eqn:Hg; [|done].
  rewrite !bind_run in Hr. simpl in Hr. rewrite bind_run in Hr.
  destruct (source_generation _ d) as [|[gen d2]] eqn:Hsrc; [done|].
  destruct (source_generation_with _ _ _ _ ∅ Hsrc) as [-> _].
  exists s, g, gen. split; [done|]. split; [done|]. split; [done|].
  rewrite (follow_eq clock sid d s g gen Hs Hg Hsrc) in Hr'. by simplify_eq.
Qed.

Lemma eligible_events_spec d gid g s gen ie :
  ie ∈ eligible_events d gid g s gen ↔
  bd_reset_events d !! ie.1 = Some ie.2 ∧ eligible_event d gid g s gen ie.1 ie.2 = true.
Proof.
  destruct ie as [i e]. unfold eligible_events. rewrite elem_of_map_to_list, map_lookup_filter_Some. done.
Qed.

(** What remains eligible once an event is recorded is newer. *)
Lemma eligible_after_reset d m gid g s s1 gen id i ev :
  sr_quota_follow_reset_event_id s1 = id → sr_starts_at s1 = sr_starts_at s → sr_expires_at s1 = sr_expires_at s →
  eligible_event (with_subscriptions m d) gid g s1 gen i ev = true → sr_quota_follow_reset_event_id s < id →
  id < i ∧ eligible_event d gid g s gen i ev = true.
Proof.
  intros Hid Hstart Hend. unfold eligible_event. simpl. rewrite Hid, Hstart, Hend, !andb_true_iff, !Z.ltb_lt.
  intros He Hlt. split; [tauto|]. repeat match goal with |- _ ∧ _ => split end; try tauto. lia.
Qed.

Lemma latest_instant_spec l :
  match latest_instant l with
  | Some t => ∃ ie, ie ∈ l ∧ er_effective_at ie.2 = t ∧ ∀ ie', ie' ∈ l → er_effective_at ie'.2 ≤ t
  | None => l = []
  end.
Proof.
  induction l as [|ie l IH]; simpl; [done|]. fold (latest_instant l). destruct (latest_instant l) as [t|].
  - destruct IH as (b & Hb & Ht & Hmax). destruct (Z.max_spec t (er_effective_at ie.2)) as [[Hlt ->]|[Hle ->]].
    + exists ie. split; [set_solver|]. split; [done|]. intros ie' [->|Hie]%elem_of_cons; [done|].
      specialize (Hmax _ Hie). lia.
    + exists b. split; [set_solver|]. split; [done|]. intros ie' [->|Hie]%elem_of_cons; [lia|]. by apply Hmax.
  - subst l. exists ie. split; [set_solver|]. split; [done|]. by intros ie' ->%list_elem_of_singleton.
Qed.

(** An event a subscription still has to follow. *)
Definition pending_event (d : BillingDB) (s : SubscriptionRow) (g : GroupRow) (gen : string) (i : Z) (e : ResetEventRow)
    : Prop :=
  bd_reset_events d !! i = Some e ∧ eligible_event d (sr_group_id s) g s gen i e = true.

(** What following does to the month: nothing unless a pending event includes it, and
    then it restarts at the latest of those events. *)
Inductive month_followed (d : BillingDB) (s : SubscriptionRow) (g : GroupRow) (gen : string) (s' : SubscriptionRow)
    : Prop :=
  | month_kept :
      (∀ i e, pending_event d s g gen i e → resets_monthly g e = false) →
      sr_monthly_usage_usd s' = sr_monthly_usage_usd s → sr_monthly_window_start s' = sr_monthly_window_start s →
      month_followed d s g gen s'
  | month_restarted i m :
      pending_event d s g gen i m → resets_monthly g m = true →
      (∀ i' e, pending_event d s g gen i' e → resets_monthly g e = true → er_effective_at e ≤ er_effective_at m) →
      sr_monthly_usage_usd s' = 0 → sr_monthly_window_start s' = Some (er_effective_at m) →
      month_followed d s g gen s'.

(** The row after following event [id], field by field. *)
Record event_followed (d : BillingDB) (s : SubscriptionRow) (g : GroupRow) (gen : string) (id : Z) (e : ResetEventRow)
    (s' : SubscriptionRow) : Prop := mkEventFollowed {
  ef_recorded : sr_quota_follow_reset_event_id s' = id;
  ef_usage : sr_daily_usage_usd s' = 0 ∧ sr_weekly_usage_usd s' = 0 ∧ sr_five_hour_usage_usd s' = 0;
  ef_windows : sr_daily_window_start s' = Some (er_effective_at e) ∧
    sr_weekly_window_start s' = Some (er_effective_at e) ∧ sr_five_hour_window_start s' = Some (er_effective_at e);
  ef_month : month_followed d s g gen s';
  ef_version : sr_updated_at s < sr_updated_at s';
  ef_kept : sr_group_id s' = sr_group_id s ∧ sr_status s' = sr_status s ∧ sr_starts_at s' = sr_starts_at s ∧
    sr_expires_at s' = sr_expires_at s ∧ sr_deleted s' = sr_deleted s;
}.

Lemma follow_reset_followed clock d s g gen id e :
  event_followed d s g gen id e (follow_reset clock id e (latest_instant
    (filter (λ ie, resets_monthly g ie.2 = true) (eligible_events d (sr_group_id s) g s gen))) s).
Proof.
  set (l := filter _ _).
  assert (∀ ie, ie ∈ l ↔ resets_monthly g ie.2 = true ∧ pending_event d s g gen ie.1 ie.2) as Hl.
  { intros ie. unfold l. by rewrite list_elem_of_filter, eligible_events_spec. }
  split; try (repeat split; simpl; lia). pose proof (latest_instant_spec l) as Hlatest.
  destruct (latest_instant l) as [t|].
  - destruct Hlatest as ([i m] & [Hm Hp]%Hl & <- & Hmax). apply (month_restarted _ _ _ _ _ i m); try done.
    intros i' e' Hp' Hm'. apply (Hmax (i', e')). by apply Hl.
  - apply month_kept; [|done..]. intros i e' Hp. apply not_true_iff_false. intros Hm.
    assert ((i, e') ∈ l) as Hin by by apply Hl. rewrite Hlatest in Hin. by apply not_elem_of_nil in Hin.
Qed.

(** Once the newest event is taken over, nothing is pending. *)
Lemma follow_settled clock sid d s g gen id e s1 :
  live sr_deleted (bd_subscriptions d) sid = Some s → live gr_deleted (bd_groups d) (sr_group_id s) = Some g →
  source_generation (gr_quota_reset_source_account_id g) d = inr (gen, d) →
  (∀ ie, ie ∈ eligible_events d (sr_group_id s) g s gen → ie.1 ≤ id) →
  eligible_event d (sr_group_id s) g s gen id e = true →
  event_followed d s g gen id e s1 →
  applyPendingQuotaFollowResetForSubscription clock sid (with_subscriptions (<[sid:=s1]> (bd_subscriptions d)) d) =
  inr (tt, with_subscriptions (<[sid:=s1]> (bd_subscriptions d)) d).
Proof.
  intros Hs Hg Hsrc Hmax Hel [Hid _ _ _ _ (Hgid & Hst & Hstart & Hend & Hdel)].
  set (d1 := with_subscriptions _ d).
  assert (sr_quota_follow_reset_event_id s < id) as Hlt
    by (unfold eligible_event in Hel; rewrite !andb_true_iff, !Z.ltb_lt in Hel; tauto).
  assert (live sr_deleted (bd_subscriptions d1) sid = Some s1) as Hs1.
  { apply live_Some. simpl. rewrite lookup_insert_eq. rewrite Hdel. by apply live_Some in Hs as [_ ?]. }
  rewrite (follow_eq clock sid d1 s1 g gen Hs1); [|by rewrite Hgid|exact (proj2 (source_generation_with _ _ _ _ _ Hsrc))].
  unfold follow_outcome. destruct (String.eqb _ _); [|done].
  pose proof (newest_event_spec (eligible_events d1 (sr_group_id s1) g s1 gen)) as Hnew. cbv zeta.
  destruct (newest_event (eligible_events d1 (sr_group_id s1) g s1 gen)) as [[i ev]|]; [|done]. exfalso.
  destruct Hnew as [[Hev Hel1]%eligible_events_spec _]. simpl in Hev, Hel1.
  rewrite Hgid in Hel1. destruct (eligible_after_reset d _ _ g s s1 gen id i ev Hid Hstart Hend Hel1 Hlt) as [Hi Hel2].
  assert (i ≤ id) by (apply (Hmax (i, ev)), eligible_events_spec; done). lia.
Qed.

(** C40. Before a charge counts, an active subscription with pending resets of its source
    account takes over exactly the one with the greatest id: it is recorded, the
    day's, the week's and the five-hour usage restart from nothing at its instant,
    the month restarts at the latest pending reset that includes it and is kept if
    none does, and the version grows.  No other row changes.  A subscription that is
    not active or has nothing pending is left alone.  Doing it again does nothing. *)
Theorem follow_reset_once clock clock' sid d d1 :
  applyPendingQuotaFollowResetForSubscription clock sid d = inr (tt, d1) →
  applyPendingQuotaFollowResetForSubscription clock' sid d1 = inr (tt, d1) ∧
  ∃ s g gen,
    live sr_deleted (bd_subscriptions d) sid = Some s ∧ live gr_deleted (bd_groups d) (sr_group_id s) = Some g ∧
    source_generation (gr_quota_reset_source_account_id g) d = inr (gen, d) ∧
    ((sr_status s ≠ SubscriptionStatusActive ∨ ∀ i e, ¬ pending_event d s g gen i e) ∧ d1 = d ∨
     sr_status s = SubscriptionStatusActive ∧
     ∃ id e s',
       pending_event d s g gen id e ∧ (∀ i e', pending_event d s g gen i e' → i ≤ id) ∧
       event_followed d s g gen id e s' ∧ d1 = with_subscriptions (<[sid := s']> (bd_subscriptions d)) d).
Proof.
  intros (s & g & gen & Hs & Hg & Hsrc & ->)%follow_inv. unfold follow_outcome.
  destruct (String.eqb_spec (sr_status s) SubscriptionStatusActive) as [Hst|Hst].
  2: { split.
    - rewrite (follow_eq clock' sid d s g gen) by done. unfold follow_outcome.
      by rewrite (proj2 (String.eqb_neq _ _) Hst).
    - exists s, g, gen. split; [done|]. split; [done|]. split; [done|]. left. split; [by left|done]. }
  pose proof (newest_event_spec (eligible_events d (sr_group_id s) g s gen)) as Hnew.
  destruct (newest_event (eligible_events d (sr_group_id s) g s gen)) as [[id e]|] eqn:En.
  2: { split.
    - rewrite (follow_eq clock' sid d s g gen) by done. unfold follow_outcome. by rewrite Hst, String.eqb_refl, En.
    - exists s, g, gen. split; [done|]. split; [done|]. split; [done|]. left. split; [right|done].
      intros i e Hp. apply (not_elem_of_nil (i, e)). rewrite <-Hnew. by apply eligible_events_spec. }
  destruct Hnew as [[He Hel]%eligible_events_spec Hmax]. cbn [fst snd] in He, Hel.
  pose proof (follow_reset_followed clock d s g gen id e) as Hrow. cbv zeta.
  set (s1 := follow_reset clock id e _ s) in *.
  split; [by apply (follow_settled clock' sid d s g gen id e s1)|].
  exists s, g, gen. split; [done|]. split; [done|]. split; [done|]. right. split; [done|].
  exists id, e, s1. split; [done|]. split; [|done].
  intros i e' Hp. apply (Hmax (i, e')). by apply eligible_events_spec.
Qed.
End Quotas.

(** ** Concrete documents *)

#[local] Transparent Z.pow places to_float shortest.

Section Examples.
#[local] Existing Instances ascii_case FewestDigits plain_digest demo_sql demo_owners.
#[local] Instance utc : Location := fixed_zone 0.


Definition fixed_extra : option json :=
  Some (JObject (list_to_map [("quota_daily_reset_mode", JString "fixed"); ("quota_weekly_reset_mode", JString "fixed")])).

Lemma fixed_extra_zone : reset_zone fixed_extra = inr (fixed_zone 0).
Proof. vm_compute. reflexivity. Qed.

Lemma fixed_extra_unset :
  int_field "quota_daily_reset_hour" fixed_extra = inr None ∧
  int_field "quota_weekly_reset_hour" fixed_extra = inr None ∧
  int_field "quota_weekly_reset_day" fixed_extra = inr None.
Proof. split_and!; vm_compute; reflexivity. Qed.

Lemma fixed_extra_resets :
  is_Some (match nextDailyResetAtExpr demo_noon fixed_extra with inr s => s | inl _ => None end) ∧
  is_Some (match nextWeeklyResetAtExpr demo_noon fixed_extra with inr s => s | inl _ => None end).
Proof. split; eexists; vm_compute; reflexivity. Qed.

Lemma next_daily_reset_witness :
  ∃ t, nextDailyResetAtExpr demo_noon fixed_extra = inr (Some (FormatInt t)) ∧
    demo_noon < t ≤ demo_noon + Day ∧ wall_clock (fixed_zone 0) t = 0.
Proof.
  destruct fixed_extra_resets as [[s Hs] _], fixed_extra_unset as (Hh & _).
  destruct (nextDailyResetAtExpr demo_noon fixed_extra) as [|[s'|]] eqn:E; try discriminate Hs.
  destruct (next_daily_reset demo_noon (fixed_zone 0) fixed_extra None _ fixed_extra_zone Hh
              ltac:(by split) E) as (t & Ht & Hb & Hw).
  exists t. rewrite Ht. split; [reflexivity|]. by split.
Defined.

Lemma next_weekly_reset_witness :
  ∃ t, nextWeeklyResetAtExpr demo_noon fixed_extra = inr (Some (FormatInt t)) ∧
    demo_noon < t ≤ demo_noon + 7 * Day ∧ weekday (fixed_zone 0) t = 1.
Proof.
  destruct fixed_extra_resets as [_ [s Hs]], fixed_extra_unset as (_ & Hh & Hd).
  destruct (nextWeeklyResetAtExpr demo_noon fixed_extra) as [|[s'|]] eqn:E; try discriminate Hs.
  destruct (next_weekly_reset demo_noon (fixed_zone 0) fixed_extra None None _ fixed_extra_zone Hh Hd
              ltac:(by split) ltac:(by split) E) as (t & Ht & Hb & _ & Hw).
  exists t. rewrite Ht. split; [reflexivity|]. by split.
Defined.

(** The demo subscription takes over the reset of its source account. *)
Lemma follow_reset_once_witness :
  match applyPendingQuotaFollowResetForSubscription demo_noon 5 demo_billing with
  | inr (_, d1) =>
      applyPendingQuotaFollowResetForSubscription (demo_noon + Hour) 5 d1 = inr (tt, d1) ∧
      sr_daily_usage_usd <$> bd_subscriptions d1 !! 5 = Some 0
  | inl _ => False
  end.
Proof.
  set (out := applyPendingQuotaFollowResetForSubscription demo_noon 5 demo_billing).
  set (d1 := match out with inr (_, d) => d | inl _ => demo_billing end).
  assert (out = inr (tt, d1)) as E by (vm_compute; reflexivity).
  destruct (follow_reset_once demo_noon (demo_noon + Hour) 5 demo_billing d1 E) as [Hagain _].
  assert (sr_daily_usage_usd <$> bd_subscriptions d1 !! 5 = Some 0) as Hu by (vm_compute; reflexivity).
  rewrite E. by split.
Defined.
End Examples.
