(* ===== verification/BatchImageData.v ===== *)
(** * Batch image jobs: tables and statements

    service/batch_image.go and repository/batch_image_repo.go.  A job reserves part
    of a balance when it is submitted, is carried out by a provider, and settles: the
    reservation is captured for what was produced, or released.  This file has the
    rows, the state machine of a job, and the statements on them; a statement or a
    transaction is a [jtx], which changes the tables or fails and changes nothing.

    Decimal columns hold units of 1e-10.  Columns that only describe a job (names,
    messages, the rate snapshot) and the trail of events are left out. *)

From Stdlib Require Import ZArith Lia Ascii String.
From stdpp Require Import base tactics numbers list gmap strings sorting.
From S2P Require Import Prelude GoStrings GoFloat GoTime GoDecimal Programs BillingData UsageBilling UsageBillingClaims.

Open Scope go_scope.
Open Scope string_scope.
Open Scope Z_scope.

(** ** The state machine *)

Definition BatchImageProviderGeminiAPI : string := "gemini_api".
Definition BatchImageProviderVertex : string := "vertex".

Definition BatchImageJobStatusCreated : string := "created".
Definition BatchImageJobStatusUploading : string := "uploading".
Definition BatchImageJobStatusSubmitted : string := "submitted".
Definition BatchImageJobStatusRunning : string := "running".
Definition BatchImageJobStatusIndexing : string := "indexing".
Definition BatchImageJobStatusSettling : string := "settling".
Definition BatchImageJobStatusCompleted : string := "completed".
Definition BatchImageJobStatusFailed : string := "failed".
Definition BatchImageJobStatusCancelled : string := "cancelled".
Definition BatchImageJobStatusOutputDeleted : string := "output_deleted".

Definition BatchImageItemStatusPending : string := "pending".
Definition BatchImageItemStatusSuccess : string := "success".
Definition BatchImageItemStatusFailed : string := "failed".

Definition one_of (l : list string) (s : string) : bool := existsb (String.eqb s) l.

Definition IsSupportedBatchImageProvider (provider : string) : bool :=
  one_of [BatchImageProviderGeminiAPI; BatchImageProviderVertex] provider.

Definition IsTerminalBatchImageJobStatus (status : string) : bool :=
  one_of [BatchImageJobStatusCompleted; BatchImageJobStatusFailed; BatchImageJobStatusCancelled;
          BatchImageJobStatusOutputDeleted] status.

Definition allowed_transitions : list (string * list string) :=
  [ (BatchImageJobStatusCreated,
      [BatchImageJobStatusUploading; BatchImageJobStatusSubmitted; BatchImageJobStatusCancelled]);
    (BatchImageJobStatusUploading, [BatchImageJobStatusSubmitted; BatchImageJobStatusCancelled]);
    (BatchImageJobStatusSubmitted,
      [BatchImageJobStatusRunning; BatchImageJobStatusIndexing; BatchImageJobStatusFailed;
       BatchImageJobStatusCancelled]);
    (BatchImageJobStatusRunning,
      [BatchImageJobStatusRunning; BatchImageJobStatusIndexing; BatchImageJobStatusFailed;
       BatchImageJobStatusCancelled]);
    (BatchImageJobStatusIndexing, [BatchImageJobStatusSettling; BatchImageJobStatusFailed]);
    (BatchImageJobStatusSettling, [BatchImageJobStatusCompleted]) ].

Definition CanTransitionBatchImageJob (from to : string) : bool :=
  if String.eqb from "" || String.eqb to "" then false else
  if IsTerminalBatchImageJobStatus from then
    String.eqb to BatchImageJobStatusOutputDeleted
    && negb (String.eqb from BatchImageJobStatusOutputDeleted)
    && one_of [BatchImageJobStatusCompleted; BatchImageJobStatusFailed; BatchImageJobStatusCancelled] from
  else if String.eqb to BatchImageJobStatusFailed then true else
  existsb (λ row, String.eqb row.1 from && one_of row.2 to) allowed_transitions.

(** ** Rows *)

(** The columns that no statement changes ([BatchImageTerms]), the instants
    ([BatchImageTimes]) and the rest of a job; amounts as the columns hold them. *)
Record BatchImageTerms := mkBatchImageTerms {
  tm_ID : Z;
  tm_BatchID : string;
  tm_UserID : Z;
  tm_APIKeyID : option Z;
  tm_AccountID : option Z;
  tm_Provider : string;
  tm_Model : string;
  tm_ParentBatchID : option string;
  tm_ItemCount : Z;
  tm_estimated_cost : Z;
  tm_hold_amount : option Z;
  tm_billable_unit_price : Z;
  tm_PricingSnapshotVersion : Z;
  tm_IdempotencyKey : option string;
  tm_RequestHash : option string
}.

Record BatchImageTimes := mkBatchImageTimes {
  bt_OutputExpiresAt : option Z;
  bt_InputDeletedAt : option Z;
  bt_OutputDeletedAt : option Z;
  bt_DownloadedAt : option Z;
  bt_UserDeletedAt : option Z;
  bt_SubmittedAt : option Z;
  bt_StartedAt : option Z;
  bt_FinishedAt : option Z;
  bt_SettledAt : option Z
}.

Record BatchImageJob := mkBatchImageJob {
  bj_terms : BatchImageTerms;
  bj_Status : string;
  bj_ProviderJobName : option string;
  bj_ProviderInputRef : option string;
  bj_ProviderOutputRef : option string;
  bj_SuccessCount : Z;
  bj_FailCount : Z;
  bj_actual_cost : option Z;
  bj_ManifestHash : option string;
  bj_RetryCount : Z;
  bj_Version : Z;
  bj_LastErrorCode : option string;
  bj_UpdatedAt : Z;
  bj_times : BatchImageTimes
}.

(** The amounts a job object has: columns as float64. *)
Definition as_amount (units : Z) : float64 := to_float (of_units 10 units).
Definition EstimatedCost (j : BatchImageJob) : float64 := as_amount (tm_estimated_cost (bj_terms j)).
Definition HoldAmount (j : BatchImageJob) : option float64 := as_amount <$> tm_hold_amount (bj_terms j).
Definition ActualCost (j : BatchImageJob) : option float64 := as_amount <$> bj_actual_cost j.
Definition BillableUnitPrice (j : BatchImageJob) : float64 := as_amount (tm_billable_unit_price (bj_terms j)).

Definition bj_BatchID (j : BatchImageJob) : string := tm_BatchID (bj_terms j).
Definition bj_UserID (j : BatchImageJob) : Z := tm_UserID (bj_terms j).
Definition bj_APIKeyID (j : BatchImageJob) : option Z := tm_APIKeyID (bj_terms j).
Definition bj_AccountID (j : BatchImageJob) : option Z := tm_AccountID (bj_terms j).
Definition bj_ItemCount (j : BatchImageJob) : Z := tm_ItemCount (bj_terms j).
Definition bj_RequestHash (j : BatchImageJob) : option string := tm_RequestHash (bj_terms j).

Definition batchImageDerefString (v : option string) : string :=
  match v with None => "" | Some v => TrimSpace v end.
Definition batchImageOptionalStringPtr (v : string) : option string :=
  let v := TrimSpace v in if String.eqb v "" then None else Some v.

(** A row of batch_image_items, unique by job and custom id. *)
Record BatchImageItem := mkBatchImageItem {
  it_Status : string;
  it_PromptPreview : option string;
  it_ImageCount : Z;
  it_ErrorCode : option string
}.

(** ** Setters *)

Definition set_status (x : string) (j : BatchImageJob) : BatchImageJob :=
  mkBatchImageJob (bj_terms j) x (bj_ProviderJobName j) (bj_ProviderInputRef j)
    (bj_ProviderOutputRef j) (bj_SuccessCount j) (bj_FailCount j) (bj_actual_cost j)
    (bj_ManifestHash j) (bj_RetryCount j) (bj_Version j) (bj_LastErrorCode j) (bj_UpdatedAt j)
    (bj_times j).
Definition set_job_name (x : option string) (j : BatchImageJob) : BatchImageJob :=
  mkBatchImageJob (bj_terms j) (bj_Status j) x (bj_ProviderInputRef j) (bj_ProviderOutputRef j)
    (bj_SuccessCount j) (bj_FailCount j) (bj_actual_cost j) (bj_ManifestHash j)
    (bj_RetryCount j) (bj_Version j) (bj_LastErrorCode j) (bj_UpdatedAt j) (bj_times j).
Definition set_input_ref (x : option string) (j : BatchImageJob) : BatchImageJob :=
  mkBatchImageJob (bj_terms j) (bj_Status j) (bj_ProviderJobName j) x (bj_ProviderOutputRef j)
    (bj_SuccessCount j) (bj_FailCount j) (bj_actual_cost j) (bj_ManifestHash j)
    (bj_RetryCount j) (bj_Version j) (bj_LastErrorCode j) (bj_UpdatedAt j) (bj_times j).
Definition set_output_ref (x : option string) (j : BatchImageJob) : BatchImageJob :=
  mkBatchImageJob (bj_terms j) (bj_Status j) (bj_ProviderJobName j) (bj_ProviderInputRef j) x
    (bj_SuccessCount j) (bj_FailCount j) (bj_actual_cost j) (bj_ManifestHash j)
    (bj_RetryCount j) (bj_Version j) (bj_LastErrorCode j) (bj_UpdatedAt j) (bj_times j).
Definition set_actual_cost (x : option Z) (j : BatchImageJob) : BatchImageJob :=
  mkBatchImageJob (bj_terms j) (bj_Status j) (bj_ProviderJobName j) (bj_ProviderInputRef j)
    (bj_ProviderOutputRef j) (bj_SuccessCount j) (bj_FailCount j) x (bj_ManifestHash j)
    (bj_RetryCount j) (bj_Version j) (bj_LastErrorCode j) (bj_UpdatedAt j) (bj_times j).
Definition set_manifest_hash (x : option string) (j : BatchImageJob) : BatchImageJob :=
  mkBatchImageJob (bj_terms j) (bj_Status j) (bj_ProviderJobName j) (bj_ProviderInputRef j)
    (bj_ProviderOutputRef j) (bj_SuccessCount j) (bj_FailCount j) (bj_actual_cost j) x
    (bj_RetryCount j) (bj_Version j) (bj_LastErrorCode j) (bj_UpdatedAt j) (bj_times j).
Definition set_retry_count (x : Z) (j : BatchImageJob) : BatchImageJob :=
  mkBatchImageJob (bj_terms j) (bj_Status j) (bj_ProviderJobName j) (bj_ProviderInputRef j)
    (bj_ProviderOutputRef j) (bj_SuccessCount j) (bj_FailCount j) (bj_actual_cost j)
    (bj_ManifestHash j) x (bj_Version j) (bj_LastErrorCode j) (bj_UpdatedAt j) (bj_times j).
Definition set_version (x : Z) (j : BatchImageJob) : BatchImageJob :=
  mkBatchImageJob (bj_terms j) (bj_Status j) (bj_ProviderJobName j) (bj_ProviderInputRef j)
    (bj_ProviderOutputRef j) (bj_SuccessCount j) (bj_FailCount j) (bj_actual_cost j)
    (bj_ManifestHash j) (bj_RetryCount j) x (bj_LastErrorCode j) (bj_UpdatedAt j) (bj_times j).
Definition set_error_code (x : option string) (j : BatchImageJob) : BatchImageJob :=
  mkBatchImageJob (bj_terms j) (bj_Status j) (bj_ProviderJobName j) (bj_ProviderInputRef j)
    (bj_ProviderOutputRef j) (bj_SuccessCount j) (bj_FailCount j) (bj_actual_cost j)
    (bj_ManifestHash j) (bj_RetryCount j) (bj_Version j) x (bj_UpdatedAt j) (bj_times j).
Definition set_updated_at (x : Z) (j : BatchImageJob) : BatchImageJob :=
  mkBatchImageJob (bj_terms j) (bj_Status j) (bj_ProviderJobName j) (bj_ProviderInputRef j)
    (bj_ProviderOutputRef j) (bj_SuccessCount j) (bj_FailCount j) (bj_actual_cost j)
    (bj_ManifestHash j) (bj_RetryCount j) (bj_Version j) (bj_LastErrorCode j) x (bj_times j).
Definition set_times (x : BatchImageTimes) (j : BatchImageJob) : BatchImageJob :=
  mkBatchImageJob (bj_terms j) (bj_Status j) (bj_ProviderJobName j) (bj_ProviderInputRef j)
    (bj_ProviderOutputRef j) (bj_SuccessCount j) (bj_FailCount j) (bj_actual_cost j)
    (bj_ManifestHash j) (bj_RetryCount j) (bj_Version j) (bj_LastErrorCode j) (bj_UpdatedAt j) x.
Definition set_counts (x : Z * Z) (j : BatchImageJob) : BatchImageJob :=
  mkBatchImageJob (bj_terms j) (bj_Status j) (bj_ProviderJobName j) (bj_ProviderInputRef j)
    (bj_ProviderOutputRef j) x.1 x.2 (bj_actual_cost j)
    (bj_ManifestHash j) (bj_RetryCount j) (bj_Version j) (bj_LastErrorCode j) (bj_UpdatedAt j)
    (bj_times j).

Definition set_output_expires_at (x : option Z) (t : BatchImageTimes) : BatchImageTimes :=
  mkBatchImageTimes x (bt_InputDeletedAt t) (bt_OutputDeletedAt t) (bt_DownloadedAt t)
    (bt_UserDeletedAt t) (bt_SubmittedAt t) (bt_StartedAt t) (bt_FinishedAt t) (bt_SettledAt t).
Definition set_input_deleted_at (x : option Z) (t : BatchImageTimes) : BatchImageTimes :=
  mkBatchImageTimes (bt_OutputExpiresAt t) x (bt_OutputDeletedAt t) (bt_DownloadedAt t)
    (bt_UserDeletedAt t) (bt_SubmittedAt t) (bt_StartedAt t) (bt_FinishedAt t) (bt_SettledAt t).
Definition set_output_deleted_at (x : option Z) (t : BatchImageTimes) : BatchImageTimes :=
  mkBatchImageTimes (bt_OutputExpiresAt t) (bt_InputDeletedAt t) x (bt_DownloadedAt t)
    (bt_UserDeletedAt t) (bt_SubmittedAt t) (bt_StartedAt t) (bt_FinishedAt t) (bt_SettledAt t).
Definition set_downloaded_at (x : option Z) (t : BatchImageTimes) : BatchImageTimes :=
  mkBatchImageTimes (bt_OutputExpiresAt t) (bt_InputDeletedAt t) (bt_OutputDeletedAt t) x
    (bt_UserDeletedAt t) (bt_SubmittedAt t) (bt_StartedAt t) (bt_FinishedAt t) (bt_SettledAt t).
Definition set_user_deleted_at (x : option Z) (t : BatchImageTimes) : BatchImageTimes :=
  mkBatchImageTimes (bt_OutputExpiresAt t) (bt_InputDeletedAt t) (bt_OutputDeletedAt t)
    (bt_DownloadedAt t) x (bt_SubmittedAt t) (bt_StartedAt t) (bt_FinishedAt t) (bt_SettledAt t).
Definition set_submitted_at (x : option Z) (t : BatchImageTimes) : BatchImageTimes :=
  mkBatchImageTimes (bt_OutputExpiresAt t) (bt_InputDeletedAt t) (bt_OutputDeletedAt t)
    (bt_DownloadedAt t) (bt_UserDeletedAt t) x (bt_StartedAt t) (bt_FinishedAt t)
    (bt_SettledAt t).
Definition set_started_at (x : option Z) (t : BatchImageTimes) : BatchImageTimes :=
  mkBatchImageTimes (bt_OutputExpiresAt t) (bt_InputDeletedAt t) (bt_OutputDeletedAt t)
    (bt_DownloadedAt t) (bt_UserDeletedAt t) (bt_SubmittedAt t) x (bt_FinishedAt t)
    (bt_SettledAt t).
Definition set_finished_at (x : option Z) (t : BatchImageTimes) : BatchImageTimes :=
  mkBatchImageTimes (bt_OutputExpiresAt t) (bt_InputDeletedAt t) (bt_OutputDeletedAt t)
    (bt_DownloadedAt t) (bt_UserDeletedAt t) (bt_SubmittedAt t) (bt_StartedAt t) x
    (bt_SettledAt t).
Definition set_settled_at (x : option Z) (t : BatchImageTimes) : BatchImageTimes :=
  mkBatchImageTimes (bt_OutputExpiresAt t) (bt_InputDeletedAt t) (bt_OutputDeletedAt t)
    (bt_DownloadedAt t) (bt_UserDeletedAt t) (bt_SubmittedAt t) (bt_StartedAt t)
    (bt_FinishedAt t) x.

Definition on_times (f : BatchImageTimes → BatchImageTimes) (j : BatchImageJob) : BatchImageJob :=
  set_times (f (bj_times j)) j.

(** [CASE WHEN column IS NULL THEN t ELSE column END]. *)
Definition or_now (t : Z) (column : option Z) : option Z := Some (default t column).

(** [version = version + 1, updated_at = t]. *)
Definition touch (t : Z) (j : BatchImageJob) : BatchImageJob :=
  set_version (bj_Version j + 1) (set_updated_at t j).

(** ** The database *)

(** [bi_creator] is a history variable: the thread that inserted each job. *)
Record BatchDB := mkBatchDB {
  bi_now : Z;
  bi_jobs : gmap string BatchImageJob;
  bi_next : Z;
  bi_items : gmap (string * string) BatchImageItem;
  bi_billing : BillingDB;
  bi_creator : gmap string nat
}.

Definition put_job (batchID : string) (j : BatchImageJob) (s : BatchDB) : BatchDB :=
  mkBatchDB (bi_now s) (<[batchID := j]> (bi_jobs s)) (bi_next s) (bi_items s) (bi_billing s) (bi_creator s).
Definition put_items (m : gmap (string * string) BatchImageItem) (s : BatchDB) : BatchDB :=
  mkBatchDB (bi_now s) (bi_jobs s) (bi_next s) m (bi_billing s) (bi_creator s).
Definition put_billing (d : BillingDB) (s : BatchDB) : BatchDB :=
  mkBatchDB (bi_now s) (bi_jobs s) (bi_next s) (bi_items s) d (bi_creator s).
Definition next_id (s : BatchDB) : BatchDB :=
  mkBatchDB (bi_now s) (bi_jobs s) (bi_next s + 1) (bi_items s) (bi_billing s) (bi_creator s).
Definition set_clock (t : Z) (s : BatchDB) : BatchDB :=
  mkBatchDB t (bi_jobs s) (bi_next s) (bi_items s) (bi_billing s) (bi_creator s).
Definition note_creator (batchID : string) (i : nat) (s : BatchDB) : BatchDB :=
  mkBatchDB (bi_now s) (bi_jobs s) (bi_next s) (bi_items s) (bi_billing s) (<[batchID := i]> (bi_creator s)).

(** An error is known by its reason. *)
Definition job_error : Type := string.

Definition ErrDB : job_error := "database".
Definition ErrBatchImageJobNotFound : job_error := "BATCH_IMAGE_JOB_NOT_FOUND".
Definition ErrBatchImageJobExists : job_error := "BATCH_IMAGE_JOB_EXISTS".
Definition ErrBatchImageItemExists : job_error := "BATCH_IMAGE_ITEM_EXISTS".
Definition ErrBatchImageInvalidTransition : job_error := "BATCH_IMAGE_INVALID_TRANSITION".
Definition ErrBatchImageInvalidProvider : job_error := "BATCH_IMAGE_INVALID_PROVIDER".
Definition ErrBatchImageIndexStateConflict : job_error := "BATCH_IMAGE_INDEX_STATE_CONFLICT".
Definition ErrBatchImageAlreadySettled : job_error := "BATCH_IMAGE_ALREADY_SETTLED".
Definition ErrBatchImageSettlementInvalidStatus : job_error := "BATCH_IMAGE_SETTLEMENT_INVALID_STATUS".
Definition ErrBatchImageSettlementManifestConflict : job_error := "BATCH_IMAGE_SETTLEMENT_MANIFEST_CONFLICT".
Definition ErrBatchImageRecordDeleteNotReady : job_error := "BATCH_IMAGE_RECORD_DELETE_NOT_READY".

(** Statements. *)
Definition jtx (A : Type) : Type := BatchDB → job_error + A * BatchDB.

#[export] Instance jtx_ret : MRet jtx := λ A a s, inr (a, s).
#[export] Instance jtx_bind : MBind jtx := λ A B f m s,
  match m s with inl e => inl e | inr (a, s') => f a s' end.

Definition fail {A} (e : job_error) : jtx A := λ _, inl e.
Definition read {A} (f : BatchDB → A) : jtx A := λ s, inr (f s, s).
Definition modify (f : BatchDB → BatchDB) : jtx unit := λ s, inr (tt, f s).

(** [QueryRow … Scan], with no row translated to "not found". *)
Definition query_job (batchID : string) (cond : BatchImageJob → bool) : jtx BatchImageJob := λ s,
  match bi_jobs s !! batchID with
  | Some j => if cond j then inr (j, s) else inl ErrBatchImageJobNotFound
  | None => inl ErrBatchImageJobNotFound
  end.

(** [UPDATE … WHERE batch_id = … AND cond]: the number of rows. *)
Definition update_job (batchID : string) (cond : BatchImageJob → bool)
    (set : BatchImageJob → BatchImageJob) : jtx Z := λ s,
  match bi_jobs s !! batchID with
  | Some j => if cond j then inr (1, put_job batchID (set j) s) else inr (0, s)
  | None => inr (0, s)
  end.

Definition always (j : BatchImageJob) : bool := true.
Definition is_null {A} (x : option A) : bool := match x with None => true | Some _ => false end.
Definition status_in (l : list string) (j : BatchImageJob) : bool := one_of l (bj_Status j).

(** A statement that must have changed a row. *)
Definition must_update (e : job_error) (m : jtx Z) : jtx unit :=
  affected ← m; if affected =? 0 then fail e else mret tt.

(** ** Statements on jobs *)

Section Statements.
Context `{ShortestDecimal}.

Definition GetBatchImageJobByBatchID (batchID : string) : jtx BatchImageJob := query_job batchID always.

Definition owned_by (userID apiKeyID : Z) (j : BatchImageJob) : bool :=
  (bj_UserID j =? userID) && bool_decide (bj_APIKeyID j = Some apiKeyID).

Definition visible_to (userID apiKeyID : Z) (j : BatchImageJob) : bool :=
  owned_by userID apiKeyID j && is_null (bt_UserDeletedAt (bj_times j)).

Definition GetBatchImageJobByBatchIDForOwner (userID apiKeyID : Z) (batchID : string) : jtx BatchImageJob :=
  query_job batchID (visible_to userID apiKeyID).

Definition jobs_where (cond : BatchImageJob → bool) (s : BatchDB) : list BatchImageJob :=
  filter (λ j, cond j = true) (map_to_list (bi_jobs s)).*2.

Definition by_id (a b : BatchImageJob) : Prop := tm_ID (bj_terms a) ≤ tm_ID (bj_terms b).

#[export] Instance by_id_dec : RelDecision by_id.
Proof. unfold by_id. intros a b. apply _. Defined.

(** [ORDER BY id DESC LIMIT 1]. *)
Definition GetBatchImageJobByIdempotencyKey (userID apiKeyID : Z) (key : string) : jtx BatchImageJob :=
  l ← read (jobs_where (λ j, owned_by userID apiKeyID j
                             && bool_decide (tm_IdempotencyKey (bj_terms j) = Some key)));
  match last (merge_sort by_id l) with Some j => mret j | None => fail ErrBatchImageJobNotFound end.

Record CreateBatchImageJobParams := mkCreateJob {
  cp_BatchID : string;
  cp_UserID : Z;
  cp_APIKeyID : option Z;
  cp_AccountID : option Z;
  cp_Provider : string;
  cp_Model : string;
  cp_ParentBatchID : option string;
  cp_Status : string;
  cp_ItemCount : Z;
  cp_EstimatedCost : float64;
  cp_HoldAmount : option float64;
  cp_BillableUnitPrice : float64;
  cp_PricingSnapshotVersion : Z;
  cp_IdempotencyKey : option string;
  cp_RequestHash : option string
}.

(** A float64 as a column NUMERIC(20, 10) keeps it. *)
Definition stored_amount (a : float64) : option Z :=
  match argument a with
  | Some x => let u := to_units 10 x in if Z.abs u <? column_limit then Some u else None
  | None => None
  end.

Definition amount_column (a : float64) : jtx Z :=
  match stored_amount a with Some u => mret u | None => fail ErrDB end.

Definition no_times : BatchImageTimes := mkBatchImageTimes None None None None None None None None None.

Definition new_job (id now : Z) (p : CreateBatchImageJobParams) (estimated : Z) (hold : option Z) (unit_price : Z)
    : BatchImageJob :=
  mkBatchImageJob
    (mkBatchImageTerms id (cp_BatchID p) (cp_UserID p) (cp_APIKeyID p) (cp_AccountID p) (cp_Provider p)
       (cp_Model p) (cp_ParentBatchID p) (cp_ItemCount p) estimated hold unit_price
       (cp_PricingSnapshotVersion p) (cp_IdempotencyKey p) (cp_RequestHash p))
    (if String.eqb (cp_Status p) "" then BatchImageJobStatusCreated else cp_Status p)
    None None None 0 0 None None 0 0 None now no_times.

(** [batch_id] is unique.  The callers give the identifier. *)
Definition CreateBatchImageJob (p : CreateBatchImageJobParams) : jtx BatchImageJob :=
  if negb (IsSupportedBatchImageProvider (cp_Provider p)) then fail ErrBatchImageInvalidProvider else
  estimated ← amount_column (cp_EstimatedCost p);
  hold ← match cp_HoldAmount p with Some a => u ← amount_column a; mret (Some u) | None => mret None end;
  unit_price ← amount_column (cp_BillableUnitPrice p);
  present ← read (λ s, bi_jobs s !! cp_BatchID p);
  match present with
  | Some _ => fail ErrBatchImageJobExists
  | None =>
      id ← read bi_next;
      now ← read bi_now;
      let j := new_job id now p estimated hold unit_price in
      modify (λ s, next_id (put_job (cp_BatchID p) j s));;
      mret j
  end.

(** What a transition writes besides the status. *)
Definition transition_times (toStatus : string) (now : Z) (t : BatchImageTimes) : BatchImageTimes :=
  let becomes s := String.eqb toStatus s in
  let at_ (b : bool) (x : option Z) := if b then or_now now x else x in
  mkBatchImageTimes (bt_OutputExpiresAt t) (bt_InputDeletedAt t)
    (at_ (becomes BatchImageJobStatusOutputDeleted) (bt_OutputDeletedAt t))
    (bt_DownloadedAt t) (bt_UserDeletedAt t)
    (at_ (becomes BatchImageJobStatusSubmitted) (bt_SubmittedAt t))
    (at_ (becomes BatchImageJobStatusRunning) (bt_StartedAt t))
    (at_ (one_of [BatchImageJobStatusCompleted; BatchImageJobStatusFailed; BatchImageJobStatusCancelled] toStatus)
       (bt_FinishedAt t))
    (at_ (becomes BatchImageJobStatusCompleted) (bt_SettledAt t)).

Definition transitioned (toStatus : string) (errorCode : option string) (now : Z) (j : BatchImageJob)
    : BatchImageJob :=
  set_status toStatus (touch now (on_times (transition_times toStatus now)
    (set_error_code (if String.eqb toStatus BatchImageJobStatusFailed then errorCode else bj_LastErrorCode j) j))).

Definition TransitionBatchImageJobStatus (batchID toStatus : string) (errorCode : option string) : jtx unit :=
  j ← query_job batchID always;
  if negb (CanTransitionBatchImageJob (bj_Status j) toStatus) then fail ErrBatchImageInvalidTransition else
  now ← read bi_now;
  update_job batchID always (transitioned toStatus errorCode now);;
  mret tt.

Definition unsubmitted (j : BatchImageJob) : bool :=
  status_in [BatchImageJobStatusCreated; BatchImageJobStatusUploading] j.

Definition TouchBatchImageJobSubmitting (batchID : string) : jtx unit :=
  now ← read bi_now;
  update_job batchID unsubmitted (set_updated_at now);;
  mret tt.

Definition failed_at (now : Z) (code : string) (j : BatchImageJob) : BatchImageJob :=
  set_status BatchImageJobStatusFailed (touch now (set_error_code (Some code)
    (on_times (λ t, set_finished_at (or_now now (bt_FinishedAt t)) t) j))).

(** The row is updated or not; the event is appended by another statement. *)
Definition fail_stale_update (batchID : string) (cutoff : Z) (code : string) : jtx bool :=
  now ← read bi_now;
  affected ← update_job batchID
    (λ j, unsubmitted j && is_null (bj_ProviderJobName j) && (bj_UpdatedAt j <=? cutoff))
    (failed_at now code);
  mret (negb (affected =? 0)).

Definition UpdateBatchImageJobProviderOutputRef (batchID ref : string) : jtx unit :=
  now ← read bi_now;
  must_update ErrBatchImageJobNotFound
    (update_job batchID always (λ j, set_updated_at now (set_output_ref (Some ref) j))).

(** [NULLIF(s, '')]. *)
Definition null_if_empty (s : string) : option string := if String.eqb s "" then None else Some s.

Record BatchProviderJob := mkProviderJob {
  pj_ProviderJobName : string;
  pj_ProviderInputRef : string;
  pj_ProviderOutputRef : string
}.

Definition UpdateBatchImageJobProviderSubmit (batchID : string) (p : BatchProviderJob) : jtx unit :=
  j ← query_job batchID always;
  if negb (CanTransitionBatchImageJob (bj_Status j) BatchImageJobStatusSubmitted)
  then fail ErrBatchImageInvalidTransition else
  now ← read bi_now;
  update_job batchID always (λ j,
    set_status BatchImageJobStatusSubmitted (touch now
      (set_job_name (Some (pj_ProviderJobName p))
        (set_input_ref (null_if_empty (pj_ProviderInputRef p))
          (set_output_ref (null_if_empty (pj_ProviderOutputRef p))
            (on_times (λ t, set_submitted_at (or_now now (bt_SubmittedAt t)) t) j))))));;
  mret tt.

(** The finish is set when the new status is failed, whatever the old one was. *)
Definition record_failure_update (batchID code : string) (markFailed : bool) : jtx unit :=
  now ← read bi_now;
  update_job batchID always (λ j,
    let status := if markFailed then BatchImageJobStatusFailed else bj_Status j in
    let finished (t : BatchImageTimes) :=
      if String.eqb status BatchImageJobStatusFailed
      then set_finished_at (or_now now (bt_FinishedAt t)) t else t in
    set_status status (touch now (set_error_code (Some code) (on_times finished j))));;
  mret tt.

Record MarkBatchImageJobSettledParams := mkSettled {
  ms_BatchID : string;
  ms_ActualCost : float64;
  ms_ManifestHash : string;
  ms_Now : Z;
  ms_OutputExpiresAt : Z
}.

(** The manifests of jobs are unique where they are not empty. *)
Definition manifest_taken (batchID manifestHash : string) (s : BatchDB) : bool :=
  negb (String.eqb manifestHash "")
  && existsb (λ kj : string * BatchImageJob, negb (String.eqb kj.1 batchID)
                && bool_decide (bj_ManifestHash kj.2 = Some manifestHash)) (map_to_list (bi_jobs s)).

Definition manifest_agrees (manifestHash : string) (j : BatchImageJob) : bool :=
  match bj_ManifestHash j with
  | None => true
  | Some h => String.eqb h "" || String.eqb h manifestHash
  end.

Definition settled (p : MarkBatchImageJobSettledParams) (cost : Z) (j : BatchImageJob) : BatchImageJob :=
  set_status BatchImageJobStatusCompleted (touch (ms_Now p)
    (set_actual_cost (Some cost) (set_manifest_hash (Some (ms_ManifestHash p))
      (on_times (λ t, set_settled_at (or_now (ms_Now p) (bt_SettledAt t))
                       (set_finished_at (or_now (ms_Now p) (bt_FinishedAt t))
                         (set_output_expires_at (or_now (ms_OutputExpiresAt p) (bt_OutputExpiresAt t)) t))) j)))).

Definition MarkBatchImageJobSettled (p : MarkBatchImageJobSettledParams) : jtx unit :=
  cost ← amount_column (ms_ActualCost p);
  present ← read (λ s, bi_jobs s !! ms_BatchID p);
  let updates := match present with
                 | Some j => String.eqb (bj_Status j) BatchImageJobStatusSettling
                             && manifest_agrees (ms_ManifestHash p) j
                 | None => false
                 end in
  taken ← read (manifest_taken (ms_BatchID p) (ms_ManifestHash p));
  if updates && taken then fail ErrDB else
  affected ← update_job (ms_BatchID p)
    (λ j, String.eqb (bj_Status j) BatchImageJobStatusSettling && manifest_agrees (ms_ManifestHash p) j)
    (settled p cost);
  if affected =? 0 then
    j ← query_job (ms_BatchID p) always;
    if negb (String.eqb (bj_Status j) BatchImageJobStatusSettling) then
      if String.eqb (bj_Status j) BatchImageJobStatusCompleted then fail ErrBatchImageAlreadySettled
      else fail ErrBatchImageSettlementInvalidStatus
    else fail ErrBatchImageSettlementManifestConflict
  else mret tt.

(** [RETURNING retry_count]. *)
Definition settlement_failed_update (batchID code : string) : jtx Z :=
  now ← read bi_now;
  must_update ErrBatchImageJobNotFound (update_job batchID always (λ j,
    set_error_code (Some code) (set_retry_count (bj_RetryCount j + 1) (set_updated_at now j))));;
  j ← query_job batchID always;
  mret (bj_RetryCount j).

(** ** Statements on items *)

Record CreateBatchImageItemParams := mkCreateItem {
  ci_CustomID : string;
  ci_Status : string;
  ci_PromptPreview : option string;
  ci_ImageCount : Z;
  ci_ErrorCode : option string
}.

Definition createBatchImageItem (batchID : string) (p : CreateBatchImageItemParams) : jtx unit :=
  present ← read (λ s, bi_items s !! (batchID, ci_CustomID p));
  match present with
  | Some _ => fail ErrBatchImageItemExists
  | None =>
      modify (λ s, put_items (<[(batchID, ci_CustomID p) :=
                mkBatchImageItem (ci_Status p) (ci_PromptPreview p) (ci_ImageCount p) (ci_ErrorCode p)]>
                (bi_items s)) s)
  end.

Fixpoint BulkCreateBatchImageItems (batchID : string) (ps : list CreateBatchImageItemParams) : jtx unit :=
  match ps with
  | [] => mret tt
  | p :: ps => createBatchImageItem batchID p;; BulkCreateBatchImageItems batchID ps
  end.

Definition items_of (batchID : string) (s : BatchDB) : gmap (string * string) BatchImageItem :=
  filter (λ ki, ki.1.1 = batchID) (bi_items s).

(** The pages of [listExpectedCustomIDs] are one statement here. *)
Definition expected_custom_ids (batchID : string) : jtx (list string) :=
  read (λ s, snd <$> (map_to_list (items_of batchID s)).*1).

Definition with_preview (old : gmap (string * string) BatchImageItem) (batchID : string)
    (p : CreateBatchImageItemParams) : CreateBatchImageItemParams :=
  match ci_PromptPreview p with
  | Some _ => p
  | None =>
      match old !! (batchID, ci_CustomID p) with
      | Some (mkBatchImageItem _ (Some preview) _ _) =>
          if String.eqb preview "" then p
          else mkCreateItem (ci_CustomID p) (ci_Status p) (Some preview) (ci_ImageCount p) (ci_ErrorCode p)
      | _ => p
      end
  end.

Definition ReplaceBatchImageItemsForJob (batchID : string) (ps : list CreateBatchImageItemParams)
    (success_count fail_count : Z) : jtx unit :=
  j ← query_job batchID always;
  if negb (String.eqb (bj_Status j) BatchImageJobStatusIndexing) then fail ErrBatchImageIndexStateConflict else
  old ← read (items_of batchID);
  modify (λ s, put_items (filter (λ ki, ki.1.1 ≠ batchID) (bi_items s)) s);;
  BulkCreateBatchImageItems batchID (with_preview old batchID <$> ps);;
  now ← read bi_now;
  update_job batchID always (λ j, set_counts (success_count, fail_count) (set_updated_at now j));;
  mret tt.

(** ** Lists and marks *)

Definition list_limit (limit : Z) : Z := if (limit <=? 0) || (1000 <? limit) then 100 else limit.

Definition listed (le : BatchImageJob → BatchImageJob → Prop) `{!RelDecision le} (limit : Z)
    (cond : BatchImageJob → bool) : jtx (list BatchImageJob) :=
  read (λ s, take (Z.to_nat (list_limit limit)) (merge_sort le (jobs_where cond s))).

Definition ListBatchImageJobsDueForInputCleanup (cutoff limit : Z) : jtx (list BatchImageJob) :=
  listed by_id limit (λ j,
    is_null (bt_InputDeletedAt (bj_times j)) && negb (is_null (bj_ProviderInputRef j))
    && status_in [BatchImageJobStatusCompleted; BatchImageJobStatusFailed; BatchImageJobStatusCancelled;
                  BatchImageJobStatusOutputDeleted] j
    && (default (default (bj_UpdatedAt j) (bt_SettledAt (bj_times j))) (bt_FinishedAt (bj_times j)) <=? cutoff)).

Definition expires (j : BatchImageJob) : Z := default 0 (bt_OutputExpiresAt (bj_times j)).

Definition by_expiry (a b : BatchImageJob) : Prop :=
  expires a < expires b ∨ (expires a = expires b ∧ by_id a b).

#[export] Instance by_expiry_dec : RelDecision by_expiry.
Proof. unfold by_expiry. intros a b. apply _. Defined.

Definition ListBatchImageJobsDueForOutputCleanup (now limit : Z) : jtx (list BatchImageJob) :=
  listed by_expiry limit (λ j,
    is_null (bt_OutputDeletedAt (bj_times j)) && negb (is_null (bj_ProviderOutputRef j))
    && status_in [BatchImageJobStatusCompleted] j
    && match bt_OutputExpiresAt (bj_times j) with Some e => e <=? now | None => false end).

Definition by_update (a b : BatchImageJob) : Prop :=
  bj_UpdatedAt a < bj_UpdatedAt b ∨ (bj_UpdatedAt a = bj_UpdatedAt b ∧ by_id a b).

#[export] Instance by_update_dec : RelDecision by_update.
Proof. unfold by_update. intros a b. apply _. Defined.

Definition ListStaleUnsubmittedBatchImageJobs (cutoff limit : Z) : jtx (list BatchImageJob) :=
  listed by_update limit (λ j,
    unsubmitted j && is_null (bj_ProviderJobName j)
    && (0 <? default (tm_estimated_cost (bj_terms j)) (tm_hold_amount (bj_terms j)))
    && (bj_UpdatedAt j <=? cutoff)).

Definition input_deleted_update (batchID : string) (deletedAt : Z) : jtx unit :=
  must_update ErrBatchImageJobNotFound (update_job batchID always (λ j,
    touch deletedAt (on_times (λ t, set_input_deleted_at (or_now deletedAt (bt_InputDeletedAt t)) t) j))).

Definition output_deleted_update (batchID : string) (deletedAt : Z) : jtx unit :=
  must_update ErrBatchImageJobNotFound (update_job batchID always (λ j,
    let completed := String.eqb (bj_Status j) BatchImageJobStatusCompleted in
    set_status (if completed then BatchImageJobStatusOutputDeleted else bj_Status j)
      (touch deletedAt (on_times (λ t,
         set_output_deleted_at (or_now deletedAt (bt_OutputDeletedAt t))
           (if completed then set_finished_at (or_now deletedAt (bt_FinishedAt t)) t else t)) j)))).

Definition downloaded_update (batchID : string) (downloadedAt : Z) : jtx unit :=
  must_update ErrBatchImageJobNotFound (update_job batchID always (λ j,
    set_updated_at downloadedAt
      (on_times (λ t, set_downloaded_at (or_now downloadedAt (bt_DownloadedAt t)) t) j))).

Definition user_deleted_update (userID apiKeyID : Z) (batchID : string) (deletedAt : Z) : jtx unit :=
  must_update ErrBatchImageRecordDeleteNotReady (update_job batchID
    (λ j, visible_to userID apiKeyID j && IsTerminalBatchImageJobStatus (bj_Status j))
    (λ j, set_updated_at deletedAt
            (on_times (λ t, set_user_deleted_at (or_now deletedAt (bt_UserDeletedAt t)) t) j))).

Definition cleanup_failure_update (batchID code : string) : jtx unit :=
  now ← read bi_now;
  update_job batchID always (λ j,
    set_error_code (Some code) (set_retry_count (bj_RetryCount j + 1) (set_updated_at now j)));;
  mret tt.
End Statements.
