(* ===== verification/BatchImage.v ===== *)
(** * Batch image jobs: the handlers

    service/batch_image_billing_hold.go, batch_image_settlement.go,
    batch_image_processor.go, batch_image_billing_recovery.go, batch_image_public.go and
    batch_image_cleanup.go, each function as a program of calls ([prog]): statements on
    the tables, operations on the balance that is held, readings of the clock, and what
    other services answer ([world]: the provider, pricing, the queue, the admission of
    tasks and slots).  A statement or an operation may fail before it takes effect, or
    take effect without an answer ([outcome]).  Events, logs, cache invalidations and
    the release of slots change none of the tables and are left out. *)

From Stdlib Require Import ZArith Lia Ascii String.
From stdpp Require Import base tactics numbers list gmap strings sorting.
From S2P Require Import Prelude GoStrings GoFloat GoTime GoDecimal Programs BillingData UsageBilling UsageBillingClaims BatchImageData.

Open Scope go_scope.
Open Scope string_scope.
Open Scope Z_scope.

(** ** Calls *)

Record BatchProviderStatus := mkProviderStatus {
  ps_InternalState : string;
  ps_ProviderOutputRef : string;
  ps_ErrorCode : string;
  ps_SuggestedRequeueAfter : Z
}.

Record ParsedBatchImageResult := mkParsed {
  pr_CustomID : string;
  pr_Status : string;
  pr_ImageCount : Z;
  pr_ErrorCode : string
}.

(** The output of a provider, line by line, as [ParseBatchImageResultLine] reads it. *)
Inductive result_line :=
| BlankLine
| BadLine
| ResultLine (p : ParsedBatchImageResult)
| ReadError (truncated : bool).

(** The provider and account chosen for a submission, and its prices. *)
Record BatchImageQuote := mkQuote {
  qu_Provider : string;
  qu_AccountID : Z;
  qu_EstimatedCost : float64;
  qu_HoldAmount : float64;
  qu_BillableUnitPrice : float64
}.

(** What the environment decides at a call. *)
Record world := mkWorld {
  w_outcome : outcome;                             (* of a statement *)
  w_ok : bool;                                     (* another service answers without an error *)
  w_yes : bool;                                    (* what it answers *)
  w_reason : job_error;                            (* the error otherwise *)
  w_random : string;                               (* sixteen random bytes in hexadecimal *)
  w_quote : option BatchImageQuote;
  w_unit_price : option float64;
  w_submitted : option (option BatchProviderJob);
  w_status : option (option BatchProviderStatus);
  w_output : option (list result_line)
}.

Inductive stmt : Type → Type :=
| Sql {A} (t : jtx A) : stmt (job_error + A)
| Insert (p : CreateBatchImageJobParams) : stmt (job_error + BatchImageJob)
| Billing (kind : hold_kind) (cmd : BatchImageBalanceHoldCommand)
    : stmt (billing_error + BatchImageBalanceHoldResult)
| Ask {A} (f : world → A) : stmt A
| Now : stmt Z.

Definition run_sql {A} (t : jtx A) (o : outcome) (s : BatchDB) : (job_error + A) * BatchDB :=
  match o, t s with
  | Fails, _ => (inl ErrDB, s)
  | Commits, inl e => (inl e, s)
  | Commits, inr (a, s') => (inr a, s')
  | CommitLost, inl _ => (inl ErrDB, s)
  | CommitLost, inr (_, s') => (inl ErrDB, s')
  end.

Section Exec.
Context `{ShortestDecimal} `{Digest}.

Definition run_billing (kind : hold_kind) (cmd : BatchImageBalanceHoldCommand) (o : outcome) (s : BatchDB)
    : (billing_error + BatchImageBalanceHoldResult) * BatchDB :=
  let '(r, d) := applyBatchImageBalanceHold (bi_now s) o cmd (hold_apply kind) (bi_billing s) in
  (r, put_billing d s).

(** [CreateBatchImageJob], and who called it. *)
Definition insert_job (i : nat) (p : CreateBatchImageJobParams) : jtx BatchImageJob :=
  j ← CreateBatchImageJob p;
  modify (note_creator (cp_BatchID p) i);;
  mret j.

Definition exec (i : nat) (X : Type) (o : stmt X) (w : world) (s : BatchDB) : X * BatchDB :=
  match o in stmt X return X * BatchDB with
  | Sql t => run_sql t (w_outcome w) s
  | Insert p => run_sql (insert_job i p) (w_outcome w) s
  | Billing kind cmd => run_billing kind cmd (w_outcome w) s
  | Ask f => (f w, s)
  | Now => (bi_now s, s)
  end.
End Exec.

Abbreviation handler A := (prog stmt (job_error + A)).

Definition sql {A} (t : jtx A) : handler A := call (Sql t).
Definition ok {A} (a : A) : handler A := Ret (inr a).
Definition err {A} (e : job_error) : handler A := Ret (inl e).

(** [x, err := p; if err != nil { return err }]. *)
Definition try {A B} (p : handler A) (f : A → handler B) : handler B :=
  r ← p; match r with inl e => err e | inr a => f a end.

Notation "x ←! p ; q" := (try p (λ x, q))
  (at level 100, p at level 100, q at level 200, right associativity) : go_scope.
Notation "p ;;! q" := (try p (λ _, q)) (at level 100, q at level 200, right associativity) : go_scope.

(** A call of another service that has no other effect here. *)
Definition service (e : job_error) : handler unit :=
  b ← call (Ask w_ok); if b : bool then ok tt else err e.

Definition ErrUnfinishedTasks : job_error := "UNFINISHED_TASKS".
Definition ErrBatchImageMissingProviderJobName : job_error := "BATCH_IMAGE_MISSING_PROVIDER_JOB_NAME".
Definition ErrBatchImageMissingAccountID : job_error := "BATCH_IMAGE_MISSING_ACCOUNT_ID".
Definition ErrBatchImageUnsupportedProvider : job_error := "BATCH_IMAGE_UNSUPPORTED_PROVIDER".
Definition ErrAccountNotResolved : job_error := "ACCOUNT_NOT_FOUND".
Definition ErrBatchImageIndexOutputMissing : job_error := "BATCH_IMAGE_INDEX_OUTPUT_MISSING".
Definition ErrBatchImageIndexParseFailed : job_error := "BATCH_IMAGE_INDEX_PARSE_FAILED".
Definition ErrBatchImageIndexNoResultLines : job_error := "BATCH_IMAGE_INDEX_NO_RESULT_LINES".
Definition ErrBatchImageDuplicateCustomID : job_error := "DUPLICATE_CUSTOM_ID_IN_OUTPUT".
Definition ErrBatchImageSettlementPricingMissing : job_error := "BATCH_IMAGE_SETTLEMENT_PRICING_MISSING".
Definition ErrBatchImageSettlementBillingFailed : job_error := "BATCH_IMAGE_SETTLEMENT_BILLING_FAILED".
Definition ErrBatchImageSettlementMissingAPIKeyID : job_error := "BATCH_IMAGE_SETTLEMENT_MISSING_API_KEY_ID".
Definition ErrBatchImageSettlementMissingAccountID : job_error := "BATCH_IMAGE_SETTLEMENT_MISSING_ACCOUNT_ID".
Definition ErrBatchImageSettlementInvalidCounts : job_error := "BATCH_IMAGE_SETTLEMENT_INVALID_COUNTS".
Definition ErrSettlementCostExceedsHold : job_error := "BATCH_IMAGE_SETTLEMENT_COST_EXCEEDS_HOLD".
Definition ErrBatchImageBillingHoldFailed : job_error := "BATCH_IMAGE_BILLING_HOLD_FAILED".
Definition ErrInsufficientBalance : job_error := "BATCH_IMAGE_INSUFFICIENT_BALANCE".
Definition ErrBatchImageDisabled : job_error := "BATCH_IMAGE_DISABLED".
Definition ErrBatchImageQueueFailed : job_error := "BATCH_IMAGE_QUEUE_FAILED".
Definition ErrBatchImageProviderSubmitFailed : job_error := "BATCH_IMAGE_PROVIDER_SUBMIT_FAILED".
Definition ErrBatchImageIdempotencyConflict : job_error := "BATCH_IMAGE_IDEMPOTENCY_CONFLICT".
Definition ErrBatchImageCancelFailed : job_error := "BATCH_IMAGE_CANCEL_FAILED".
Definition ErrBatchImageOutputDeleteNotReady : job_error := "BATCH_IMAGE_OUTPUT_DELETE_NOT_READY".
Definition ErrBatchImageCleanupFailed : job_error := "BATCH_IMAGE_CLEANUP_FAILED".
Definition ErrBatchImageProviderCleanupFailed : job_error := "BATCH_IMAGE_PROVIDER_CLEANUP_FAILED".
Definition ErrBatchImageCleanupUnsafePath : job_error := "BATCH_IMAGE_CLEANUP_UNSAFE_PATH".
Definition ErrBatchImageProviderUnsafeCleanupPath : job_error := "VERTEX_UNSAFE_CLEANUP_PATH".
Definition ErrUnsupportedCleanupTarget : job_error := "BATCH_IMAGE_PROVIDER_UNSUPPORTED_CLEANUP_TARGET".

(** An update and the event that is appended after it, in another statement. *)
Definition with_event {A} (m : jtx A) : handler A := a ←! sql m; service ErrDB;;! ok a.

Definition RecordBatchImageJobSubmitFailure (batchID code : string) (markFailed : bool) : handler unit :=
  with_event (record_failure_update batchID code markFailed).

Definition SetBatchImageJobSettlementFailed (batchID code : string) : handler Z :=
  with_event (settlement_failed_update batchID code).

(** Whether the row was updated, and whether there was an error. *)
Definition FailStaleUnsubmittedBatchImageJob (batchID : string) (cutoff : Z) (code : string)
    : prog stmt (bool * bool) :=
  r ← sql (fail_stale_update batchID cutoff code);
  match r with
  | inl _ => Ret (false, true)
  | inr false => Ret (false, false)
  | inr true => e ← service ErrDB; Ret (true, match e with inl _ => true | inr _ => false end)
  end.

Definition MarkBatchImageInputDeleted (batchID : string) (at_ : Z) : handler unit :=
  with_event (input_deleted_update batchID at_).
Definition MarkBatchImageOutputDeleted (batchID : string) (at_ : Z) : handler unit :=
  with_event (output_deleted_update batchID at_).
Definition MarkBatchImageDownloaded (batchID : string) (at_ : Z) : handler unit :=
  with_event (downloaded_update batchID at_).
Definition MarkBatchImageJobUserDeleted (userID apiKeyID : Z) (batchID : string) (at_ : Z) : handler unit :=
  with_event (user_deleted_update userID apiKeyID batchID at_).
Definition RecordBatchImageCleanupFailure (batchID code : string) : handler unit :=
  with_event (cleanup_failure_update batchID code).

Definition releaseBatchImageUnfinished (j : BatchImageJob) : handler unit :=
  match bj_APIKeyID j with None => ok tt | Some _ => service ErrUnfinishedTasks end.

(** ** The hold on a balance *)

Definition positive_id (id : option Z) : option Z :=
  match id with Some n => if 0 <? n then Some n else None | None => None end.

Definition held_amount (j : BatchImageJob) : float64 := default (EstimatedCost j) (HoldAmount j).

Definition buildBatchImageHoldCommand (j : BatchImageJob) (requestID : string) (actualAmount : float64)
    (payloadHash : string) : job_error + BatchImageBalanceHoldCommand :=
  match positive_id (bj_APIKeyID j) with
  | None => inl ErrBatchImageSettlementMissingAPIKeyID
  | Some apiKeyID =>
      let holdAmount := if held_amount j <. fzero then fzero else held_amount j in
      let actualAmount := if actualAmount <. fzero then fzero else actualAmount in
      inr (mkHoldCommand requestID apiKeyID "" (TrimSpace payloadHash) (bj_UserID j) (bj_BatchID j)
             holdAmount actualAmount None)
  end.

Definition with_usage_log (l : option UsageLog) (c : BatchImageBalanceHoldCommand) : BatchImageBalanceHoldCommand :=
  mkHoldCommand (hc_RequestID c) (hc_APIKeyID c) (hc_RequestFingerprint c) (hc_RequestPayloadHash c)
    (hc_UserID c) (hc_BatchID c) (hc_HoldAmount c) (hc_ActualAmount c) l.

Definition reserveBatchImageBalanceHold (j : BatchImageJob) (payloadHash : string) : handler unit :=
  match buildBatchImageHoldCommand j (BatchImageHoldRequestID (bj_BatchID j)) fzero payloadHash with
  | inl e => err e
  | inr cmd =>
      if hc_HoldAmount cmd <=. fzero then ok tt else
      r ← call (Billing Reserve cmd);
      match r with
      | inr _ => ok tt
      | inl ErrBatchImageInsufficientBalance => err ErrInsufficientBalance
      | inl _ => err ErrBatchImageBillingHoldFailed
      end
  end.

Definition captureBatchImageBalanceHold (j : BatchImageJob) (actualAmount : float64) (payloadHash : string)
    (usageLog : option UsageLog) : handler unit :=
  match buildBatchImageHoldCommand j (BatchImageCaptureRequestID (bj_BatchID j)) actualAmount payloadHash with
  | inl e => err e
  | inr cmd =>
      r ← call (Billing Capture (with_usage_log usageLog cmd));
      match r with inr _ => ok tt | inl _ => err ErrBatchImageSettlementBillingFailed end
  end.

(** A conflict of fingerprints means that an earlier release has committed. *)
Definition releaseBatchImageBalanceHold (j : BatchImageJob) (payloadHash : string) : handler unit :=
  match buildBatchImageHoldCommand j (BatchImageReleaseRequestID (bj_BatchID j)) fzero payloadHash with
  | inl e => err e
  | inr cmd =>
      if hc_HoldAmount cmd <=. fzero then ok tt else
      r ← call (Billing Release cmd);
      match r with
      | inr _ | inl ErrUsageBillingRequestConflict => ok tt
      | inl _ => err ErrBatchImageBillingHoldFailed
      end
  end.

(** The release of every caller but the settlement of a job that has none. *)
Definition release_hold (j : BatchImageJob) : handler unit :=
  releaseBatchImageBalanceHold j (batchImageDerefString (bj_RequestHash j)).

(** ** Settlement *)

Definition batchImageSettlementRetryDelay : Z := Minute.
Definition batchImageSettlementMaxRetries : Z := 5.

Record BatchImageConfig := mkBatchImageConfig {
  cfg_Enabled : bool;
  cfg_OutputRetentionAfterTerminalHours : Z;
  cfg_InputRetentionAfterTerminalHours : Z;
  cfg_CleanupBatchSize : Z;
  cfg_StaleAfter : Z;
  cfg_StaleLimit : Z;
  cfg_DefaultRequeue : Z;
  cfg_SettlementRetryDelay : Z;
  cfg_MaxPromptCharsPerItem : Z
}.

Record BatchImageSettlementResult := mkSettlementResult {
  sr_BatchID : string;
  sr_SuccessCount : Z;
  sr_FailCount : Z;
  sr_ActualCost : float64;
  sr_ManifestHash : string;
  sr_RequestID : string;
  sr_AlreadySettled : bool
}.

Section Handlers.
Context `{ShortestDecimal} `{Digest}.
Variable cfg : BatchImageConfig.

(** The separator of the parts is a zero byte. *)
Definition BuildBatchImageSettlementManifestHash (j : BatchImageJob) : string :=
  sha256_hex (String.concat (String Ascii.zero "")
    [TrimSpace (bj_BatchID j); TrimSpace (tm_Provider (bj_terms j)); TrimSpace (tm_Model (bj_terms j));
     batchImageDerefString (bj_ProviderJobName j); batchImageDerefString (bj_ProviderOutputRef j);
     FormatInt (bj_SuccessCount j); FormatInt (bj_FailCount j); FormatInt (bj_ItemCount j)]).

Definition buildBatchImageSettlementUsageLog (j : BatchImageJob) (actualCost : float64) (requestID : string)
    : option UsageLog :=
  match bj_APIKeyID j, bj_AccountID j with
  | Some apiKeyID, Some _ => Some (mkUsageLog (TrimSpace requestID) apiKeyID (bj_UserID j) actualCost)
  | _, _ => None
  end.

Definition isBatchImageSettlementRetryExhausted (j : BatchImageJob) : bool :=
  String.eqb (bj_Status j) BatchImageJobStatusSettling
  && (batchImageSettlementMaxRetries <=? bj_RetryCount j)
  && HasPrefix (batchImageDerefString (bj_LastErrorCode j)) "SETTLEMENT_".

(** The error it ends with. *)
Definition failExhaustedSettlement (j : BatchImageJob) : prog stmt job_error :=
  released ← release_hold j;
  match released with
  | inl _ =>
      SetBatchImageJobSettlementFailed (bj_BatchID j) "SETTLEMENT_RELEASE_FAILED";;
      Ret ErrBatchImageSettlementBillingFailed
  | inr _ =>
      moved ← sql (TransitionBatchImageJobStatus (bj_BatchID j) BatchImageJobStatusFailed
                     (Some "SETTLEMENT_BILLING_RETRY_EXHAUSTED"));
      Ret (match moved with inl e => e | inr _ => ErrBatchImageSettlementBillingFailed end)
  end.

(** An error, if the caller must return it. *)
Definition recordSettlementFailure (j : BatchImageJob) (code : string) : prog stmt (option job_error) :=
  recorded ← SetBatchImageJobSettlementFailed (bj_BatchID j) code;
  match recorded with
  | inl _ => Ret None
  | inr retryCount =>
      if batchImageSettlementMaxRetries <=? retryCount
      then e ← failExhaustedSettlement (set_error_code (Some code) (set_retry_count retryCount j)); Ret (Some e)
      else Ret None
  end.

(** [if failErr := s.recordSettlementFailure(…); failErr != nil { return failErr }; return e]. *)
Definition settlement_failed {A} (j : BatchImageJob) (code : string) (e : job_error) : handler A :=
  failErr ← recordSettlementFailure j code;
  err (default e failErr).

Definition settlementUnitPrice (j : BatchImageJob) : handler float64 :=
  if 1 <=? tm_PricingSnapshotVersion (bj_terms j) then
    if BillableUnitPrice j <. fzero then err ErrBatchImageSettlementPricingMissing else ok (BillableUnitPrice j)
  else
    price ← call (Ask w_unit_price);
    match price with
    | Some unitPrice => ok unitPrice
    | None => err ErrBatchImageSettlementPricingMissing
    end.

Definition hours (n : Z) : Z := wrap_signed 64 (n * Hour).

Definition outputRetentionAfterTerminal : Z :=
  if 0 <? cfg_OutputRetentionAfterTerminalHours cfg then hours (cfg_OutputRetentionAfterTerminalHours cfg)
  else 72 * Hour.

Definition counts_valid (j : BatchImageJob) : bool :=
  negb ((bj_SuccessCount j <? 0) || (bj_FailCount j <? 0) || (bj_ItemCount j <? 0)
        || (bj_ItemCount j <? bj_SuccessCount j + bj_FailCount j)).

Definition manifest_conflict (j : BatchImageJob) (manifestHash : string) : bool :=
  negb (String.eqb (batchImageDerefString (bj_ManifestHash j)) "")
  && negb (String.eqb (batchImageDerefString (bj_ManifestHash j)) manifestHash).

Definition batchImageCostEpsilon : float64 := decimal_literal 1 8.

Definition settlement_result (j : BatchImageJob) (actualCost : float64) (already : bool)
    : BatchImageSettlementResult :=
  mkSettlementResult (bj_BatchID j) (bj_SuccessCount j) (bj_FailCount j) actualCost
    (BuildBatchImageSettlementManifestHash j) (BatchImageCaptureRequestID (bj_BatchID j)) already.

(** The end of [Settle], from the captured hold to the completed job. *)
Definition capture_and_complete (j : BatchImageJob) (actualCost : float64) : handler BatchImageSettlementResult :=
  let manifestHash := BuildBatchImageSettlementManifestHash j in
  now ← call Now;
  captured ← captureBatchImageBalanceHold j actualCost manifestHash
               (buildBatchImageSettlementUsageLog j actualCost (BatchImageCaptureRequestID (bj_BatchID j)));
  match captured with
  | inl e => settlement_failed j "SETTLEMENT_BILLING_FAILED" e
  | inr _ =>
      sql (MarkBatchImageJobSettled
             (mkSettled (bj_BatchID j) actualCost manifestHash now (now + outputRetentionAfterTerminal)));;!
      releaseBatchImageUnfinished j;;!
      ok (settlement_result j actualCost false)
  end.

Definition settle_settling (j : BatchImageJob) : handler BatchImageSettlementResult :=
  releaseBatchImageUnfinished j;;!
  match positive_id (bj_APIKeyID j) with None => err ErrBatchImageSettlementMissingAPIKeyID | Some _ =>
  match positive_id (bj_AccountID j) with None => err ErrBatchImageSettlementMissingAccountID | Some _ =>
  if isBatchImageSettlementRetryExhausted j then e ← failExhaustedSettlement j; err e else
  if negb (counts_valid j) then
    settlement_failed j "SETTLEMENT_INVALID_COUNTS" ErrBatchImageSettlementInvalidCounts else
  if manifest_conflict j (BuildBatchImageSettlementManifestHash j) then
    settlement_failed j "SETTLEMENT_MANIFEST_CONFLICT" ErrBatchImageSettlementManifestConflict else
  price ← settlementUnitPrice j;
  match (match price with
         | inr unitPrice => if unitPrice <. fzero then inl ErrBatchImageSettlementPricingMissing else price
         | inl _ => price
         end) with
  | inl e => settlement_failed j "SETTLEMENT_PRICING_MISSING" e
  | inr unitPrice =>
      let actualCost := fmul (float_of_Z (bj_SuccessCount j)) unitPrice in
      if batchImageCostEpsilon <. fsub actualCost (held_amount j) then
        settlement_failed j "SETTLEMENT_COST_EXCEEDS_HOLD" ErrSettlementCostExceedsHold
      else capture_and_complete j actualCost
  end end end.

Definition Settle (batchID : string) : handler BatchImageSettlementResult :=
  j ←! sql (GetBatchImageJobByBatchID batchID);
  if String.eqb (bj_Status j) BatchImageJobStatusCompleted then
    releaseBatchImageUnfinished j;;!
    ok (settlement_result j (default fzero (ActualCost j)) true)
  else if negb (String.eqb (bj_Status j) BatchImageJobStatusSettling) then err ErrBatchImageSettlementInvalidStatus
  else settle_settling j.

(** ** Reading the output of a provider *)

Definition BatchImageParsedStatusSucceeded : string := "succeeded".

Record index_state := mkIndexState {
  ix_seen : gset string;
  ix_unknown : Z;
  ix_items : list CreateBatchImageItemParams;
  ix_success : Z;
  ix_fail : Z
}.

Definition index_start : index_state := mkIndexState ∅ 0 [] 0 0.

Definition succeeded (p : ParsedBatchImageResult) : bool :=
  String.eqb (pr_Status p) BatchImageParsedStatusSucceeded.

Definition indexed_item (p : ParsedBatchImageResult) : CreateBatchImageItemParams :=
  mkCreateItem (pr_CustomID p)
    (if succeeded p then BatchImageItemStatusSuccess else BatchImageItemStatusFailed) None (pr_ImageCount p)
    (if succeeded p then None else batchImageOptionalStringPtr (pr_ErrorCode p)).

Definition index_line (p : ParsedBatchImageResult) (x : index_state) : index_state :=
  mkIndexState ({[pr_CustomID p]} ∪ ix_seen x) (ix_unknown x) (ix_items x ++ [indexed_item p])
    (if succeeded p then ix_success x + 1 else ix_success x)
    (if succeeded p then ix_fail x else ix_fail x + 1).

(** The loop over the lines; [expected] is the set of submitted custom ids. *)
Fixpoint index_lines (expected : gset string) (lines : list result_line) (x : index_state)
    : job_error + index_state :=
  match lines with
  | [] => inr x
  | BlankLine :: lines => index_lines expected lines x
  | BadLine :: _ => inl ErrBatchImageIndexParseFailed
  | ReadError truncated :: _ => inl (if truncated then ErrBatchImageIndexParseFailed else "READ_ERROR")
  | ResultLine p :: lines =>
      if negb (bool_decide (expected = ∅)) && bool_decide (pr_CustomID p ∉ expected)
      then index_lines expected lines
             (mkIndexState (ix_seen x) (ix_unknown x + 1) (ix_items x) (ix_success x) (ix_fail x))
      else if bool_decide (pr_CustomID p ∈ ix_seen x) then inl ErrBatchImageDuplicateCustomID
      else index_lines expected lines (index_line p x)
  end.

Definition missing_item (customID : string) : CreateBatchImageItemParams :=
  mkCreateItem customID BatchImageItemStatusFailed None 0 (Some "PROVIDER_RESULT_MISSING").

(** Submitted items without a line count as failed.  The code sorts them, which rows
    with a key do not show. *)
Definition add_missing (expected : gset string) (x : index_state) : index_state :=
  let missing := elements (expected ∖ ix_seen x) in
  mkIndexState (ix_seen x) (ix_unknown x) (ix_items x ++ (missing_item <$> missing)) (ix_success x)
    (ix_fail x + Z.of_nat (length missing)).

Definition index_output (expected : gset string) (lines : list result_line) : job_error + index_state :=
  match index_lines expected lines index_start with
  | inl e => inl e
  | inr x =>
      let x := add_missing expected x in
      if ix_success x + ix_fail x =? 0 then inl ErrBatchImageIndexNoResultLines else inr x
  end.

(** The counts of successes and failures. *)
Definition Index (j : BatchImageJob) : handler (Z * Z) :=
  expected ←! sql (expected_custom_ids (bj_BatchID j));
  output ← call (Ask w_output);
  match output with
  | None => err ErrBatchImageIndexOutputMissing
  | Some lines =>
      match index_output (list_to_set expected) lines with
      | inl e => err e
      | inr x =>
          sql (ReplaceBatchImageItemsForJob (bj_BatchID j) (ix_items x) (ix_success x) (ix_fail x));;!
          ok (ix_success x, ix_fail x)
      end
  end.

(** ** The worker *)

Record BatchImageProcessResult := mkProcessResult { rr_Terminal : bool; rr_RequeueAfter : Z }.

Definition terminal : BatchImageProcessResult := mkProcessResult true 0.
Definition requeue (delay : Z) : BatchImageProcessResult := mkProcessResult false delay.

Definition defaultBatchImageProcessorRequeue : Z := 30 * Second.
Definition batchImageProviderErrorRequeue : Z := Minute.

Definition requeueDelay (suggested : Z) : Z :=
  if 0 <? suggested then suggested
  else if 0 <? cfg_DefaultRequeue cfg then cfg_DefaultRequeue cfg
  else defaultBatchImageProcessorRequeue.

Definition isBatchImageProcessorDoneStatus (status : string) : bool :=
  if String.eqb status BatchImageJobStatusSettling then true else IsTerminalBatchImageJobStatus status.

Definition releaseTerminalHold (j : BatchImageJob) : handler unit :=
  (if IsTerminalBatchImageJobStatus (bj_Status j) then releaseBatchImageUnfinished j else ok tt);;!
  if one_of [BatchImageJobStatusFailed; BatchImageJobStatusCancelled] (bj_Status j) then release_hold j else ok tt.

Definition persistProviderOutputRef (j : BatchImageJob) (ref : string) : handler unit :=
  let ref := TrimSpace ref in
  if String.eqb ref "" || String.eqb (batchImageDerefString (bj_ProviderOutputRef j)) ref then ok tt
  else sql (UpdateBatchImageJobProviderOutputRef (bj_BatchID j) ref).

(** The job is moved to a status that ends it, and its hold released. *)
Definition finish_job (j : BatchImageJob) (status : string) (code : option string)
    : handler BatchImageProcessResult :=
  sql (TransitionBatchImageJobStatus (bj_BatchID j) status code);;!
  releaseTerminalHold (set_status status j);;!
  ok terminal.

Definition indexAndSettle (j : BatchImageJob) : handler BatchImageProcessResult :=
  indexed ← Index j;
  match indexed with
  | inl e =>
      if String.eqb e ErrBatchImageIndexOutputMissing then err e else
      if String.eqb e ErrBatchImageIndexStateConflict then ok (requeue Millisecond) else
      finish_job j BatchImageJobStatusFailed
        (Some (if String.eqb e ErrBatchImageDuplicateCustomID
               then "DUPLICATE_CUSTOM_ID_IN_OUTPUT" else "INDEX_PARSE_FAILED"))
  | inr _ =>
      sql (TransitionBatchImageJobStatus (bj_BatchID j) BatchImageJobStatusSettling None);;!
      ok (requeue Millisecond)
  end.

Definition BatchProviderStateQueued : string := "queued".
Definition BatchProviderStateRunning : string := "running".
Definition BatchProviderStateSucceeded : string := "succeeded".
Definition BatchProviderStateFailed : string := "failed".
Definition BatchProviderStateCancelled : string := "cancelled".
Definition BatchProviderStateExpired : string := "expired".

Definition provider_failure_code (st : BatchProviderStatus) : string :=
  let code := TrimSpace (ps_ErrorCode st) in
  if negb (String.eqb code "") then code
  else if String.eqb (ps_InternalState st) BatchProviderStateExpired then "PROVIDER_BATCH_EXPIRED"
  else "PROVIDER_BATCH_FAILED".

Definition process_status (j : BatchImageJob) (st : BatchProviderStatus) : handler BatchImageProcessResult :=
  let state := ps_InternalState st in
  (if one_of [BatchProviderStateSucceeded; BatchProviderStateFailed; BatchProviderStateExpired;
              BatchProviderStateCancelled] state
   then releaseBatchImageUnfinished j else ok tt);;!
  persistProviderOutputRef j (ps_ProviderOutputRef st);;!
  let again := requeue (requeueDelay (ps_SuggestedRequeueAfter st)) in
  if String.eqb state BatchProviderStateRunning then
    (if String.eqb (bj_Status j) BatchImageJobStatusRunning then ok tt
     else sql (TransitionBatchImageJobStatus (bj_BatchID j) BatchImageJobStatusRunning None));;!
    ok again
  else if String.eqb state BatchProviderStateSucceeded then
    (if String.eqb (bj_Status j) BatchImageJobStatusIndexing then ok tt
     else sql (TransitionBatchImageJobStatus (bj_BatchID j) BatchImageJobStatusIndexing None));;!
    indexAndSettle (set_status BatchImageJobStatusIndexing j)
  else if one_of [BatchProviderStateFailed; BatchProviderStateExpired] state then
    finish_job j BatchImageJobStatusFailed (Some (provider_failure_code st))
  else if String.eqb state BatchProviderStateCancelled then
    finish_job j BatchImageJobStatusCancelled None
  else ok again.

(** The provider, its account and a slot of the user are answers of other services. *)
Definition process_active (j : BatchImageJob) : handler BatchImageProcessResult :=
  service "CONCURRENCY_UNAVAILABLE";;!
  acquired ← call (Ask w_yes);
  if negb acquired then ok (requeue (requeueDelay 0)) else
  service ErrBatchImageUnsupportedProvider;;!
  match positive_id (bj_AccountID j) with None => err ErrBatchImageMissingAccountID | Some _ =>
  service ErrAccountNotResolved;;!
  if String.eqb (batchImageDerefString (bj_ProviderJobName j)) "" then err ErrBatchImageMissingProviderJobName else
  if String.eqb (bj_Status j) BatchImageJobStatusIndexing then indexAndSettle j else
  status ← call (Ask w_status);
  match status with
  | None => ok (requeue batchImageProviderErrorRequeue)
  | Some None => ok (requeue (requeueDelay 0))
  | Some (Some st) => process_status j st
  end end.

(** [BatchImageProviderProcessor.Process]. *)
Definition Process (batchID : string) : handler BatchImageProcessResult :=
  j ←! sql (GetBatchImageJobByBatchID batchID);
  (if one_of [BatchImageJobStatusIndexing; BatchImageJobStatusSettling] (bj_Status j)
   then releaseBatchImageUnfinished j else ok tt);;!
  if isBatchImageProcessorDoneStatus (bj_Status j) then releaseTerminalHold j;;! ok terminal
  else process_active j.

(** [BatchImagePipelineProcessor.Process]. *)
Definition PipelineProcess (batchID : string) : handler BatchImageProcessResult :=
  j ←! sql (GetBatchImageJobByBatchID batchID);
  if negb (String.eqb (bj_Status j) BatchImageJobStatusSettling) then Process batchID else
  r ← Settle batchID;
  match r with
  | inr _ => ok terminal
  | inl e =>
      if negb (String.eqb e ErrBatchImageSettlementBillingFailed) then err e else
      updated ← sql (GetBatchImageJobByBatchID batchID);
      match updated with
      | inr u => if IsTerminalBatchImageJobStatus (bj_Status u) then ok terminal
                 else ok (requeue (if 0 <? cfg_SettlementRetryDelay cfg then cfg_SettlementRetryDelay cfg
                                   else batchImageSettlementRetryDelay))
      | inl _ => ok (requeue (if 0 <? cfg_SettlementRetryDelay cfg then cfg_SettlementRetryDelay cfg
                              else batchImageSettlementRetryDelay))
      end
  end.

(** ** Recovery of submissions that stopped *)

Definition defaultBatchImageBillingRecoveryStaleAfter : Z := 10 * Minute.
Definition defaultBatchImageBillingRecoveryLimit : Z := 100.

(** The queue takes the job, or has it already. *)
Definition enqueue : prog stmt bool := call (Ask w_ok).
Definition enqueueBillingRetry : prog stmt unit := _ ← enqueue; Ret tt.
Definition enqueueReleaseRetry : prog stmt unit := _ ← enqueue; Ret tt.

(** One job of the list: whether its hold was released, and whether there was an error.
    A list that is broken off by its context is a handler that crashes. *)
Definition recover_job (cutoff : Z) (j : BatchImageJob) : prog stmt (bool * bool) :=
  '(applied, failed) ← FailStaleUnsubmittedBatchImageJob (bj_BatchID j) cutoff "SUBMIT_STALE_BEFORE_PROVIDER";
  if negb applied then Ret (false, failed) else
  r ← release_hold (set_status BatchImageJobStatusFailed j);
  match r with inl _ => enqueueReleaseRetry;; Ret (false, true) | inr _ => Ret (true, false) end.

Fixpoint recover_jobs (cutoff : Z) (js : list BatchImageJob) : prog stmt (Z * bool) :=
  match js with
  | [] => Ret (0, false)
  | j :: js =>
      '(released, failed) ← recover_job cutoff j;
      '(n, failed') ← recover_jobs cutoff js;
      Ret ((if released : bool then n + 1 else n), failed || failed')
  end.

Definition ReleaseStaleUnsubmittedOnce : handler (Z * bool) :=
  let staleAfter := if cfg_StaleAfter cfg <=? 0 then defaultBatchImageBillingRecoveryStaleAfter
                    else cfg_StaleAfter cfg in
  let limit := if cfg_StaleLimit cfg <=? 0 then defaultBatchImageBillingRecoveryLimit else cfg_StaleLimit cfg in
  now ← call Now;
  js ←! sql (ListStaleUnsubmittedBatchImageJobs (now - staleAfter) limit);
  r ← recover_jobs (now - staleAfter) js;
  ok r.

(** ** Submission *)

Record BatchImageOwner := mkOwner { ow_UserID : Z; ow_APIKeyID : Z }.

(** A validated request: its hash, the custom ids of its items with their prompts. *)
Record BatchImageSubmitRequest := mkSubmitRequest {
  sb_Model : string;
  sb_ParentBatchID : string;
  sb_RequestHash : string;
  sb_Items : list (string * string)
}.

Definition NewBatchImageID (random : string) : string := "imgbatch_" +:+ random.


Definition hidePreUpstreamSubmitFailure (owner : BatchImageOwner) (j : BatchImageJob) : prog stmt unit :=
  match bj_ProviderJobName j with
  | Some _ => Ret tt
  | None =>
      now ← call Now;
      _ ← MarkBatchImageJobUserDeleted (ow_UserID owner) (ow_APIKeyID owner) (bj_BatchID j) now;
      Ret tt
  end.

Definition releaseFailedSubmitHold (j : BatchImageJob) (requestHash : string) : handler unit :=
  r ← releaseBatchImageBalanceHold j requestHash;
  match r with
  | inr _ => ok tt
  | inl _ =>
      RecordBatchImageJobSubmitFailure (bj_BatchID j) "BILLING_RELEASE_FAILED" true;;
      enqueueBillingRetry;;
      err ErrBatchImageBillingHoldFailed
  end.

(** The job is marked failed and hidden, and [e] returned. *)
Definition submission_failed {A} (owner : BatchImageOwner) (j : BatchImageJob) (code : string) (e : job_error)
    : handler A :=
  RecordBatchImageJobSubmitFailure (bj_BatchID j) code true;;
  hidePreUpstreamSubmitFailure owner j;;
  err e.

(** The same after the hold has been released. *)
Definition release_and_fail {A} (owner : BatchImageOwner) (j : BatchImageJob) (requestHash code : string)
    (e : job_error) : handler A :=
  releaseFailedSubmitHold j requestHash;;!
  submission_failed owner j code e.

Definition abortOrphanProviderJob : prog stmt unit := _ ← call (Ask w_ok); _ ← call (Ask w_ok); Ret tt.

(** A tick of the heartbeat that runs beside the upload. *)
Fixpoint runSubmitHeartbeat (ticks : nat) (batchID : string) : handler unit :=
  match ticks with
  | O => ok tt
  | S ticks => _ ← sql (TouchBatchImageJobSubmitting batchID); runSubmitHeartbeat ticks batchID
  end.

(** The first bytes of a message. *)
Definition truncateBatchImageMessage (message : string) (limit : Z) : string :=
  let message := TrimSpace message in
  if (limit <=? 0) || (Z.of_nat (String.length message) <=? limit) then message
  else String.substring 0 (Z.to_nat limit) message.

Definition defaultBatchImageMaxPromptChars : Z := 8000.
Definition maxPromptChars : Z :=
  if 0 <? cfg_MaxPromptCharsPerItem cfg then cfg_MaxPromptCharsPerItem cfg else defaultBatchImageMaxPromptChars.

Definition pending_item (it : string * string) : CreateBatchImageItemParams :=
  mkCreateItem it.1 BatchImageItemStatusPending (Some (truncateBatchImageMessage it.2 maxPromptChars)) 0 None.

Definition createPendingItems (batchID : string) (items : list (string * string)) : handler unit :=
  match items with [] => ok tt | _ => sql (BulkCreateBatchImageItems batchID (pending_item <$> items)) end.

(** From the provider's answer on. *)
Definition submit_accepted (j : BatchImageJob) (providerJob : BatchProviderJob) : handler BatchImageJob :=
  updated ← sql (UpdateBatchImageJobProviderSubmit (bj_BatchID j) providerJob);
  match updated with
  | inl e => abortOrphanProviderJob;; err e
  | inr _ =>
      service ErrUnfinishedTasks;;!
      queued ← enqueue;
      if negb queued then
        RecordBatchImageJobSubmitFailure (bj_BatchID j) "QUEUE_FAILED" false;;
        err ErrBatchImageQueueFailed
      else sql (GetBatchImageJobByBatchID (bj_BatchID j))
  end.

(** The intent to call the provider could not be recorded. *)
Definition submit_not_started (owner : BatchImageOwner) (j : BatchImageJob) (requestHash : string)
    : handler BatchImageJob :=
  released ← releaseBatchImageBalanceHold j requestHash;
  let failed := match released with inl _ => true | inr _ => false end in
  moved ← sql (TransitionBatchImageJobStatus (bj_BatchID j) BatchImageJobStatusFailed
                 (Some (if failed then "BILLING_RELEASE_FAILED" else "TASK_RESERVATION_FAILED")));
  (match moved with
   | inr _ => if failed then Ret tt else hidePreUpstreamSubmitFailure owner j
   | inl _ => Ret tt
   end);;
  if failed then enqueueBillingRetry;; err ErrBatchImageBillingHoldFailed else err ErrUnfinishedTasks.

Definition submit_upstream (owner : BatchImageOwner) (j : BatchImageJob) (requestHash : string)
    : handler BatchImageJob :=
  moved ← sql (TransitionBatchImageJobStatus (bj_BatchID j) BatchImageJobStatusUploading None);
  match moved with
  | inl e =>
      releaseFailedSubmitHold j requestHash;;!
      if String.eqb e ErrBatchImageInvalidTransition then err e
      else submission_failed owner j "UPLOAD_TRANSITION_FAILED" e
  | inr _ =>
      let j := set_status BatchImageJobStatusUploading j in
      uncertain ← service ErrUnfinishedTasks;
      match uncertain with
      | inl _ => submit_not_started owner j requestHash
      | inr _ =>
          answer ← call (Ask w_submitted);
          reason ← call (Ask w_reason);
          match answer with
          | None => release_and_fail owner j requestHash reason reason
          | Some providerJob =>
              match (match providerJob with
                     | Some p => if String.eqb (TrimSpace (pj_ProviderJobName p)) "" then None else Some p
                     | None => None
                     end) with
              | None => release_and_fail owner j requestHash "PROVIDER_SUBMIT_FAILED"
                          ErrBatchImageProviderSubmitFailed
              | Some p => submit_accepted j p
              end
          end
      end
  end.

Definition submit_created (owner : BatchImageOwner) (req : BatchImageSubmitRequest) (j : BatchImageJob)
    : handler BatchImageJob :=
  service ErrUnfinishedTasks;;!
  reserved ← reserveBatchImageBalanceHold j (sb_RequestHash req);
  match reserved with
  | inl e =>
      submission_failed owner j
        (if String.eqb e ErrInsufficientBalance then "INSUFFICIENT_BALANCE" else "BILLING_HOLD_FAILED") e
  | inr _ =>
      created ← createPendingItems (bj_BatchID j) (sb_Items req);
      match created with
      | inl _ => release_and_fail owner j (sb_RequestHash req) "ITEM_CREATE_FAILED" ErrBatchImageQueueFailed
      | inr _ => submit_upstream owner j (sb_RequestHash req)
      end
  end.

Definition submit_new (owner : BatchImageOwner) (req : BatchImageSubmitRequest) (idempotencyKey : string)
    : handler BatchImageJob :=
  service ErrUnfinishedTasks;;!
  quote ← call (Ask w_quote);
  reason ← call (Ask w_reason);
  match quote with
  | None => err reason
  | Some q =>
      parent ←! (match batchImageOptionalStringPtr (sb_ParentBatchID req) with
                 | None => ok None
                 | Some p =>
                     parent ←! sql (GetBatchImageJobByBatchIDForOwner (ow_UserID owner) (ow_APIKeyID owner) p);
                     ok (match tm_ParentBatchID (bj_terms parent) with
                         | Some root => match batchImageOptionalStringPtr root with
                                        | Some root => Some root
                                        | None => Some p
                                        end
                         | None => Some p
                         end)
                 end);
      random ← call (Ask w_random);
      j ←! call (Insert
             (mkCreateJob (NewBatchImageID random) (ow_UserID owner) (Some (ow_APIKeyID owner))
                (Some (qu_AccountID q)) (qu_Provider q) (sb_Model req) parent BatchImageJobStatusCreated
                (Z.of_nat (length (sb_Items req))) (qu_EstimatedCost q) (Some (qu_HoldAmount q))
                (qu_BillableUnitPrice q) 1 (batchImageOptionalStringPtr idempotencyKey)
                (Some (sb_RequestHash req))));
      submit_created owner req j
  end.

(** The checks on the request and its group are one answer. *)
Definition Submit (owner : BatchImageOwner) (req : BatchImageSubmitRequest) (idempotencyKey : string)
    : handler BatchImageJob :=
  if negb (cfg_Enabled cfg) then err ErrBatchImageDisabled else
  reason ← call (Ask w_reason);
  service reason;;!
  let idempotencyKey := TrimSpace idempotencyKey in
  if String.eqb idempotencyKey "" then submit_new owner req idempotencyKey else
  existing ← sql (GetBatchImageJobByIdempotencyKey (ow_UserID owner) (ow_APIKeyID owner) idempotencyKey);
  match existing with
  | inr j =>
      if negb (String.eqb (batchImageDerefString (bj_RequestHash j)) (sb_RequestHash req))
      then err ErrBatchImageIdempotencyConflict
      else if String.eqb (bj_Status j) BatchImageJobStatusSubmitted then
        queued ← enqueue;
        if negb queued then
          RecordBatchImageJobSubmitFailure (bj_BatchID j) "QUEUE_FAILED" false;;
          err ErrBatchImageQueueFailed
        else ok j
      else ok j
  | inl e => if String.eqb e ErrBatchImageJobNotFound then submit_new owner req idempotencyKey else err e
  end.

(** ** Requests of the owner *)

Definition cancel_done (j : BatchImageJob) : handler BatchImageJob :=
  (if IsTerminalBatchImageJobStatus (bj_Status j) then releaseBatchImageUnfinished j else ok tt);;!
  if one_of [BatchImageJobStatusFailed; BatchImageJobStatusCancelled] (bj_Status j) then
    released ← release_hold j;
    match released with
    | inl _ => enqueueBillingRetry;; err ErrBatchImageCancelFailed
    | inr _ => ok j
    end
  else ok j.

Definition Cancel (owner : BatchImageOwner) (batchID : string) : handler BatchImageJob :=
  let find := sql (GetBatchImageJobByBatchIDForOwner (ow_UserID owner) (ow_APIKeyID owner) batchID) in
  j ←! find;
  if isBatchImageProcessorDoneStatus (bj_Status j) then cancel_done j
  else if negb (String.eqb (batchImageDerefString (bj_ProviderJobName j)) "") then
    service ErrBatchImageUnsupportedProvider;;!
    match bj_AccountID j with None => err ErrBatchImageCancelFailed | Some _ =>
    service ErrBatchImageCancelFailed;;!
    queued ← enqueue;
    if negb queued then err ErrBatchImageCancelFailed else find
    end
  else
    sql (TransitionBatchImageJobStatus (bj_BatchID j) BatchImageJobStatusCancelled None);;!
    releaseBatchImageUnfinished j;;!
    released ← release_hold j;
    match released with
    | inl _ => enqueueBillingRetry;; err ErrBatchImageCancelFailed
    | inr _ => find
    end.

Definition MarkDownloaded (owner : BatchImageOwner) (batchID : string) : handler unit :=
  j ←! sql (GetBatchImageJobByBatchIDForOwner (ow_UserID owner) (ow_APIKeyID owner) batchID);
  now ← call Now;
  MarkBatchImageDownloaded (bj_BatchID j) now.

Definition DeleteRecord (owner : BatchImageOwner) (batchID : string) : handler unit :=
  j ←! sql (GetBatchImageJobByBatchIDForOwner (ow_UserID owner) (ow_APIKeyID owner) batchID);
  if negb (isBatchImageProcessorDoneStatus (bj_Status j)) then err ErrBatchImageRecordDeleteNotReady else
  now ← call Now;
  MarkBatchImageJobUserDeleted (ow_UserID owner) (ow_APIKeyID owner) (bj_BatchID j) now.

(** ** Clean-up of inputs and outputs *)

Inductive CleanupTarget := CleanupTargetInput | CleanupTargetOutput | CleanupTargetAll.

Definition cleanup_ready (j : BatchImageJob) (target : CleanupTarget) : job_error + bool :=
  match target with
  | CleanupTargetInput =>
      if negb (is_null (bt_InputDeletedAt (bj_times j))) then inr false
      else if IsTerminalBatchImageJobStatus (bj_Status j) then inr true else inl ErrBatchImageCleanupFailed
  | CleanupTargetOutput =>
      if negb (is_null (bt_OutputDeletedAt (bj_times j)))
         || String.eqb (bj_Status j) BatchImageJobStatusOutputDeleted then inr false
      else if one_of [BatchImageJobStatusCompleted; BatchImageJobStatusFailed; BatchImageJobStatusCancelled]
                (bj_Status j) then inr true
      else inl ErrBatchImageOutputDeleteNotReady
  | CleanupTargetAll => inl ErrUnsupportedCleanupTarget
  end.

(** The provider removes the files, or finds none. *)
Definition callProviderCleanup (j : BatchImageJob) : handler unit :=
  service ErrBatchImageUnsupportedProvider;;!
  match positive_id (bj_AccountID j) with
  | None => err ErrBatchImageMissingAccountID
  | Some _ => reason ← call (Ask w_reason); service reason
  end.

Definition cleanupFailureCode (e : job_error) : string :=
  if String.eqb e ErrBatchImageProviderUnsafeCleanupPath then "BATCH_IMAGE_CLEANUP_UNSAFE_PATH" else
  let reason := TrimSpace e in
  if negb (String.eqb reason "") then reason else "BATCH_IMAGE_PROVIDER_CLEANUP_FAILED".

Definition cleanupJob (j : BatchImageJob) (target : CleanupTarget) : handler unit :=
  match cleanup_ready j target with
  | inl e => err e
  | inr false => ok tt
  | inr true =>
      cleaned ← callProviderCleanup j;
      match cleaned with
      | inl e =>
          RecordBatchImageCleanupFailure (bj_BatchID j) (cleanupFailureCode e);;
          err (if String.eqb e ErrBatchImageProviderUnsafeCleanupPath then ErrBatchImageCleanupUnsafePath
               else ErrBatchImageProviderCleanupFailed)
      | inr _ =>
          now ← call Now;
          match target with
          | CleanupTargetInput => MarkBatchImageInputDeleted (bj_BatchID j) now
          | _ => MarkBatchImageOutputDeleted (bj_BatchID j) now
          end
      end
  end.

Definition DeleteOutputsForOwner (owner : BatchImageOwner) (batchID : string) : handler BatchImageJob :=
  let find := sql (GetBatchImageJobByBatchIDForOwner (ow_UserID owner) (ow_APIKeyID owner) batchID) in
  j ←! find;
  if String.eqb (bj_Status j) BatchImageJobStatusOutputDeleted
     || negb (is_null (bt_OutputDeletedAt (bj_times j))) then ok j
  else if negb (String.eqb (bj_Status j) BatchImageJobStatusCompleted)
  then err ErrBatchImageOutputDeleteNotReady
  else cleanupJob j CleanupTargetOutput;;! find.

(** How many were cleaned, and how many failed. *)
Fixpoint cleanup_jobs (target : CleanupTarget) (js : list BatchImageJob) : prog stmt (Z * Z) :=
  match js with
  | [] => Ret (0, 0)
  | j :: js =>
      r ← cleanupJob j target;
      '(cleaned, failures) ← cleanup_jobs target js;
      Ret (match r with inr _ => (cleaned + 1, failures) | inl _ => (cleaned, failures + 1) end)
  end.

Definition inputRetentionAfterTerminal : Z :=
  if 0 <? cfg_InputRetentionAfterTerminalHours cfg then hours (cfg_InputRetentionAfterTerminalHours cfg)
  else 24 * Hour.

Definition cleanupBatchSize : Z := if 0 <? cfg_CleanupBatchSize cfg then cfg_CleanupBatchSize cfg else 100.

Definition RunOnce : handler (Z * Z * Z) :=
  now ← call Now;
  inputs ←! sql (ListBatchImageJobsDueForInputCleanup (now - inputRetentionAfterTerminal) cleanupBatchSize);
  '(input_cleaned, failures) ← cleanup_jobs CleanupTargetInput inputs;
  outputs ←! sql (ListBatchImageJobsDueForOutputCleanup now cleanupBatchSize);
  '(output_cleaned, failures') ← cleanup_jobs CleanupTargetOutput outputs;
  ok (input_cleaned, output_cleaned, failures + failures').
End Handlers.
