(* ===== verification/BatchImageSafety.v ===== *)
(** * Batch image jobs: what holds under every interleaving

    Any number of submissions, workers, cancellations, recoveries and clean-ups run
    at once, one call at a time, beside any other billing; statements fail before they
    take effect or lose their answer, and handlers crash.  A job is completed only
    when its hold has been captured, for the cost it shows, and stays completed. *)

From Stdlib Require Import ZArith Lia Ascii String.
From stdpp Require Import base tactics numbers list gmap strings sorting.
From S2P Require Import Prelude GoStrings GoFloat GoTime GoDecimal Programs BillingData UsageBilling UsageBillingCorrect UsageBillingClaims.
From S2P Require Import BatchImageData BatchImage.

Open Scope go_scope.
Open Scope string_scope.
Open Scope Z_scope.

#[local] Opaque Z.pow places to_float shortest.

(** ** Rows *)

Definition is_settled (j : BatchImageJob) : Prop :=
  one_of [BatchImageJobStatusCompleted; BatchImageJobStatusOutputDeleted] (bj_Status j) = true.

(** Not handed to a provider, as far as the status tells. *)
Definition is_pending (j : BatchImageJob) : Prop :=
  one_of [BatchImageJobStatusCreated; BatchImageJobStatusUploading; BatchImageJobStatusFailed;
          BatchImageJobStatusCancelled] (bj_Status j) = true.

(** What almost every statement does to a row. *)
Record row_ok (j j' : BatchImageJob) : Prop := {
  ro_terms : bj_terms j' = bj_terms j;
  ro_settled : is_settled j' ↔ is_settled j;
  ro_kept : is_settled j → bj_actual_cost j' = bj_actual_cost j ∧ bj_ManifestHash j' = bj_ManifestHash j;
  ro_pending : is_pending j → is_pending j'
}.

#[export] Instance row_ok_preorder : PreOrder row_ok.
Proof.
  split.
  - intros j. by split.
  - intros j1 j2 j3 [T1 S1 K1 P1] [T2 S2 K2 P2]. split; [congruence|by rewrite S2| |auto].
    intros Hj. destruct (K1 Hj) as [<- <-]. apply K2. by apply S1.
Qed.

Lemma settled_cases j :
  is_settled j ↔ bj_Status j = BatchImageJobStatusCompleted ∨ bj_Status j = BatchImageJobStatusOutputDeleted.
Proof.
  unfold is_settled, one_of. simpl. rewrite orb_false_r, orb_true_iff, !String.eqb_eq. done.
Qed.

Lemma pending_not_settled j : is_pending j → ¬ is_settled j.
Proof. rewrite settled_cases. unfold is_pending. by intros Hp [E|E]; rewrite E in Hp. Qed.

(** An update that leaves the status alone, and cost and manifest too. *)
Lemma row_ok_same j j' :
  bj_terms j' = bj_terms j → bj_Status j' = bj_Status j → bj_actual_cost j' = bj_actual_cost j →
  bj_ManifestHash j' = bj_ManifestHash j → row_ok j j'.
Proof. intros Ht Hs Hc Hm. split; unfold is_settled, is_pending; rewrite ?Hs; done. Qed.

(** A change of status between jobs that are not settled. *)
Lemma row_ok_open j j' :
  bj_terms j' = bj_terms j → ¬ is_settled j → ¬ is_settled j' → (is_pending j → is_pending j') → row_ok j j'.
Proof. intros Ht Hj Hj' Hp. by split. Qed.

(** ** Statements *)

Record calm_step (s s' : BatchDB) : Prop := {
  cs_billing : bi_billing s' = bi_billing s;
  cs_creator : bi_creator s' = bi_creator s;
  cs_jobs b : option_Forall2 row_ok (bi_jobs s !! b) (bi_jobs s' !! b)
}.

#[export] Instance calm_step_preorder : PreOrder calm_step.
Proof.
  split.
  - intros s. split; [done|done|]. intros b. destruct (bi_jobs s !! b); by constructor.
  - intros s1 s2 s3 [B1 C1 J1] [B2 C2 J2]. split; [congruence..|]. intros b.
    specialize (J1 b). specialize (J2 b). inversion J1; simplify_eq; inversion J2; simplify_eq; try congruence;
      constructor. etransitivity; [done|]. congruence.
Qed.

Definition calm {A} (t : jtx A) : Prop := ∀ s a s', t s = inr (a, s') → calm_step s s'.

Lemma calm_ret {A} (a : A) : calm (mret a).
Proof. by intros s a' s' [= -> ->]. Qed.

Lemma calm_fail {A} e : calm (A := A) (fail e).
Proof. by intros s a s'. Qed.

Lemma calm_read {A} (f : BatchDB → A) : calm (read f).
Proof. by intros s a s' [= _ ->]. Qed.

Lemma calm_bind {A B} (m : jtx A) (f : A → jtx B) : calm m → (∀ a, calm (f a)) → calm (m ≫= f).
Proof.
  intros Hm Hf s b s'. unfold mbind, jtx_bind. destruct (m s) as [|[a s1]] eqn:E; [done|].
  intros Hb. etransitivity; [by eapply Hm|by eapply Hf].
Qed.

Lemma calm_query b cond : calm (query_job b cond).
Proof. intros s a s'. unfold query_job. repeat case_match; intros [=]; by subst. Qed.

Lemma put_job_calm b j j' s : bi_jobs s !! b = Some j → row_ok j j' → calm_step s (put_job b j' s).
Proof.
  intros Hj Hr. split; [done|done|]. intros b'. simpl. rewrite lookup_insert.
  case_decide; [subst; rewrite Hj; by constructor|]. destruct (bi_jobs s !! b'); by constructor.
Qed.

Lemma calm_update b cond set : (∀ j, cond j = true → row_ok j (set j)) → calm (update_job b cond set).
Proof.
  intros Hr s a s'. unfold update_job. destruct (bi_jobs s !! b) as [j|] eqn:Hj; [|by intros [= _ ->]].
  destruct (cond j) eqn:Hc; intros [= _ <-]; [|done]. eapply put_job_calm; eauto.
Qed.

Lemma calm_items (f : BatchDB → BatchDB) :
  (∀ s, bi_jobs (f s) = bi_jobs s ∧ bi_billing (f s) = bi_billing s ∧ bi_creator (f s) = bi_creator s) →
  calm (modify f).
Proof.
  intros Hf s a s' [= _ <-]. destruct (Hf s) as (Hj & Hb & Hc). split; [done|done|].
  intros b. rewrite Hj. destruct (bi_jobs s !! b); by constructor.
Qed.

Create HintDb calm.
#[export] Hint Resolve calm_ret calm_fail calm_read calm_query : calm.
#[export] Hint Extern 1 (row_ok _ _) => (by apply row_ok_same) : calm.

Ltac calm_tac :=
  repeat first
    [ progress intros
    | solve [auto with calm nocore]
    | apply calm_bind
    | apply calm_update
    | apply calm_items; done
    | match goal with
      | |- calm (if ?b then _ else _) => destruct b
      | |- calm (match ?x with _ => _ end) => destruct x
      end ].

Section Statements.
Context `{ShortestDecimal}.

Lemma calm_must_update e m : calm m → calm (must_update e m).
Proof. intros Hm. unfold must_update. by calm_tac. Qed.
#[local] Hint Resolve calm_must_update : calm.

(** A transition that the handlers ask for never completes a job nor submits it. *)
Definition inner_statuses : list string :=
  [BatchImageJobStatusUploading; BatchImageJobStatusRunning; BatchImageJobStatusIndexing;
   BatchImageJobStatusSettling; BatchImageJobStatusFailed; BatchImageJobStatusCancelled].

Lemma inner_transition from to j j' :
  to ∈ inner_statuses → bj_Status j = from → bj_Status j' = to → CanTransitionBatchImageJob from to = true →
  ¬ is_settled j ∧ ¬ is_settled j' ∧ (is_pending j → is_pending j').
Proof.
  intros Hto Hj Hj' Hc. rewrite !settled_cases. unfold is_pending. rewrite Hj, Hj'.
  unfold inner_statuses in Hto. rewrite !elem_of_cons, elem_of_nil in Hto. clear Hj Hj'. split_and!.
  - intros [-> | ->]; destruct Hto as [->|[->|[->|[->|[->|[->|[]]]]]]]; discriminate Hc.
  - intros [-> | ->]; destruct Hto as [Ht|[Ht|[Ht|[Ht|[Ht|[Ht|[]]]]]]]; discriminate Ht.
  - intros Hp. unfold one_of in Hp. simpl in Hp. rewrite !orb_true_iff, !String.eqb_eq in Hp.
    destruct Hp as [->|[->|[->|[->|?]]]]; [..|done];
      destruct Hto as [->|[->|[->|[->|[->|[->|[]]]]]]]; done || discriminate Hc.
Qed.

Lemma calm_transition b to code : to ∈ inner_statuses → calm (TransitionBatchImageJobStatus b to code).
Proof.
  intros Hto s a s'. unfold TransitionBatchImageJobStatus, query_job, mbind, jtx_bind.
  destruct (bi_jobs s !! b) as [j|] eqn:Hj; [|done]. simpl.
  destruct (CanTransitionBatchImageJob (bj_Status j) to) eqn:Hc; [|done]. simpl.
  unfold update_job. rewrite Hj. simpl. intros [= _ <-]. apply (put_job_calm b j); [done|].
  destruct (inner_transition _ to j (transitioned to code (bi_now s) j) Hto eq_refl eq_refl Hc) as (? & ? & ?).
  by apply row_ok_open.
Qed.

Lemma calm_touch b : calm (TouchBatchImageJobSubmitting b).
Proof. unfold TouchBatchImageJobSubmitting. calm_tac. Qed.

Lemma calm_fail_stale b cutoff code : calm (fail_stale_update b cutoff code).
Proof.
  unfold fail_stale_update. calm_tac. apply andb_true_iff in H0 as [H0 _]. apply andb_true_iff in H0 as [H0 _].
  unfold unsubmitted, status_in, one_of in H0. simpl in H0. rewrite !orb_true_iff, !String.eqb_eq in H0.
  apply row_ok_open; [done|rewrite settled_cases; destruct H0 as [->|[->|?]]; naive_solver|by rewrite settled_cases; intros []|done].
Qed.

Lemma calm_output_ref b ref : calm (UpdateBatchImageJobProviderOutputRef b ref).
Proof. unfold UpdateBatchImageJobProviderOutputRef. calm_tac. Qed.

Lemma calm_record_failure b code : calm (record_failure_update b code false).
Proof. unfold record_failure_update. calm_tac. Qed.

Lemma calm_settlement_failed b code : calm (settlement_failed_update b code).
Proof. unfold settlement_failed_update. calm_tac. Qed.

Lemma calm_create_item b p : calm (createBatchImageItem b p).
Proof. unfold createBatchImageItem. calm_tac. Qed.
#[local] Hint Resolve calm_create_item : calm.

Lemma calm_bulk_create b ps : calm (BulkCreateBatchImageItems b ps).
Proof. induction ps as [|p ps IH]; simpl; calm_tac. Qed.
#[local] Hint Resolve calm_bulk_create : calm.

Lemma calm_replace_items b ps x y : calm (ReplaceBatchImageItemsForJob b ps x y).
Proof. unfold ReplaceBatchImageItemsForJob. calm_tac. Qed.

Lemma calm_idempotency_key u k key : calm (GetBatchImageJobByIdempotencyKey u k key).
Proof. unfold GetBatchImageJobByIdempotencyKey. calm_tac. Qed.

Lemma calm_input_deleted b t : calm (input_deleted_update b t).
Proof. unfold input_deleted_update. apply calm_must_update. calm_tac. Qed.

Lemma calm_output_deleted b t : calm (output_deleted_update b t).
Proof.
  unfold output_deleted_update. apply calm_must_update. calm_tac. simpl.
  destruct (String.eqb_spec (bj_Status j) BatchImageJobStatusCompleted) as [E|E]; [|by apply row_ok_same].
  assert (is_settled j) as Hj by (apply settled_cases; by left). split; [done| |done|].
  - split; [done|]. intros _. apply settled_cases. by right.
  - intros Hp. exfalso. by apply (pending_not_settled j).
Qed.

Lemma calm_downloaded b t : calm (downloaded_update b t).
Proof. unfold downloaded_update. apply calm_must_update. calm_tac. Qed.

Lemma calm_user_deleted u k b t : calm (user_deleted_update u k b t).
Proof. unfold user_deleted_update. apply calm_must_update. calm_tac. Qed.

(** The settlement in one equation. *)
Lemma mark_settled_run p s :
  MarkBatchImageJobSettled p s =
    match stored_amount (ms_ActualCost p), bi_jobs s !! ms_BatchID p with
    | None, _ => inl ErrDB
    | _, None => inl ErrBatchImageJobNotFound
    | Some cost, Some j =>
        if String.eqb (bj_Status j) BatchImageJobStatusSettling then
          if manifest_agrees (ms_ManifestHash p) j then
            if manifest_taken (ms_BatchID p) (ms_ManifestHash p) s then inl ErrDB
            else inr (tt, put_job (ms_BatchID p) (settled p cost j) s)
          else inl ErrBatchImageSettlementManifestConflict
        else if String.eqb (bj_Status j) BatchImageJobStatusCompleted then inl ErrBatchImageAlreadySettled
        else inl ErrBatchImageSettlementInvalidStatus
    end.
Proof.
  unfold MarkBatchImageJobSettled, amount_column, update_job, query_job, mbind, jtx_bind, read, fail.
  destruct (stored_amount _) as [u|]; [|done]. simpl. destruct (bi_jobs s !! ms_BatchID p) as [j|] eqn:Hj; simpl.
  - destruct (String.eqb (bj_Status j) BatchImageJobStatusSettling) eqn:Es; simpl.
    + destruct (manifest_agrees _ j) eqn:Em; simpl; [destruct (manifest_taken _ _ s); [done|]|];
        rewrite Hj, Es, Em; simpl; [done|]. rewrite Hj, Es. done.
    + rewrite Hj, Es. simpl. rewrite Hj, Es. by destruct (String.eqb (bj_Status j) BatchImageJobStatusCompleted).
  - by rewrite Hj; simpl; rewrite Hj.
Qed.

Lemma calm_cleanup_failure b code : calm (cleanup_failure_update b code).
Proof. unfold cleanup_failure_update. calm_tac. Qed.
End Statements.

#[export] Hint Resolve calm_touch calm_fail_stale calm_output_ref calm_record_failure calm_settlement_failed
  calm_bulk_create calm_replace_items calm_idempotency_key calm_input_deleted calm_output_deleted
  calm_downloaded calm_user_deleted calm_cleanup_failure : calm.

(** ** Invariant and rely *)

Section Safety.
Context `{ShortestDecimal} `{Digest} `{UnicodeCase} `{SqlText} `{CodexOwners} `{Location}.

(** A claim as a command leaves it. *)
Definition claimed (d : BillingDB) (cmd : BatchImageBalanceHoldCommand) : Prop :=
  ∃ row, claims d !! (hc_RequestID (NormalizeHold cmd), hc_APIKeyID cmd) = Some row ∧
         fingerprint_of row = TrimSpace (hc_RequestFingerprint (NormalizeHold cmd)).

(** The capture of the job's hold is claimed, with the fingerprint of the job's owner,
    its hold, its manifest and the cost it shows. *)
Definition captured (d : BillingDB) (j : BatchImageJob) : Prop :=
  ∃ cost manifest cmd,
    buildBatchImageHoldCommand j (BatchImageCaptureRequestID (bj_BatchID j)) cost manifest = inr cmd ∧
    bj_actual_cost j = stored_amount cost ∧
    bj_ManifestHash j = Some manifest ∧
    claimed d cmd.

Record Inv (s : BatchDB) : Prop := {
  inv_agree : claims_agree (bi_billing s);
  inv_ids b j : bi_jobs s !! b = Some j → bj_BatchID j = b;
  inv_creator b x : bi_creator s !! b = Some x → is_Some (bi_jobs s !! b);
  inv_captured b j : bi_jobs s !! b = Some j → is_settled j → captured (bi_billing s) j
}.

(** No claim is lost, and none changes its fingerprint. *)
Definition claims_grow (d d' : BillingDB) : Prop :=
  claims_agree d → claims_agree d' ∧
  ∀ k r, claims d !! k = Some r → ∃ r', claims d' !! k = Some r' ∧ fingerprint_of r' = fingerprint_of r.

#[export] Instance claims_grow_preorder : PreOrder claims_grow.
Proof.
  split.
  - intros d Ha. split; [done|]. eauto.
  - intros d1 d2 d3 G1 G2 Ha. destruct (G1 Ha) as [Ha2 K1]. destruct (G2 Ha2) as [Ha3 K2]. split; [done|].
    intros k r Hr. destruct (K1 _ _ Hr) as (r2 & Hr2 & E2). destruct (K2 _ _ Hr2) as (r3 & Hr3 & E3).
    exists r3. split; [done|congruence].
Qed.

Lemma kept_grow d d' new : claims_kept d d' new → claims_grow d d'.
Proof. intros [K1 _ _ K4] Ha. split; [by apply K1|by apply K4]. Qed.

Lemma claimed_grow d d' cmd : claims_agree d → claims_grow d d' → claimed d cmd → claimed d' cmd.
Proof.
  intros Ha Hg (r & Hr & Hf). destruct (Hg Ha) as [_ K]. destruct (K _ _ Hr) as (r' & Hr' & E).
  exists r'. split; [done|congruence].
Qed.

(** What a thread relies on for a row; its own pending jobs stay pending. *)
Record row_kept (own : Prop) (j j' : BatchImageJob) : Prop := {
  rk_terms : bj_terms j' = bj_terms j;
  rk_settled : is_settled j →
    is_settled j' ∧ bj_actual_cost j' = bj_actual_cost j ∧ bj_ManifestHash j' = bj_ManifestHash j;
  rk_pending : own → is_pending j → is_pending j'
}.

Lemma row_ok_kept own j j' : row_ok j j' → row_kept own j j'.
Proof. intros [T S K P]. split; [done| |auto]. intros Hj. split; [by apply S|auto]. Qed.

Record Rely (i : nat) (s s' : BatchDB) : Prop := {
  rl_claims : claims_grow (bi_billing s) (bi_billing s');
  rl_creator b x : bi_creator s !! b = Some x → bi_creator s' !! b = Some x;
  rl_jobs b j : bi_jobs s !! b = Some j →
    ∃ j', bi_jobs s' !! b = Some j' ∧ row_kept (bi_creator s !! b = Some i) j j'
}.

#[export] Instance batch_rely_preorder : PreOrders Rely.
Proof.
  split. intros i. split.
  - intros s. split; [reflexivity|done|]. intros b j Hj. exists j. split; [done|]. by split.
  - intros s1 s2 s3 [G1 C1 J1] [G2 C2 J2]. split; [by etransitivity|auto|].
    intros b j Hj. destruct (J1 _ _ Hj) as (j2 & Hj2 & [T1 S1 P1]).
    destruct (J2 _ _ Hj2) as (j3 & Hj3 & [T2 S2 P2]). exists j3. split; [done|]. split; [congruence| |auto].
    intros Hs. destruct (S1 Hs) as (Hs2 & <- & <-). by apply S2.
Qed.

Abbreviation triple := (triple exec Inv Rely).
Abbreviation tame := (tame exec Inv Rely).

Lemma build_terms j j' id cost payload :
  bj_terms j' = bj_terms j →
  buildBatchImageHoldCommand j' id cost payload = buildBatchImageHoldCommand j id cost payload.
Proof.
  intros E. unfold buildBatchImageHoldCommand, held_amount, HoldAmount, EstimatedCost, bj_APIKeyID, bj_UserID, bj_BatchID.
  by rewrite E.
Qed.

Lemma captured_row d j j' :
  bj_terms j' = bj_terms j → bj_actual_cost j' = bj_actual_cost j → bj_ManifestHash j' = bj_ManifestHash j →
  captured d j → captured d j'.
Proof.
  intros Ht Hc Hm (cost & manifest & cmd & Hb & E1 & E2 & Hcl). exists cost, manifest, cmd.
  unfold bj_BatchID in *. rewrite (build_terms j), Ht; [|done]. by rewrite Hc, Hm.
Qed.

Lemma captured_grow d d' j : claims_agree d → claims_grow d d' → captured d j → captured d' j.
Proof.
  intros Ha Hg (cost & manifest & cmd & ? & ? & ? & Hc). exists cost, manifest, cmd.
  split_and!; [done..|]. by eapply claimed_grow.
Qed.

(** ** Calls *)

Lemma calm_keeps s s' : calm_step s s' → Inv s → Inv s' ∧ ∀ i, Rely i s s'.
Proof.
  intros [B C J] [Ha Hi Hc Hcap]. split.
  - split; [by rewrite B| | |].
    + intros b j Hj. specialize (J b). rewrite Hj in J. inversion J as [j0 ? Hr E E'|]; subst.
      rewrite <- (Hi b j0); [|done]. unfold bj_BatchID. by rewrite (ro_terms _ _ Hr).
    + intros b x. rewrite C. intros Hx. specialize (J b). destruct (Hc _ _ Hx) as [j Hj]. rewrite Hj in J.
      inversion J; by eexists.
    + intros b j Hj Hs. specialize (J b). rewrite Hj in J. inversion J as [j0 ? Hr E E'|]; subst.
      rewrite B. apply (ro_settled _ _ Hr) in Hs. destruct (ro_kept _ _ Hr Hs) as [E1 E2].
      eapply captured_row; [apply Hr|done|done|]. by eapply Hcap.
  - intros i. split; [by rewrite B|by rewrite C|]. intros b j Hj. specialize (J b). rewrite Hj in J.
    inversion J as [? j' Hr|]; subst. exists j'. split; [done|]. by apply row_ok_kept.
Qed.

Lemma run_sql_cases {A} (t : jtx A) o s :
  (run_sql t o s).2 = s ∧ (∃ e, (run_sql t o s).1 = inl e) ∨
  ∃ a s', t s = inr (a, s') ∧ (run_sql t o s).2 = s' ∧ (∀ a', (run_sql t o s).1 = inr a' → a' = a).
Proof.
  unfold run_sql. destruct o, (t s) as [e|[a s']]; simpl; eauto 10; right; exists a, s'; naive_solver.
Qed.

Lemma tame_job_sql {A} (t : jtx A) : calm t → tame true (sql t).
Proof.
  intros Ht i. unfold sql, call. eapply (triple_do exec Inv Rely _ _ _ _ _ (λ _ _, True)); [done| |].
  - intros s w Hi _. simpl. destruct (run_sql t (w_outcome w) s) as [r s2] eqn:E.
    destruct (run_sql_cases t (w_outcome w) s) as [[Hs _]|(a & s' & Hr & Hs & _)]; rewrite E in Hs; simpl in Hs; subst s2.
    + split_and!; [done| |done]. intros j _. reflexivity.
    + destruct (calm_keeps _ _ (Ht _ _ _ Hr) Hi) as [? ?]. split_and!; auto.
  - intros x. apply (tame_ret exec Inv Rely).
Qed.

Lemma tame_ask {A} (f : world → A) : tame true (call (Ask f)).
Proof. by apply (tame_call exec Inv Rely). Qed.

Lemma tame_now : tame true (call Now).
Proof. by apply (tame_call exec Inv Rely). Qed.

Lemma billing_grows kind cmd o s :
  bi_jobs (run_billing kind cmd o s).2 = bi_jobs s ∧ bi_creator (run_billing kind cmd o s).2 = bi_creator s ∧
  claims_grow (bi_billing s) (bi_billing (run_billing kind cmd o s).2).
Proof.
  unfold run_billing. pose proof (step_kept (UsageBillingClaims.Hold kind (bi_now s) o cmd) (bi_billing s)) as K.
  rewrite perform_hold in K. destruct (applyBatchImageBalanceHold _ _ _ _ _) as [r d]. simpl in *.
  split_and!; [done|done|]. by eapply kept_grow.
Qed.

(** A change of the ledger that loses no claim. *)
Lemma ledger_keeps s s' :
  bi_jobs s' = bi_jobs s → bi_creator s' = bi_creator s → claims_grow (bi_billing s) (bi_billing s') →
  Inv s → Inv s' ∧ ∀ i, Rely i s s'.
Proof.
  intros J C G [Ha Hi Hc Hcap]. destruct (G Ha) as [Ha' _]. split.
  - split; [done|by rewrite J|by rewrite J, C|]. intros b j Hj Hs. rewrite J in Hj. eapply captured_grow; [exact Ha|exact G|by eapply Hcap].
  - intros i. split; [done|by rewrite C|]. intros b j Hj. rewrite J. exists j. split; [done|]. by split.
Qed.

Lemma tame_billing kind cmd : tame true (call (Billing kind cmd)).
Proof.
  intros i. unfold call. eapply (triple_do exec Inv Rely _ _ _ _ _ (λ _ _, True)); [done| |].
  - intros s w Hi _. simpl. destruct (billing_grows kind cmd (w_outcome w) s) as (J & C & G).
    destruct (run_billing _ _ _ s) as [r s2]. simpl in *. destruct (ledger_keeps s s2 J C G Hi). split_and!; auto.
  - intros x. apply (tame_ret exec Inv Rely).
Qed.
(** ** Programs without a precondition *)

Definition tame_ret {A} := tame_ret exec Inv Rely (A := A).
Definition tame_bind {A B} := tame_bind exec Inv Rely (A := A) (B := B).
Definition tame_triple {A} := tame_triple exec Inv Rely (A := A).

Lemma tame_job_try {A B} q (p : handler A) (f : A → handler B) :
  tame q p → (∀ a, tame q (f a)) → tame q (try p f).
Proof. intros Hp Hf. apply tame_bind; [done|]. intros [e|a]; [apply tame_ret|done]. Qed.

Lemma tame_service e : tame true (service e).
Proof. apply tame_bind; [apply tame_ask|]. intros []; apply tame_ret. Qed.

Lemma tame_event {A} (t : jtx A) : calm t → tame true (with_event t).
Proof.
  intros Ht. apply tame_job_try; [by apply tame_job_sql|]. intros a. apply tame_job_try; [apply tame_service|].
  intros ?. apply tame_ret.
Qed.

End Safety.

Create HintDb calls.
#[export] Hint Resolve tame_ask tame_now tame_billing tame_service : calls.
#[export] Hint Extern 1 (Programs.tame _ _ _ _ (sql (TransitionBatchImageJobStatus _ _ _))) =>
  (apply tame_job_sql, calm_transition; unfold inner_statuses; set_solver) : calls.
#[export] Hint Extern 2 (Programs.tame _ _ _ _ (sql _)) => (apply tame_job_sql; solve [auto with calm]) : calls.
#[export] Hint Extern 2 (Programs.tame _ _ _ _ (with_event _)) => (apply tame_event; solve [auto with calm]) : calls.

Ltac tame_tac :=
  repeat first
    [ progress intros
    | solve [auto with calls nocore]
    | progress cbv zeta
    | apply tame_ret
    | apply tame_job_try
    | apply tame_bind
    | match goal with
      | |- Programs.tame _ _ _ _ (if ?b then _ else _) => destruct b
      | |- Programs.tame _ _ _ _ (match ?x with _ => _ end) => destruct x
      | |- Programs.tame _ _ _ _ (let '_ := ?x in _) => destruct x
      end ].
