(* ===== verification/BatchImageHandlers.v ===== *)
(** * Batch image jobs: every handler keeps the invariant

    Most handlers are [tame].  Settlement marks a job completed only after the capture
    of its hold has been claimed; a submission marks a job failed, whatever its status
    is, only while the job is pending and its own. *)

From Stdlib Require Import ZArith Lia Ascii String.
From stdpp Require Import base tactics numbers list gmap strings sorting.
From S2P Require Import Prelude GoStrings GoFloat GoTime GoDecimal Programs BillingData UsageBilling UsageBillingCorrect UsageBillingClaims.
From S2P Require Import BatchImageData BatchImage BatchImageSafety.

Open Scope go_scope.
Open Scope string_scope.
Open Scope Z_scope.

#[local] Opaque Z.pow places to_float shortest.

Section Handlers.
Context `{ShortestDecimal} `{Digest} `{UnicodeCase} `{SqlText} `{CodexOwners} `{Location}.
Variable cfg : BatchImageConfig.

Abbreviation triple := (triple exec Inv Rely).
Abbreviation tame := (tame exec Inv Rely).

(** ** Tame handlers *)

Lemma tame_unfinished j : tame true (releaseBatchImageUnfinished j).
Proof. unfold releaseBatchImageUnfinished. tame_tac. Qed.

Lemma tame_reserve j h : tame true (reserveBatchImageBalanceHold j h).
Proof. unfold reserveBatchImageBalanceHold. tame_tac. Qed.

Lemma tame_release j h : tame true (releaseBatchImageBalanceHold j h).
Proof. unfold releaseBatchImageBalanceHold. tame_tac. Qed.
#[local] Hint Resolve tame_unfinished tame_reserve tame_release : calls.

Lemma tame_release_hold j : tame true (release_hold j).
Proof. apply tame_release. Qed.
#[local] Hint Resolve tame_release_hold : calls.

Lemma tame_exhausted j : tame true (failExhaustedSettlement j).
Proof. unfold failExhaustedSettlement, SetBatchImageJobSettlementFailed. tame_tac. Qed.
#[local] Hint Resolve tame_exhausted : calls.

Lemma tame_settlement_failed {A} j code e : tame true (settlement_failed (A := A) j code e).
Proof. unfold settlement_failed, recordSettlementFailure, SetBatchImageJobSettlementFailed. tame_tac. Qed.
#[local] Hint Resolve @tame_settlement_failed : calls.

Lemma tame_Index j : tame true (Index j).
Proof. unfold Index, expected_custom_ids. tame_tac. Qed.

Lemma tame_terminal_hold j : tame true (releaseTerminalHold j).
Proof. unfold releaseTerminalHold. tame_tac. Qed.
#[local] Hint Resolve tame_Index tame_terminal_hold : calls.

Lemma tame_index_and_settle j : tame true (indexAndSettle j).
Proof. unfold indexAndSettle, finish_job. tame_tac. Qed.
#[local] Hint Resolve tame_index_and_settle : calls.

Lemma tame_process b : tame true (Process cfg b).
Proof.
  unfold Process, GetBatchImageJobByBatchID. tame_tac.
  unfold process_active, process_status, persistProviderOutputRef, finish_job. tame_tac.
Qed.
#[local] Hint Resolve tame_process : calls.

Lemma tame_recover_job cutoff j : tame true (recover_job cutoff j).
Proof. unfold recover_job, FailStaleUnsubmittedBatchImageJob, enqueueReleaseRetry, enqueue. tame_tac. Qed.
#[local] Hint Resolve tame_recover_job : calls.

Lemma tame_recover_jobs cutoff js : tame true (recover_jobs cutoff js).
Proof. induction js; cbn [recover_jobs]; tame_tac. Qed.

Lemma tame_recovery : tame true (ReleaseStaleUnsubmittedOnce cfg).
Proof.
  unfold ReleaseStaleUnsubmittedOnce, ListStaleUnsubmittedBatchImageJobs, listed. tame_tac. apply tame_recover_jobs.
Qed.

Lemma tame_heartbeat n b : tame true (runSubmitHeartbeat n b).
Proof. induction n; cbn [runSubmitHeartbeat]; tame_tac. Qed.

Lemma tame_retry : tame true enqueueBillingRetry.
Proof. unfold enqueueBillingRetry, enqueue. tame_tac. Qed.
#[local] Hint Resolve tame_retry : calls.

Lemma tame_cancel owner b : tame true (Cancel owner b).
Proof. unfold Cancel, GetBatchImageJobByBatchIDForOwner, cancel_done, enqueue. tame_tac. Qed.

Lemma tame_downloaded owner b : tame true (MarkDownloaded owner b).
Proof. unfold MarkDownloaded, GetBatchImageJobByBatchIDForOwner, MarkBatchImageDownloaded. tame_tac. Qed.

Lemma tame_delete_record owner b : tame true (DeleteRecord owner b).
Proof. unfold DeleteRecord, GetBatchImageJobByBatchIDForOwner, MarkBatchImageJobUserDeleted. tame_tac. Qed.

Lemma tame_cleanup_job j target : tame true (cleanupJob j target).
Proof.
  unfold cleanupJob, callProviderCleanup, RecordBatchImageCleanupFailure, MarkBatchImageInputDeleted,
    MarkBatchImageOutputDeleted. tame_tac.
Qed.
#[local] Hint Resolve tame_cleanup_job : calls.

Lemma tame_delete_outputs owner b : tame true (DeleteOutputsForOwner owner b).
Proof. unfold DeleteOutputsForOwner, GetBatchImageJobByBatchIDForOwner. tame_tac. Qed.

Lemma tame_cleanup_jobs target js : tame true (cleanup_jobs target js).
Proof. induction js; cbn [cleanup_jobs]; tame_tac. Qed.
#[local] Hint Resolve tame_cleanup_jobs : calls.

Lemma tame_run_once : tame true (RunOnce cfg).
Proof.
  unfold RunOnce, ListBatchImageJobsDueForInputCleanup, ListBatchImageJobsDueForOutputCleanup, listed. tame_tac.
Qed.
(** ** A capture that is answered is claimed *)

Lemma hold_body_claimed now cmd kind d r commit d' :
  hold_body now cmd (hold_apply kind) d = inr (r, commit, d') → hr_Applied r = true →
  claims d' !! (hc_RequestID cmd, hc_APIKeyID cmd) = Some (mkDedupRow (hc_RequestFingerprint cmd) now).
Proof.
  unfold hold_body. intros Hr Ha. tx_inv.
  match goal with H : claimUsageBillingRequest _ _ _ _ _ = inr (?a, _) |- _ => destruct a; simpl in * end;
    [|tx_inv; by simplify_eq].
  tx_inv. simplify_eq.
  match goal with H : claimUsageBillingRequest _ _ _ _ _ = inr _ |- _ => apply claim_true in H as (_ & _ & ->) end.
  match goal with
  | He : hold_apply _ _ _ = inr _, Hp : persist_log _ _ = inr _ |- _ =>
      pose proof (hold_apply_frame bd_dedup _ _ ltac:(done) _ _ _ He) as E1;
      pose proof (persist_frame bd_dedup _ ltac:(done) _ _ _ Hp) as E2
  end.
  rewrite claims_lookup, E2, E1. simpl. by rewrite lookup_insert_eq.
Qed.

Lemma answered_hold_claimed now o cmd kind d r :
  claims_agree d → (applyBatchImageBalanceHold now o cmd (hold_apply kind) d).1 = inr r →
  claimed (applyBatchImageBalanceHold now o cmd (hold_apply kind) d).2 cmd.
Proof.
  intros Ha. unfold applyBatchImageBalanceHold, transact, claimed.
  assert (hc_APIKeyID cmd = hc_APIKeyID (NormalizeHold cmd)) as -> by done.
  destruct (String.eqb _ ""); [done|].
  destruct (hold_body now (NormalizeHold cmd) _ d) as [|[[r0 commit] d']] eqn:Hb; [done|].
  pose proof (hold_body_claims _ _ _ _ _ _ _ Hb) as (Hc & Hk & Hf).
  assert (hr_Applied r0 = true ∨ hr_Applied r0 = false) as [Happ|Happ] by (destruct (hr_Applied r0); auto).
  - rewrite (Hc Happ). destruct o; [| done | done]. intros _. eexists. split; [by eapply hold_body_claimed|done].
  - destruct (Hf Happ) as [_ (row & Hrow & E)]. rewrite Happ in Hk.
    destruct (kept_fingerprint _ _ _ Hk Ha _ _ Hrow) as (row' & Hrow' & E').
    assert (∃ row, claims d' !! (hc_RequestID (NormalizeHold cmd), hc_APIKeyID (NormalizeHold cmd)) = Some row ∧
              fingerprint_of row = TrimSpace (hc_RequestFingerprint (NormalizeHold cmd))) as Hd'
      by (exists row'; split; [done|congruence]).
    destruct o, commit; simpl; eauto; done.
Qed.

(** ** Settlement *)

(** The row of a job a handler has read. *)
Definition knows (j : BatchImageJob) (s : BatchDB) : Prop :=
  ∃ row, bi_jobs s !! bj_BatchID j = Some row ∧ bj_terms row = bj_terms j.

Definition captured_for (j : BatchImageJob) (cost : float64) (manifest : string) (s : BatchDB) : Prop :=
  ∃ cmd, buildBatchImageHoldCommand j (BatchImageCaptureRequestID (bj_BatchID j)) cost manifest = inr cmd ∧
         claimed (bi_billing s) cmd.

Lemma persistent_knows j : persistent Rely (knows j).
Proof.
  intros i s s' [_ _ J] (row & Hr & E). destruct (J _ _ Hr) as (row' & Hr' & [T _ _]).
  exists row'. split; [done|congruence].
Qed.

Lemma stable_captured_for i j cost manifest :
  stable Rely i (λ s, claims_agree (bi_billing s) ∧ captured_for j cost manifest s).
Proof.
  intros s s' [G _ _] (Ha & cmd & Hb & Hc). split; [by apply (G Ha)|].
  exists cmd. split; [done|]. by eapply claimed_grow.
Qed.

(** A statement with a precondition.  When it fails it had no effect, or all of it. *)
Definition sql_post {A} (P : BatchDB → Prop) (Q : A → BatchDB → Prop) (r : job_error + A) (s : BatchDB) : Prop :=
  match r with inr a => Q a s | inl _ => P s ∨ ∃ a, Q a s end.

Lemma job_sql_ok {A} q i (P : BatchDB → Prop) (o : stmt (job_error + A)) (t : jtx A) (Q : A → BatchDB → Prop) :
  (∀ w s, exec i _ o w s = run_sql t (w_outcome w) s) →
  stable Rely i P → (∀ a, stable Rely i (Q a)) →
  (∀ s a s', Inv s → P s → t s = inr (a, s') →
     Inv s' ∧ (∀ j, q = true ∨ j ≠ i → Rely j s s') ∧ Q a s') →
  triple q i P (call o) (sql_post P Q).
Proof.
  intros Ho HP HQ Ht. unfold call.
  eapply (triple_do exec Inv Rely _ _ _ _ _ (sql_post P Q)); [done| |].
  - intros s w Hi Hs. rewrite Ho. destruct (run_sql t (w_outcome w) s) as [r s2] eqn:E.
    destruct (run_sql_cases t (w_outcome w) s) as [[Hs2 [e He]]|(a & s' & Hr & Hs2 & Hv)];
      rewrite E in *; simpl in *; subst.
    + split; [done|]. split; [intros j _; reflexivity|by left].
    + destruct (Ht _ _ _ Hi Hs Hr) as (? & ? & ?). split; [done|]. split; [done|].
      destruct r as [|a']; [right; by exists a|]. by rewrite (Hv a' eq_refl).
  - intros r. apply triple_ret; [|done]. intros s s' Hr. destruct r as [e|a]; simpl.
    + intros [Hs|[a Hs]]; [left; by eapply HP|right; exists a; by eapply HQ].
    + by apply HQ.
Qed.

Lemma get_job_ok i b :
  triple true i (λ _, True) (sql (GetBatchImageJobByBatchID b))
    (sql_post (λ _, True) knows).
Proof.
  apply (job_sql_ok true i _ _ (GetBatchImageJobByBatchID b) knows);
    [done|by intros ???|intros j; apply persistent_knows|].
  intros s j s' Hi _. unfold GetBatchImageJobByBatchID, query_job. simpl.
  destruct (bi_jobs s !! b) as [j0|] eqn:Hj; [|done]. intros [= -> ->]. split; [done|].
  split; [intros; reflexivity|]. exists j. by rewrite (inv_ids _ Hi _ _ Hj).
Qed.

Lemma capture_ok i j cost manifest log :
  triple true i (knows j) (captureBatchImageBalanceHold j cost manifest log)
    (λ r s, match r with
            | inr _ => knows j s ∧ claims_agree (bi_billing s) ∧ captured_for j cost manifest s
            | inl _ => True
            end).
Proof.
  unfold captureBatchImageBalanceHold. destruct (buildBatchImageHoldCommand _ _ _ _) as [e|cmd] eqn:Hb.
  { apply triple_ret; [apply persistent_knows|done]. }
  unfold call. change (?p ≫= ?f) with (prog_bind f p). simpl.
  eapply (triple_do exec Inv Rely _ _ _ _ _ (λ r s, match r with
    | inr _ => knows j s ∧ claims_agree (bi_billing s) ∧ captured_for j cost manifest s | inl _ => True end));
    [apply persistent_knows| |].
  - intros s w Hi Hk. simpl.
    destruct (billing_grows Capture (with_usage_log log cmd) (w_outcome w) s) as (J & C & G).
    pose proof (answered_hold_claimed (bi_now s) (w_outcome w) (with_usage_log log cmd) Capture (bi_billing s)) as Hcl.
    unfold run_billing in *. destruct (applyBatchImageBalanceHold _ _ _ _ _) as [r d]. simpl in *.
    destruct (ledger_keeps s (put_billing d s) J C G Hi) as [Hi' Hr]. split; [done|]. split; [auto|].
    destruct r as [|r]; [done|]. split; [by unfold knows in *; simpl|].
    split; [apply (inv_agree _ Hi')|]. exists cmd. split; [done|]. exact (Hcl r (inv_agree _ Hi) eq_refl).
  - intros [e|r]; apply triple_ret; simpl; [by intros ???|done| |done].
    intros s s' Hr (Hk & Hc). split; [by eapply persistent_knows|by eapply (stable_captured_for i)].
Qed.

Lemma mark_settled_ok i j cost manifest now expires :
  triple true i (λ s, knows j s ∧ claims_agree (bi_billing s) ∧ captured_for j cost manifest s)
    (sql (MarkBatchImageJobSettled (mkSettled (bj_BatchID j) cost manifest now expires))) (λ _ _, True).
Proof.
  set (P := λ s, _). apply (triple_conseq exec Inv Rely true i P P _ _ (sql_post P (λ _ _, True)));
    [done| |done]. eapply (job_sql_ok true i P _ _ (λ _ _, True)); [done|..].
  - intros s s' Hr (Hk & Hc). split; [by eapply persistent_knows|by eapply (stable_captured_for i)].
  - by intros a ???.
  - intros s a s' Hi ((row & Hrow & Ht) & _ & cmd & Hb & Hcl). rewrite mark_settled_run. simpl. rewrite Hrow.
    destruct (stored_amount cost) as [u|] eqn:Hu; [|done].
    destruct (String.eqb_spec (bj_Status row) BatchImageJobStatusSettling) as [Est|];
      [|by destruct (String.eqb _ _)].
    destruct (manifest_agrees manifest row); [|done]. destruct (manifest_taken _ _ _); [done|]. intros [= _ <-].
    set (row' := settled _ u row).
    assert (captured (bi_billing s) row') as Hcap.
    { exists cost, manifest, cmd. split_and!; [|done..]. unfold bj_BatchID in *. simpl. rewrite Ht.
      rewrite <- Hb. by apply build_terms. }
    assert (is_settled row') as Hset by (apply settled_cases; by left).
    split; [|split; [|done]].
    + destruct Hi as [I1 I2 I3 I4]. split; [done| | |].
      * intros b k. simpl. rewrite lookup_insert. case_decide; [|apply I2]. intros [= <-]. subst. simpl.
        unfold bj_BatchID in *. simpl. by rewrite Ht.
      * intros b x Hx. simpl. rewrite lookup_insert. case_decide; [done|by eapply I3].
      * intros b k. simpl. rewrite lookup_insert. case_decide; [by intros [= <-] _|apply I4].
    + intros t _. split; [reflexivity|done|]. intros b k Hk. simpl. rewrite lookup_insert.
      case_decide; [|exists k; split; [done|by split]]. subst. rewrite Hrow in Hk. simplify_eq.
      exists row'. split; [done|]. split; [done| |].
      * intros Hs%settled_cases. rewrite Est in Hs. by destruct Hs.
      * unfold is_pending. by rewrite Est.
Qed.
Lemma job_done_ok {A} q i (P : BatchDB → Prop) (a : A) : triple q i P (Ret a) (λ _ _, True).
Proof. apply tame_triple, tame_ret. Qed.

(** A quiet call before a program that needs what is known. *)
Lemma bind_stable {A B} q i (F : BatchDB → Prop) (p : prog stmt A) (f : A → prog stmt B) Q :
  stable Rely i F → tame true p → (∀ a, triple q i F (f a) Q) → triple q i F (p ≫= f) Q.
Proof.
  intros HF Hp Hf. eapply (triple_bind exec Inv Rely); [|exact Hf].
  destruct q; [|apply (triple_loud exec) with (q := true)]; by apply (quiet_frame exec).
Qed.

Lemma try_stable {A B} q i (F : BatchDB → Prop) (p : handler A) (f : A → handler B) :
  stable Rely i F → tame true p → (∀ a, triple q i F (f a) (λ _ _, True)) →
  triple q i F (try p f) (λ _ _, True).
Proof. intros HF Hp Hf. apply bind_stable; [done|done|]. intros [e|a]; [apply job_done_ok|apply Hf]. Qed.

Lemma capture_and_complete_ok i j cost :
  triple true i (knows j) (capture_and_complete cfg j cost) (λ _ _, True).
Proof.
  unfold capture_and_complete. apply bind_stable; [apply persistent_knows|apply tame_now|]. intros now.
  eapply (triple_bind exec Inv Rely); [apply capture_ok|]. intros [e|?]; [apply tame_triple; tame_tac|].
  eapply (triple_bind exec Inv Rely); [apply mark_settled_ok|]. intros r. apply tame_triple. tame_tac.
Qed.

Lemma settle_settling_ok i j : triple true i (knows j) (settle_settling cfg j) (λ _ _, True).
Proof.
  pose proof (persistent_knows j i) as Hk.
  unfold settle_settling. apply try_stable; [done|tame_tac|]. intros ?.
  case_match; [|apply job_done_ok]. case_match; [|apply job_done_ok].
  case_match; [apply tame_triple; tame_tac|]. case_match; [apply tame_triple; tame_tac|].
  case_match; [apply tame_triple; tame_tac|].
  apply bind_stable; [done|unfold settlementUnitPrice; tame_tac|]. intros price.
  case_match; [apply tame_triple; tame_tac|]. cbv zeta.
  destruct (_ <. _); [apply tame_triple, tame_settlement_failed|apply capture_and_complete_ok].
Qed.

Lemma tame_settle b : tame true (Settle cfg b).
Proof.
  intros i. unfold Settle. eapply (triple_bind exec Inv Rely); [apply get_job_ok|]. intros [e|j]; [apply job_done_ok|].
  case_match; [apply tame_triple; tame_tac|]. case_match; [apply job_done_ok|apply settle_settling_ok].
Qed.
#[local] Hint Resolve tame_settle : calls.

Lemma tame_pipeline b : tame true (PipelineProcess cfg b).
Proof. unfold PipelineProcess, GetBatchImageJobByBatchID. tame_tac. Qed.

(** ** Submission *)

(** The thread's own job, that no provider has yet. *)
Definition owns (i : nat) (b : string) (s : BatchDB) : Prop :=
  bi_creator s !! b = Some i ∧ ∃ row, bi_jobs s !! b = Some row ∧ is_pending row.

Lemma stable_owns i b : stable Rely i (owns i b).
Proof.
  intros s s' [_ C J] (Hc & row & Hr & Hp). split; [by apply C|].
  destruct (J _ _ Hr) as (row' & Hr' & [_ _ P]). exists row'. split; [done|by apply P].
Qed.

Lemma create_run p s j s' :
  CreateBatchImageJob p s = inr (j, s') →
  bi_jobs s !! cp_BatchID p = None ∧ s' = next_id (put_job (cp_BatchID p) j s) ∧
  ∃ estimated hold unit_price, j = new_job (bi_next s) (bi_now s) p estimated hold unit_price.
Proof.
  unfold CreateBatchImageJob, amount_column, mbind, jtx_bind, fail, read, modify.
  destruct (negb _); [done|]. destruct (stored_amount (cp_EstimatedCost p)); [|done]. simpl.
  destruct (cp_HoldAmount p) as [a|]; simpl; [destruct (stored_amount a); [|done]; simpl|];
    (destruct (stored_amount (cp_BillableUnitPrice p)); [|done]); simpl;
    (destruct (bi_jobs s !! cp_BatchID p); [done|]); simpl; intros [= <- <-]; eauto 10.
Qed.

Lemma insert_ok i p :
  cp_Status p = BatchImageJobStatusCreated →
  triple true i (λ _, True) (call (Insert p)) (sql_post (λ _, True) (λ j, owns i (bj_BatchID j))).
Proof.
  intros Hst. apply (job_sql_ok true i _ _ (insert_job i p)); [done|by intros ???|intros j; apply stable_owns|].
  intros s j s' Hi _. unfold insert_job, mbind, jtx_bind.
  destruct (CreateBatchImageJob p s) as [|[j0 s0]] eqn:Hc; [done|].
  apply create_run in Hc as (Hn & -> & est & hold & unit_price & ->). intros [= <- <-].
  set (j := new_job _ _ _ _ _ _). assert (is_pending j) as Hp by (unfold is_pending; simpl; by rewrite Hst).
  destruct Hi as [I1 I2 I3 I4].
  assert (bi_creator s !! cp_BatchID p = None) as Hcn.
  { destruct (bi_creator s !! _) as [x|] eqn:E; [|done]. destruct (I3 _ _ E). congruence. }
  split; [|split].
  - split; [done| | |].
    + intros b k. simpl. rewrite lookup_insert. case_decide; [by intros [= <-]|apply I2].
    + intros b x. simpl. rewrite !lookup_insert. case_decide; [done|apply I3].
    + intros b k. simpl. rewrite lookup_insert. case_decide; [|apply I4].
      intros [= <-] Hs. by apply pending_not_settled in Hs.
  - intros k _. split; [reflexivity| |].
    + intros b x Hx. simpl. rewrite lookup_insert. case_decide; [congruence|done].
    + intros b k' Hk'. simpl. rewrite lookup_insert. case_decide; [congruence|]. exists k'. split; [done|by split].
  - unfold owns. simpl. rewrite !lookup_insert_eq. eauto.
Qed.

Lemma record_failure_ok i b code markFailed :
  triple true i (owns i b) (RecordBatchImageJobSubmitFailure b code markFailed) (λ _, owns i b).
Proof.
  unfold RecordBatchImageJobSubmitFailure, with_event.
  eapply (triple_bind exec Inv Rely) with (M := sql_post (owns i b) (λ _, owns i b)).
  - apply (job_sql_ok true i _ _ (record_failure_update b code markFailed)); [done|apply stable_owns|intros ?; apply stable_owns|].
    intros s [] s' Hi [Hc (row & Hrow & Hp)]. unfold record_failure_update, mbind, jtx_bind, read, update_job. simpl.
    rewrite Hrow. simpl. intros [= <-]. set (row' := set_status _ _).
    assert (row_ok row row') as Hr.
    { apply row_ok_open; [done|by apply pending_not_settled| |]; unfold is_pending in *; simpl;
        [|by destruct markFailed]. destruct markFailed; [by rewrite settled_cases; intros []|].
      by apply (pending_not_settled row). }
    destruct (calm_keeps _ _ (put_job_calm b row row' s Hrow Hr) Hi) as [Hi' Hrely].
    split; [done|]. split; [auto|]. split; [done|]. exists row'. simpl. rewrite lookup_insert_eq. split; [done|].
    by apply (ro_pending _ _ Hr).
  - intros r. apply (triple_conseq exec Inv Rely true i _ (owns i b) _ _ (λ _, owns i b)); [| |done].
    + intros s _. destruct r; simpl; [|done]. by intros [?|[_ ?]].
    + apply (quiet_frame exec); [apply stable_owns|]. tame_tac.
Qed.

(** The one call that only the owner may make. *)
Lemma provider_submit_ok i b p :
  triple false i (owns i b) (sql (UpdateBatchImageJobProviderSubmit b p)) (λ _ _, True).
Proof.
  apply (triple_conseq exec Inv Rely false i _ (owns i b) _ _ (sql_post (owns i b) (λ _ _, True))); [done| |done].
  apply (job_sql_ok false i _ _ (UpdateBatchImageJobProviderSubmit b p)); [done|apply stable_owns|by intros ????|].
  intros s [] s' Hi [Hc (row & Hrow & Hp)].
  unfold UpdateBatchImageJobProviderSubmit, query_job, mbind, jtx_bind, read, update_job. rewrite Hrow. simpl.
  destruct (negb _); [done|]. simpl. rewrite Hrow. simpl. intros [= <-]. set (row' := set_status _ _).
  assert (¬ is_settled row) as Hns by by apply pending_not_settled.
  assert (¬ is_settled row') as Hns' by by rewrite settled_cases; intros [].
  destruct Hi as [I1 I2 I3 I4]. split; [|split; [|done]].
  - split; [done| | |].
    + intros b' k. simpl. rewrite lookup_insert. case_decide; [|apply I2]. intros [= <-]. subst. exact (I2 _ row Hrow).
    + intros b' x Hx. simpl. rewrite lookup_insert. case_decide; [done|by eapply I3].
    + intros b' k. simpl. rewrite lookup_insert. case_decide; [by intros [= <-]|apply I4].
  - intros k [|Hk]; [done|]. split; [reflexivity|done|]. intros b' j Hj. simpl. rewrite lookup_insert.
    case_decide; [|exists j; split; [done|by split]]. subst. rewrite Hrow in Hj. simplify_eq.
    exists row'. split; [done|]. split; [done|done|]. intros Hown. congruence.
Qed.

(** ** The parts of a submission *)

Lemma tame_abort : tame true abortOrphanProviderJob.
Proof. unfold abortOrphanProviderJob. tame_tac. Qed.

Lemma tame_hide owner j : tame true (hidePreUpstreamSubmitFailure owner j).
Proof. unfold hidePreUpstreamSubmitFailure, MarkBatchImageJobUserDeleted. tame_tac. Qed.

Lemma tame_pending_items b items : tame true (createPendingItems cfg b items).
Proof. unfold createPendingItems. tame_tac. Qed.

Lemma tame_queue_failure b code : tame true (RecordBatchImageJobSubmitFailure b code false).
Proof. unfold RecordBatchImageJobSubmitFailure. tame_tac. Qed.

Lemma tame_enqueue : tame true enqueue.
Proof. apply tame_ask. Qed.

Lemma tame_not_started owner j h : tame true (submit_not_started owner j h).
Proof. pose proof tame_hide. unfold submit_not_started. tame_tac. Qed.
#[local] Hint Resolve tame_abort tame_hide tame_pending_items tame_queue_failure tame_enqueue tame_not_started : calls.

Abbreviation owner_ok i j p := (triple false i (owns i (bj_BatchID j)) p (λ _ _, True)).

Lemma quiet_ok {A} i (P : BatchDB → Prop) (p : prog stmt A) : tame true p → triple false i P p (λ _ _, True).
Proof. intros Hp. apply tame_triple. by apply (tame_loud exec Inv Rely). Qed.

Lemma submission_failed_ok {A} i owner j code e : owner_ok i j (submission_failed (A := A) owner j code e).
Proof.
  eapply (triple_bind exec Inv Rely); [apply (triple_loud exec) with (q := true), record_failure_ok|].
  intros ?. apply quiet_ok. tame_tac.
Qed.

Lemma release_failed_ok i j h :
  triple true i (owns i (bj_BatchID j)) (releaseFailedSubmitHold j h) (λ _, owns i (bj_BatchID j)).
Proof.
  pose proof (stable_owns i (bj_BatchID j)) as Hs.
  unfold releaseFailedSubmitHold. apply bind_stable; [done|tame_tac|]. intros [e|?].
  - eapply (triple_bind exec Inv Rely); [apply record_failure_ok|]. intros ?.
    apply (quiet_frame exec); [done|]. tame_tac.
  - apply (quiet_frame exec); [done|]. tame_tac.
Qed.

Lemma release_and_fail_ok {A} i owner j h code e : owner_ok i j (release_and_fail (A := A) owner j h code e).
Proof.
  eapply (triple_bind exec Inv Rely); [apply (triple_loud exec) with (q := true), release_failed_ok|].
  intros [?|?]; [apply job_done_ok|apply submission_failed_ok].
Qed.

Lemma submit_accepted_ok i j p : owner_ok i j (submit_accepted j p).
Proof.
  eapply (triple_bind exec Inv Rely); [apply provider_submit_ok|]. intros [e|?]; apply quiet_ok; [tame_tac|].
  unfold GetBatchImageJobByBatchID. tame_tac.
Qed.

Lemma submit_upstream_ok i owner j h : owner_ok i j (submit_upstream owner j h).
Proof.
  pose proof (stable_owns i (bj_BatchID j)) as Hs.
  unfold submit_upstream. apply bind_stable; [done|tame_tac|]. intros [e|?].
  - eapply (triple_bind exec Inv Rely); [apply (triple_loud exec) with (q := true), release_failed_ok|].
    intros [?|?]; [apply job_done_ok|]. case_match; [apply job_done_ok|apply submission_failed_ok].
  - cbv zeta. set (j' := set_status BatchImageJobStatusUploading j). change (bj_BatchID j) with (bj_BatchID j') in *.
    apply bind_stable; [done|tame_tac|]. intros [?|?]; [apply quiet_ok; tame_tac|].
    apply bind_stable; [done|tame_tac|]. intros answer. apply bind_stable; [done|tame_tac|]. intros reason.
    case_match; [|apply release_and_fail_ok]. case_match; [apply submit_accepted_ok|apply release_and_fail_ok].
Qed.

Lemma submit_created_ok i owner req j : owner_ok i j (submit_created cfg owner req j).
Proof.
  pose proof (stable_owns i (bj_BatchID j)) as Hs.
  unfold submit_created. apply try_stable; [done|tame_tac|]. intros ?.
  apply bind_stable; [done|tame_tac|]. intros [e|?]; [apply submission_failed_ok|].
  apply bind_stable; [done|tame_tac|]. intros [e|?]; [apply release_and_fail_ok|apply submit_upstream_ok].
Qed.

Lemma submit_new_ok owner req key : tame false (submit_new cfg owner req key).
Proof.
  unfold submit_new, GetBatchImageJobByBatchIDForOwner.
  apply tame_job_try; [apply (tame_loud exec); tame_tac|]. intros ?.
  apply tame_bind; [apply (tame_loud exec); tame_tac|]. intros quote.
  apply tame_bind; [apply (tame_loud exec); tame_tac|]. intros reason.
  case_match; [|apply tame_ret].
  apply tame_job_try; [apply (tame_loud exec); tame_tac|]. intros parent.
  apply tame_bind; [apply (tame_loud exec); tame_tac|]. intros random i.
  eapply (triple_bind exec Inv Rely); [apply (triple_loud exec) with (q := true); by apply insert_ok|].
  intros [e|j]; [apply job_done_ok|]. simpl. apply submit_created_ok.
Qed.

Lemma tame_submit owner req key : tame false (Submit cfg owner req key).
Proof.
  unfold Submit. case_match; [apply tame_ret|].
  apply tame_bind; [apply (tame_loud exec); tame_tac|]. intros reason.
  apply tame_job_try; [apply (tame_loud exec); tame_tac|]. intros ?. cbv zeta.
  case_match; [apply submit_new_ok|].
  apply tame_bind; [apply (tame_loud exec); tame_tac|]. intros [e|j].
  - case_match; [apply submit_new_ok|apply tame_ret].
  - apply (tame_loud exec). tame_tac.
Qed.
End Handlers.
