(* ===== verification/BatchImageInterleaved.v ===== *)
(** * Batch image jobs: completed jobs are paid, and stay completed

    The invariant lifted to every schedule. *)

From Stdlib Require Import ZArith Lia Ascii String.
From stdpp Require Import base tactics numbers list gmap strings sorting.
From S2P Require Import Prelude GoStrings GoFloat GoTime GoDecimal Programs BillingData UsageBilling UsageBillingExamples UsageBillingCorrect UsageBillingClaims.
From S2P Require Import BatchImageData BatchImage BatchImageSafety BatchImageHandlers.

Open Scope go_scope.
Open Scope string_scope.
Open Scope Z_scope.

#[local] Opaque Z.pow places to_float shortest.

Section Interleaved.
Context `{ShortestDecimal} `{Digest} `{UnicodeCase} `{SqlText} `{CodexOwners} `{Location}.
Variable cfg : BatchImageConfig.

(** What may be started, any number of times. *)
Inductive request :=
| DoSubmit (owner : BatchImageOwner) (req : BatchImageSubmitRequest) (idempotencyKey : string)
| DoHeartbeat (ticks : nat) (batchID : string)
| DoWork (batchID : string)
| DoSettle (batchID : string)
| DoCancel (owner : BatchImageOwner) (batchID : string)
| DoRecover
| DoMarkDownloaded (owner : BatchImageOwner) (batchID : string)
| DoDeleteRecord (owner : BatchImageOwner) (batchID : string)
| DoDeleteOutputs (owner : BatchImageOwner) (batchID : string)
| DoCleanUp.

Definition drop {A} (p : prog stmt A) : prog stmt unit := _ ← p; Ret tt.

Definition handle (r : request) : prog stmt unit :=
  match r with
  | DoSubmit owner req key => drop (Submit cfg owner req key)
  | DoHeartbeat ticks b => drop (runSubmitHeartbeat ticks b)
  | DoWork b => drop (PipelineProcess cfg b)
  | DoSettle b => drop (Settle cfg b)
  | DoCancel owner b => drop (Cancel owner b)
  | DoRecover => drop (ReleaseStaleUnsubmittedOnce cfg)
  | DoMarkDownloaded owner b => drop (MarkDownloaded owner b)
  | DoDeleteRecord owner b => drop (DeleteRecord owner b)
  | DoDeleteOutputs owner b => drop (DeleteOutputsForOwner owner b)
  | DoCleanUp => drop (RunOnce cfg)
  end.

(** Time passes; other billing happens, with its charges, holds and clean-ups. *)
Inductive outside := Elapse (d : Z) | Ledger (b : billing_step).

Definition happen (e : outside) (s : BatchDB) : BatchDB :=
  match e with
  | Elapse d => set_clock (bi_now s + d) s
  | Ledger b => put_billing (perform b (bi_billing s)) s
  end.

Definition batch_pool : Type := pool (op := stmt) (S := BatchDB) (R := unit).
Definition batch_move : Type := move (op := stmt) (W := world) (E := outside) (R := unit).

Definition is_handler (p : prog stmt unit) : Prop := ∃ r, p = handle r.

(** [p] is reached from [q] by the moves [ms], which start handlers only. *)
Definition runs (q : batch_pool) (ms : list batch_move) (p : batch_pool) : Prop :=
  Forall (admissible is_handler) ms ∧ play exec happen ms q = Some p.

(** No job yet, no thread, and consistent claims. *)
Definition start (s : BatchDB) : batch_pool := mkPool s ∅.

Definition fresh (s : BatchDB) : Prop :=
  bi_jobs s = ∅ ∧ bi_creator s = ∅ ∧ claims_agree (bi_billing s).

Lemma drop_job_tame {A} (p : prog stmt A) : tame exec Inv Rely false p → tame exec Inv Rely false (drop p).
Proof. intros Hp. apply tame_bind; [done|]. intros ?. apply tame_ret. Qed.

Lemma handle_job_tame r : tame exec Inv Rely false (handle r).
Proof.
  destruct r; apply drop_job_tame; [apply tame_submit|apply (tame_loud exec)..].
  - apply tame_heartbeat.
  - apply tame_pipeline.
  - apply tame_settle.
  - apply tame_cancel.
  - apply tame_recovery.
  - apply tame_downloaded.
  - apply tame_delete_record.
  - apply tame_delete_outputs.
  - apply tame_run_once.
Qed.

Lemma happen_job_ok e s : Inv s → Inv (happen e s) ∧ ∀ j, Rely j s (happen e s).
Proof.
  intros Hi. destruct e as [d|b]; simpl.
  - apply ledger_keeps; [done|done|reflexivity|done].
  - apply ledger_keeps; [done|done| |done]. simpl. eapply kept_grow, step_kept.
Qed.

Abbreviation ok := (pool_ok (R := unit) exec Inv Rely).

Lemma fresh_ok s : fresh s → ok (start s).
Proof.
  intros (Hj & Hc & Ha). split; simpl.
  - split; [done|by intros b j; rewrite Hj|by intros b x; rewrite Hc|by intros b j; rewrite Hj].
  - intros i q. by rewrite lookup_empty.
Qed.

Lemma safe_handler i q s : is_handler q → Inv s → safe exec Inv Rely false i (λ _ _, True) q s.
Proof. intros [r ->] Hs. by apply (handle_job_tame r i s Hs). Qed.

Lemma runs_ok q ms p : ok q → runs q ms p → ok p.
Proof.
  intros Hq [Hms Hp].
  exact (play_safe exec happen Inv Rely is_handler safe_handler happen_job_ok ms q p Hms Hq Hp).
Qed.

(** ** Theorems *)

(** C4. Whatever the interleaving, failures, lost answers and crashes: a job that is
    completed, or completed with its output deleted, has the capture of its hold
    claimed in the ledger under its own request id, with the fingerprint of its owner,
    hold and manifest and of the very cost that the job shows. *)
Theorem completed_job_captured s ms p b j :
  fresh s → runs (start s) ms p → bi_jobs (pl_store p) !! b = Some j → is_settled j →
  captured (bi_billing (pl_store p)) j.
Proof.
  intros Hs Hp Hj Hset. pose proof (runs_ok _ _ _ (fresh_ok s Hs) Hp) as [Hi _].
  by eapply (inv_captured _ Hi).
Qed.

(** C5. A completed job stays completed, at most its output is deleted: no worker,
    cancellation, recovery or submission that failed takes it back, and its cost and
    manifest are final. *)
Theorem settled_job_final s ms ns p q b j :
  fresh s → runs (start s) ms p → runs p ns q → bi_jobs (pl_store p) !! b = Some j → is_settled j →
  ∃ j', bi_jobs (pl_store q) !! b = Some j' ∧ bj_terms j' = bj_terms j ∧ is_settled j'
    ∧ bj_actual_cost j' = bj_actual_cost j ∧ bj_ManifestHash j' = bj_ManifestHash j.
Proof.
  intros Hs Hp [Hns Hq] Hj Hset. pose proof (runs_ok _ _ _ (fresh_ok s Hs) Hp) as Hok.
  destruct (some_silent ns) as [i Hi].
  pose proof (play_relies exec happen Inv Rely is_handler safe_handler happen_job_ok i ns p q Hns Hi Hok Hq) as [_ _ J].
  destruct (J _ _ Hj) as (j' & Hj' & [T S _]). destruct (S Hset) as (? & ? & ?). by exists j'.
Qed.
End Interleaved.

(** ** A job from its submission to its completion *)

Section Examples.
#[local] Existing Instances ascii_case FewestDigits plain_digest demo_sql demo_owners.
#[local] Instance batch_utc : Location := fixed_zone 0.

Definition demo_batch_config : BatchImageConfig := mkBatchImageConfig true 0 0 0 0 0 0 0 0.

Definition demo_owner : BatchImageOwner := mkOwner 7 3.

Definition demo_request : BatchImageSubmitRequest := mkSubmitRequest "m" "" "h" [("a", "a cat"); ("b", "a dog")].

(** Everything goes well: one image is made, the other is missing from the output. *)
Definition demo_world (unit_price hold : float64) : world :=
  mkWorld Commits true true "" "00" (Some (mkQuote BatchImageProviderVertex 9 hold hold unit_price)) None
    (Some (Some (mkProviderJob "job" "in" "out")))
    (Some (Some (mkProviderStatus BatchProviderStateSucceeded "out" "" 0)))
    (Some [ResultLine (mkParsed "a" BatchImageParsedStatusSucceeded 1 "")]).

Definition no_batches (d : BillingDB) : BatchDB := mkBatchDB demo_noon ∅ 1 ∅ d ∅.

Definition calls (i n : nat) (w : world) : list batch_move := replicate n (Call i w).

(** A submission, a worker that indexes the output, a worker that settles. *)
Definition demo_moves (w : world) : list batch_move :=
  Spawn 0%nat (handle demo_batch_config (DoSubmit demo_owner demo_request "k")) :: calls 0 18 w ++
  Spawn 1%nat (handle demo_batch_config (DoWork "imgbatch_00")) :: calls 1 13 w ++
  Spawn 2%nat (handle demo_batch_config (DoWork "imgbatch_00")) :: calls 2 7 w.

Definition demo_job (q : option batch_pool) : option BatchImageJob :=
  p ← q; bi_jobs (pl_store p) !! "imgbatch_00".

Definition demo_run (ms : list batch_move) : option batch_pool :=
  play exec happen ms (start (no_batches demo_billing)).

(** Free images settle without touching the balance. *)
Definition free_moves : list batch_move := demo_moves (demo_world fzero fzero).

Lemma demo_completes :
  (one_of [BatchImageJobStatusCompleted] ∘ bj_Status <$> demo_job (demo_run free_moves)) = Some true.
Proof. vm_compute. reflexivity. Qed.

Lemma demo_runs :
  fresh (no_batches demo_billing) ∧
  ∃ p j, runs demo_batch_config (start (no_batches demo_billing)) free_moves p ∧
    bi_jobs (pl_store p) !! "imgbatch_00" = Some j ∧ is_settled j.
Proof.
  split; [done|]. pose proof demo_completes as Hc. unfold demo_job in Hc.
  destruct (demo_run free_moves) as [p|] eqn:Hp; [|discriminate Hc]. simpl in Hc.
  destruct (bi_jobs (pl_store p) !! "imgbatch_00") as [j|] eqn:Hj; [|discriminate Hc].
  exists p, j. split; [split; [|exact Hp]|split; [exact Hj|]].
  - unfold free_moves, demo_moves, calls. cbn [replicate app].
    repeat (apply Forall_cons; split; [first [exact I|by eexists]|]). by apply Forall_nil.
  - unfold is_settled. simpl. injection Hc as Hc. unfold one_of in Hc. simpl in Hc. rewrite orb_false_r in Hc.
    by rewrite Hc.
Qed.

(** Two submissions with one idempotency key, both past the search for it before
    either inserts its job; the index on the key is not unique. *)
Definition twice_world (random : string) : world :=
  mkWorld Commits true true "" random (Some (mkQuote BatchImageProviderVertex 9 fzero fzero fzero)) None
    (Some (Some (mkProviderJob "job" "in" "out"))) None None.

Definition twice_moves : list batch_move :=
  let submit := handle demo_batch_config (DoSubmit demo_owner demo_request "k") in
  Spawn 0%nat submit :: Spawn 1%nat submit ::
  calls 0 3 (twice_world "00") ++ calls 1 3 (twice_world "01") ++
  calls 0 15 (twice_world "00") ++ calls 1 15 (twice_world "01").

Definition submitted_with (key : string) (p : batch_pool) : list string :=
  (filter (λ bj : string * BatchImageJob, tm_IdempotencyKey (bj_terms bj.2) = Some key
             ∧ bj_Status bj.2 = BatchImageJobStatusSubmitted) (map_to_list (bi_jobs (pl_store p)))).*1.

(** One request is carried out twice under one idempotency key. *)
Example key_submitted_twice :
  (length ∘ submitted_with "k" <$> demo_run twice_moves) = Some 2%nat.
Proof. vm_compute. reflexivity. Qed.

Lemma completed_job_captured_witness :
  ∃ (p : batch_pool) j, bi_jobs (pl_store p) !! "imgbatch_00" = Some j ∧ captured (bi_billing (pl_store p)) j.
Proof.
  destruct demo_runs as [Hf (p & j & Hp & Hj & Hs)]. exists p, j. split; [exact Hj|].
  exact (completed_job_captured demo_batch_config _ _ p _ j Hf Hp Hj Hs).
Defined.

Lemma settled_job_final_witness :
  ∃ (p : batch_pool) j j', bi_jobs (pl_store p) !! "imgbatch_00" = Some j' ∧ is_settled j'
    ∧ bj_actual_cost j' = bj_actual_cost j.
Proof.
  destruct demo_runs as [Hf (p & j & Hp & Hj & Hs)].
  assert (runs demo_batch_config p [Env (Elapse Hour); Crash 0%nat]
            (mkPool (happen (Elapse Hour) (pl_store p)) (delete 0%nat (pl_threads p)))) as Hq.
  { split; [repeat constructor|reflexivity]. }
  destruct (settled_job_final demo_batch_config _ _ _ p _ _ j Hf Hp Hq Hj Hs) as (j' & Hj' & _ & Hs' & Hc & _).
  exists (mkPool (happen (Elapse Hour) (pl_store p)) (delete 0%nat (pl_threads p))), j, j'.
  split; [exact Hj'|]. by split.
Defined.
End Examples.
