(* ===== verification/BatchImageIndexing.v ===== *)
(** * Batch image jobs: the output of a provider is reconciled

    After a job is indexed its items are exactly the items that were submitted, each
    once, and the counts that settlement charges for are the counts of the items. *)

From Stdlib Require Import ZArith Lia Ascii String.
From stdpp Require Import base tactics numbers list gmap strings sorting.
From S2P Require Import Prelude GoStrings GoFloat GoTime GoDecimal Programs BillingData UsageBilling UsageBillingExamples.
From S2P Require Import BatchImageData BatchImage.

Open Scope go_scope.
Open Scope string_scope.
Open Scope Z_scope.

(** ** The lines *)

Definition is_success (p : CreateBatchImageItemParams) : bool :=
  String.eqb (ci_Status p) BatchImageItemStatusSuccess.

Fixpoint count_if {A} (f : A → bool) (l : list A) : Z :=
  match l with
  | [] => 0
  | a :: l => if f a then 1 + count_if f l else count_if f l
  end.

Lemma count_if_app {A} (f : A → bool) l k : count_if f (l ++ k) = count_if f l + count_if f k.
Proof. induction l as [|a l IH]; simpl; [done|]. rewrite IH. destruct (f a); lia. Qed.

Lemma count_if_split {A} (f : A → bool) l : count_if f l + count_if (negb ∘ f) l = Z.of_nat (length l).
Proof. induction l as [|a l IH]; simpl; [done|]. destruct (f a); simpl; lia. Qed.

(** The state of the loop: items are those seen, once each, and counted. *)
Record index_inv (expected : gset string) (x : index_state) : Prop := {
  xi_ids : ci_CustomID <$> ix_items x ≡ₚ elements (ix_seen x);
  xi_known : expected ≠ ∅ → ix_seen x ⊆ expected;
  xi_success : ix_success x = count_if is_success (ix_items x);
  xi_fail : ix_fail x = count_if (negb ∘ is_success) (ix_items x)
}.

Lemma index_start_inv expected : index_inv expected index_start.
Proof. split; simpl; [by rewrite elements_empty|set_solver|done|done]. Qed.

Lemma indexed_item_success p : is_success (indexed_item p) = succeeded p.
Proof. unfold is_success, indexed_item. simpl. by destruct (succeeded p). Qed.

Lemma index_line_inv expected p x :
  index_inv expected x → pr_CustomID p ∉ ix_seen x → (expected ≠ ∅ → pr_CustomID p ∈ expected) →
  index_inv expected (index_line p x).
Proof.
  intros [I K S F] Hn Hk. split; simpl.
  - rewrite fmap_app, elements_union_singleton by done. simpl. rewrite I.
    symmetry. apply Permutation_cons_append.
  - intros He. specialize (K He). specialize (Hk He). set_solver.
  - rewrite count_if_app, S. simpl. rewrite indexed_item_success. destruct (succeeded p); lia.
  - rewrite count_if_app, F. simpl. rewrite indexed_item_success. destruct (succeeded p); simpl; lia.
Qed.

Lemma index_lines_inv expected lines x y :
  index_inv expected x → index_lines expected lines x = inr y → index_inv expected y.
Proof.
  revert x. induction lines as [|[| |p|t] lines IH]; intros x Hx; simpl; [by intros [= <-]|by apply IH|done| |done].
  destruct (negb (bool_decide (expected = ∅)) && bool_decide (pr_CustomID p ∉ expected)) eqn:Hu.
  { apply IH. by destruct Hx. }
  destruct (bool_decide (pr_CustomID p ∈ ix_seen x)) eqn:Hs; [done|]. apply IH.
  apply bool_decide_eq_false in Hs. apply index_line_inv; [done|done|]. intros He.
  apply andb_false_iff in Hu as [Hu|Hu]; [rewrite bool_decide_false in Hu by done; done|].
  apply bool_decide_eq_false in Hu. by destruct (decide (pr_CustomID p ∈ expected)).
Qed.

Lemma missing_not_success ids : count_if is_success (missing_item <$> ids) = 0.
Proof. by induction ids as [|i ids IH]. Qed.

(** The whole of the output, when the submitted items are known. *)
Lemma index_output_spec expected lines x :
  expected ≠ ∅ → index_output expected lines = inr x →
  ci_CustomID <$> ix_items x ≡ₚ elements expected ∧
  ix_success x = count_if is_success (ix_items x) ∧
  ix_fail x = count_if (negb ∘ is_success) (ix_items x).
Proof.
  intros He. unfold index_output. destruct (index_lines expected lines index_start) as [|y] eqn:Hy; [done|].
  pose proof (index_lines_inv _ _ _ _ (index_start_inv expected) Hy) as [I K S F].
  case_match; [done|]. intros [= <-]. simpl. split_and!.
  - rewrite fmap_app, <-list_fmap_compose. unfold compose. simpl. rewrite list_fmap_id, I.
    rewrite <-elements_disj_union by set_solver. apply elements_proper.
    specialize (K He). by rewrite <-union_difference_L.
  - by rewrite count_if_app, missing_not_success, S, Z.add_0_r.
  - rewrite count_if_app, F. pose proof (count_if_split is_success (missing_item <$> elements (expected ∖ ix_seen y))) as Hc.
    rewrite missing_not_success, length_fmap in Hc. lia.
Qed.

(** ** The rows the lines call for *)

(** What becomes of a submitted item: the outcome its line reports, or a failure when
    no line has its id.  The prompt that was recorded is kept. *)
Inductive line_outcome (lines : list result_line) (id : string) (new : BatchImageItem) : Prop :=
| outcome_succeeded p :
    ResultLine p ∈ lines → pr_CustomID p = id → pr_Status p = "succeeded" →
    it_Status new = "success" → it_ImageCount new = pr_ImageCount p → it_ErrorCode new = None →
    line_outcome lines id new
| outcome_failed p :
    ResultLine p ∈ lines → pr_CustomID p = id → pr_Status p ≠ "succeeded" →
    it_Status new = "failed" → it_ImageCount new = pr_ImageCount p →
    it_ErrorCode new = batchImageOptionalStringPtr (pr_ErrorCode p) → line_outcome lines id new
| outcome_missing :
    (∀ p, ResultLine p ∈ lines → pr_CustomID p ≠ id) →
    it_Status new = "failed" → it_ImageCount new = 0 → it_ErrorCode new = Some "PROVIDER_RESULT_MISSING" →
    line_outcome lines id new.

Record item_reconciled (lines : list result_line) (id : string) (old new : BatchImageItem) : Prop := {
  ir_outcome : line_outcome lines id new;
  ir_prompt : default "" (it_PromptPreview new) = default "" (it_PromptPreview old)
}.

(** Every item comes from a line, and every line of a submitted item is seen. *)
Lemma index_lines_rows expected lines x y :
  expected ≠ ∅ → index_lines expected lines x = inr y →
  (∀ q, q ∈ ix_items y → q ∈ ix_items x ∨ ∃ p, ResultLine p ∈ lines ∧ q = indexed_item p) ∧
  (∀ p, ResultLine p ∈ lines → pr_CustomID p ∈ expected → pr_CustomID p ∈ ix_seen y) ∧ ix_seen x ⊆ ix_seen y.
Proof.
  intros He. revert x. induction lines as [|[| |p|t] lines IH]; intros x; simpl; [| |done| |done].
  - intros [= <-]. split; [by left|]. split; [|done]. by intros p ?%not_elem_of_nil.
  - intros Hy. destruct (IH _ Hy) as (H1 & H2 & H3). split; [|split; [|done]].
    + intros q Hq. destruct (H1 q Hq) as [?|(p & Hp & ->)]; [by left|right; exists p]. split; [by right|done].
    + intros p [?|Hp]%elem_of_cons; [done|by apply H2].
  - rewrite bool_decide_false by done. simpl. destruct (bool_decide (pr_CustomID p ∉ expected)) eqn:Hu.
    { apply bool_decide_eq_true in Hu. intros Hy. destruct (IH _ Hy) as (H1 & H2 & H3). split; [|split; [|done]].
      - intros q Hq. destruct (H1 q Hq) as [?|(p' & Hp & ->)]; [by left|right; exists p']. split; [by right|done].
      - intros p' [[= ->]|Hp]%elem_of_cons Hin; [done|by apply H2]. }
    destruct (bool_decide (pr_CustomID p ∈ ix_seen x)); [done|]. intros Hy. destruct (IH _ Hy) as (H1 & H2 & H3).
    simpl in H1, H3. split; [|split; [|set_solver]].
    + intros q Hq. destruct (H1 q Hq) as [[?|Hq']%elem_of_app|(p' & Hp & ->)]; [by left|right; exists p|right; exists p'].
      * apply list_elem_of_singleton in Hq'. split; [by left|done].
      * split; [by right|done].
    + intros p' [[= ->]|Hp]%elem_of_cons Hin; [set_solver|by apply H2].
Qed.

Lemma index_output_rows expected lines x q :
  expected ≠ ∅ → index_output expected lines = inr x → q ∈ ix_items x →
  (∃ p, ResultLine p ∈ lines ∧ q = indexed_item p) ∨
  (∃ id, (∀ p, ResultLine p ∈ lines → pr_CustomID p ≠ id) ∧ q = missing_item id).
Proof.
  intros He. unfold index_output. destruct (index_lines expected lines index_start) as [|y] eqn:Hy; [done|].
  case_match; [done|]. intros [= <-]. destruct (index_lines_rows _ _ _ _ He Hy) as (Hfrom & Hseen & _). simpl.
  intros [Hq|(id & -> & Hid%elem_of_elements)%list_elem_of_fmap]%elem_of_app.
  - destruct (Hfrom q Hq) as [?%not_elem_of_nil|?]; [done|by left].
  - right. exists id. split; [|done]. intros p Hp <-. set_solver.
Qed.

(** ** The items of the job *)

Definition item_row (p : CreateBatchImageItemParams) : BatchImageItem :=
  mkBatchImageItem (ci_Status p) (ci_PromptPreview p) (ci_ImageCount p) (ci_ErrorCode p).

Definition item_entry (b : string) (p : CreateBatchImageItemParams) : (string * string) * BatchImageItem :=
  ((b, ci_CustomID p), item_row p).

(** Rows of one job, as a map. *)
Definition new_items (b : string) (ps : list CreateBatchImageItemParams) : gmap (string * string) BatchImageItem :=
  list_to_map (item_entry b <$> ps).

Lemma item_keys b ps : NoDup (ci_CustomID <$> ps) → NoDup (item_entry b <$> ps).*1.
Proof.
  intros Hn. rewrite <-list_fmap_compose. change (fst ∘ item_entry b) with (pair b ∘ ci_CustomID).
  rewrite list_fmap_compose. by apply NoDup_fmap_2; [intros ?? [=]|].
Qed.

Lemma new_items_lookup b ps k : is_Some (new_items b ps !! k) ↔ k.1 = b ∧ k.2 ∈ ci_CustomID <$> ps.
Proof.
  unfold new_items. rewrite <-elem_of_dom, dom_list_to_map, elem_of_list_to_set, <-list_fmap_compose.
  rewrite !list_elem_of_fmap. destruct k as [b' id]. simpl. split.
  - intros (p & [= -> ->] & Hp). eauto.
  - intros (-> & p & -> & Hp). by exists p.
Qed.

Lemma new_items_row b ps p :
  NoDup (ci_CustomID <$> ps) → p ∈ ps → new_items b ps !! (b, ci_CustomID p) = Some (item_row p).
Proof.
  intros Hn Hp. unfold new_items. apply elem_of_list_to_map_1; [by apply item_keys|].
  apply list_elem_of_fmap. by exists p.
Qed.

(** How many rows satisfy a test. *)
Definition rows_where (f : BatchImageItem → bool) (m : gmap (string * string) BatchImageItem) : Z :=
  Z.of_nat (size (filter (λ ki, f ki.2 = true) m)).

Lemma rows_where_list f (l : list ((string * string) * BatchImageItem)) :
  NoDup l.*1 → rows_where f (list_to_map l) = count_if (f ∘ snd) l.
Proof.
  unfold rows_where. induction l as [|[k x] l IH]; simpl; [by rewrite map_filter_empty, map_size_empty|].
  intros [Hn Hnd]%NoDup_cons. specialize (IH Hnd).
  assert (list_to_map (M := gmap (string * string) BatchImageItem) l !! k = None) as Hk
    by by apply not_elem_of_list_to_map_1.
  rewrite map_filter_insert. simpl. destruct (f x) eqn:Hf.
  - rewrite decide_True by done. rewrite map_size_insert_None; [lia|].
    apply map_lookup_filter_None. by left.
  - rewrite decide_False by done. by rewrite delete_id.
Qed.

Lemma count_if_fmap {A B} (f : B → bool) (g : A → B) l : count_if f (g <$> l) = count_if (f ∘ g) l.
Proof. induction l as [|a l IH]; [done|]. rewrite fmap_cons. cbn [count_if]. by rewrite IH. Qed.

Definition row_success (x : BatchImageItem) : bool := String.eqb (it_Status x) BatchImageItemStatusSuccess.

Lemma new_items_success b ps :
  NoDup (ci_CustomID <$> ps) → rows_where row_success (new_items b ps) = count_if is_success ps.
Proof.
  intros Hn. unfold new_items. rewrite rows_where_list by by apply item_keys.
  exact (count_if_fmap (row_success ∘ snd) (item_entry b) ps).
Qed.

Lemma new_items_failed b ps :
  NoDup (ci_CustomID <$> ps) → rows_where (negb ∘ row_success) (new_items b ps) = count_if (negb ∘ is_success) ps.
Proof.
  intros Hn. unfold new_items. rewrite rows_where_list by by apply item_keys.
  exact (count_if_fmap (negb ∘ row_success ∘ snd) (item_entry b) ps).
Qed.

Lemma bulk_create_run b ps s :
  NoDup (ci_CustomID <$> ps) → (∀ p, p ∈ ps → bi_items s !! (b, ci_CustomID p) = None) →
  BulkCreateBatchImageItems b ps s = inr (tt, put_items (new_items b ps ∪ bi_items s) s).
Proof.
  revert s. induction ps as [|p ps IH]; intros s.
  { intros _ _. simpl. unfold new_items. simpl. rewrite (left_id_L ∅ (∪)). by destruct s. }
  intros [Hn Hnd]%NoDup_cons Hf. simpl. unfold createBatchImageItem, mbind, jtx_bind, read, modify.
  rewrite Hf by set_solver. rewrite IH; [|done|].
  - assert (new_items b ps !! (b, ci_CustomID p) = None) as Hk.
    { apply eq_None_not_Some. rewrite new_items_lookup. by intros [_ ?]. }
    simpl. do 2 f_equal. unfold put_items. simpl. f_equal.
    rewrite <-insert_union_r by done. by rewrite insert_union_l.
  - intros q Hq. simpl. rewrite lookup_insert_ne; [apply Hf; set_solver|].
    intros [=]. apply Hn. apply list_elem_of_fmap. eauto.
Qed.

Lemma with_preview_ids old b (ps : list CreateBatchImageItemParams) : ci_CustomID <$> (with_preview old b <$> ps) = ci_CustomID <$> ps.
Proof.
  rewrite <-list_fmap_compose. apply list_fmap_ext. intros _ p _. unfold compose, with_preview.
  repeat case_match; done.
Qed.

Lemma with_preview_status old b p : ci_Status (with_preview old b p) = ci_Status p.
Proof. unfold with_preview. repeat case_match; done. Qed.

Lemma count_if_ext {A} (f g : A → bool) l : (∀ a, f a = g a) → count_if f l = count_if g l.
Proof. intros E. induction l as [|a l IH]; simpl; [done|]. by rewrite E, IH. Qed.

Lemma with_preview_count old b (ps : list CreateBatchImageItemParams) :
  count_if is_success (with_preview old b <$> ps) = count_if is_success ps ∧
  count_if (negb ∘ is_success) (with_preview old b <$> ps) = count_if (negb ∘ is_success) ps.
Proof.
  rewrite !count_if_fmap. split; apply count_if_ext; intros p; unfold compose, is_success;
    by rewrite with_preview_status.
Qed.

Lemma other_items_none (b : string) (m : gmap (string * string) BatchImageItem) (id : string) :
  filter (λ ki, ki.1.1 ≠ b) m !! (b, id) = None.
Proof. apply map_lookup_filter_None. right. by intros x _ []. Qed.

(** The transaction that replaces the items of a job. *)
Lemma replace_items_run b ps sc fc s u s' :
  NoDup (ci_CustomID <$> ps) → ReplaceBatchImageItemsForJob b ps sc fc s = inr (u, s') →
  bi_items s' = new_items b (with_preview (items_of b s) b <$> ps) ∪ filter (λ ki, ki.1.1 ≠ b) (bi_items s) ∧
  bi_billing s' = bi_billing s ∧
  ∃ row, bi_jobs s !! b = Some row ∧
    bi_jobs s' = <[b := set_counts (sc, fc) (set_updated_at (bi_now s) row)]> (bi_jobs s).
Proof.
  intros Hn. unfold ReplaceBatchImageItemsForJob, query_job, mbind, jtx_bind, read, modify, fail, update_job.
  destruct (bi_jobs s !! b) as [row|] eqn:Hrow; [|done]. simpl. destruct (negb _); [done|]. simpl.
  rewrite bulk_create_run; simpl.
  - rewrite Hrow. simpl. intros [= _ <-]. simpl. split; [done|]. split; [done|]. by exists row.
  - by rewrite with_preview_ids.
  - intros p _. apply other_items_none.
Qed.

Definition job_rows (b : string) (f : BatchImageItem → bool) (s : BatchDB) : Z := rows_where f (items_of b s).

Lemma rows_where_split f m : rows_where f m + rows_where (negb ∘ f) m = Z.of_nat (size m).
Proof.
  rewrite <-(list_to_map_to_list m) at 1 2. rewrite !rows_where_list by apply NoDup_fst_map_to_list.
  rewrite <-length_map_to_list. apply (count_if_split (f ∘ snd)).
Qed.

(** The rows of a job after its items were replaced. *)
Lemma items_of_union (b : string) (ps : list CreateBatchImageItemParams) (m : gmap (string * string) BatchImageItem) :
  filter (λ ki, ki.1.1 = b) (new_items b ps ∪ filter (λ ki, ki.1.1 ≠ b) m) = new_items b ps.
Proof.
  apply map_eq. intros [b' id]. destruct (decide (b' = b)) as [->|Hne].
  - destruct (new_items b ps !! (b, id)) as [x|] eqn:E.
    + apply map_lookup_filter_Some. split; [by apply lookup_union_Some_l|done].
    + apply map_lookup_filter_None. left. rewrite lookup_union, E, other_items_none. done.
  - transitivity (None (A := BatchImageItem)).
    + apply map_lookup_filter_None. right. by intros x _.
    + symmetry. apply eq_None_not_Some. rewrite new_items_lookup. by intros [? _].
Qed.

Section Index.
Context `{ShortestDecimal} `{Digest}.

(** The program, run alone, in one step. *)
Lemma index_run i w s j counts s' :
  solo exec i w (Index j) s = (inr counts, s') →
  ∃ lines x, w_output w = Some lines ∧
    index_output (list_to_set (snd <$> (map_to_list (items_of (bj_BatchID j) s)).*1)) lines = inr x ∧
    counts = (ix_success x, ix_fail x) ∧
    ∃ u, ReplaceBatchImageItemsForJob (bj_BatchID j) (ix_items x) (ix_success x) (ix_fail x) s = inr (u, s').
Proof.
  unfold Index, try, sql, call. simpl. unfold run_sql at 1. destruct (w_outcome w) eqn:Ho; simpl; [|done|done].
  destruct (w_output w) as [lines|]; [|done]. simpl. destruct (index_output _ lines) as [e|x] eqn:Hx; [done|].
  simpl. rewrite Ho. unfold run_sql. destruct (ReplaceBatchImageItemsForJob _ _ _ _ s) as [e|[u s2]] eqn:Hr; [done|].
  simpl. intros [= <- <-]. exists lines, x. split_and!; [done..|]. by exists u.
Qed.

Lemma expected_ids b (s : BatchDB) id :
  id ∈ (list_to_set (C := gset string) (snd <$> (map_to_list (items_of b s)).*1)) ↔ is_Some (bi_items s !! (b, id)).
Proof.
  rewrite elem_of_list_to_set, list_elem_of_fmap. split.
  - intros ([b' id'] & -> & ([k x] & Hk & Hx)%list_elem_of_fmap). simpl in Hk. subst k.
    apply elem_of_map_to_list, map_lookup_filter_Some in Hx as [Hx Hb]. simpl in *. subst b'. by eexists.
  - intros [x Hx]. exists (b, id). split; [done|]. apply list_elem_of_fmap. exists ((b, id), x). split; [done|].
    by apply elem_of_map_to_list, map_lookup_filter_Some.
Qed.

(** A row written by the transaction is what the lines call for. *)
Lemma with_preview_reconciled (expected : gset string) (lines : list result_line) (x : index_state) (b : string) (m : gmap (string * string) BatchImageItem) q old :
  expected ≠ ∅ → index_output expected lines = inr x → q ∈ ix_items x →
  m !! (b, ci_CustomID q) = Some old → item_reconciled lines (ci_CustomID q) old (item_row (with_preview m b q)).
Proof.
  intros He Hx Hq Hold.
  assert (ci_PromptPreview q = None ∧ line_outcome lines (ci_CustomID q) (item_row q)) as [Hnone Hout].
  { destruct (index_output_rows _ _ _ _ He Hx Hq) as [(p & Hp & ->)|(id & Hno & ->)]; split; try done.
    - unfold indexed_item, succeeded. destruct (String.eqb_spec (pr_Status p) BatchImageParsedStatusSucceeded) as [Hs|Hs].
      + by apply (outcome_succeeded _ _ _ p).
      + by apply (outcome_failed _ _ _ p).
    - by apply outcome_missing. }
  unfold with_preview. rewrite Hnone, Hold. destruct old as [st [preview|] n e]; simpl; [|by split; simpl; rewrite ?Hnone].
  destruct (String.eqb_spec preview "") as [->|]; split; simpl; rewrite ?Hnone; try done.
  destruct Hout as [p ? ? ? ? ? ?|p ? ? ? ? ? ?|?]; simpl in *;
    [by apply (outcome_succeeded _ _ _ p)|by apply (outcome_failed _ _ _ p)|by apply outcome_missing].
Qed.

(** What the program leaves in the database, with the rows it writes. *)
Lemma index_rows i w s j sc fc s' :
  let b := bj_BatchID j in
  items_of b s ≠ ∅ → solo exec i w (Index j) s = (inr (sc, fc), s') →
  ∃ lines ps, w_output w = Some lines ∧ NoDup (ci_CustomID <$> ps) ∧
    (∀ id, id ∈ ci_CustomID <$> ps ↔ is_Some (bi_items s !! (b, id))) ∧
    (∀ q old, q ∈ ps → bi_items s !! (b, ci_CustomID q) = Some old → item_reconciled lines (ci_CustomID q) old (item_row q)) ∧
    sc = count_if is_success ps ∧ fc = count_if (negb ∘ is_success) ps ∧
    bi_items s' = new_items b ps ∪ filter (λ ki, ki.1.1 ≠ b) (bi_items s) ∧ bi_billing s' = bi_billing s ∧
    ∃ row, bi_jobs s !! b = Some row ∧
      bi_jobs s' = <[b := set_counts (sc, fc) (set_updated_at (bi_now s) row)]> (bi_jobs s).
Proof.
  intros b Hne Hr. apply index_run in Hr as (lines & x & Hout & Hx & [= -> ->] & u & Hrep). fold b in Hx, Hrep.
  set (expected := list_to_set _) in Hx.
  assert (expected ≠ ∅) as He.
  { apply map_choose in Hne as ([b' id] & it & [Hit Hb]%map_lookup_filter_Some). simpl in Hb. subst b'.
    intros E. assert (id ∈ expected) as Hid by (apply expected_ids; by eexists). rewrite E in Hid. set_solver. }
  destruct (index_output_spec _ _ _ He Hx) as (Hids & Hsc & Hfc).
  assert (NoDup (ci_CustomID <$> ix_items x)) as Hnd by (rewrite Hids; apply NoDup_elements).
  destruct (replace_items_run b _ _ _ _ _ _ Hnd Hrep) as (Hitems & Hbill & Hrow).
  destruct (with_preview_count (items_of b s) b (ix_items x)) as [E1 E2].
  exists lines, (with_preview (items_of b s) b <$> ix_items x). rewrite with_preview_ids.
  split; [done|]. split; [done|]. split; [|split; [|by rewrite E1, E2]].
  - intros id. rewrite Hids, elem_of_elements. apply (expected_ids b s).
  - intros ? old (q & -> & Hq)%list_elem_of_fmap.
    assert (ci_CustomID (with_preview (items_of b s) b q) = ci_CustomID q) as -> by (unfold with_preview; repeat case_match; done).
    intros Hold. apply (with_preview_reconciled expected lines x); try done. by apply map_lookup_filter_Some.
Qed.

(** As many rows are written as were submitted. *)
Lemma submitted_count (b : string) (s : BatchDB) (ps : list CreateBatchImageItemParams) :
  NoDup (ci_CustomID <$> ps) → (∀ id, id ∈ ci_CustomID <$> ps ↔ is_Some (bi_items s !! (b, id))) →
  Z.of_nat (length ps) = Z.of_nat (size (items_of b s)).
Proof.
  intros Hn Hids. f_equal. rewrite <-(size_dom (items_of b s)), <-(length_fmap (λ p, (b, ci_CustomID p)) ps).
  rewrite <-(size_list_to_set (C := gset (string * string))).
  - f_equal. apply set_eq. intros [b' id]. rewrite elem_of_list_to_set, elem_of_dom. split.
    + intros (p & [= -> ->] & Hp)%list_elem_of_fmap. destruct (proj1 (Hids (ci_CustomID p))) as [x Hx].
      { apply list_elem_of_fmap. by exists p. }
      exists x. by apply map_lookup_filter_Some.
    + intros [x [Hx Hb]%map_lookup_filter_Some]. simpl in Hb. subst b'.
      pose proof (proj2 (Hids id) (mk_is_Some _ _ Hx)) as (p & -> & Hp)%list_elem_of_fmap. apply list_elem_of_fmap. by exists p.
  - change (λ p, (b, ci_CustomID p)) with (pair b ∘ ci_CustomID). rewrite list_fmap_compose.
    by apply NoDup_fmap_2; [intros ?? [=]|].
Qed.

(** C12. The output of a provider is reconciled with what was submitted, whatever lines it
    has, in whatever order.  After a job with items is indexed, its items are exactly
    the submitted ones: an item whose line reports success is a success with the images
    of that line, one whose line reports anything else is a failure with its error code,
    and one without a line is a failure for want of a result; lines of items that were
    not submitted leave no row.  The counts of the job, which settlement charges for,
    are the numbers of its successful and of its failed rows and add up to the
    submitted items.  Nothing else of the job, no other job, no other job's items and
    no money changes. *)
Theorem index_reconciles i w s j sc fc s' :
  let b := bj_BatchID j in
  items_of b s ≠ ∅ → solo exec i w (Index j) s = (inr (sc, fc), s') →
  ∃ lines, w_output w = Some lines ∧
  (∀ id, match bi_items s !! (b, id) with
         | Some old => ∃ new, bi_items s' !! (b, id) = Some new ∧ item_reconciled lines id old new
         | None => bi_items s' !! (b, id) = None
         end) ∧
  (∀ b' id, b' ≠ b → bi_items s' !! (b', id) = bi_items s !! (b', id)) ∧
  sc = job_rows b row_success s' ∧ fc = job_rows b (negb ∘ row_success) s' ∧
  sc + fc = Z.of_nat (size (items_of b s)) ∧ bi_billing s' = bi_billing s ∧
  ∃ row, bi_jobs s !! b = Some row ∧
    bi_jobs s' = <[b := set_counts (sc, fc) (set_updated_at (bi_now s) row)]> (bi_jobs s).
Proof.
  intros b Hne Hr.
  destruct (index_rows i w s j sc fc s' Hne Hr) as (lines & ps & Hout & Hn & Hids & Hrows & Hsc & Hfc & Hitems & Hbill & Hrow).
  fold b in Hids, Hrows, Hitems, Hrow.
  assert (items_of b s' = new_items b ps) as Hof by (unfold items_of; rewrite Hitems; apply items_of_union).
  assert (∀ id, bi_items s' !! (b, id) = new_items b ps !! (b, id)) as Hat.
  { intros id. rewrite Hitems, lookup_union, other_items_none. apply (right_id_L None _). }
  exists lines. split; [done|]. split; [|split].
  - intros id. specialize (Hids id). rewrite Hat. destruct (bi_items s !! (b, id)) as [old|] eqn:Hold.
    + pose proof (proj2 Hids (mk_is_Some _ _ eq_refl)) as (q & -> & Hq)%list_elem_of_fmap. exists (item_row q).
      split; [by apply new_items_row|by apply Hrows].
    + apply eq_None_not_Some. rewrite new_items_lookup. intros [_ Hin]. by apply Hids in Hin as [? ?].
  - intros b' id Hb. rewrite Hitems, lookup_union_r.
    + rewrite map_lookup_filter. destruct (bi_items s !! (b', id)); simpl; [|done]. by rewrite option_guard_True.
    + apply eq_None_not_Some. rewrite new_items_lookup. by intros [? _].
  - unfold job_rows. rewrite Hof, new_items_success, new_items_failed by done. split; [done|]. split; [done|].
    split; [|done]. rewrite Hsc, Hfc, count_if_split. by apply submitted_count.
Qed.
End Index.

(** ** An output with an unknown line and a missing one *)

Section Examples.
#[local] Existing Instances FewestDigits plain_digest.

Definition demo_terms (unit_price hold : Z) : BatchImageTerms :=
  mkBatchImageTerms 1 "x" 7 (Some 3) (Some 9) BatchImageProviderVertex "m" None 2 hold (Some hold) unit_price 1
    None (Some "h").

Definition demo_row (status : string) (unit_price hold successes failures retries : Z) : BatchImageJob :=
  mkBatchImageJob (demo_terms unit_price hold) status (Some "job") None (Some "out") successes failures None None
    retries 0 None 0 no_times.

Definition demo_item : BatchImageItem := mkBatchImageItem BatchImageItemStatusPending (Some "a cat") 0 None.

Definition demo_batches (j : BatchImageJob) (d : BillingDB) : BatchDB :=
  mkBatchDB demo_noon {["x" := j]} 2
    (list_to_map [(("x", "a"), demo_item); (("x", "b"), demo_item); (("y", "a"), demo_item)]) d {["x" := 0%nat]}.

Definition demo_output : list result_line :=
  [ResultLine (mkParsed "z" BatchImageParsedStatusSucceeded 1 ""); BlankLine;
   ResultLine (mkParsed "b" BatchImageParsedStatusSucceeded 1 "")].

(** A world in which everything succeeds. *)
Definition demo_answers (o : outcome) : world :=
  mkWorld o true true "" "" None None None None (Some demo_output).

Definition demo_index : (job_error + (Z * Z)) * BatchDB :=
  solo exec 0 (demo_answers Commits) (Index (demo_row BatchImageJobStatusIndexing 0 0 0 0 0))
    (demo_batches (demo_row BatchImageJobStatusIndexing 0 0 0 0 0) (one_user 0 0)).

Lemma index_reconciles_witness :
  (∃ new, bi_items demo_index.2 !! ("x", "a") = Some new ∧ item_reconciled demo_output "a" demo_item new) ∧
  job_rows "x" row_success demo_index.2 = 1.
Proof.
  assert (demo_index.1 = inr (1, 1)) as E by (vm_compute; reflexivity).
  destruct (index_reconciles 0%nat (demo_answers Commits)
    (demo_batches (demo_row BatchImageJobStatusIndexing 0 0 0 0 0) (one_user 0 0))
    (demo_row BatchImageJobStatusIndexing 0 0 0 0 0) 1 1 demo_index.2) as (lines & Hl & Hitems & _ & Hs & _).
  - intros Hn. apply (f_equal (λ m : gmap (string * string) BatchImageItem, m !! ("x", "a"))) in Hn.
    vm_compute in Hn. discriminate Hn.
  - rewrite <-E. unfold demo_index. apply surjective_pairing.
  - split; [|exact (eq_sym Hs)]. injection Hl as <-. exact (Hitems "a").
Defined.
End Examples.
