(* ===== verification/BatchImageSettlement.v ===== *)
(** * Batch image jobs: settlement comes to an end

    A worker that settles a job, alone on it: whatever the capture of the hold answers,
    after five runs the job is completed with its hold captured, or failed with its
    hold released. *)

From Stdlib Require Import ZArith Lia Ascii String.
From stdpp Require Import base tactics numbers list gmap strings sorting.
From S2P Require Import Prelude GoStrings GoFloat GoTime GoDecimal Programs BillingData UsageBilling UsageBillingExamples UsageBillingCorrect UsageBillingClaims.
From S2P Require Import BatchImageData BatchImage BatchImageSafety BatchImageHandlers BatchImageIndexing BatchImageInterleaved.

Open Scope go_scope.
Open Scope string_scope.
Open Scope Z_scope.

#[local] Opaque Z.pow places to_float shortest.

Section Settlement.
Context `{ShortestDecimal} `{Digest} `{UnicodeCase} `{SqlText} `{CodexOwners} `{Location}.
Variable cfg : BatchImageConfig.

(** The connection holds, other services answer, and a hold that is released is
    released, now or before; a capture may fail in every way. *)
Definition steady (X : Type) (o : stmt X) : world → X → Prop :=
  match o in stmt X return world → X → Prop with
  | Sql _ | Insert _ => λ w _, w_outcome w = Commits
  | Billing Release _ => λ _ x, match x with inr _ | inl ErrUsageBillingRequestConflict => True | inl _ => False end
  | Billing _ _ => λ _ _, True
  | Ask _ => λ w _, w_ok w = true
  | Now => λ _ _, True
  end.

Abbreviation ends := (ends exec steady).

Lemma ends_sql {A} i (t : jtx A) s Q :
  Q (run_sql t Commits s).1 (run_sql t Commits s).2 → ends i (sql t) s Q.
Proof.
  intros HQ w. simpl. destruct (run_sql t (w_outcome w) s) as [r s'] eqn:E. simpl. intros Ho. rewrite Ho in E.
  by rewrite E in HQ.
Qed.

Lemma ends_service i e s Q : Q (inr tt) s → ends i (service e) s Q.
Proof. intros HQ w. simpl. by intros ->. Qed.

Lemma ends_event {A} i (t : jtx A) s (Q : job_error + A → BatchDB → Prop) :
  Q (run_sql t Commits s).1 (run_sql t Commits s).2 → ends i (with_event t) s Q.
Proof.
  intros HQ. eapply ends_bind; [apply (ends_sql i t s (λ r s', (r, s') = run_sql t Commits s)); by destruct (run_sql _ _ _)|].
  intros r s' E. rewrite <-E in HQ. destruct r as [e|a]; [done|].
  eapply ends_bind; [by apply (ends_service i ErrDB s' (λ r s2, r = inr tt ∧ s2 = s'))|].
  intros r s2 [-> ->]. done.
Qed.

Lemma ends_unfinished i j s Q : Q (inr tt) s → ends i (releaseBatchImageUnfinished j) s Q.
Proof. unfold releaseBatchImageUnfinished. destruct (bj_APIKeyID j); [apply ends_service|done]. Qed.

(** ** The hold of a job *)

(** Operations on the hold leave the jobs alone and lose no claim. *)
Definition billed (s s' : BatchDB) : Prop :=
  bi_jobs s' = bi_jobs s ∧ claims_grow (bi_billing s) (bi_billing s').

Lemma run_billing_billed kind cmd o s r s' : run_billing kind cmd o s = (r, s') → billed s s'.
Proof. intros E. destruct (billing_grows kind cmd o s) as (J & _ & G). rewrite E in J, G. by split. Qed.

(** The command that releases the hold has an entry in the ledger of claims, or there
    is nothing to release. *)
Definition hold_released (d : BillingDB) (j : BatchImageJob) : Prop :=
  ∃ payload cmd,
    buildBatchImageHoldCommand j (BatchImageReleaseRequestID (bj_BatchID j)) fzero payload = inr cmd ∧
    ((hc_HoldAmount cmd <=. fzero) = true ∨
     is_Some (claims d !! (hc_RequestID (NormalizeHold cmd), hc_APIKeyID cmd))).

Lemma hold_released_grow d d' j j' :
  claims_agree d → claims_grow d d' → bj_terms j' = bj_terms j → hold_released d j → hold_released d' j'.
Proof.
  intros Ha Hg Ht (payload & cmd & Hb & Hr). exists payload, cmd. split.
  - rewrite <-Hb. unfold bj_BatchID. rewrite Ht. by apply build_terms.
  - destruct Hr as [|[row Hrow]]; [by left|right]. destruct (Hg Ha) as [_ K].
    destruct (K _ _ Hrow) as (row' & Hrow' & _). by exists row'.
Qed.

(** Only the claim of a request answers with a conflict. *)
Definition no_conflict {A} (t : tx A) : Prop := ∀ d, t d ≠ inl ErrUsageBillingRequestConflict.

Lemma no_conflict_bind {A B} (t : tx A) (f : A → tx B) :
  no_conflict t → (∀ a, no_conflict (f a)) → no_conflict (t ≫= f).
Proof.
  intros Ht Hf d. unfold mbind, tx_bind. specialize (Ht d). destruct (t d) as [e|[a d']]; [congruence|apply Hf].
Qed.

Lemma no_conflict_release cmd : no_conflict (releaseUsageBillingBatchImageBalance cmd).
Proof.
  unfold releaseUsageBillingBatchImageBalance, batchImageHoldClaimExists, explain_miss, userExistsForBilling,
    set_balance, sent, store.
  repeat first [done | apply no_conflict_bind; [|intros ?] | case_match].
Qed.

Lemma claim_unknown now key kid fp d :
  claims d !! (key, kid) = None → ∃ d', claimUsageBillingRequest now key kid fp d = inr (true, d').
Proof.
  rewrite claims_lookup. unfold claimUsageBillingRequest, mbind, tx_bind, select, change.
  destruct (bd_dedup d !! _); [done|]. intros ->. by eexists.
Qed.

Lemma conflict_claimed now o cmd d :
  hc_UsageLog cmd = None →
  (applyBatchImageBalanceHold now o cmd (hold_apply Release) d).1 = inl ErrUsageBillingRequestConflict →
  is_Some (claims d !! (hc_RequestID (NormalizeHold cmd), hc_APIKeyID cmd)).
Proof.
  intros Hlog Hr. destruct (claims d !! _) as [row|] eqn:Hk; [by eexists|]. exfalso. revert Hr.
  unfold applyBatchImageBalanceHold. destruct (String.eqb _ ""); [done|].
  destruct (claim_unknown now _ _ (hc_RequestFingerprint (NormalizeHold cmd)) _ Hk) as [d1 Hc].
  assert (hold_body now (NormalizeHold cmd) (hold_apply Release) d ≠ inl ErrUsageBillingRequestConflict) as Hn.
  { unfold hold_body. unfold mbind at 1, tx_bind at 1. change (hc_APIKeyID (NormalizeHold cmd)) with (hc_APIKeyID cmd).
    rewrite Hc. cbn [negb].
    apply (no_conflict_bind (hold_apply Release (NormalizeHold cmd))); [apply no_conflict_release|].
    intros r. apply no_conflict_bind; [|done].
    change (hc_UsageLog (NormalizeHold cmd)) with (hc_UsageLog cmd). by rewrite Hlog. }
  unfold transact. destruct (hold_body _ _ _ _) as [e|[[r commit] d']]; [simpl; congruence|].
  by destruct o, commit.
Qed.

Lemma ends_release i j s (Q : job_error + unit → BatchDB → Prop) :
  is_Some (positive_id (bj_APIKeyID j)) → claims_agree (bi_billing s) →
  (∀ s', billed s s' → hold_released (bi_billing s') j → Q (inr tt) s') → ends i (release_hold j) s Q.
Proof.
  intros [k Hk] Ha HQ. unfold release_hold, releaseBatchImageBalanceHold.
  destruct (buildBatchImageHoldCommand j _ _ _) as [e|cmd] eqn:Hb;
    [by unfold buildBatchImageHoldCommand in Hb; rewrite Hk in Hb|].
  destruct (hc_HoldAmount cmd <=. fzero) eqn:Hz.
  { apply HQ; [by split|]. by exists (batchImageDerefString (bj_RequestHash j)), cmd; split; [|left]. }
  assert (hc_UsageLog cmd = None) as Hlog
    by (unfold buildBatchImageHoldCommand in Hb; rewrite Hk in Hb; by injection Hb as <-).
  intros w. cbn [exec]. pose proof (conflict_claimed (bi_now s) (w_outcome w) cmd (bi_billing s) Hlog) as Hcon.
  pose proof (answered_hold_claimed (bi_now s) (w_outcome w) cmd Release (bi_billing s)) as Hok.
  destruct (run_billing Release cmd (w_outcome w) s) as [r s'] eqn:E.
  pose proof (run_billing_billed _ _ _ _ _ _ E) as [J G]. unfold run_billing in E.
  destruct (applyBatchImageBalanceHold _ _ _ _ _) as [r0 d]. injection E as -> <-. simpl in *.
  assert (claims_grow (bi_billing s) d → is_Some (claims d !! (hc_RequestID (NormalizeHold cmd), hc_APIKeyID cmd)) →
          Q (inr tt) (put_billing d s)) as HQ'.
  { intros Hg Hcl. apply HQ; [by split|]. by exists (batchImageDerefString (bj_RequestHash j)), cmd; split; [|right]. }
  intros Hr. destruct r as [[]|r]; try done; simpl; apply HQ'; try done.
  - destruct (Hcon eq_refl) as [row Hrow]. destruct (G Ha) as [_ K]. destruct (K _ _ Hrow) as (row' & ? & _). by exists row'.
  - destruct (Hok r Ha eq_refl) as (row & Hrow & _). by exists row.
Qed.

(** ** A job that is settling *)

Definition settlement_cost (j : BatchImageJob) : float64 := fmul (float_of_Z (bj_SuccessCount j)) (BillableUnitPrice j).

(** A job of [Submit] that is settling and has failed at least [n] times: it has an
    API key, an account and a pricing snapshot, its cost fits its column, and no other
    job has its manifest. *)
Record settling (n : Z) (b : string) (s : BatchDB) (j : BatchImageJob) : Prop := {
  st_id : bj_BatchID j = b;
  st_status : bj_Status j = BatchImageJobStatusSettling;
  st_key : is_Some (positive_id (bj_APIKeyID j));
  st_account : is_Some (positive_id (bj_AccountID j));
  st_version : 1 ≤ tm_PricingSnapshotVersion (bj_terms j);
  st_cost : is_Some (stored_amount (settlement_cost j));
  st_manifest : bj_ManifestHash j = None;
  st_free : ∀ k j', k ≠ b → bi_jobs s !! k = Some j' →
    bj_ManifestHash j' ≠ Some (BuildBatchImageSettlementManifestHash j);
  st_retries : n ≤ bj_RetryCount j
}.

Definition waits (n : Z) (b : string) (s : BatchDB) : Prop :=
  claims_agree (bi_billing s) ∧ ∃ j, bi_jobs s !! b = Some j ∧ settling n b s j.

(** A completed job has its hold captured, a failed one has it released. *)
Definition closed (d : BillingDB) (j : BatchImageJob) : Prop :=
  (bj_Status j = BatchImageJobStatusCompleted ∧ captured d j) ∨
  (bj_Status j = BatchImageJobStatusFailed ∧ hold_released d j).

Definition ended (b : string) (s : BatchDB) : Prop :=
  claims_agree (bi_billing s) ∧
  ∃ j, bi_jobs s !! b = Some j ∧ bj_BatchID j = b ∧ is_Some (positive_id (bj_APIKeyID j)) ∧ closed (bi_billing s) j.

(** One run more: the job has ended, or failed once more with tries left. *)
Definition advanced (n : Z) (b : string) (s : BatchDB) : Prop :=
  ended b s ∨ (n < batchImageSettlementMaxRetries ∧ waits n b s).

Lemma manifest_free b h s :
  (∀ k j, k ≠ b → bi_jobs s !! k = Some j → bj_ManifestHash j ≠ Some h) → manifest_taken b h s = false.
Proof.
  intros Hf. unfold manifest_taken. apply andb_false_iff. right. apply not_true_iff_false.
  rewrite existsb_exists. intros ([k j] & Hin & [Hk Hj]%andb_true_iff). simpl in *.
  apply list_elem_of_In, elem_of_map_to_list in Hin. apply bool_decide_eq_true in Hj.
  apply negb_true_iff, String.eqb_neq in Hk. by eapply Hf.
Qed.

(** The row of a job that failed once more. *)
Definition retried (code : string) (now : Z) (j : BatchImageJob) : BatchImageJob :=
  set_error_code (Some code) (set_retry_count (bj_RetryCount j + 1) (set_updated_at now j)).

Lemma retried_settling n b s j code now :
  settling n b s j → settling (n + 1) b (put_job b (retried code now j) s) (retried code now j).
Proof.
  intros [? ? ? ? ? ? ? Hf ?]. split; try done.
  - intros k j' Hk. simpl. rewrite lookup_insert_ne by done. by apply Hf.
  - simpl. lia.
Qed.

Lemma settling_jobs n b s s' j : bi_jobs s' = bi_jobs s → settling n b s j → settling n b s' j.
Proof. intros E [? ? ? ? ? ? ? Hf ?]. split; try done. by rewrite E. Qed.

Lemma settlement_failed_run b code s j :
  bi_jobs s !! b = Some j →
  run_sql (settlement_failed_update b code) Commits s
  = (inr (bj_RetryCount j + 1), put_job b (retried code (bi_now s) j) s).
Proof.
  intros Hj. unfold run_sql, settlement_failed_update, must_update, update_job, query_job, mbind, jtx_bind, read.
  rewrite Hj. simpl. by rewrite lookup_insert_eq.
Qed.

(** A job that is settling can be failed. *)
Lemma fail_settling_run b code s j :
  bi_jobs s !! b = Some j → bj_Status j = BatchImageJobStatusSettling →
  run_sql (TransitionBatchImageJobStatus b BatchImageJobStatusFailed code) Commits s
  = (inr tt, put_job b (transitioned BatchImageJobStatusFailed code (bi_now s) j) s).
Proof.
  intros Hj Hs. unfold run_sql, TransitionBatchImageJobStatus, update_job, query_job, mbind, jtx_bind, read.
  rewrite Hj. simpl. rewrite Hs. simpl. by rewrite Hj.
Qed.

(** When the retries are exhausted the hold is released and the job failed. *)
Lemma ends_exhausted i n b s row j :
  claims_agree (bi_billing s) → bi_jobs s !! b = Some row → settling n b s row → bj_terms j = bj_terms row →
  ends i (failExhaustedSettlement j) s (λ _ s', ended b s').
Proof.
  intros Ha Hrow [Hid Hst Hk] Ht. unfold failExhaustedSettlement.
  assert (bj_BatchID j = b) as Hb by (unfold bj_BatchID in *; by rewrite Ht).
  eapply ends_bind; [apply (ends_release i j s (λ r s', r = inr tt ∧ billed s s' ∧ hold_released (bi_billing s') j))|].
  - unfold bj_APIKeyID in *. by rewrite Ht.
  - done.
  - by intros s' Hbd Hrel.
  - intros r s' (-> & [E G] & Hrel). rewrite <-E in Hrow. rewrite Hb. destruct (G Ha) as [Ha' _]. eapply ends_bind.
    + apply (ends_sql i _ s' (λ _, ended b)). rewrite (fail_settling_run _ _ _ _ Hrow Hst).
      split; [exact Ha'|]. eexists. split; [simpl; apply lookup_insert_eq|]. split_and!; [done|done|].
      right. split; [done|]. by eapply (hold_released_grow (bi_billing s')).
    + done.
Qed.

(** A failure is counted, and the last one ends the job. *)
Lemma ends_failed {A} i n b s j code e :
  claims_agree (bi_billing s) → bi_jobs s !! b = Some j → settling n b s j →
  ends i (settlement_failed (A := A) j code e) s (λ _, advanced (n + 1) b).
Proof.
  intros Ha Hj Hst. unfold settlement_failed, recordSettlementFailure. rewrite (st_id _ _ _ _ Hst).
  eapply ends_bind; [|by intros x s' Hx; exact Hx].
  eapply ends_bind; [apply (ends_event i _ s
    (λ r s', r = inr (bj_RetryCount j + 1) ∧ s' = put_job b (retried code (bi_now s) j) s));
    by rewrite (settlement_failed_run _ _ _ _ Hj)|].
  intros r s' [-> ->]. pose proof (retried_settling _ _ _ _ code (bi_now s) Hst) as Hst'.
  assert (bi_jobs (put_job b (retried code (bi_now s) j) s) !! b = Some (retried code (bi_now s) j)) as Hj'
    by apply lookup_insert_eq.
  destruct (batchImageSettlementMaxRetries <=? _) eqn:En.
  - eapply ends_bind; [by eapply ends_exhausted|]. intros x s' Hx. by left.
  - right. split; [|split; [exact Ha|by eexists]]. apply Z.leb_gt in En. pose proof (st_retries _ _ _ _ Hst). lia.
Qed.

(** The capture is answered, and claimed then, or not. *)
Lemma ends_capture i j cost hash l s (Q : job_error + unit → BatchDB → Prop) :
  is_Some (positive_id (bj_APIKeyID j)) → claims_agree (bi_billing s) →
  (∀ r s', billed s s' → (r = inr tt → captured_for j cost hash s') → Q r s') →
  ends i (captureBatchImageBalanceHold j cost hash l) s Q.
Proof.
  intros [k Hk] Ha HQ. unfold captureBatchImageBalanceHold.
  destruct (buildBatchImageHoldCommand j _ _ _) as [e|cmd] eqn:Hb;
    [by unfold buildBatchImageHoldCommand in Hb; rewrite Hk in Hb|].
  intros w. cbn [exec].
  pose proof (answered_hold_claimed (bi_now s) (w_outcome w) (with_usage_log l cmd) Capture (bi_billing s)) as Hok.
  destruct (run_billing Capture (with_usage_log l cmd) (w_outcome w) s) as [r s'] eqn:E.
  pose proof (run_billing_billed _ _ _ _ _ _ E) as Hbd. unfold run_billing in E.
  destruct (applyBatchImageBalanceHold _ _ _ _ _) as [r0 d]. injection E as -> <-. simpl in *.
  intros _. destruct r as [e|r]; apply HQ; try done. intros _. exists cmd. split; [done|]. exact (Hok r Ha eq_refl).
Qed.

Lemma mark_settled_ends n b s j now expires_at :
  bi_jobs s !! b = Some j → settling n b s j →
  ∃ cost, stored_amount (settlement_cost j) = Some cost ∧ run_sql (MarkBatchImageJobSettled
      (mkSettled b (settlement_cost j) (BuildBatchImageSettlementManifestHash j) now expires_at)) Commits s
    = (inr tt, put_job b (settled (mkSettled b (settlement_cost j) (BuildBatchImageSettlementManifestHash j)
                                    now expires_at) cost j) s).
Proof.
  intros Hj [_ Hs _ _ _ [cost Hc] Hm Hf _]. exists cost. split; [done|]. unfold run_sql. rewrite mark_settled_run.
  cbn [ms_ActualCost ms_BatchID ms_ManifestHash]. rewrite Hc, Hj, Hs. unfold manifest_agrees. rewrite Hm.
  by rewrite (manifest_free _ _ _ Hf).
Qed.

Lemma ends_complete i n b s j :
  claims_agree (bi_billing s) → bi_jobs s !! b = Some j → settling n b s j →
  ends i (capture_and_complete cfg j (settlement_cost j)) s (λ _, advanced (n + 1) b).
Proof.
  intros Ha Hj Hst. pose proof (st_id _ _ _ _ Hst) as Hid. unfold capture_and_complete. intros w. cbn [exec]. intros _.
  eapply ends_bind;
    [apply (ends_capture i j _ _ _ s (λ r s', billed s s' ∧ (r = inr tt → captured_for j (settlement_cost j)
       (BuildBatchImageSettlementManifestHash j) s'))); [apply (st_key _ _ _ _ Hst)|done|done]|].
  intros r s' [[E G] Hcap]. destruct (G Ha) as [Ha' _]. rewrite <-E in Hj. apply (settling_jobs _ _ _ _ _ E) in Hst.
  destruct r as [e|[]]; [by apply ends_failed|]. specialize (Hcap eq_refl).
  rewrite Hid. destruct (mark_settled_ends n b s' j (bi_now s) (bi_now s + outputRetentionAfterTerminal cfg) Hj Hst)
    as (cost & Hcost & Hrun).
  eapply ends_bind; [apply (ends_sql i _ s' (λ r s2, r = inr tt ∧ ended b s2)); rewrite Hrun; split; [done|]|].
  - split; [exact Ha'|]. eexists. split; [apply lookup_insert_eq|].
    split_and!; [done|apply (st_key _ _ _ _ Hst)|]. left. split; [done|].
    destruct Hcap as (cmd & Hb & Hcl). exists (settlement_cost j), (BuildBatchImageSettlementManifestHash j), cmd.
    split_and!; [|done..]. rewrite <-Hb. unfold bj_BatchID. by apply build_terms.
  - intros ? s2 [-> He]. eapply ends_bind; [by apply (ends_unfinished i j s2 (λ r s3, r = inr tt ∧ s3 = s2))|].
    intros ? s3 [-> ->]. by left.
Qed.

Lemma ends_settle_settling i n b s j :
  claims_agree (bi_billing s) → bi_jobs s !! b = Some j → settling n b s j →
  ends i (settle_settling cfg j) s (λ _, advanced (n + 1) b).
Proof.
  intros Hag Hj Hst. pose proof Hst as [Hid Hs [k Hk] [a Ha] Hv _ Hm _ Hr]. unfold settle_settling.
  eapply ends_bind; [by apply (ends_unfinished i j s (λ r s', r = inr tt ∧ s' = s))|]. intros ? ? [-> ->].
  rewrite Hk, Ha. destruct (isBatchImageSettlementRetryExhausted j).
  { eapply ends_bind; [by eapply ends_exhausted|]. intros x s' Hx. by left. }
  destruct (negb (counts_valid j)); [by apply ends_failed|].
  destruct (manifest_conflict j _); [by apply ends_failed|].
  unfold settlementUnitPrice. rewrite (proj2 (Z.leb_le _ _) Hv).
  destruct (BillableUnitPrice j <. fzero) eqn:Ep; [by apply ends_failed|]. simpl. rewrite Ep.
  destruct (batchImageCostEpsilon <. _); [by apply ends_failed|by apply ends_complete].
Qed.

(** ** A run of the worker *)

Lemma get_job_run b s j : bi_jobs s !! b = Some j → run_sql (GetBatchImageJobByBatchID b) Commits s = (inr j, s).
Proof. intros Hj. unfold run_sql, GetBatchImageJobByBatchID, query_job. by rewrite Hj. Qed.

Lemma ends_get {B} i b s j (f : BatchImageJob → handler B) Q :
  bi_jobs s !! b = Some j → ends i (f j) s Q → ends i (try (sql (GetBatchImageJobByBatchID b)) f) s Q.
Proof.
  intros Hj Hf. eapply ends_bind; [apply (ends_sql i _ s (λ r s', r = inr j ∧ s' = s)); by rewrite (get_job_run _ _ _ Hj)|].
  by intros ? ? [-> ->].
Qed.

Lemma ends_settle i n b s : waits n b s → ends i (Settle cfg b) s (λ _, advanced (n + 1) b).
Proof.
  intros (Ha & j & Hj & Hst). unfold Settle. eapply ends_get; [done|]. rewrite (st_status _ _ _ _ Hst). simpl.
  by apply ends_settle_settling.
Qed.

Lemma ends_pipeline i n b s : waits n b s → ends i (PipelineProcess cfg b) s (λ _, advanced (n + 1) b).
Proof.
  intros Hw. pose proof Hw as (_ & j & Hj & Hst). unfold PipelineProcess. eapply ends_get; [done|].
  rewrite (st_status _ _ _ _ Hst). cbn [String.eqb negb]. eapply ends_bind; [by apply ends_settle|].
  intros [e|r] s' Ha; [|exact Ha]. destruct (negb _); [exact Ha|].
  eapply ends_bind; [apply (ends_sql i _ s' (λ _ s2, s2 = s'))|].
  - unfold run_sql, GetBatchImageJobByBatchID, query_job. by destruct (bi_jobs s' !! b).
  - intros [?|u] s2 ->; [exact Ha|]. by destruct (IsTerminalBatchImageJobStatus _).
Qed.

(** A job that has ended is left as it is; a failed one has its hold released again. *)
Lemma ends_terminal_hold i j s :
  is_Some (positive_id (bj_APIKeyID j)) → claims_agree (bi_billing s) →
  ends i (releaseTerminalHold j) s (λ r s', r = inr tt ∧ billed s s').
Proof.
  intros Hk Ha. unfold releaseTerminalHold.
  eapply (ends_bind exec steady i _ _ s (λ r s', r = inr tt ∧ s' = s)).
  - destruct (IsTerminalBatchImageJobStatus _); [by apply ends_unfinished|done].
  - intros ? ? [-> ->]. destruct (one_of _ _); [by apply ends_release|by split_and!].
Qed.

Lemma ended_billed b s s' : billed s s' → ended b s → ended b s'.
Proof.
  intros [E G] (Ha & j & Hj & Hid & Hk & Hc). split; [by apply G|]. exists j. rewrite E. split_and!; [done..|].
  destruct Hc as [[? Hc]|[? Hc]]; [left|right]; (split; [done|]);
    [by eapply captured_grow|by eapply hold_released_grow].
Qed.

Lemma ends_again i b s : ended b s → ends i (PipelineProcess cfg b) s (λ _, ended b).
Proof.
  intros He. pose proof He as (Ha & j & Hj & Hid & Hk & Hc). unfold PipelineProcess. eapply ends_get; [done|].
  assert (String.eqb (bj_Status j) BatchImageJobStatusSettling = false
    ∧ one_of [BatchImageJobStatusIndexing; BatchImageJobStatusSettling] (bj_Status j) = false
    ∧ isBatchImageProcessorDoneStatus (bj_Status j) = true) as (-> & E1 & E2).
  { by destruct Hc as [[-> _]|[-> _]]. }
  unfold Process. cbn [negb]. eapply ends_get; [done|]. rewrite E1, E2.
  eapply (ends_bind exec steady i _ _ s (λ r s', r = inr tt ∧ s' = s)); [done|]. intros ? ? [-> ->].
  eapply ends_bind; [by apply ends_terminal_hold|]. intros ? s' [-> E]. by apply (ended_billed b s).
Qed.

(** [k] runs of the worker, one after the other. *)
Fixpoint work (k : nat) (b : string) : prog stmt unit :=
  match k with
  | O => Ret tt
  | S k => _ ← PipelineProcess cfg b; work k b
  end.

Lemma ends_work i b k n s :
  batchImageSettlementMaxRetries ≤ n + Z.of_nat k → advanced n b s → ends i (work k b) s (λ _, ended b).
Proof.
  revert n s. induction k as [|k IH]; intros n s Hn Ha; [destruct Ha as [He|[? _]]; [done|lia]|].
  cbn [work]. eapply (ends_bind exec steady i _ _ s (λ _, advanced (n + 1) b)).
  - destruct Ha as [He|[_ Hw]]; [|by apply ends_pipeline].
    eapply ends_mono; [|by apply ends_again]. intros ? s' Hs'. by left.
  - intros ? s' Hs'. apply (IH (n + 1)); [lia|done].
Qed.

(** C11. Settlement comes to an end and leaves no hold frozen.  A job that is settling, with
    an API key, an account, a pricing snapshot, a cost that its column holds, no manifest
    yet and the one it will get free, is completed or failed after five runs of a worker
    alone on it, whatever the capture of its hold answers at each, as long as the other
    statements commit, other services answer and its hold can be released.  When it is
    completed its hold has been captured, for the cost and the manifest it shows; when it
    is failed the release of its hold has been claimed, or it had none. *)
Theorem settling_ends i s b :
  waits 0 b s →
  ends i (work 5 b) s (λ _ s', ∃ j, bi_jobs s' !! b = Some j
    ∧ ((bj_Status j = BatchImageJobStatusCompleted ∧ captured (bi_billing s') j) ∨
       (bj_Status j = BatchImageJobStatusFailed ∧ hold_released (bi_billing s') j))).
Proof.
  intros Hw. eapply ends_mono; [|apply (ends_work i b 5 0 s); [done|by right]].
  intros ? s' (_ & j & Hj & _ & _ & Hc). by exists j.
Qed.
End Settlement.

(** ** One image made, one missing *)

Section Examples.
#[local] Existing Instances ascii_case FewestDigits plain_digest demo_sql demo_owners.
#[local] Instance settlement_utc : Location := fixed_zone 0.

Definition settling_row : BatchImageJob := demo_row BatchImageJobStatusSettling 0 0 1 1 0.

Lemma demo_waits d : claims_agree d → waits 0 "x" (demo_batches settling_row d).
Proof.
  intros Ha. split; [exact Ha|]. exists settling_row. split; [reflexivity|].
  split; [reflexivity|reflexivity|by eexists|by eexists|reflexivity| | | |].
  - exists 0. vm_compute. reflexivity.
  - reflexivity.
  - intros k j Hk. cbn [demo_batches bi_jobs]. by rewrite lookup_singleton_ne.
  - reflexivity.
Qed.

(** The status and the failures after some runs in which everything succeeds. *)
Definition after_runs (k : nat) (o : outcome) (s : BatchDB) : option (string * Z) :=
  (λ j, (bj_Status j, bj_RetryCount j)) <$>
    bi_jobs (solo exec 0 (demo_answers o) (work demo_batch_config k "x") s).2 !! "x".

Example demo_settles :
  after_runs 1 Commits (demo_batches settling_row (one_user 0 0)) = Some (BatchImageJobStatusCompleted, 0).
Proof. vm_compute. reflexivity. Qed.

(** A job whose counts exceed its items is failed by the fifth run, not the fourth. *)
Example demo_exhausted :
  after_runs 4 Commits (demo_batches (demo_row BatchImageJobStatusSettling 0 0 2 1 0) (one_user 0 0))
    = Some (BatchImageJobStatusSettling, 4)
  ∧ after_runs 5 Commits (demo_batches (demo_row BatchImageJobStatusSettling 0 0 2 1 0) (one_user 0 0))
    = Some (BatchImageJobStatusFailed, 5).
Proof. split; vm_compute; reflexivity. Qed.

Lemma settling_ends_witness :
  waits 0 "x" (demo_batches settling_row (one_user 0 0)) ∧
  ends exec steady 0 (work demo_batch_config 5 "x") (demo_batches settling_row (one_user 0 0))
    (λ _ s, ∃ j, bi_jobs s !! "x" = Some j
      ∧ ((bj_Status j = BatchImageJobStatusCompleted ∧ captured (bi_billing s) j) ∨
         (bj_Status j = BatchImageJobStatusFailed ∧ hold_released (bi_billing s) j))).
Proof.
  assert (waits 0 "x" (demo_batches settling_row (one_user 0 0))) as Hw
    by (apply demo_waits, empty_archive_agrees; reflexivity).
  split; [exact Hw|]. exact (settling_ends demo_batch_config 0%nat _ _ Hw).
Defined.
End Examples.
