(* ===== verification/RedisServer.v ===== *)
(** * The Redis commands the program issues

    Redis is not part of the repository.  [Keyspace] is what a client can
    observe of a server (sorted sets, integer strings, expiry deadlines and the
    clock) and each [ks_*] function states the documented effect of one command
    on it.  [Redis] is the interface the concurrency cache is verified against:
    an arbitrary server state [R] whose commands have those effects.  The
    instance at the end (a server that is its own keyspace) shows that the
    interface can be implemented and lets examples run. *)

From Stdlib Require Import ZArith Lia String.
From stdpp Require Import base tactics numbers list gmap strings sorting.
From S2P Require Import Prelude.

Record Keyspace := mkKeyspace {
  ks_ms : Z;                              (* server clock, milliseconds *)
  ks_zsets : gmap string (gmap string Z); (* sorted sets: member to score *)
  ks_ints : gmap string Z;                (* string keys holding an integer *)
  ks_deadlines : gmap string Z            (* expiry, in milliseconds *)
}.

(** [TIME], first component. *)
Definition ks_seconds (ks : Keyspace) : Z := ks_ms ks / 1000.

(** A missing key behaves as an empty sorted set. *)
Definition zset (ks : Keyspace) (k : string) : gmap string Z := default ∅ (ks_zsets ks !! k).

(** Replaces a sorted set; a set that becomes empty disappears with its
    expiry. *)
Definition ks_put (k : string) (z : gmap string Z) (ks : Keyspace) : Keyspace :=
  if decide (z = ∅)
  then mkKeyspace (ks_ms ks) (delete k (ks_zsets ks)) (ks_ints ks) (delete k (ks_deadlines ks))
  else mkKeyspace (ks_ms ks) (<[k := z]> (ks_zsets ks)) (ks_ints ks) (ks_deadlines ks).

Definition ks_ZADD (k : string) (score : Z) (member : string) (ks : Keyspace) : Keyspace :=
  ks_put k (<[member := score]> (zset ks k)) ks.

Definition ks_ZREM (k member : string) (ks : Keyspace) : Keyspace :=
  ks_put k (delete member (zset ks k)) ks.

(** [ZREMRANGEBYSCORE k -inf max]. *)
Definition ks_ZREMRANGEBYSCORE (k : string) (max : Z) (ks : Keyspace) : Keyspace :=
  ks_put k (filter (λ e, max < e.2) (zset ks k)) ks.

(** [EXPIRE] with a positive number of seconds. *)
Definition ks_EXPIRE (k : string) (ttl : Z) (ks : Keyspace) : Keyspace :=
  if decide (is_Some (ks_zsets ks !! k) ∨ is_Some (ks_ints ks !! k))
  then mkKeyspace (ks_ms ks) (ks_zsets ks) (ks_ints ks)
         (<[k := ks_ms ks + 1000 * ttl]> (ks_deadlines ks))
  else ks.

Definition ks_add_int (d : Z) (k : string) (ks : Keyspace) : Keyspace :=
  mkKeyspace (ks_ms ks) (ks_zsets ks) (<[k := default 0 (ks_ints ks !! k) + d]> (ks_ints ks))
    (ks_deadlines ks).

Definition ks_DEL (k : string) (ks : Keyspace) : Keyspace :=
  mkKeyspace (ks_ms ks) (delete k (ks_zsets ks)) (delete k (ks_ints ks))
    (delete k (ks_deadlines ks)).

(** The keys whose deadline has passed at time [t]. *)
Definition ks_due (ks : Keyspace) (t : Z) (k : string) : bool :=
  match ks_deadlines ks !! k with Some d => d <=? t | None => false end.

(** [ms] milliseconds pass; keys whose deadline is reached are dropped. *)
Definition ks_elapse (ms : Z) (ks : Keyspace) : Keyspace :=
  let t := ks_ms ks + ms in
  mkKeyspace t
    (filter (λ e, ks_due ks t e.1 = false) (ks_zsets ks))
    (filter (λ e, ks_due ks t e.1 = false) (ks_ints ks))
    (filter (λ e, ks_due ks t e.1 = false) (ks_deadlines ks)).

(** The interface: commands of a server and what they do to its keyspace.
    Scripts and pipelines are sequences of commands. *)
Class Redis (R : Type) := {
  obs : R → Keyspace;
  ZADD : string → Z → string → R → R;
  ZREM : string → string → R → R;
  ZREMRANGEBYSCORE : string → Z → R → R;
  EXPIRE : string → Z → R → R;
  INCR : string → R → R;
  DECR : string → R → R;
  DEL : string → R → R;
  elapse : Z → R → R;
  obs_ZADD k s m r : obs (ZADD k s m r) = ks_ZADD k s m (obs r);
  obs_ZREM k m r : obs (ZREM k m r) = ks_ZREM k m (obs r);
  obs_ZREMRANGEBYSCORE k s r : obs (ZREMRANGEBYSCORE k s r) = ks_ZREMRANGEBYSCORE k s (obs r);
  obs_EXPIRE k t r : obs (EXPIRE k t r) = ks_EXPIRE k t (obs r);
  obs_INCR k r : obs (INCR k r) = ks_add_int 1 k (obs r);
  obs_DECR k r : obs (DECR k r) = ks_add_int (-1) k (obs r);
  obs_DEL k r : obs (DEL k r) = ks_DEL k (obs r);
  obs_elapse d r : obs (elapse d r) = ks_elapse d (obs r)
}.

Create Rewrite HintDb redis.

#[export] Hint Rewrite @obs_ZADD @obs_ZREM @obs_ZREMRANGEBYSCORE @obs_EXPIRE @obs_INCR
  @obs_DECR @obs_DEL @obs_elapse : redis.

#[export] Instance keyspace_redis : Redis Keyspace := {|
  obs ks := ks;
  ZADD := ks_ZADD; ZREM := ks_ZREM; ZREMRANGEBYSCORE := ks_ZREMRANGEBYSCORE;
  EXPIRE := ks_EXPIRE; INCR := ks_add_int 1; DECR := ks_add_int (-1); DEL := ks_DEL;
  elapse := ks_elapse;
  obs_ZADD _ _ _ _ := eq_refl; obs_ZREM _ _ _ := eq_refl;
  obs_ZREMRANGEBYSCORE _ _ _ := eq_refl; obs_EXPIRE _ _ _ := eq_refl;
  obs_INCR _ _ := eq_refl; obs_DECR _ _ := eq_refl; obs_DEL _ _ := eq_refl;
  obs_elapse _ _ := eq_refl
|}.

(** Queries. *)
Section Queries.
Context `{Redis R}.

Definition TIME (r : R) : Z := ks_seconds (obs r).
Definition ZSCORE (k m : string) (r : R) : option Z := zset (obs r) k !! m.
Definition ZCARD (k : string) (r : R) : Z := Z.of_nat (size (zset (obs r) k)).
Definition GET (k : string) (r : R) : option Z := ks_ints (obs r) !! k.

(** Order of a sorted set: by score, ties by member. *)
Definition zentry_le (a b : string * Z) : Prop :=
  a.2 < b.2 ∨ (a.2 = b.2 ∧ String.leb a.1 b.1 = true).

#[export] Instance zentry_le_dec a b : Decision (zentry_le a b).
Proof. unfold zentry_le. apply _. Defined.

(** [ZRANGE k -inf max BYSCORE LIMIT 0 n]. *)
Definition ZRANGEBYSCORE (k : string) (max : Z) (n : nat) (r : R) : list string :=
  take n (merge_sort zentry_le
    (map_to_list (filter (λ e : string * Z, e.2 ≤ max) (zset (obs r) k)))).*1.
End Queries.

(** ** What the commands do to the observed values *)

Lemma zset_put k z ks k' : zset (ks_put k z ks) k' = if decide (k = k') then z else zset ks k'.
Proof.
  unfold zset, ks_put. destruct (decide (z = ∅)) as [->|Hz]; simpl.
  - rewrite lookup_delete. by destruct (decide (k = k')).
  - rewrite lookup_insert. by destruct (decide (k = k')).
Qed.

Lemma zset_put_eq k z ks : zset (ks_put k z ks) k = z.
Proof. rewrite zset_put. by rewrite decide_True. Qed.

Lemma zset_put_ne k z ks k' : k ≠ k' → zset (ks_put k z ks) k' = zset ks k'.
Proof. intros. rewrite zset_put. by rewrite decide_False. Qed.

Lemma ms_put k z ks : ks_ms (ks_put k z ks) = ks_ms ks.
Proof. unfold ks_put. by case_decide. Qed.

Lemma ints_put k z ks : ks_ints (ks_put k z ks) = ks_ints ks.
Proof. unfold ks_put. by case_decide. Qed.

Lemma zset_EXPIRE k t ks k' : zset (ks_EXPIRE k t ks) k' = zset ks k'.
Proof. unfold zset, ks_EXPIRE. by case_decide. Qed.

Lemma ms_EXPIRE k t ks : ks_ms (ks_EXPIRE k t ks) = ks_ms ks.
Proof. unfold ks_EXPIRE. by case_decide. Qed.

Lemma ints_EXPIRE k t ks : ks_ints (ks_EXPIRE k t ks) = ks_ints ks.
Proof. unfold ks_EXPIRE. by case_decide. Qed.

Lemma zset_add_int d k ks k' : zset (ks_add_int d k ks) k' = zset ks k'.
Proof. done. Qed.

Lemma zset_DEL k ks k' : zset (ks_DEL k ks) k' = if decide (k = k') then ∅ else zset ks k'.
Proof. unfold zset, ks_DEL. simpl. rewrite lookup_delete. by case_decide. Qed.

Lemma zset_elapse ms ks k :
  zset (ks_elapse ms ks) k = if ks_due ks (ks_ms ks + ms) k then ∅ else zset ks k.
Proof.
  unfold zset, ks_elapse. simpl. destruct (ks_zsets ks !! k) as [z|] eqn:Hz; simpl.
  - destruct (ks_due ks (ks_ms ks + ms) k) eqn:Hd.
    + rewrite map_lookup_filter_None_2; [done|]. right. simpl. intros ? ?. congruence.
    + erewrite map_lookup_filter_Some_2; done.
  - rewrite map_lookup_filter_None_2 by (by left). by case_match.
Qed.

#[export] Hint Rewrite zset_put_eq ms_put ints_put zset_EXPIRE ms_EXPIRE ints_EXPIRE
  zset_add_int zset_DEL : redis.

(** ** Owners of a lease set

    A member whose score is more than [ttl] seconds old no longer counts. *)

Definition live_entries (ttl : Z) (ks : Keyspace) (k : string) : gmap string Z :=
  filter (λ e, ks_seconds ks - ttl < e.2) (zset ks k).

Definition owners (ttl : Z) (ks : Keyspace) (k : string) : gset string :=
  dom (live_entries ttl ks k).

Lemma elem_of_owners ttl ks k m :
  m ∈ owners ttl ks k ↔ ∃ s, zset ks k !! m = Some s ∧ ks_seconds ks - ttl < s.
Proof.
  unfold owners, live_entries. rewrite elem_of_dom. split.
  - intros [s [Hs Hlt]%map_lookup_filter_Some]. by exists s.
  - intros (s & Hs & Hlt). exists s. by apply map_lookup_filter_Some.
Qed.

Lemma seconds_put k z ks : ks_seconds (ks_put k z ks) = ks_seconds ks.
Proof. unfold ks_seconds. by rewrite ms_put. Qed.

Lemma seconds_EXPIRE k t ks : ks_seconds (ks_EXPIRE k t ks) = ks_seconds ks.
Proof. unfold ks_seconds. by rewrite ms_EXPIRE. Qed.

Lemma seconds_ZADD k s m ks : ks_seconds (ks_ZADD k s m ks) = ks_seconds ks.
Proof. apply seconds_put. Qed.

Lemma seconds_ZREM k m ks : ks_seconds (ks_ZREM k m ks) = ks_seconds ks.
Proof. apply seconds_put. Qed.

Lemma seconds_ZREMRANGEBYSCORE k s ks : ks_seconds (ks_ZREMRANGEBYSCORE k s ks) = ks_seconds ks.
Proof. apply seconds_put. Qed.

Lemma seconds_add_int d k ks : ks_seconds (ks_add_int d k ks) = ks_seconds ks.
Proof. done. Qed.

Lemma seconds_DEL k ks : ks_seconds (ks_DEL k ks) = ks_seconds ks.
Proof. done. Qed.

#[export] Hint Rewrite seconds_put seconds_EXPIRE seconds_ZADD seconds_ZREM
  seconds_ZREMRANGEBYSCORE seconds_add_int seconds_DEL : redis.

(** A command that leaves the clock and the set alone leaves the owners alone. *)
Lemma owners_same ttl ks ks' k :
  ks_seconds ks' = ks_seconds ks → zset ks' k = zset ks k → owners ttl ks' k = owners ttl ks k.
Proof. unfold owners, live_entries. by intros -> ->. Qed.

Lemma owners_purge_ne ttl ks k s k' :
  k ≠ k' → owners ttl (ks_ZREMRANGEBYSCORE k s ks) k' = owners ttl ks k'.
Proof. intros. apply owners_same; autorewrite with redis; [done|]. by apply zset_put_ne. Qed.

(** Purging what has expired does not change the owners. *)
Lemma owners_purge ttl ks k k' :
  owners ttl (ks_ZREMRANGEBYSCORE k (ks_seconds ks - ttl) ks) k' = owners ttl ks k'.
Proof.
  destruct (decide (k = k')) as [<-|Hne]; [|by apply owners_purge_ne].
  apply set_eq. intros m. rewrite !elem_of_owners, seconds_ZREMRANGEBYSCORE.
  unfold ks_ZREMRANGEBYSCORE. rewrite zset_put_eq. split.
  - intros (s & [Hs _]%map_lookup_filter_Some & ?). by exists s.
  - intros (s & Hs & Hlt). exists s. split; [|done]. by apply map_lookup_filter_Some.
Qed.

(** After a purge the members are exactly the owners. *)
Lemma purged_dom ttl ks k :
  dom (zset (ks_ZREMRANGEBYSCORE k (ks_seconds ks - ttl) ks) k) = owners ttl ks k.
Proof. unfold ks_ZREMRANGEBYSCORE. by rewrite zset_put_eq. Qed.

Lemma owners_ZADD ttl ks k m k' :
  0 < ttl →
  owners ttl (ks_ZADD k (ks_seconds ks) m ks) k'
  = if decide (k = k') then {[m]} ∪ owners ttl ks k' else owners ttl ks k'.
Proof.
  intros Httl. destruct (decide (k = k')) as [<-|Hne].
  - apply set_eq. intros x. rewrite elem_of_union, elem_of_singleton, !elem_of_owners,
      seconds_ZADD. unfold ks_ZADD. rewrite zset_put_eq.
    destruct (decide (x = m)) as [->|Hx].
    + split; [by left|]. intros _. exists (ks_seconds ks).
      rewrite lookup_insert_eq. split; [done|lia].
    + rewrite lookup_insert_ne by done. naive_solver.
  - apply owners_same; autorewrite with redis; [done|]. by apply zset_put_ne.
Qed.

Lemma owners_ZREM ttl ks k m k' :
  owners ttl (ks_ZREM k m ks) k'
  = if decide (k = k') then owners ttl ks k' ∖ {[m]} else owners ttl ks k'.
Proof.
  destruct (decide (k = k')) as [<-|Hne].
  - apply set_eq. intros x. rewrite elem_of_difference, elem_of_singleton, !elem_of_owners,
      seconds_ZREM. unfold ks_ZREM. rewrite zset_put_eq.
    destruct (decide (x = m)) as [->|Hx].
    + rewrite lookup_delete_eq. naive_solver.
    + rewrite lookup_delete_ne by done. naive_solver.
  - apply owners_same; autorewrite with redis; [done|]. by apply zset_put_ne.
Qed.

Lemma owners_EXPIRE ttl ks k t k' : owners ttl (ks_EXPIRE k t ks) k' = owners ttl ks k'.
Proof. apply owners_same; by autorewrite with redis. Qed.

Lemma owners_add_int ttl ks d k k' : owners ttl (ks_add_int d k ks) k' = owners ttl ks k'.
Proof. done. Qed.

(** Time never creates an owner. *)
Lemma owners_elapse_subseteq ttl ks d k :
  0 ≤ d → owners ttl (ks_elapse d ks) k ⊆ owners ttl ks k.
Proof.
  intros Hd m. rewrite !elem_of_owners. intros (s & Hs & Hlt).
  rewrite zset_elapse in Hs. case_match; [by rewrite lookup_empty in Hs|].
  exists s. split; [done|]. unfold ks_seconds in *. simpl in Hlt.
  pose proof (Z.div_le_mono (ks_ms ks) (ks_ms ks + d) 1000). lia.
Qed.

#[export] Hint Rewrite owners_EXPIRE owners_add_int : redis.

(** ** Commands that create no owner *)

Section NoNewOwner.
Context `{Redis R}.
Implicit Types r : R.

(** Seen from key [k] with lease time [t], [r'] has no owner that [r] lacks. *)
Definition no_new_owner (t : Z) (k : string) (r r' : R) : Prop :=
  owners t (obs r') k ⊆ owners t (obs r) k.

#[export] Instance no_new_owner_preorder t k : PreOrder (no_new_owner t k).
Proof. unfold no_new_owner. split; [intros r | intros r1 r2 r3 H1 H2]; set_solver. Qed.

Lemma no_new_refl t k r : no_new_owner t k r r.
Proof. reflexivity. Qed.

Lemma owners_subseteq t k ks ks' :
  ks_seconds ks' = ks_seconds ks → zset ks' k ⊆ zset ks k → owners t ks' k ⊆ owners t ks k.
Proof.
  intros Hs Hsub m. rewrite !elem_of_owners, Hs. intros (s & Hm & ?).
  exists s. split; [|done]. by eapply lookup_weaken.
Qed.

Lemma no_new_put t k k0 z r r0 r' :
  obs r' = ks_put k0 z (obs r0) → z ⊆ zset (obs r0) k0 →
  no_new_owner t k r r0 → no_new_owner t k r r'.
Proof.
  intros Ho Hz Hr. transitivity r0; [done|]. unfold no_new_owner. rewrite Ho.
  apply owners_subseteq; [apply seconds_put|]. rewrite zset_put. by case_decide; subst.
Qed.

Lemma no_new_purge t k k0 s r r0 :
  no_new_owner t k r r0 → no_new_owner t k r (ZREMRANGEBYSCORE k0 s r0).
Proof.
  intros Hr. eapply no_new_put; [apply obs_ZREMRANGEBYSCORE | apply map_filter_subseteq | done].
Qed.

Lemma no_new_ZREM t k k0 m r r0 :
  no_new_owner t k r r0 → no_new_owner t k r (ZREM k0 m r0).
Proof.
  intros Hr. eapply no_new_put; [apply obs_ZREM | apply delete_subseteq | done].
Qed.

Lemma no_new_EXPIRE t k k0 s r r0 :
  no_new_owner t k r r0 → no_new_owner t k r (EXPIRE k0 s r0).
Proof. unfold no_new_owner. by autorewrite with redis. Qed.

Lemma no_new_INCR t k k0 r r0 : no_new_owner t k r r0 → no_new_owner t k r (INCR k0 r0).
Proof. unfold no_new_owner. by autorewrite with redis. Qed.

Lemma no_new_DECR t k k0 r r0 : no_new_owner t k r r0 → no_new_owner t k r (DECR k0 r0).
Proof. unfold no_new_owner. by autorewrite with redis. Qed.

Lemma no_new_DEL t k k0 r r0 : no_new_owner t k r r0 → no_new_owner t k r (DEL k0 r0).
Proof.
  intros Hr. transitivity r0; [done|]. unfold no_new_owner. autorewrite with redis.
  apply owners_subseteq; [done|]. rewrite zset_DEL.
  case_decide; [apply map_empty_subseteq | done].
Qed.

Lemma no_new_ZADD t k k0 s m r r0 :
  k0 ≠ k → no_new_owner t k r r0 → no_new_owner t k r (ZADD k0 s m r0).
Proof.
  intros Hne Hr. transitivity r0; [done|]. unfold no_new_owner. autorewrite with redis.
  rewrite (owners_same _ (obs r0)); [done | by autorewrite with redis | by apply zset_put_ne].
Qed.

Lemma no_new_elapse t k d r r0 :
  0 ≤ d → no_new_owner t k r r0 → no_new_owner t k r (elapse d r0).
Proof.
  intros Hd Hr. transitivity r0; [done|]. unfold no_new_owner. autorewrite with redis.
  by apply owners_elapse_subseteq.
Qed.

Lemma no_new_if (b : bool) t k r r1 r2 :
  no_new_owner t k r r1 → no_new_owner t k r r2 → no_new_owner t k r (if b then r1 else r2).
Proof. by destruct b. Qed.

Lemma no_new_foldl {A} t k (f : R → A → R) l r r0 :
  (∀ r1 x, no_new_owner t k r r1 → no_new_owner t k r (f r1 x)) →
  no_new_owner t k r r0 → no_new_owner t k r (foldl f r0 l).
Proof. intros Hf. by apply (foldl_invariant (no_new_owner t k r)). Qed.
End NoNewOwner.

Create HintDb no_new discriminated.
#[export] Hint Resolve no_new_refl no_new_purge no_new_ZREM no_new_EXPIRE no_new_INCR no_new_DECR
  no_new_DEL no_new_ZADD no_new_elapse no_new_if : no_new.
