(* ===== verification/ConcurrencyCache.v ===== *)
(** * Concurrency slots

    Models [repository/concurrency_cache.go]: the Lua scripts that admit,
    refresh and count request slots and live leases, the wait queues, and the
    active index that tells the background cleanup where to look.  A Go method
    is a function from the server state to its result and the new state; the
    server is any instance of [Redis]. *)

From Stdlib Require Import ZArith Lia String DecimalString.
From stdpp Require Import base tactics numbers list gmap strings sorting.
From S2P Require Import Prelude RedisServer.

(** ** Keys *)

Definition accountSlotKeyPrefix : string := "concurrency:account:".
Definition userSlotKeyPrefix : string := "concurrency:user:".
Definition apiKeySlotKeyPrefix : string := "concurrency:api_key:".
Definition liveAccountSlotKeyPrefix : string := "concurrency:live:account:".
Definition liveUserSlotKeyPrefix : string := "concurrency:live:user:".
Definition liveAPIKeySlotKeyPrefix : string := "concurrency:live:api_key:".
Definition openAIWSIngressLeaseKeyPrefix : string := "concurrency:openai_ws_ingress:api_key:".
Definition openAIWSIngressLeaseTTLSeconds : Z := 60.
Definition liveLeaseTTLSeconds : Z := 60.
Definition waitQueueKeyPrefix : string := "concurrency:wait:".
Definition accountWaitKeyPrefix : string := "wait:account:".
Definition defaultSlotTTLMinutes : Z := 15.
Definition accountActiveIndexKey : string := "concurrency:account:active_index".
Definition userActiveIndexKey : string := "concurrency:user:active_index".
Definition activeIndexCleanupBatchSize : nat := 1000.
Definition activeIndexPipelineChunkSize : nat := 500.

Definition accountSlotKey (id : Z) : string := accountSlotKeyPrefix +:+ FormatInt id.
Definition userSlotKey (id : Z) : string := userSlotKeyPrefix +:+ FormatInt id.
Definition apiKeySlotKey (id : Z) : string := apiKeySlotKeyPrefix +:+ FormatInt id.
Definition liveAccountSlotKey (id : Z) : string := liveAccountSlotKeyPrefix +:+ FormatInt id.
Definition liveUserSlotKey (id : Z) : string := liveUserSlotKeyPrefix +:+ FormatInt id.
Definition liveAPIKeySlotKey (id : Z) : string := liveAPIKeySlotKeyPrefix +:+ FormatInt id.
Definition openAIWSIngressLeaseKey (id : Z) : string :=
  openAIWSIngressLeaseKeyPrefix +:+ FormatInt id.
Definition waitQueueKey (id : Z) : string := waitQueueKeyPrefix +:+ FormatInt id.
Definition accountWaitKey (id : Z) : string := accountWaitKeyPrefix +:+ FormatInt id.

Record slotIndexSpec := mkSlotIndexSpec {
  indexKey : string;
  slotKey : Z → string;
  waitKey : Z → string
}.

Definition accountSlotIndex : slotIndexSpec :=
  mkSlotIndexSpec accountActiveIndexKey accountSlotKey accountWaitKey.
Definition userSlotIndex : slotIndexSpec :=
  mkSlotIndexSpec userActiveIndexKey userSlotKey waitQueueKey.

(** ** Configuration *)

Record concurrencyCache := mkConcurrencyCache {
  slotTTLSeconds : Z;
  waitQueueTTLSeconds : Z
}.

Definition NewConcurrencyCache (slotTTLMinutes waitTTLSeconds : Z) : concurrencyCache :=
  let slotTTLMinutes := if slotTTLMinutes <=? 0 then defaultSlotTTLMinutes else slotTTLMinutes in
  let waitTTLSeconds := if waitTTLSeconds <=? 0 then slotTTLMinutes * 60 else waitTTLSeconds in
  mkConcurrencyCache (slotTTLMinutes * 60) waitTTLSeconds.

Record activeIndexLoad := mkActiveIndexLoad {
  load_id : Z;
  load_member : string;
  load_slotCount : Z;
  load_waitCount : Z
}.

(** Result of the load queries (accounts and users have the same shape). *)
Record LoadInfo := mkLoadInfo {
  li_ID : Z;
  li_CurrentConcurrency : Z;
  li_WaitingCount : Z;
  li_LoadRate : Z
}.

Section Scripts.
Context `{Redis R}.
Implicit Types r : R.

(** [acquireScript]; [arg4] is [ARGV[4]], absent for accounts. *)
Definition acquireScript (key liveKey : string) (maxConcurrency ttl : Z) (requestID : string)
    (arg4 : option string) (r : R) : (Z * Z) * R :=
  let now := TIME r in
  let r := ZREMRANGEBYSCORE key (now - ttl) r in
  let r := ZREMRANGEBYSCORE liveKey (now - 60) r in
  match ZSCORE key requestID r with
  | Some _ => ((1, now), EXPIRE key ttl (ZADD key now requestID r))
  | None =>
      let count := ZCARD key r + ZCARD liveKey r in
      if ((maxConcurrency <=? 0) && bool_decide (arg4 = Some "1"%string))
         || (count <? maxConcurrency)
      then ((1, now), EXPIRE key ttl (ZADD key now requestID r))
      else ((0, now), r)
  end.

Definition getCountScript (key liveKey : string) (ttl : Z) (r : R) : Z * R :=
  let now := TIME r in
  let r := ZREMRANGEBYSCORE key (now - ttl) r in
  let r := ZREMRANGEBYSCORE liveKey (now - 60) r in
  (ZCARD key r + ZCARD liveKey r, r).

Definition acquireLiveLeaseScript (accountRegular accountLive userRegular userLive apiLive : string)
    (accountMax userMax ttl : Z) (leaseID : string) (replacing regularTTL : Z) (r : R) : Z * R :=
  let now := TIME r in
  let r := ZREMRANGEBYSCORE accountRegular (now - regularTTL) r in
  let r := ZREMRANGEBYSCORE userRegular (now - regularTTL) r in
  let r := ZREMRANGEBYSCORE accountLive (now - ttl) r in
  let r := ZREMRANGEBYSCORE userLive (now - ttl) r in
  let r := ZREMRANGEBYSCORE apiLive (now - ttl) r in
  match ZSCORE accountLive leaseID r with
  | Some _ => (1, r)
  | None =>
      let accountCount := ZCARD accountRegular r + ZCARD accountLive r in
      let userCount := ZCARD userRegular r + ZCARD userLive r in
      let allowance := if replacing =? 1 then 1 else 0 in
      if (0 <? accountMax) && (accountMax + allowance <=? accountCount) then (0, r)
      else if (0 <? userMax) && (userMax + allowance <=? userCount) then (0, r)
      else
        let r := ZADD accountLive now leaseID r in
        let r := ZADD userLive now leaseID r in
        let r := ZADD apiLive now leaseID r in
        (1, EXPIRE apiLive ttl (EXPIRE userLive ttl (EXPIRE accountLive ttl r)))
  end.

(** First loop of [refreshLiveLeaseScript]: stops at the first key without the
    lease. *)
Fixpoint refreshLive_scan (keys : list string) (expireBefore : Z) (leaseID : string) (r : R)
    : bool * R :=
  match keys with
  | [] => (true, r)
  | key :: keys =>
      let r := ZREMRANGEBYSCORE key expireBefore r in
      match ZSCORE key leaseID r with
      | None => (false, r)
      | Some _ => refreshLive_scan keys expireBefore leaseID r
      end
  end.

Definition refreshLiveLeaseScript (keys : list string) (ttl : Z) (leaseID : string) (r : R)
    : Z * R :=
  let now := TIME r in
  let '(ok, r) := refreshLive_scan keys (now - ttl) leaseID r in
  if ok then (1, foldl (λ r key, EXPIRE key ttl (ZADD key now leaseID r)) r keys)
  else (0, r).

Definition trackSlotScript (key : string) (ttl : Z) (requestID : string) (r : R) : Z * R :=
  let now := TIME r in
  let r := ZREMRANGEBYSCORE key (now - ttl) r in
  (1, EXPIRE key ttl (ZADD key now requestID r)).

Definition acquireOpenAIWSIngressLeaseScript (key : string) (maxConnections ttl : Z)
    (leaseID : string) (r : R) : Z * R :=
  let now := TIME r in
  let r := ZREMRANGEBYSCORE key (now - ttl) r in
  match ZSCORE key leaseID r with
  | Some _ => (1, EXPIRE key ttl (ZADD key now leaseID r))
  | None =>
      if ZCARD key r <? maxConnections
      then (1, EXPIRE key ttl (ZADD key now leaseID r))
      else (0, r)
  end.

Definition refreshOpenAIWSIngressLeaseScript (key : string) (ttl : Z) (leaseID : string) (r : R)
    : Z * R :=
  let now := TIME r in
  let r := ZREMRANGEBYSCORE key (now - ttl) r in
  match ZSCORE key leaseID r with
  | None => (0, r)
  | Some _ => (1, EXPIRE key ttl (ZADD key now leaseID r))
  end.

(** [incrementWaitScript] and [incrementAccountWaitScript] are the same text. *)
Definition incrementWaitScript (key : string) (maxWait ttl : Z) (r : R) : (Z * Z) * R :=
  let current := default 0 (GET key r) in
  let now := TIME r in
  if maxWait <=? current then ((0, now), r)
  else ((1, now), EXPIRE key ttl (INCR key r)).

Definition decrementWaitScript (key : string) (r : R) : Z * R :=
  match GET key r with
  | Some current => if 0 <? current then (1, DECR key r) else (1, r)
  | None => (1, r)
  end.

Definition cleanupExpiredSlotsScript (key : string) (ttl : Z) (r : R) : Z * R :=
  let now := TIME r in
  let r := ZREMRANGEBYSCORE key (now - ttl) r in
  if ZCARD key r =? 0 then (1, DEL key r) else (1, EXPIRE key ttl r).

Definition refreshRegularLeaseScript (key : string) (ttl : Z) (requestID : string) (r : R)
    : (Z * Z) * R :=
  let now := TIME r in
  let r := ZREMRANGEBYSCORE key (now - ttl) r in
  match ZSCORE key requestID r with
  | None => ((0, now), r)
  | Some _ => ((1, now), EXPIRE key ttl (ZADD key now requestID r))
  end.
End Scripts.

(** ** Methods of the cache *)

Section Methods.
Context `{Redis R} (c : concurrencyCache).
Implicit Types r : R.

Definition ConcurrencySlotTTL : Z := slotTTLSeconds c * Second.

Definition touchActiveIndexAt (index : string) (id expireAt : Z) (r : R) : R :=
  if (id <=? 0) || (expireAt <=? 0) then r
  else ZADD index expireAt (FormatInt id) r.

Definition activeIndexTTL (slotCount waitCount : Z) : Z :=
  let ttl := if 0 <? slotCount then slotTTLSeconds c else 0 in
  if (0 <? waitCount) && (ttl <? waitQueueTTLSeconds c) then waitQueueTTLSeconds c else ttl.

(** The wait counter as the load queries read it: absent or non-positive is 0. *)
Definition positive_wait (key : string) (r : R) : Z :=
  match GET key r with Some v => if 0 <? v then v else 0 | None => 0 end.

Definition readActiveLoadForKey (id : Z) (slotKey waitKey : string) (now : Z) (r : R)
    : activeIndexLoad * R :=
  let r := ZREMRANGEBYSCORE slotKey (now - slotTTLSeconds c) r in
  (mkActiveIndexLoad id (FormatInt id) (ZCARD slotKey r) (positive_wait waitKey r), r).

Definition refreshActiveIndex (index : string) (id : Z) (slotKey waitKey : string) (r : R) : R :=
  if id <=? 0 then r else
  let now := TIME r in
  let '(load, r) := readActiveLoadForKey id slotKey waitKey now r in
  if (load_slotCount load =? 0) && (load_waitCount load <=? 0)
  then ZREM index (FormatInt id) r
  else
    let ttl := activeIndexTTL (load_slotCount load) (load_waitCount load) in
    if ttl <=? 0 then r else touchActiveIndexAt index id (now + ttl) r.

Definition refreshAccountActiveIndex (id : Z) (r : R) : R :=
  refreshActiveIndex accountActiveIndexKey id (accountSlotKey id) (accountWaitKey id) r.

Definition refreshUserActiveIndex (id : Z) (r : R) : R :=
  refreshActiveIndex userActiveIndexKey id (userSlotKey id) (waitQueueKey id) r.

Definition AcquireAccountSlot (accountID maxConcurrency : Z) (requestID : string) (r : R)
    : bool * R :=
  let '((result, now), r) := acquireScript (accountSlotKey accountID)
    (liveAccountSlotKey accountID) maxConcurrency (slotTTLSeconds c) requestID None r in
  if result =? 1
  then (true, touchActiveIndexAt accountActiveIndexKey accountID (now + slotTTLSeconds c) r)
  else (false, r).

Definition ReleaseAccountSlot (accountID : Z) (requestID : string) (r : R) : R :=
  refreshAccountActiveIndex accountID (ZREM (accountSlotKey accountID) requestID r).

Definition GetAccountConcurrency (accountID : Z) (r : R) : Z * R :=
  getCountScript (accountSlotKey accountID) (liveAccountSlotKey accountID) (slotTTLSeconds c) r.

(** The pipeline of the batch queries: every command runs in order. *)
Definition batch_count (slotKeyOf liveKeyOf : Z → string) (cutoff liveCutoff : Z)
    (acc : gmap Z Z * R) (id : Z) : gmap Z Z * R :=
  let '(m, r) := acc in
  let r := ZREMRANGEBYSCORE (slotKeyOf id) cutoff r in
  let r := ZREMRANGEBYSCORE (liveKeyOf id) liveCutoff r in
  (<[id := ZCARD (slotKeyOf id) r + ZCARD (liveKeyOf id) r]> m, r).

Definition GetAccountConcurrencyBatch (accountIDs : list Z) (r : R) : gmap Z Z * R :=
  let now := TIME r in
  foldl (batch_count accountSlotKey liveAccountSlotKey (now - slotTTLSeconds c)
           (now - liveLeaseTTLSeconds)) (∅, r) accountIDs.

Definition AcquireUserSlot (userID maxConcurrency : Z) (requestID : string) (r : R) : bool * R :=
  let '((result, now), r) := acquireScript (userSlotKey userID)
    (liveUserSlotKey userID) maxConcurrency (slotTTLSeconds c) requestID (Some "1"%string) r in
  if result =? 1
  then (true, touchActiveIndexAt userActiveIndexKey userID (now + slotTTLSeconds c) r)
  else (false, r).

Definition ReleaseUserSlot (userID : Z) (requestID : string) (r : R) : R :=
  refreshUserActiveIndex userID (ZREM (userSlotKey userID) requestID r).

Definition GetUserConcurrency (userID : Z) (r : R) : Z * R :=
  getCountScript (userSlotKey userID) (liveUserSlotKey userID) (slotTTLSeconds c) r.

Definition TrackAPIKeySlot (apiKeyID : Z) (requestID : string) (r : R) : R :=
  (trackSlotScript (apiKeySlotKey apiKeyID) (slotTTLSeconds c) requestID r).2.

Definition ReleaseAPIKeySlot (apiKeyID : Z) (requestID : string) (r : R) : R :=
  ZREM (apiKeySlotKey apiKeyID) requestID r.

Definition RefreshAPIKeySlot (apiKeyID : Z) (requestID : string) (r : R) : bool * R :=
  let '((result, _), r) :=
    refreshRegularLeaseScript (apiKeySlotKey apiKeyID) (slotTTLSeconds c) requestID r in
  (result =? 1, r).

Definition AcquireOpenAIWSIngressLease (apiKeyID maxConnections : Z) (leaseID : string) (r : R)
    : bool * R :=
  if (apiKeyID <=? 0) || (maxConnections <=? 0) || (leaseID =? "")%string then (false, r)
  else
    let '(result, r) := acquireOpenAIWSIngressLeaseScript (openAIWSIngressLeaseKey apiKeyID)
      maxConnections openAIWSIngressLeaseTTLSeconds leaseID r in
    (result =? 1, r).

Definition RefreshOpenAIWSIngressLease (apiKeyID : Z) (leaseID : string) (r : R) : bool * R :=
  if (apiKeyID <=? 0) || (leaseID =? "")%string then (false, r)
  else
    let '(result, r) := refreshOpenAIWSIngressLeaseScript (openAIWSIngressLeaseKey apiKeyID)
      openAIWSIngressLeaseTTLSeconds leaseID r in
    (result =? 1, r).

Definition ReleaseOpenAIWSIngressLease (apiKeyID : Z) (leaseID : string) (r : R) : R :=
  if (apiKeyID <=? 0) || (leaseID =? "")%string then r
  else ZREM (openAIWSIngressLeaseKey apiKeyID) leaseID r.

Definition AcquireLiveLease (accountID accountMax userID userMax apiKeyID : Z) (leaseID : string)
    (replacingRegularSlots : bool) (r : R) : bool * R :=
  if (accountID <=? 0) || (userID <=? 0) || (apiKeyID <=? 0) || (leaseID =? "")%string
  then (false, r)
  else
    let replacing := if replacingRegularSlots then 1 else 0 in
    let '(result, r) := acquireLiveLeaseScript (accountSlotKey accountID)
      (liveAccountSlotKey accountID) (userSlotKey userID) (liveUserSlotKey userID)
      (liveAPIKeySlotKey apiKeyID) accountMax userMax liveLeaseTTLSeconds leaseID replacing
      (slotTTLSeconds c) r in
    (result =? 1, r).

Definition RefreshLiveLease (accountID userID apiKeyID : Z) (leaseID : string) (r : R)
    : bool * R :=
  if (leaseID =? "")%string then (false, r)
  else
    let '(result, r) := refreshLiveLeaseScript
      [liveAccountSlotKey accountID; liveUserSlotKey userID; liveAPIKeySlotKey apiKeyID]
      liveLeaseTTLSeconds leaseID r in
    (result =? 1, r).

Definition ReleaseLiveLease (accountID userID apiKeyID : Z) (leaseID : string) (r : R) : R :=
  if (leaseID =? "")%string then r
  else
    ZREM (liveAPIKeySlotKey apiKeyID) leaseID
      (ZREM (liveUserSlotKey userID) leaseID (ZREM (liveAccountSlotKey accountID) leaseID r)).

Definition GetAPIKeyConcurrencyBatch (apiKeyIDs : list Z) (r : R) : gmap Z Z * R :=
  let now := TIME r in
  foldl (batch_count apiKeySlotKey liveAPIKeySlotKey (now - slotTTLSeconds c)
           (now - liveLeaseTTLSeconds)) (∅, r) apiKeyIDs.

Definition IncrementWaitCount (userID maxWait : Z) (r : R) : bool * R :=
  let '((result, now), r) :=
    incrementWaitScript (waitQueueKey userID) maxWait (waitQueueTTLSeconds c) r in
  if result =? 1
  then (true, touchActiveIndexAt userActiveIndexKey userID (now + waitQueueTTLSeconds c) r)
  else (false, r).

Definition DecrementWaitCount (userID : Z) (r : R) : R :=
  refreshUserActiveIndex userID (decrementWaitScript (waitQueueKey userID) r).2.

Definition IncrementAccountWaitCount (accountID maxWait : Z) (r : R) : bool * R :=
  let '((result, now), r) :=
    incrementWaitScript (accountWaitKey accountID) maxWait (waitQueueTTLSeconds c) r in
  if result =? 1
  then (true, touchActiveIndexAt accountActiveIndexKey accountID (now + waitQueueTTLSeconds c) r)
  else (false, r).

Definition DecrementAccountWaitCount (accountID : Z) (r : R) : R :=
  refreshAccountActiveIndex accountID (decrementWaitScript (accountWaitKey accountID) r).2.

Definition GetAccountWaitingCount (accountID : Z) (r : R) : Z :=
  default 0 (GET (accountWaitKey accountID) r).

(** One account or user of a load query; Go's integer division truncates
    towards zero. *)
Definition load_entry (slotKeyOf liveKeyOf waitKeyOf : Z → string) (cutoff liveCutoff : Z)
    (acc : gmap Z LoadInfo * R) (e : Z * Z) : gmap Z LoadInfo * R :=
  let '(m, r) := acc in
  let '(id, maxConcurrency) := e in
  let r := ZREMRANGEBYSCORE (slotKeyOf id) cutoff r in
  let r := ZREMRANGEBYSCORE (liveKeyOf id) liveCutoff r in
  let current := ZCARD (slotKeyOf id) r + ZCARD (liveKeyOf id) r in
  let waiting := default 0 (GET (waitKeyOf id) r) in
  let loadRate := if 0 <? maxConcurrency
                  then Z.quot ((current + waiting) * 100) maxConcurrency else 0 in
  (<[id := mkLoadInfo id current waiting loadRate]> m, r).

Definition GetAccountsLoadBatch (accounts : list (Z * Z)) (r : R) : gmap Z LoadInfo * R :=
  let now := TIME r in
  foldl (load_entry accountSlotKey liveAccountSlotKey accountWaitKey (now - slotTTLSeconds c)
           (now - liveLeaseTTLSeconds)) (∅, r) accounts.

Definition GetUsersLoadBatch (users : list (Z * Z)) (r : R) : gmap Z LoadInfo * R :=
  let now := TIME r in
  foldl (load_entry userSlotKey liveUserSlotKey waitQueueKey (now - slotTTLSeconds c)
           (now - liveLeaseTTLSeconds)) (∅, r) users.

Definition CleanupExpiredAccountSlots (accountID : Z) (r : R) : R :=
  refreshAccountActiveIndex accountID
    (cleanupExpiredSlotsScript (accountSlotKey accountID) (slotTTLSeconds c) r).2.

(** [readIndexLoads]: members that are not positive ids are stale; the others
    are read in order (the chunking only bounds the pipeline size). *)
Definition index_candidate (member : string) : option Z :=
  match ParseInt member with Some id => if id <=? 0 then None else Some id | None => None end.

Definition read_index_load (spec : slotIndexSpec) (now : Z)
    (acc : list activeIndexLoad * list string * R) (member : string)
    : list activeIndexLoad * list string * R :=
  let '(loads, stale, r) := acc in
  match index_candidate member with
  | None => (loads, stale ++ [member], r)
  | Some id =>
      let r := ZREMRANGEBYSCORE (slotKey spec id) (now - slotTTLSeconds c) r in
      (loads ++ [mkActiveIndexLoad id member (ZCARD (slotKey spec id) r)
                   (positive_wait (waitKey spec id) r)], stale, r)
  end.

Definition readIndexLoads (spec : slotIndexSpec) (members : list string) (now : Z) (r : R)
    : list activeIndexLoad * list string * R :=
  foldl (read_index_load spec now) ([], [], r) members.

Definition load_is_zero (l : activeIndexLoad) : bool :=
  (load_slotCount l =? 0) && (load_waitCount l <=? 0).

Definition reconcileExpiredIndexCandidates (spec : slotIndexSpec) (r : R) : R :=
  let now := TIME r in
  let members := ZRANGEBYSCORE (indexKey spec) now activeIndexCleanupBatchSize r in
  let '(loads, stale, r) := readIndexLoads spec members now r in
  let refreshed := List.filter (λ l, negb (load_is_zero l)) loads in
  let stale := stale ++ (load_member <$> List.filter load_is_zero loads) in
  let r := foldl (λ r l, ZADD (indexKey spec)
                    (now + activeIndexTTL (load_slotCount l) (load_waitCount l))
                    (load_member l) r) r refreshed in
  foldl (λ r m, ZREM (indexKey spec) m r) r stale.

Definition CleanupExpiredAccountSlotKeys (r : R) : R :=
  reconcileExpiredIndexCandidates userSlotIndex
    (reconcileExpiredIndexCandidates accountSlotIndex r).

Definition CleanupStaleProcessSlots (r : R) : R := CleanupExpiredAccountSlotKeys r.

Definition refreshRegularSlot (key index : string) (ownerID : Z) (requestID : string) (r : R)
    : bool * R :=
  let '((result, now), r) := refreshRegularLeaseScript key (slotTTLSeconds c) requestID r in
  if result =? 1 then (true, touchActiveIndexAt index ownerID (now + slotTTLSeconds c) r)
  else (false, r).

Definition RefreshUserSlot (userID : Z) (requestID : string) (r : R) : bool * R :=
  refreshRegularSlot (userSlotKey userID) userActiveIndexKey userID requestID r.

Definition RefreshAccountSlot (accountID : Z) (requestID : string) (r : R) : bool * R :=
  refreshRegularSlot (accountSlotKey accountID) accountActiveIndexKey accountID requestID r.
End Methods.

(** ** Keys never collide *)

(** Unfolds the key builders and compares the prefixes character by
    character. *)
Ltac expose_keys H :=
  cbv [slotKey waitKey indexKey accountSlotIndex userSlotIndex
    accountSlotKey userSlotKey apiKeySlotKey liveAccountSlotKey liveUserSlotKey
    liveAPIKeySlotKey openAIWSIngressLeaseKey waitQueueKey accountWaitKey
    accountSlotKeyPrefix userSlotKeyPrefix apiKeySlotKeyPrefix liveAccountSlotKeyPrefix
    liveUserSlotKeyPrefix liveAPIKeySlotKeyPrefix openAIWSIngressLeaseKeyPrefix
    waitQueueKeyPrefix accountWaitKeyPrefix accountActiveIndexKey userActiveIndexKey
    String.append] in H.

Ltac solve_key_ne :=
  let Hkey := fresh "Hkey" in intros Hkey; expose_keys Hkey; discriminate Hkey.

Lemma FormatInt_not_word z w : NilZero.int_of_string w = None → FormatInt z ≠ w.
Proof.
  intros Hw <-. unfold FormatInt in Hw. destruct (to_int_nonnil z).
  by rewrite NilZero.isi in Hw.
Qed.

Lemma slot_key_not_index spec id :
  spec = accountSlotIndex ∨ spec = userSlotIndex → slotKey spec id ≠ indexKey spec.
Proof.
  intros [-> | ->] H; expose_keys H; injection H as H;
    by apply (FormatInt_not_word id "active_index") in H.
Qed.

Lemma accountSlotKey_inj a b : accountSlotKey a = accountSlotKey b → a = b.
Proof. unfold accountSlotKey. intros Hk%(inj _). by apply (inj FormatInt). Qed.

Lemma userSlotKey_inj a b : userSlotKey a = userSlotKey b → a = b.
Proof. unfold userSlotKey. intros Hk%(inj _). by apply (inj FormatInt). Qed.

Lemma NewConcurrencyCache_positive m w :
  0 < slotTTLSeconds (NewConcurrencyCache m w) ∧ 0 < waitQueueTTLSeconds (NewConcurrencyCache m w).
Proof.
  unfold NewConcurrencyCache, defaultSlotTTLMinutes. simpl.
  destruct (Z.leb_spec m 0), (Z.leb_spec w 0); simpl; lia.
Qed.

(** ** Scripts *)

Section ScriptFacts.
Context `{Redis R}.
Implicit Types r : R.

Lemma TIME_obs r : TIME r = ks_seconds (obs r).
Proof. done. Qed.

Lemma ZCARD_owners ttl k r :
  dom (zset (obs r) k) = owners ttl (obs r) k → ZCARD k r = Z.of_nat (size (owners ttl (obs r) k)).
Proof. unfold ZCARD. intros <-. by rewrite size_dom. Qed.

(** Claiming: [ZADD key now m] followed by [EXPIRE key ttl]. *)
Lemma owners_claim ttl t k m r k' :
  0 < ttl →
  owners ttl (obs (EXPIRE k t (ZADD k (TIME r) m r))) k'
  = if decide (k = k') then {[m]} ∪ owners ttl (obs r) k' else owners ttl (obs r) k'.
Proof. intros Httl. autorewrite with redis. by apply owners_ZADD. Qed.

Lemma TIME_claim t k s m r : TIME (EXPIRE k t (ZADD k s m r)) = TIME r.
Proof. rewrite !TIME_obs. by autorewrite with redis. Qed.

Lemma TIME_purge k s r : TIME (ZREMRANGEBYSCORE k s r) = TIME r.
Proof. rewrite !TIME_obs. by autorewrite with redis. Qed.

(** The two purges every admission script begins with. *)
Definition purged (key liveKey : string) (ttl : Z) (r : R) : R :=
  ZREMRANGEBYSCORE liveKey (TIME r - 60) (ZREMRANGEBYSCORE key (TIME r - ttl) r).

Lemma TIME_purged key liveKey ttl r : TIME (purged key liveKey ttl r) = TIME r.
Proof. unfold purged. by rewrite !TIME_purge. Qed.

Lemma owners_purged_key key liveKey ttl r :
  key ≠ liveKey → owners ttl (obs (purged key liveKey ttl r)) key = owners ttl (obs r) key.
Proof.
  intros Hne. unfold purged. autorewrite with redis.
  rewrite owners_purge_ne by done. apply owners_purge.
Qed.

Lemma owners_purged_live key liveKey ttl r :
  key ≠ liveKey → owners 60 (obs (purged key liveKey ttl r)) liveKey = owners 60 (obs r) liveKey.
Proof.
  intros Hne. unfold purged. autorewrite with redis. rewrite TIME_obs.
  rewrite <- (seconds_ZREMRANGEBYSCORE key (ks_seconds (obs r) - ttl)) at 1.
  rewrite owners_purge. by apply owners_purge_ne.
Qed.

Lemma owners_purged_other key liveKey ttl r t k :
  k ≠ key → k ≠ liveKey → owners t (obs (purged key liveKey ttl r)) k = owners t (obs r) k.
Proof. intros. unfold purged. autorewrite with redis. by rewrite !owners_purge_ne. Qed.

Lemma dom_purged_key key liveKey ttl r :
  key ≠ liveKey → dom (zset (obs (purged key liveKey ttl r)) key) = owners ttl (obs r) key.
Proof.
  intros Hne. unfold purged. autorewrite with redis. unfold ks_ZREMRANGEBYSCORE at 1.
  rewrite zset_put_ne by done. apply purged_dom.
Qed.

Lemma dom_purged_live key liveKey ttl r :
  key ≠ liveKey → dom (zset (obs (purged key liveKey ttl r)) liveKey) = owners 60 (obs r) liveKey.
Proof.
  intros Hne. unfold purged. autorewrite with redis. rewrite TIME_obs.
  rewrite <- (seconds_ZREMRANGEBYSCORE key (ks_seconds (obs r) - ttl)) at 1.
  rewrite purged_dom. by apply owners_purge_ne.
Qed.

Lemma count_purged key liveKey ttl r :
  key ≠ liveKey →
  ZCARD key (purged key liveKey ttl r) + ZCARD liveKey (purged key liveKey ttl r)
  = Z.of_nat (size (owners ttl (obs r) key) + size (owners 60 (obs r) liveKey)).
Proof.
  intros Hne. unfold ZCARD. rewrite <- !size_dom.
  rewrite dom_purged_key, dom_purged_live by done. lia.
Qed.

Lemma ZSCORE_purged key liveKey ttl m r :
  key ≠ liveKey →
  is_Some (ZSCORE key m (purged key liveKey ttl r)) ↔ m ∈ owners ttl (obs r) key.
Proof.
  intros Hne. unfold ZSCORE. rewrite <- elem_of_dom. by rewrite dom_purged_key.
Qed.

(** The owners a script leaves behind: [key] gains [m] when [granted]. *)
Definition grants (granted : bool) (key liveKey m : string) (ttl : Z) (r r' : R) : Prop :=
  TIME r' = TIME r
  ∧ owners ttl (obs r') key
    = (if granted then {[m]} ∪ owners ttl (obs r) key else owners ttl (obs r) key)
  ∧ owners 60 (obs r') liveKey = owners 60 (obs r) liveKey
  ∧ ∀ t k, k ≠ key → k ≠ liveKey → owners t (obs r') k = owners t (obs r) k.

Lemma purged_grants key liveKey m ttl r :
  key ≠ liveKey → grants false key liveKey m ttl r (purged key liveKey ttl r).
Proof.
  intros Hne. split; [apply TIME_purged|]. split; [by apply owners_purged_key|].
  split; [by apply owners_purged_live|]. intros. by apply owners_purged_other.
Qed.

Lemma claim_grants key liveKey m ttl r :
  key ≠ liveKey → 0 < ttl →
  grants true key liveKey m ttl r
    (EXPIRE key ttl (ZADD key (TIME r) m (purged key liveKey ttl r))).
Proof.
  intros Hne Httl. rewrite <- (TIME_purged key liveKey ttl r).
  split; [by rewrite TIME_claim, TIME_purged|].
  split; [|split].
  - rewrite owners_claim by done. rewrite decide_True by done. by rewrite owners_purged_key.
  - rewrite owners_claim by lia. rewrite decide_False by done. by apply owners_purged_live.
  - intros t k Hk Hl. autorewrite with redis. rewrite TIME_obs.
    rewrite <- (owners_purged_other key liveKey ttl r) by done.
    apply owners_same; [by autorewrite with redis|]. unfold ks_ZADD. by apply zset_put_ne.
Qed.

Definition acquire_condition (reg live : gset string) (max : Z) (m : string) (arg4 : option string)
    : Prop :=
  m ∈ reg ∨ (max ≤ 0 ∧ arg4 = Some "1"%string) ∨ Z.of_nat (size reg + size live) < max.

Lemma acquireScript_spec key liveKey max ttl m arg4 r :
  key ≠ liveKey → 0 < ttl →
  ∃ granted r', acquireScript key liveKey max ttl m arg4 r
      = ((if granted : bool then 1 else 0, TIME r), r')
    ∧ (granted = true ↔ acquire_condition (owners ttl (obs r) key) (owners 60 (obs r) liveKey)
                          max m arg4)
    ∧ grants granted key liveKey m ttl r r'.
Proof.
  intros Hne Httl. unfold acquireScript, acquire_condition. fold (purged key liveKey ttl r).
  rewrite count_purged by done.
  pose proof (ZSCORE_purged key liveKey ttl m r Hne) as Hz.
  destruct (ZSCORE key m (purged key liveKey ttl r)) as [s|].
  - exists true. eexists. split; [done|]. split; [|by apply claim_grants].
    split; [|done]. intros _. left. apply Hz. by eexists.
  - assert (m ∉ owners ttl (obs r) key) as Hnot.
    { intros Hin. apply Hz in Hin as [? ?]. done. }
    destruct (_ || _) eqn:Hc.
    + exists true. eexists. split; [done|]. split; [|by apply claim_grants].
      split; [|done]. intros _. right.
      apply orb_true_iff in Hc as [Hc|Hc]; bool_to_prop; [by left|by right].
    + exists false. eexists. split; [done|]. split; [|by apply purged_grants].
      split; [done|]. apply orb_false_iff in Hc as [Hc1 Hc2].
      apply andb_false_iff in Hc1. bool_to_prop.
      intros [?|[[? Ha]|?]]; [done| |lia].
      destruct Hc1; bool_to_prop; [lia|done].
Qed.

Lemma refreshRegularLeaseScript_spec key ttl m r :
  0 < ttl →
  ∃ granted r', refreshRegularLeaseScript key ttl m r = ((if granted : bool then 1 else 0, TIME r), r')
    ∧ (granted = true ↔ m ∈ owners ttl (obs r) key)
    ∧ TIME r' = TIME r
    ∧ owners ttl (obs r') key = owners ttl (obs r) key
    ∧ ∀ t k, k ≠ key → owners t (obs r') k = owners t (obs r) k.
Proof.
  intros Httl. unfold refreshRegularLeaseScript.
  set (r1 := ZREMRANGEBYSCORE key (TIME r - ttl) r).
  assert (dom (zset (obs r1) key) = owners ttl (obs r) key) as Hd.
  { unfold r1. autorewrite with redis. apply purged_dom. }
  assert (owners ttl (obs r1) key = owners ttl (obs r) key) as Ho.
  { unfold r1. autorewrite with redis. apply owners_purge. }
  assert (∀ t k, k ≠ key → owners t (obs r1) k = owners t (obs r) k) as Hoth.
  { intros t k Hk. unfold r1. autorewrite with redis. by apply owners_purge_ne. }
  assert (TIME r1 = TIME r) as Ht by apply TIME_purge.
  destruct (ZSCORE key m r1) as [s|] eqn:Hs; unfold ZSCORE in Hs.
  - assert (m ∈ owners ttl (obs r) key) as Hin.
    { rewrite <- Hd. apply elem_of_dom. by eexists. }
    exists true. eexists. split; [done|]. split; [done|].
    rewrite <- Ht. split; [apply TIME_claim|].
    split; [rewrite owners_claim, decide_True by done; rewrite Ho; set_solver|].
    intros t k Hk. rewrite <- Hoth by done. autorewrite with redis.
    apply owners_same; [by autorewrite with redis|]. unfold ks_ZADD. by apply zset_put_ne.
  - exists false. eexists. split; [done|]. split; [|done].
    split; [done|]. rewrite <- Hd, elem_of_dom. intros [? ?]. congruence.
Qed.
End ScriptFacts.

(** ** Methods that admit nobody *)

Ltac solve_slot_key_ne :=
  first [ done | solve_key_ne
  | let Hk := fresh "Hk" in intros Hk; expose_keys Hk; injection Hk as Hk; symmetry in Hk || idtac;
    first [ by apply FormatInt_not_word in Hk | by symmetry in Hk; apply FormatInt_not_word in Hk
          | apply (inj FormatInt) in Hk; congruence ] ].

(** [k = key → P] and [k ∈ keys → P] when [k] is none of the keys. *)
Ltac refute_key_eq :=
  let Hin := fresh "Hin" in intros Hin; exfalso;
  first
  [ repeat (apply elem_of_cons in Hin as [Hin|Hin]; [revert Hin; solve_slot_key_ne|]);
    by apply elem_of_nil in Hin
  | revert Hin; solve_slot_key_ne ].

#[export] Hint Extern 2 (_ ≠ _) => solve_slot_key_ne : no_new.
#[export] Hint Extern 2 (_ → _ = _ :> Z) => solve [done | refute_key_eq] : no_new.

Section NoAdmission.
Context `{Redis R} (c : concurrencyCache).
Implicit Types r : R.


Lemma no_new_touch t k r index id e r0 :
  index ≠ k → no_new_owner t k r r0 → no_new_owner t k r (touchActiveIndexAt index id e r0).
Proof. unfold touchActiveIndexAt. auto with no_new. Qed.

Lemma no_new_refreshActiveIndex t k r index id slotKey waitKey r0 :
  index ≠ k → no_new_owner t k r r0 →
  no_new_owner t k r (refreshActiveIndex c index id slotKey waitKey r0).
Proof.
  intros Hne Hr. unfold refreshActiveIndex. apply no_new_if; [done|]. simpl.
  repeat apply no_new_if; auto using no_new_touch with no_new.
Qed.

Hint Resolve no_new_touch no_new_refreshActiveIndex : no_new.

Lemma no_new_scan t k r keys e m r0 :
  no_new_owner t k r r0 → no_new_owner t k r (refreshLive_scan keys e m r0).2.
Proof.
  revert r0. induction keys as [|key keys IH]; intros r0 Hr; simpl; [done|].
  case_match; simpl; [apply IH|]; auto with no_new.
Qed.

Lemma no_new_readIndexLoads t k r spec members now r0 :
  no_new_owner t k r r0 → no_new_owner t k r (readIndexLoads c spec members now r0).2.
Proof.
  intros Hr. unfold readIndexLoads.
  apply (foldl_invariant (λ acc : list activeIndexLoad * list string * R,
    no_new_owner t k r acc.2)); [|done].
  intros [[loads stale] r1] m Hr1. simpl in *.
  case_match; simpl; auto with no_new.
Qed.

Lemma no_new_reconcile t k r spec r0 :
  indexKey spec ≠ k → no_new_owner t k r r0 →
  no_new_owner t k r (reconcileExpiredIndexCandidates c spec r0).
Proof.
  intros Hne Hr. unfold reconcileExpiredIndexCandidates.
  pose proof (no_new_readIndexLoads t k r spec
    (ZRANGEBYSCORE (indexKey spec) (TIME r0) activeIndexCleanupBatchSize r0) (TIME r0) r0 Hr) as Hl.
  destruct (readIndexLoads _ _ _ _ _) as [[loads stale] r1]. simpl in Hl.
  apply no_new_foldl; [auto with no_new|]. apply no_new_foldl; auto with no_new.
Qed.

Lemma no_new_cleanup t k r key ttl r0 :
  no_new_owner t k r r0 → no_new_owner t k r (cleanupExpiredSlotsScript key ttl r0).2.
Proof. intros. unfold cleanupExpiredSlotsScript. case_match; simpl; auto with no_new. Qed.

Lemma no_new_decrement t k r key r0 :
  no_new_owner t k r r0 → no_new_owner t k r (decrementWaitScript key r0).2.
Proof. intros. unfold decrementWaitScript. repeat case_match; simpl; auto with no_new. Qed.

Lemma no_new_increment t k r key maxWait ttl r0 :
  no_new_owner t k r r0 → no_new_owner t k r (incrementWaitScript key maxWait ttl r0).2.
Proof. intros. unfold incrementWaitScript. case_match; simpl; auto with no_new. Qed.

(** Renewal seen from the renewed key itself and from every other key. *)
Lemma no_new_refreshRegular t k r key ttl m r0 :
  0 < ttl → (k = key → t = ttl) →
  no_new_owner t k r r0 → no_new_owner t k r (refreshRegularLeaseScript key ttl m r0).2.
Proof.
  intros Httl Ht Hr.
  destruct (refreshRegularLeaseScript_spec key ttl m r0 Httl) as (g & r' & -> & _ & _ & Ho & Hoth).
  simpl. transitivity r0; [done|]. unfold no_new_owner.
  destruct (decide (k = key)) as [->|Hne]; [rewrite (Ht eq_refl); by rewrite Ho|].
  by rewrite Hoth.
Qed.

Lemma no_new_acquire_ne t k r key liveKey max ttl m a4 r0 :
  k ≠ key → no_new_owner t k r r0 →
  no_new_owner t k r (acquireScript key liveKey max ttl m a4 r0).2.
Proof.
  intros Hne Hr. unfold acquireScript.
  repeat case_match; simpl; auto 10 with no_new.
Qed.
End NoAdmission.

#[export] Hint Resolve no_new_touch no_new_refreshActiveIndex no_new_scan no_new_reconcile
  no_new_cleanup no_new_decrement no_new_increment no_new_refreshRegular
  no_new_acquire_ne : no_new.

(** ** The pool of one account *)

Section AccountPool.
Context `{Redis R} (c : concurrencyCache) (Httl : 0 < slotTTLSeconds c).
Implicit Types r : R.

(** Requests holding a regular slot, and leases of live sessions. *)
Definition regular_owners (id : Z) (r : R) : gset string :=
  owners (slotTTLSeconds c) (obs r) (accountSlotKey id).
Definition live_owners (id : Z) (r : R) : gset string :=
  owners liveLeaseTTLSeconds (obs r) (liveAccountSlotKey id).
Definition occupancy (id : Z) (r : R) : Z :=
  Z.of_nat (size (regular_owners id r) + size (live_owners id r)).

(** Admission as the pool's contract states it. *)
Definition pool_admits (id max : Z) (m : string) (r : R) : Prop :=
  m ∈ regular_owners id r ∨ occupancy id r < max.

Lemma AcquireAccountSlot_grants id max m r :
  ∃ granted r', acquireScript (accountSlotKey id) (liveAccountSlotKey id) max
      (slotTTLSeconds c) m None r = ((if granted : bool then 1 else 0, TIME r), r')
    ∧ (granted = true ↔ pool_admits id max m r)
    ∧ grants granted (accountSlotKey id) (liveAccountSlotKey id) m (slotTTLSeconds c) r r'
    ∧ AcquireAccountSlot c id max m r
      = (granted, if granted
                  then touchActiveIndexAt accountActiveIndexKey id (TIME r + slotTTLSeconds c) r'
                  else r').
Proof using Httl.
  destruct (acquireScript_spec (accountSlotKey id) (liveAccountSlotKey id) max
    (slotTTLSeconds c) m None r ltac:(solve_slot_key_ne) Httl) as (g & r' & Heq & Hc & Hg).
  exists g, r'. split; [done|]. split; [|split; [done|]].
  - rewrite Hc. unfold acquire_condition, pool_admits, occupancy. naive_solver.
  - unfold AcquireAccountSlot. rewrite Heq. by destruct g.
Qed.

Lemma zset_touch index id e r k :
  index ≠ k → zset (obs (touchActiveIndexAt index id e r)) k = zset (obs r) k.
Proof.
  intros Hne. unfold touchActiveIndexAt. case_match; [done|].
  autorewrite with redis. by apply zset_put_ne.
Qed.

Lemma TIME_touch index id e r : TIME (touchActiveIndexAt index id e r) = TIME r.
Proof.
  unfold touchActiveIndexAt. case_match; [done|]. rewrite !TIME_obs. by autorewrite with redis.
Qed.

Lemma owners_touch t index id e r k :
  index ≠ k → owners t (obs (touchActiveIndexAt index id e r)) k = owners t (obs r) k.
Proof. intros. apply owners_same; [apply TIME_touch | by apply zset_touch]. Qed.

(** The purges of the live-lease script leave exactly the owners of both sets. *)
Definition live_purged (aid uid kid : Z) (r : R) : R :=
  let now := TIME r in
  ZREMRANGEBYSCORE (liveAPIKeySlotKey kid) (now - liveLeaseTTLSeconds)
    (ZREMRANGEBYSCORE (liveUserSlotKey uid) (now - liveLeaseTTLSeconds)
      (ZREMRANGEBYSCORE (liveAccountSlotKey aid) (now - liveLeaseTTLSeconds)
        (ZREMRANGEBYSCORE (userSlotKey uid) (now - slotTTLSeconds c)
          (ZREMRANGEBYSCORE (accountSlotKey aid) (now - slotTTLSeconds c) r)))).

Lemma live_purged_count aid uid kid r :
  ZCARD (accountSlotKey aid) (live_purged aid uid kid r)
  + ZCARD (liveAccountSlotKey aid) (live_purged aid uid kid r) = occupancy aid r.
Proof.
  unfold occupancy, regular_owners, live_owners, owners. rewrite !size_dom.
  unfold ZCARD, live_purged. autorewrite with redis. unfold ks_ZREMRANGEBYSCORE.
  rewrite !(zset_put_ne _ _ _ (accountSlotKey aid)) by solve_slot_key_ne.
  rewrite zset_put_eq.
  rewrite !(zset_put_ne _ _ _ (liveAccountSlotKey aid)) by solve_slot_key_ne.
  rewrite zset_put_eq.
  rewrite !(zset_put_ne _ _ _ (liveAccountSlotKey aid)) by solve_slot_key_ne.
  unfold live_entries. rewrite TIME_obs. lia.
Qed.

Lemma no_new_live_purged t k aid uid kid r : no_new_owner t k r (live_purged aid uid kid r).
Proof. unfold live_purged. auto 10 with no_new. Qed.

(** What a live admission may do to the pool of account [id]. *)
Lemma AcquireLiveLease_effect aid amax uid umax kid m b r id :
  let r' := (AcquireLiveLease c aid amax uid umax kid m b r).2 in
  regular_owners id r' ⊆ regular_owners id r
  ∧ (live_owners id r' ⊆ live_owners id r
     ∨ (id = aid ∧ live_owners id r' ⊆ {[m]} ∪ live_owners id r
        ∧ (0 < amax → occupancy id r < amax + if b then 1 else 0))).
Proof.
  unfold AcquireLiveLease. case_match; [by split; [|left]|].
  unfold acquireLiveLeaseScript. fold (live_purged aid uid kid r).
  rewrite live_purged_count.
  pose proof (λ t k, no_new_live_purged t k aid uid kid r) as Hp.
  destruct (ZSCORE _ m _) as [s|] eqn:Hs; simpl; [split; [apply Hp|left; apply Hp]|].
  set (allowance := if _ =? 1 then 1 else 0).
  assert (allowance = if b then 1 else 0) as Hall by (by destruct b).
  destruct ((0 <? amax) && _) eqn:Ha; simpl; [split; [apply Hp|left; apply Hp]|].
  destruct ((0 <? umax) && _) eqn:Hu; simpl; [split; [apply Hp|left; apply Hp]|].
  split.
  - unfold regular_owners. apply no_new_EXPIRE, no_new_EXPIRE, no_new_EXPIRE.
    auto 10 with no_new.
  - destruct (decide (id = aid)) as [->|Hne].
    + right. split; [done|]. split.
      * unfold live_owners. autorewrite with redis.
        rewrite owners_same with (ks := ks_ZADD (liveAccountSlotKey aid) (TIME r) m
          (obs (live_purged aid uid kid r))); cycle 1.
        { by autorewrite with redis. }
        { unfold ks_ZADD at 1 2. by rewrite !zset_put_ne by solve_slot_key_ne. }
        assert (TIME r = ks_seconds (obs (live_purged aid uid kid r))) as ->.
        { unfold live_purged. rewrite TIME_obs. by autorewrite with redis. }
        rewrite owners_ZADD, decide_True by done.
        pose proof (Hp liveLeaseTTLSeconds (liveAccountSlotKey aid)). unfold no_new_owner in *.
        set_solver.
      * intros Hpos. apply andb_false_iff in Ha. destruct Ha; bool_to_prop; lia.
    + left. unfold live_owners. apply no_new_EXPIRE, no_new_EXPIRE, no_new_EXPIRE.
      auto 10 with no_new.
Qed.
End AccountPool.

(** ** Traces

    Every state-changing call of the cache, in the order the server runs them. *)

Inductive event :=
| EvAcquireAccount (id max : Z) (m : string)
| EvReleaseAccount (id : Z) (m : string)
| EvRefreshAccount (id : Z) (m : string)
| EvAcquireUser (id max : Z) (m : string)
| EvReleaseUser (id : Z) (m : string)
| EvRefreshUser (id : Z) (m : string)
| EvTrackKey (id : Z) (m : string)
| EvReleaseKey (id : Z) (m : string)
| EvRefreshKey (id : Z) (m : string)
| EvAcquireWS (id max : Z) (m : string)
| EvRefreshWS (id : Z) (m : string)
| EvReleaseWS (id : Z) (m : string)
| EvAcquireLive (aid amax uid umax kid : Z) (m : string) (replacing : bool)
| EvRefreshLive (aid uid kid : Z) (m : string)
| EvReleaseLive (aid uid kid : Z) (m : string)
| EvIncWait (uid maxWait : Z)
| EvDecWait (uid : Z)
| EvIncAccountWait (aid maxWait : Z)
| EvDecAccountWait (aid : Z)
| EvCleanupAccount (aid : Z)
| EvCleanup
| EvElapse (ms : Z).

(** Unfolds the methods down to their scripts. *)
Ltac unfold_methods :=
  unfold AcquireAccountSlot, ReleaseAccountSlot, RefreshAccountSlot, AcquireUserSlot,
    ReleaseUserSlot, RefreshUserSlot, TrackAPIKeySlot, ReleaseAPIKeySlot, RefreshAPIKeySlot,
    AcquireOpenAIWSIngressLease, RefreshOpenAIWSIngressLease, ReleaseOpenAIWSIngressLease,
    RefreshLiveLease, ReleaseLiveLease, IncrementWaitCount, DecrementWaitCount,
    IncrementAccountWaitCount, DecrementAccountWaitCount, CleanupExpiredAccountSlots,
    CleanupExpiredAccountSlotKeys, refreshRegularSlot, refreshAccountActiveIndex,
    refreshUserActiveIndex.

Section Traces.
Context `{Redis R} (c : concurrencyCache).
Implicit Types r : R.

Definition exec (e : event) (r : R) : R :=
  match e with
  | EvAcquireAccount id max m => (AcquireAccountSlot c id max m r).2
  | EvReleaseAccount id m => ReleaseAccountSlot c id m r
  | EvRefreshAccount id m => (RefreshAccountSlot c id m r).2
  | EvAcquireUser id max m => (AcquireUserSlot c id max m r).2
  | EvReleaseUser id m => ReleaseUserSlot c id m r
  | EvRefreshUser id m => (RefreshUserSlot c id m r).2
  | EvTrackKey id m => TrackAPIKeySlot c id m r
  | EvReleaseKey id m => ReleaseAPIKeySlot id m r
  | EvRefreshKey id m => (RefreshAPIKeySlot c id m r).2
  | EvAcquireWS id max m => (AcquireOpenAIWSIngressLease id max m r).2
  | EvRefreshWS id m => (RefreshOpenAIWSIngressLease id m r).2
  | EvReleaseWS id m => ReleaseOpenAIWSIngressLease id m r
  | EvAcquireLive aid amax uid umax kid m b => (AcquireLiveLease c aid amax uid umax kid m b r).2
  | EvRefreshLive aid uid kid m => (RefreshLiveLease aid uid kid m r).2
  | EvReleaseLive aid uid kid m => ReleaseLiveLease aid uid kid m r
  | EvIncWait uid maxWait => (IncrementWaitCount c uid maxWait r).2
  | EvDecWait uid => DecrementWaitCount c uid r
  | EvIncAccountWait aid maxWait => (IncrementAccountWaitCount c aid maxWait r).2
  | EvDecAccountWait aid => DecrementAccountWaitCount c aid r
  | EvCleanupAccount aid => CleanupExpiredAccountSlots c aid r
  | EvCleanup => CleanupExpiredAccountSlotKeys c r
  | EvElapse ms => elapse ms r
  end.

Definition run (es : list event) (r : R) : R := foldl (λ r e, exec e r) r es.

(** The caps that the admissions of account [id] use, which may differ from call to
    call, are at most [max], and positive for live leases (which take others for no
    limit); live leases may take over a regular slot only when [replacing]. *)
Definition respects (id max : Z) (replacing : bool) (e : event) : Prop :=
  match e with
  | EvAcquireAccount id' max' _ => id' = id → max' ≤ max
  | EvAcquireLive aid amax _ _ _ _ b => aid = id → 0 < amax ≤ max ∧ (b = true → replacing = true)
  | EvElapse ms => 0 ≤ ms
  | _ => True
  end.

Lemma scan_true keys ttl m r0 r :
  (refreshLive_scan keys (TIME r0 - ttl) m r).1 = true → TIME r = TIME r0 →
  ∀ key, key ∈ keys → m ∈ owners ttl (obs r) key.
Proof.
  revert r. induction keys as [|k0 keys IH]; intros r Hs Ht key Hk; [by apply elem_of_nil in Hk|].
  simpl in Hs. set (r1 := ZREMRANGEBYSCORE k0 (TIME r0 - ttl) r) in *.
  assert (owners ttl (obs r1) k0 = owners ttl (obs r) k0) as Ho.
  { unfold r1. rewrite <- Ht. autorewrite with redis. apply owners_purge. }
  destruct (ZSCORE k0 m r1) as [s|] eqn:Hz; [|done].
  apply elem_of_cons in Hk as [->|Hk].
  - rewrite <- Ho. unfold r1 in *. rewrite <- Ht in *.
    rewrite Ho, <- purged_dom. apply elem_of_dom. exists s.
    unfold ZSCORE in Hz. by rewrite obs_ZREMRANGEBYSCORE in Hz.
  - assert (m ∈ owners ttl (obs r1) key) as Hin.
    { apply IH; [done| |done]. unfold r1. by rewrite TIME_purge. }
    by apply (no_new_purge ttl key k0 (TIME r0 - ttl) r r (no_new_refl _ _ _)).
Qed.

Lemma TIME_scan keys s m r : TIME (refreshLive_scan keys s m r).2 = TIME r.
Proof.
  revert r. induction keys as [|k keys IH]; intros r; simpl; [done|].
  case_match; simpl; [rewrite IH|]; apply TIME_purge.
Qed.

Lemma no_new_refreshLive t k keys m r :
  (k ∈ keys → t = liveLeaseTTLSeconds) →
  no_new_owner t k r (refreshLiveLeaseScript keys liveLeaseTTLSeconds m r).2.
Proof.
  intros Ht. unfold refreshLiveLeaseScript.
  pose proof (no_new_scan t k r keys (TIME r - liveLeaseTTLSeconds) m r (no_new_refl _ _ _)) as Hn.
  pose proof (scan_true keys liveLeaseTTLSeconds m r r) as Hm.
  pose proof (TIME_scan keys (TIME r - liveLeaseTTLSeconds) m r) as HT.
  destruct (refreshLive_scan _ _ _ _) as [[|] r1]; simpl in *; [|done].
  specialize (Hm eq_refl eq_refl).
  set (step := λ r0 key, EXPIRE key liveLeaseTTLSeconds (ZADD key (TIME r) m r0)).
  assert (∀ l, l ⊆ keys → TIME (foldl step r1 l) = TIME r ∧ no_new_owner t k r (foldl step r1 l))
    as Hall; [|by apply Hall].
  intros l. induction l as [|key l IH] using rev_ind; intros Hsub; [done|].
  rewrite foldl_app. simpl. destruct IH as [IHt IHn]; [set_solver|].
  set (r2 := foldl step r1 l) in *. unfold step.
  split; [by rewrite TIME_claim|].
  destruct (decide (key = k)) as [->|Hne]; [|by auto with no_new].
  assert (k ∈ keys) as Hin by set_solver. rewrite (Ht Hin) in *.
  unfold no_new_owner in *. rewrite <- IHt, owners_claim, decide_True by done.
  specialize (Hm k Hin). set_solver.
Qed.

(** Follows the calls of one method with the [no_new] lemmas. *)
Ltac solve_no_new :=
  repeat match goal with
  | |- no_new_owner _ _ _ (_, _).2 => simpl
  | |- no_new_owner _ _ _ (if _ then _ else _) => case_match
  | |- no_new_owner _ _ _ (if _ then _ else _).2 => case_match
  | |- no_new_owner _ _ _ (match ZSCORE _ _ _ with Some _ => _ | None => _ end).2 => case_match
  | |- no_new_owner ?t ?k ?r (match ?X with (_, _) => _ end).2 =>
      first [ let Hn := fresh "Hn" in
              assert (no_new_owner t k r X.2) as Hn by (solve_no_new);
              destruct X; simpl in Hn
            | destruct X ]
  end; auto 10 using no_new_refreshLive with no_new.

(** Everything but an admission leaves the pool of account [id] no larger. *)
Lemma exec_no_new id max b e r (Httl : 0 < slotTTLSeconds c) :
  respects id max b e →
  match e with
  | EvAcquireAccount id' _ _ => id' ≠ id
  | EvAcquireLive _ _ _ _ _ _ _ => False
  | _ => True
  end →
  no_new_owner (slotTTLSeconds c) (accountSlotKey id) r (exec e r)
  ∧ no_new_owner liveLeaseTTLSeconds (liveAccountSlotKey id) r (exec e r).
Proof.
  intros Hresp Hkind. destruct e; simpl in *; try done;
    split; unfold_methods; unfold trackSlotScript, acquireOpenAIWSIngressLeaseScript,
      refreshOpenAIWSIngressLeaseScript; solve_no_new.
Qed.
End Traces.

(** ** Occupancy along a trace *)

Section Occupancy.
Context `{Redis R} (c : concurrencyCache) (Httl : 0 < slotTTLSeconds c).
Implicit Types r : R.

Lemma occupancy_le id r r' :
  regular_owners c id r' ⊆ regular_owners c id r → live_owners id r' ⊆ live_owners id r →
  occupancy c id r' ≤ occupancy c id r.
Proof. intros H1%subseteq_size H2%subseteq_size. unfold occupancy. lia. Qed.

Lemma size_add_one (m : string) (s : gset string) : (size ({[m]} ∪ s) ≤ S (size s))%nat.
Proof.
  destruct (decide (m ∈ s)) as [Hin|Hout].
  - assert ({[m]} ∪ s = s) as -> by set_solver. lia.
  - rewrite size_union, size_singleton by set_solver. lia.
Qed.

Lemma acquire_account_occupancy id max m r :
  occupancy c id (AcquireAccountSlot c id max m r).2 ≤ Z.max max (occupancy c id r).
Proof using Httl.
  destruct (AcquireAccountSlot_grants c Httl id max m r)
    as (g & r' & _ & Hc & (HT & Hreg & Hlive & _) & ->).
  destruct g; simpl.
  - unfold occupancy, regular_owners, live_owners in *.
    rewrite !owners_touch by solve_slot_key_ne. unfold liveLeaseTTLSeconds. rewrite Hreg, Hlive.
    destruct (proj1 Hc eq_refl) as [Hin|Hlt].
    + unfold regular_owners in Hin.
      assert ({[m]} ∪ owners (slotTTLSeconds c) (obs r) (accountSlotKey id)
              = owners (slotTTLSeconds c) (obs r) (accountSlotKey id)) as -> by set_solver.
      unfold liveLeaseTTLSeconds. lia.
    + pose proof (size_add_one m (owners (slotTTLSeconds c) (obs r) (accountSlotKey id))).
      unfold occupancy, regular_owners, live_owners, liveLeaseTTLSeconds in Hlt. lia.
  - unfold occupancy, regular_owners, live_owners, liveLeaseTTLSeconds. rewrite Hreg, Hlive. lia.
Qed.

Lemma acquire_live_occupancy aid amax uid umax kid m b r :
  0 < amax →
  occupancy c aid (AcquireLiveLease c aid amax uid umax kid m b r).2
  ≤ Z.max (amax + if b then 1 else 0) (occupancy c aid r).
Proof using Httl.
  intros Hpos.
  destruct (AcquireLiveLease_effect c Httl aid amax uid umax kid m b r aid) as (Hr & [Hl|(_ & Hl & Hc)]).
  - pose proof (occupancy_le aid _ _ Hr Hl). lia.
  - specialize (Hc Hpos). apply subseteq_size in Hr, Hl.
    pose proof (size_add_one m (live_owners aid r)). unfold occupancy in *. lia.
Qed.

Lemma exec_occupancy id max b e r :
  respects id max b e →
  occupancy c id (exec c e r) ≤ Z.max (max + if b then 1 else 0) (occupancy c id r).
Proof using Httl.
  intros Hresp.
  destruct e; try (
    match goal with |- occupancy _ _ (exec _ ?e _) ≤ _ =>
      destruct (exec_no_new c id max b e r Httl Hresp I) as [H1 H2];
      pose proof (occupancy_le id _ _ H1 H2); lia end).
  - simpl in *. destruct (decide (id0 = id)) as [->|Hne].
    + specialize (Hresp eq_refl). pose proof (acquire_account_occupancy id max0 m r). case_match; lia.
    + destruct (exec_no_new c id max b (EvAcquireAccount id0 max0 m) r Httl Hresp Hne) as [H1 H2].
      pose proof (occupancy_le id _ _ H1 H2). simpl in *. lia.
  - simpl in *. destruct (decide (aid = id)) as [->|Hne].
    + destruct (Hresp eq_refl) as [[Hpos Hle] Hb].
      pose proof (acquire_live_occupancy id amax uid umax kid m replacing r Hpos).
      destruct replacing; [rewrite Hb by done | destruct b]; lia.
    + destruct (AcquireLiveLease_effect c Httl aid amax uid umax kid m replacing r id)
        as (H1 & [H2|(-> & _)]); [|done].
      pose proof (occupancy_le id _ _ H1 H2). lia.
Qed.

(** C29.  Admission to an account: [AcquireAccountSlot] answers yes exactly when
    the request already holds a slot or the unexpired regular slots and live
    leases number fewer than the cap; a refusal changes no owner, an admission
    adds exactly this request, and no other account's pool is touched. *)
Theorem account_admission id max m r :
  let '(ok, r') := AcquireAccountSlot c id max m r in
  (ok = true ↔ pool_admits c id max m r)
  ∧ regular_owners c id r'
    = (if ok then {[m]} ∪ regular_owners c id r else regular_owners c id r)
  ∧ live_owners id r' = live_owners id r
  ∧ ∀ id', id' ≠ id →
      regular_owners c id' r' = regular_owners c id' r ∧ live_owners id' r' = live_owners id' r.
Proof using Httl.
  destruct (AcquireAccountSlot_grants c Httl id max m r)
    as (g & r' & _ & Hc & (HT & Hreg & Hlive & Hoth) & ->).
  split; [done|]. unfold regular_owners, live_owners in *.
  split; [|split].
  - destruct g; rewrite ?owners_touch by solve_slot_key_ne; done.
  - destruct g; rewrite ?owners_touch by solve_slot_key_ne; done.
  - intros id' Hne. rewrite <- !Hoth by solve_slot_key_ne.
    destruct g; rewrite ?owners_touch by solve_slot_key_ne; done.
Qed.

(** C7.  The cap holds along every interleaving: whatever sequence of the
    cache's calls and passing time the server executes, if no admission of account
    [id] uses a cap above [max], its regular slots and live leases together never
    exceed [max]; if live leases are granted on top of a regular slot that they
    replace ([replacing]), they never exceed [max + 1]. *)
Theorem account_cap_holds id max replacing es r
    (Hes : Forall (respects id max replacing) es)
    (H0 : occupancy c id r ≤ max + if replacing then 1 else 0) :
  occupancy c id (run c es r) ≤ max + if replacing then 1 else 0.
Proof using Httl.
  revert r H0. induction Hes as [|e es He Hes IH]; intros r H0; [done|].
  apply IH. pose proof (exec_occupancy id max replacing e r He). lia.
Qed.

(**  Renewal is exact: refreshing an account slot succeeds precisely for a
    request that still owns it, and neither outcome changes who owns a slot; in
    particular a lost slot is never recreated by a renewal. *)
Theorem account_refresh_exact id m r :
  let '(ok, r') := RefreshAccountSlot c id m r in
  (ok = true ↔ m ∈ regular_owners c id r)
  ∧ ∀ id', regular_owners c id' r' = regular_owners c id' r ∧ live_owners id' r' = live_owners id' r.
Proof using Httl.
  unfold RefreshAccountSlot, refreshRegularSlot.
  destruct (refreshRegularLeaseScript_spec (accountSlotKey id) (slotTTLSeconds c) m r Httl)
    as (g & r' & -> & Hg & HT & Ho & Hoth).
  unfold regular_owners, live_owners.
  destruct g; simpl; (split; [done|]); intros id';
    rewrite ?owners_touch by solve_slot_key_ne;
    (split; [destruct (decide (id' = id)) as [->|Hne]; [done|] |]);
    apply Hoth; solve_slot_key_ne.
Qed.
End Occupancy.

(** ** Instances *)

Definition demo_cache : concurrencyCache := NewConcurrencyCache 0 0.
Definition demo_server : Keyspace := mkKeyspace 1700000000123 ∅ ∅ ∅.
Definition demo_one : Keyspace := (AcquireAccountSlot demo_cache 7 2 "req-1" demo_server).2.

Example demo_capacity :
  (AcquireAccountSlot demo_cache 7 1 "req-2" demo_one).1 = false
  ∧ (AcquireAccountSlot demo_cache 7 2 "req-2" demo_one).1 = true
  ∧ (AcquireAccountSlot demo_cache 7 1 "req-1" demo_one).1 = true
  ∧ (AcquireAccountSlot demo_cache 7 1 "req-2" (elapse 900000 demo_one)).1 = true.
Proof. by vm_compute. Qed.

Lemma account_admission_witness :
  0 < slotTTLSeconds demo_cache
  ∧ ((AcquireAccountSlot demo_cache 7 2 "req-2" demo_one).1 = true
     ↔ pool_admits demo_cache 7 2 "req-2" demo_one).
Proof.
  split; [done|].
  pose proof (account_admission demo_cache ltac:(done) 7 2 "req-2" demo_one) as Ha.
  destruct (AcquireAccountSlot _ _ _ _ demo_one) as [ok r']. exact (proj1 Ha).
Defined.

(** Without replacement the cap of 2 is never exceeded; a replacing lease may be a
    third for a while. *)
Lemma account_cap_holds_witness :
  occupancy demo_cache 7 (run demo_cache
    [EvAcquireAccount 7 2 "req-2"; EvAcquireLive 7 2 0 0 0 "live-1" false; EvAcquireAccount 7 1 "req-4";
     EvElapse 30000; EvAcquireAccount 7 2 "req-3"; EvCleanup] demo_one) ≤ 2 + 0
  ∧ occupancy demo_cache 7 (run demo_cache
      [EvAcquireAccount 7 2 "req-2"; EvAcquireLive 7 2 0 0 0 "live-1" true; EvElapse 30000;
       EvAcquireAccount 7 2 "req-3"; EvCleanup] demo_one) ≤ 2 + 1.
Proof.
  split.
  - apply (account_cap_holds demo_cache ltac:(done) 7 2 false);
      [repeat constructor; simpl; intros; lia || done | vm_compute; discriminate].
  - apply (account_cap_holds demo_cache ltac:(done) 7 2 true);
      [repeat constructor; simpl; intros; lia | vm_compute; discriminate].
Defined.

Lemma account_refresh_exact_witness :
  0 < slotTTLSeconds demo_cache
  ∧ ((RefreshAccountSlot demo_cache 7 "req-1" demo_one).1 = true
     ↔ "req-1" ∈ regular_owners demo_cache 7 demo_one).
Proof.
  split; [done|].
  pose proof (account_refresh_exact demo_cache ltac:(done) 7 "req-1" demo_one) as Ha.
  destruct (RefreshAccountSlot _ _ _ demo_one) as [ok r']. exact (proj1 Ha).
Defined.
