(* ===== verification/ConcurrencyInvariants.v ===== *)
(** * What the concurrency cache keeps along every trace

    The first section shows, once, that a predicate closed under the individual
    Redis commands the cache issues is closed under every method of the cache.
    It is then applied twice: the waiting counters stay within their bounds, and
    a granted account slot stays owned for its whole lease. *)

From Stdlib Require Import ZArith Lia String.
From stdpp Require Import base tactics numbers list gmap strings.
From S2P Require Import Prelude RedisServer ConcurrencyCache.

Open Scope Z_scope.

(** The lease and counter keys with the lifetime the cache gives them. *)
Inductive uses (c : concurrencyCache) : string → Z → Prop :=
| uses_account id : uses c (accountSlotKey id) (slotTTLSeconds c)
| uses_user id : uses c (userSlotKey id) (slotTTLSeconds c)
| uses_key id : uses c (apiKeySlotKey id) (slotTTLSeconds c)
| uses_live_account id : uses c (liveAccountSlotKey id) liveLeaseTTLSeconds
| uses_live_user id : uses c (liveUserSlotKey id) liveLeaseTTLSeconds
| uses_live_key id : uses c (liveAPIKeySlotKey id) liveLeaseTTLSeconds
| uses_ws id : uses c (openAIWSIngressLeaseKey id) openAIWSIngressLeaseTTLSeconds
| uses_wait id : uses c (waitQueueKey id) (waitQueueTTLSeconds c)
| uses_account_wait id : uses c (accountWaitKey id) (waitQueueTTLSeconds c).

Inductive is_index : string → Prop :=
| is_account_index : is_index accountActiveIndexKey
| is_user_index : is_index userActiveIndexKey.

(** No command moves the clock. *)
Section Clock.
Context `{Redis R}.
Implicit Types r : R.

Lemma TIME_ZADD k s m r : TIME (ZADD k s m r) = TIME r.
Proof. rewrite !TIME_obs. by autorewrite with redis. Qed.
Lemma TIME_ZREM k m r : TIME (ZREM k m r) = TIME r.
Proof. rewrite !TIME_obs. by autorewrite with redis. Qed.
Lemma TIME_EXPIRE k t r : TIME (EXPIRE k t r) = TIME r.
Proof. rewrite !TIME_obs. by autorewrite with redis. Qed.
Lemma TIME_INCR k r : TIME (INCR k r) = TIME r.
Proof. rewrite !TIME_obs. by autorewrite with redis. Qed.
Lemma TIME_DECR k r : TIME (DECR k r) = TIME r.
Proof. rewrite !TIME_obs. by autorewrite with redis. Qed.
Lemma TIME_DEL k r : TIME (DEL k r) = TIME r.
Proof. rewrite !TIME_obs. by autorewrite with redis. Qed.
End Clock.

Create Rewrite HintDb redis_clock.
#[export] Hint Rewrite @TIME_ZADD @TIME_ZREM @TIME_EXPIRE @TIME_INCR @TIME_DECR @TIME_DEL
  @TIME_purge : redis_clock.

Create HintDb stable discriminated.
#[export] Hint Constructors uses is_index : stable.

Section Stable.
Context `{Redis R} (c : concurrencyCache).
Implicit Types r : R.

(** [Q n r]: a property of the state [r] whose clock shows second [n]. *)
Context (Q : Z → R → Prop) (may_remove : string → string → Prop) (may_wait : string → Z → Prop).
Hypothesis Q_time : ∀ n r, Q n r → TIME r = n.
Hypothesis Q_purge : ∀ n r k t, uses c k t → Q n r → Q n (ZREMRANGEBYSCORE k (n - t) r).
Hypothesis Q_EXPIRE : ∀ n r k t, uses c k t → Q n r → Q n (EXPIRE k t r).
Hypothesis Q_ZADD : ∀ n r k m, Q n r → Q n (ZADD k n m r).
Hypothesis Q_ZADD_index : ∀ n r k s m, is_index k → Q n r → Q n (ZADD k s m r).
Hypothesis Q_ZREM_index : ∀ n r k m, is_index k → Q n r → Q n (ZREM k m r).
Hypothesis Q_ZREM : ∀ n r k m, may_remove k m → Q n r → Q n (ZREM k m r).
Hypothesis Q_DEL : ∀ n r k, (∃ id, k = accountSlotKey id) → ZCARD k r = 0 → Q n r → Q n (DEL k r).
Hypothesis Q_INCR : ∀ n r k mw,
  may_wait k mw → default 0 (GET k r) < mw → Q n r → Q n (INCR k r).
Hypothesis Q_DECR : ∀ n r k v, GET k r = Some v → 0 < v → Q n r → Q n (DECR k r).

(** What the environment may do in one event. *)
Definition permitted (e : event) : Prop :=
  match e with
  | EvReleaseAccount id m => may_remove (accountSlotKey id) m
  | EvReleaseUser id m => may_remove (userSlotKey id) m
  | EvReleaseKey id m => may_remove (apiKeySlotKey id) m
  | EvReleaseWS id m => may_remove (openAIWSIngressLeaseKey id) m
  | EvReleaseLive aid uid kid m =>
      may_remove (liveAccountSlotKey aid) m ∧ may_remove (liveUserSlotKey uid) m
      ∧ may_remove (liveAPIKeySlotKey kid) m
  | EvIncWait uid mw => may_wait (waitQueueKey uid) mw
  | EvIncAccountWait aid mw => may_wait (accountWaitKey aid) mw
  | EvElapse _ => False
  | _ => True
  end.

Hint Resolve Q_purge Q_EXPIRE Q_ZADD Q_ZADD_index Q_ZREM_index Q_ZREM : stable.
Hint Extern 1 (Q _ (if _ then _ else _)) => case_match : stable.
Hint Extern 1 (Q _ (if _ then _ else _).2) => case_match : stable.
Hint Extern 1 (Q _ (_, _).2) => simpl : stable.

(** Replaces the clock readings of the current state by [n]. *)
Ltac read_clock HQ := pose proof (Q_time _ _ HQ) as HTIME; rewrite ?HTIME in *.

Lemma stable_touch n r index id e :
  is_index index → Q n r → Q n (touchActiveIndexAt index id e r).
Proof. unfold touchActiveIndexAt. auto with stable. Qed.

Hint Resolve stable_touch : stable.

Lemma stable_refreshActiveIndex n r index id slotKey waitKey :
  is_index index → uses c slotKey (slotTTLSeconds c) → Q n r →
  Q n (refreshActiveIndex c index id slotKey waitKey r).
Proof.
  intros Hi Hu HQ. unfold refreshActiveIndex, readActiveLoadForKey. read_clock HQ.
  case_match; [done|]. repeat case_match; auto with stable.
Qed.

Hint Resolve stable_refreshActiveIndex : stable.

Lemma stable_acquire n r key liveKey max ttl m a4 :
  uses c key ttl → uses c liveKey liveLeaseTTLSeconds → Q n r →
  Q n (acquireScript key liveKey max ttl m a4 r).2.
Proof.
  intros Hk Hl HQ. unfold acquireScript, liveLeaseTTLSeconds in *. read_clock HQ.
  repeat case_match; simpl; auto 10 with stable.
Qed.

Lemma stable_scan n r keys m :
  Forall (λ k, uses c k liveLeaseTTLSeconds) keys → Q n r →
  Q n (refreshLive_scan keys (n - liveLeaseTTLSeconds) m r).2.
Proof.
  intros Hk. revert r. induction Hk as [|k keys Hk Hks IH]; intros r HQ; simpl; [done|].
  case_match; simpl; [apply IH|]; auto with stable.
Qed.

Lemma stable_refreshLive n r keys m :
  Forall (λ k, uses c k liveLeaseTTLSeconds) keys → Q n r →
  Q n (refreshLiveLeaseScript keys liveLeaseTTLSeconds m r).2.
Proof.
  intros Hk HQ. unfold refreshLiveLeaseScript. read_clock HQ.
  pose proof (stable_scan n r keys m Hk HQ) as Hs.
  destruct (refreshLive_scan _ _ _ _) as [[|] r1]; simpl in *; [|done].
  clear HQ HTIME. revert r1 Hs.
  induction Hk as [|k keys Hk Hks IH]; intros r1 Hr1; simpl; [done|].
  apply IH. auto with stable.
Qed.

Lemma stable_acquireLive n r aid amax uid umax kid m b :
  Q n r → Q n (AcquireLiveLease c aid amax uid umax kid m b r).2.
Proof.
  intros HQ. unfold AcquireLiveLease, acquireLiveLeaseScript. read_clock HQ.
  repeat case_match; simplify_eq; simpl; auto 15 with stable.
Qed.

Lemma stable_readIndexLoads n r spec members :
  (∀ id, uses c (slotKey spec id) (slotTTLSeconds c)) → Q n r →
  Q n (readIndexLoads c spec members n r).2.
Proof.
  intros Hu HQ. unfold readIndexLoads.
  apply (foldl_invariant (λ acc : list activeIndexLoad * list string * R, Q n acc.2)); [|done].
  intros [[loads stale] r1] m Hr1. simpl in *. case_match; simpl; auto with stable.
Qed.

Lemma stable_reconcile n r spec :
  is_index (indexKey spec) → (∀ id, uses c (slotKey spec id) (slotTTLSeconds c)) → Q n r →
  Q n (reconcileExpiredIndexCandidates c spec r).
Proof.
  intros Hi Hu HQ. unfold reconcileExpiredIndexCandidates. read_clock HQ.
  pose proof (stable_readIndexLoads n r spec
    (ZRANGEBYSCORE (indexKey spec) n activeIndexCleanupBatchSize r) Hu HQ) as Hl.
  destruct (readIndexLoads _ _ _ _ _) as [[loads stale] r1]. simpl in Hl.
  apply (foldl_invariant (Q n)); [auto with stable|].
  apply (foldl_invariant (Q n)); auto with stable.
Qed.

Lemma stable_increment n r key mw ttl :
  may_wait key mw → uses c key ttl → Q n r → Q n (incrementWaitScript key mw ttl r).2.
Proof.
  intros Hw Hu HQ. unfold incrementWaitScript. case_match; simpl; [done|].
  bool_to_prop. eauto with stable.
Qed.

Lemma stable_decrement n r key : Q n r → Q n (decrementWaitScript key r).2.
Proof.
  intros HQ. unfold decrementWaitScript. repeat case_match; simpl; try done.
  bool_to_prop. eauto.
Qed.

Lemma stable_refreshRegular n r key ttl m :
  uses c key ttl → Q n r → Q n (refreshRegularLeaseScript key ttl m r).2.
Proof.
  intros Hu HQ. unfold refreshRegularLeaseScript. read_clock HQ.
  case_match; simpl; auto with stable.
Qed.

Lemma stable_cleanup n r id :
  Q n r → Q n (cleanupExpiredSlotsScript (accountSlotKey id) (slotTTLSeconds c) r).2.
Proof.
  intros HQ. unfold cleanupExpiredSlotsScript. read_clock HQ.
  case_match; simpl; bool_to_prop; eauto with stable.
Qed.

Lemma stable_track n r key ttl m : uses c key ttl → Q n r → Q n (trackSlotScript key ttl m r).2.
Proof. intros Hu HQ. unfold trackSlotScript. read_clock HQ. simpl. auto with stable. Qed.

Lemma stable_acquireWS n r key ttl max m :
  uses c key ttl → Q n r → Q n (acquireOpenAIWSIngressLeaseScript key max ttl m r).2.
Proof.
  intros Hu HQ. unfold acquireOpenAIWSIngressLeaseScript. read_clock HQ.
  repeat case_match; simpl; auto with stable.
Qed.

Lemma stable_refreshWS n r key ttl m :
  uses c key ttl → Q n r → Q n (refreshOpenAIWSIngressLeaseScript key ttl m r).2.
Proof.
  intros Hu HQ. unfold refreshOpenAIWSIngressLeaseScript. read_clock HQ.
  case_match; simpl; auto with stable.
Qed.

Hint Resolve stable_acquire stable_refreshLive stable_acquireLive stable_reconcile
  stable_increment stable_decrement stable_refreshRegular stable_cleanup stable_track
  stable_acquireWS stable_refreshWS : stable.

(** Follows the calls of one method. *)
Ltac solve_stable :=
  repeat match goal with
  | |- Q _ (if _ then _ else _) => case_match
  | |- Q _ (if _ then _ else _).2 => case_match
  | |- Q ?n (match ?X with (_, _) => _ end).2 =>
      first [ let Hn := fresh "Hn" in
              assert (Q n X.2) as Hn by (solve [auto 10 with stable]);
              destruct X; simpl in Hn
            | destruct X ]
  end; simpl; auto 10 with stable.

Lemma exec_stable e n r : permitted e → Q n r → Q n (exec c e r).
Proof.
  intros He HQ. destruct e; simpl in *; try done; unfold_methods;
    destruct_and?; try solve [auto 10 with stable]; solve_stable.
Qed.
End Stable.

(** ** Waiting counters *)

Section WaitQueue.
Context `{Redis R} (c : concurrencyCache).
Implicit Types r : R.

(** The value of the counter stored at [k]. *)
Definition waiting (k : string) (r : R) : Z := default 0 (GET k r).

Lemma waiting_same k r r' : ks_ints (obs r') = ks_ints (obs r) → waiting k r' = waiting k r.
Proof. unfold waiting, GET. by intros ->. Qed.

Lemma waiting_add k d r r' :
  obs r' = ks_add_int d k (obs r) →
  ∀ k', waiting k' r' = if decide (k = k') then waiting k r + d else waiting k' r.
Proof.
  intros Ho k'. unfold waiting, GET. rewrite Ho. simpl. rewrite lookup_insert.
  by destruct (decide (k = k')) as [->|].
Qed.

Lemma waiting_filter (k : string) (P : string * Z → Prop) `{∀ e, Decision (P e)}
    (ints : gmap string Z) :
  default 0 (filter P ints !! k) = default 0 (ints !! k) ∨ default 0 (filter P ints !! k) = 0.
Proof.
  destruct (filter P ints !! k) as [v|] eqn:Hf; simpl; [|by right].
  apply map_lookup_filter_Some in Hf as [-> _]. by left.
Qed.

Definition wait_bounded (k : string) (mw n : Z) (r : R) : Prop :=
  TIME r = n ∧ 0 ≤ waiting k r ≤ mw.

(** Requests to wait at [k] name a bound of at most [mw]. *)
Definition waits_within (k : string) (mw : Z) (k' : string) (mw' : Z) : Prop :=
  k' = k → mw' ≤ mw.

Lemma wait_bounded_exec k mw e n r :
  permitted (λ _ _, True) (waits_within k mw) e →
  wait_bounded k mw n r → wait_bounded k mw n (exec c e r).
Proof.
  intros He. apply exec_stable with (may_remove := λ _ _, True) (may_wait := waits_within k mw);
    [..|done]; clear; unfold wait_bounded; try done.
  1: by intros ?? [? _].
  1-6: intros ????; intros; destruct_and?; split;
    [by autorewrite with redis_clock
    | rewrite (waiting_same k r) by (by autorewrite with redis; unfold ks_ZADD, ks_ZREM,
        ks_ZREMRANGEBYSCORE; autorewrite with redis); tauto].
  - intros n r k' _ _ [HT Hw]. split; [by autorewrite with redis_clock|].
    unfold waiting, GET in *. autorewrite with redis. simpl. rewrite lookup_delete.
    case_decide; simpl; lia.
  - intros n r k' mw' Hok Hlt [HT Hw]. split; [by autorewrite with redis_clock|].
    rewrite (waiting_add k' 1 r) by apply obs_INCR. fold (waiting k' r) in Hlt.
    case_decide as Hk; [subst; specialize (Hok eq_refl); lia | done].
  - intros n r k' v Hv Hpos [HT Hw]. split; [by autorewrite with redis_clock|].
    rewrite (waiting_add k' (-1) r) by apply obs_DECR.
    assert (waiting k' r = v) as Hv' by (unfold waiting; by rewrite Hv).
    case_decide; subst; lia.
Qed.

(**  The waiting counter of an account never goes negative and never passes
    the limit of the requests that were allowed to wait, whatever calls and
    passing time the server executes in between. *)
Theorem wait_queue_bounded id mw es r
    (H0 : 0 ≤ GetAccountWaitingCount id r ≤ mw)
    (Hes : Forall (λ e, match e with
             | EvIncAccountWait id' mw' => id' = id → mw' ≤ mw | _ => True end) es) :
  0 ≤ GetAccountWaitingCount id (run c es r) ≤ mw.
Proof.
  change (GetAccountWaitingCount id) with (waiting (accountWaitKey id)) in *.
  revert r H0. induction Hes as [|e es He Hes IH]; intros r Hr; [done|].
  apply IH. clear IH Hes es.
  assert (permitted (λ _ _, True) (waits_within (accountWaitKey id) mw) e ∨ ∃ ms, e = EvElapse ms)
    as [Hp|[ms ->]].
  - destruct e; simpl in *; unfold waits_within; auto; try (by right; eexists); left.
    + intros Hk. expose_keys Hk. discriminate Hk.
    + intros Hk. apply He. expose_keys Hk. injection Hk as Hk. by apply (inj FormatInt) in Hk.
  - by apply (wait_bounded_exec _ _ e (TIME r) r Hp).
  - simpl. unfold waiting, GET. autorewrite with redis. simpl.
    destruct (waiting_filter (accountWaitKey id) (λ e, ks_due (obs r) (ks_ms (obs r) + ms) e.1 = false)
      (ks_ints (obs r))) as [->| ->]; [done|].
    lia.
Qed.
End WaitQueue.

(** ** Leases are kept for their whole lifetime *)

Section Retention.
Context `{Redis R} (c : concurrencyCache) (Httl : 0 < slotTTLSeconds c).
Implicit Types r : R.

(** Request [m] was granted a slot at [key] in second [s]: its entry is that
    recent, and neither the entry nor the key can lapse before [s + ttl]. *)
Record retained (key m : string) (ttl s n : Z) (r : R) : Prop := {
  retained_time : TIME r = n;
  retained_score : ∃ s', zset (obs r) key !! m = Some s' ∧ s ≤ s';
  retained_deadline : ∃ d, ks_deadlines (obs r) !! key = Some d ∧ 1000 * (s + ttl) ≤ d;
  retained_clock : 1000 * s ≤ ks_ms (obs r) < 1000 * (s + ttl)
}.

Lemma retained_seconds key m ttl s n r : retained key m ttl s n r → s ≤ n < s + ttl.
Proof.
  intros [HT _ _ Hc]. rewrite <- HT, TIME_obs. unfold ks_seconds.
  split; [apply Z.div_le_lower_bound|apply Z.div_lt_upper_bound]; lia.
Qed.

Lemma retained_owner key m ttl s n r : retained key m ttl s n r → m ∈ owners ttl (obs r) key.
Proof.
  intros Hr. pose proof (retained_seconds _ _ _ _ _ _ Hr).
  destruct Hr as [HT (s' & Hs & Hle) _ _]. apply elem_of_owners. exists s'.
  split; [done|]. rewrite <- TIME_obs. lia.
Qed.

(** Replacing a set keeps the lease if the new set still holds the entry. *)
Lemma retained_put key m ttl s n r r' k z :
  obs r' = ks_put k z (obs r) →
  (k = key → ∃ s', z !! m = Some s' ∧ s ≤ s') →
  retained key m ttl s n r → retained key m ttl s n r'.
Proof.
  intros Ho Hz [HT Hs Hd Hc].
  split; rewrite ?TIME_obs, ?Ho in *; autorewrite with redis; try done.
  - rewrite zset_put. case_decide; [by apply Hz | done].
  - unfold ks_put. case_decide as He; simpl; [|done].
    rewrite lookup_delete_ne; [done|]. intros ->.
    destruct (Hz eq_refl) as (s' & Hs' & _). subst z. by rewrite lookup_empty in Hs'.
Qed.

Lemma retained_int key m ttl s n d k r r' :
  obs r' = ks_add_int d k (obs r) → retained key m ttl s n r → retained key m ttl s n r'.
Proof. intros Ho [HT Hs Hd Hc]. split; rewrite ?TIME_obs, ?Ho in *; done. Qed.

Lemma retained_EXPIRE key m ttl s n k t r :
  (k = key → t = ttl) → retained key m ttl s n r → retained key m ttl s n (EXPIRE k t r).
Proof.
  intros Ht [HT (s' & Hs & Hle) (d & Hd & Hled) Hc].
  split; rewrite ?TIME_obs in *; autorewrite with redis; eauto.
  unfold ks_EXPIRE. case_decide; simpl; [|by eauto].
  destruct (decide (k = key)) as [Hk|Hk].
  - rewrite (Ht Hk). subst k. rewrite lookup_insert_eq. eexists. split; [done|]. lia.
  - rewrite lookup_insert_ne by done. eauto.
Qed.

Lemma retained_DEL key m ttl s n k r :
  ZCARD k r = 0 → retained key m ttl s n r → retained key m ttl s n (DEL k r).
Proof.
  intros Hz [HT (s' & Hs & Hle) Hd Hc].
  assert (k ≠ key) as Hne.
  { intros ->. unfold ZCARD in Hz. assert (size (zset (obs r) key) = 0%nat) as He by lia.
    apply map_size_empty_inv in He. rewrite He in Hs. by rewrite lookup_empty in Hs. }
  split; rewrite ?TIME_obs in *; autorewrite with redis; try done.
  - rewrite decide_False by done. eauto.
  - simpl. by rewrite lookup_delete_ne.
Qed.

Lemma uses_account_ttl id k t : uses c k t → k = accountSlotKey id → t = slotTTLSeconds c.
Proof. intros [] Hk; try done; exfalso; expose_keys Hk; discriminate Hk. Qed.

Lemma index_not_account id k : is_index k → k ≠ accountSlotKey id.
Proof. intros []; solve_slot_key_ne. Qed.

Lemma retained_exec id m s e n r :
  permitted (λ k m', ¬ (k = accountSlotKey id ∧ m' = m)) (λ _ _, True) e →
  retained (accountSlotKey id) m (slotTTLSeconds c) s n r →
  retained (accountSlotKey id) m (slotTTLSeconds c) s n (exec c e r).
Proof using Httl.
  intros He. apply exec_stable with
    (may_remove := λ k m', ¬ (k = accountSlotKey id ∧ m' = m)) (may_wait := λ _ _, True);
    [..|done]; clear He e n r.
  - by intros ?? [? _ _ _].
  - intros n r k t Hu Hr. pose proof (retained_seconds _ _ _ _ _ _ Hr).
    eapply retained_put; [apply obs_ZREMRANGEBYSCORE| |done]. intros ->.
    rewrite (uses_account_ttl id _ _ Hu eq_refl).
    destruct (retained_score _ _ _ _ _ _ Hr) as (s' & Hs & Hle). exists s'. split; [|done].
    apply map_lookup_filter_Some. split; [done|]. simpl. lia.
  - intros n r k t Hu Hr. apply retained_EXPIRE; [by eapply uses_account_ttl|done].
  - intros n r k m' Hr. pose proof (retained_seconds _ _ _ _ _ _ Hr).
    eapply retained_put; [apply obs_ZADD| |done]. intros ->.
    destruct (decide (m' = m)) as [->|Hne].
    + exists n. rewrite lookup_insert_eq. split; [done|lia].
    + rewrite lookup_insert_ne by done. by eapply retained_score.
  - intros n r k sc m' Hi Hr. eapply retained_put; [apply obs_ZADD| |done].
    intros Hk. by apply (index_not_account id) in Hi.
  - intros n r k m' Hi Hr. eapply retained_put; [apply obs_ZREM| |done].
    intros Hk. by apply (index_not_account id) in Hi.
  - intros n r k m' Hok Hr. eapply retained_put; [apply obs_ZREM| |done].
    intros ->. rewrite lookup_delete_ne by naive_solver. by eapply retained_score.
  - intros n r k _ Hz Hr. by apply retained_DEL.
  - intros n r k mw _ _ Hr. eapply retained_int; [apply obs_INCR|done].
  - intros n r k v _ _ Hr. eapply retained_int; [apply obs_DECR|done].
Qed.

Lemma retained_elapse key m ttl s n d r :
  0 ≤ d → ks_ms (obs r) + d < 1000 * (s + ttl) → retained key m ttl s n r →
  retained key m ttl s (TIME (elapse d r)) (elapse d r).
Proof.
  intros Hd Hlt [HT (s' & Hs & Hle) (dl & Hdl & Hled) Hc].
  assert (ks_due (obs r) (ks_ms (obs r) + d) key = false) as Hdue.
  { unfold ks_due. rewrite Hdl. apply Z.leb_gt. lia. }
  split; autorewrite with redis; simpl; try done; [| |lia].
  - rewrite zset_elapse, Hdue. eauto.
  - exists dl. split; [|done]. by apply map_lookup_filter_Some.
Qed.

Lemma retained_claim key m ttl r :
  0 < ttl → retained key m ttl (TIME r) (TIME r) (EXPIRE key ttl (ZADD key (TIME r) m r)).
Proof.
  intros Hpos. pose proof (Z.div_mod (ks_ms (obs r)) 1000 ltac:(lia)) as Hdm.
  pose proof (Z.mod_pos_bound (ks_ms (obs r)) 1000 ltac:(lia)) as Hm.
  assert (zset (ks_ZADD key (TIME r) m (obs r)) key !! m = Some (TIME r)) as Hin.
  { unfold ks_ZADD. by rewrite zset_put_eq, lookup_insert_eq. }
  assert (ks_ms (ks_ZADD key (TIME r) m (obs r)) = ks_ms (obs r)) as Hms by apply ms_put.
  rewrite TIME_obs in *. unfold ks_seconds in *.
  split; [apply TIME_claim|..]; autorewrite with redis.
  - eauto with lia.
  - unfold ks_EXPIRE. rewrite decide_True.
    + simpl. rewrite lookup_insert_eq. eexists. split; [done|]. lia.
    + left. unfold zset in Hin. destruct (ks_zsets _ !! key); [by eexists|].
      simpl in Hin. by rewrite lookup_empty in Hin.
  - rewrite Hms. lia.
Qed.

Lemma acquired_retained id max m r :
  (AcquireAccountSlot c id max m r).1 = true →
  retained (accountSlotKey id) m (slotTTLSeconds c) (TIME r) (TIME r)
    (AcquireAccountSlot c id max m r).2.
Proof using Httl.
  unfold AcquireAccountSlot, acquireScript.
  set (r1 := ZREMRANGEBYSCORE (liveAccountSlotKey id) _ _).
  assert (TIME r1 = TIME r) as <- by (unfold r1; by rewrite !TIME_purge).
  intros Hok. assert (∀ e, retained (accountSlotKey id) m (slotTTLSeconds c) (TIME r1) (TIME r1)
    (touchActiveIndexAt accountActiveIndexKey id e
       (EXPIRE (accountSlotKey id) (slotTTLSeconds c) (ZADD (accountSlotKey id) (TIME r1) m r1))))
    as Hgoal; [|repeat case_match; simplify_eq/=; try done; apply Hgoal].
  clear Hok. intros e. unfold touchActiveIndexAt. case_match; [by apply retained_claim|].
  eapply retained_put; [apply obs_ZADD| |by apply retained_claim].
  intros Hk. destruct (index_not_account id _ is_account_index Hk).
Qed.

(** Milliseconds that pass during a trace. *)
Definition elapsed (es : list event) : Z :=
  foldr (λ e t, match e with EvElapse ms => ms + t | _ => t end) 0 es.

(** The trace never releases slot [m] of account [id], and time moves
    forward. *)
Definition keeps (id : Z) (m : string) (e : event) : Prop :=
  match e with
  | EvReleaseAccount id' m' => ¬ (id' = id ∧ m' = m)
  | EvElapse ms => 0 ≤ ms
  | _ => True
  end.

Lemma elapsed_nonneg id m es : Forall (keeps id m) es → 0 ≤ elapsed es.
Proof. induction 1 as [|e es He _ IH]; simpl; [lia|]. destruct e; simpl in *; lia. Qed.

Lemma ms_exec e r :
  permitted (λ _ _, True) (λ _ _, True) e → ks_ms (obs (exec c e r)) = ks_ms (obs r).
Proof.
  intros He. apply (exec_stable c (λ n r', TIME r' = n ∧ ks_ms (obs r') = ks_ms (obs r))
    (λ _ _, True) (λ _ _, True)) with (n := TIME r); [..|done|done]; clear He;
    try (by intros ?? [? ?]); intros; destruct_and?; split; try (by autorewrite with redis_clock);
    autorewrite with redis; try done; unfold ks_ZADD, ks_ZREM, ks_ZREMRANGEBYSCORE;
    by autorewrite with redis.
Qed.

Lemma run_retained id m s es r n :
  Forall (keeps id m) es →
  ks_ms (obs r) + elapsed es < 1000 * (s + slotTTLSeconds c) →
  retained (accountSlotKey id) m (slotTTLSeconds c) s n r →
  ∃ n', retained (accountSlotKey id) m (slotTTLSeconds c) s n' (run c es r).
Proof using Httl.
  intros Hes. revert r n. induction Hes as [|e es He Hes IH]; intros r n Hlt Hr; [by eexists|].
  pose proof (elapsed_nonneg _ _ _ Hes) as Hnn. simpl.
  assert ((permitted (λ k m', ¬ (k = accountSlotKey id ∧ m' = m)) (λ _ _, True) e
           ∧ permitted (λ _ _, True) (λ _ _, True) e
           ∧ elapsed (e :: es) = elapsed es)
          ∨ ∃ ms, e = EvElapse ms) as [(Hp & Hp' & Hel)|[ms ->]].
  - destruct e; try (by right; eexists); left; simpl in *; repeat split; auto; intros [Hk Hm];
      first [ apply accountSlotKey_inj in Hk; subst; by apply He
            | expose_keys Hk; discriminate Hk ].
  - rewrite Hel in Hlt. apply (IH _ n); [by rewrite ms_exec|]. by apply retained_exec.
  - simpl in *. eapply IH; [|by eapply retained_elapse; [..|lia|done]].
    autorewrite with redis. simpl. lia.
Qed.

(** C15.  A granted slot is kept: after [AcquireAccountSlot] admits request [m],
    the request owns its slot throughout the lease, less the second the server
    clock is rounded by, whatever the other clients do, as long as nobody
    releases this very slot.  In particular no expiry, clean-up, refused or lost
    renewal of another request frees it early. *)
Theorem account_slot_retained id max m es r
    (Hok : (AcquireAccountSlot c id max m r).1 = true)
    (Hes : Forall (keeps id m) es)
    (Htime : elapsed es <= 1000 * (slotTTLSeconds c - 1)) :
  m ∈ regular_owners c id (run c es (AcquireAccountSlot c id max m r).2).
Proof using Httl.
  pose proof (acquired_retained id max m r Hok) as Hr.
  pose proof (ms_exec (EvAcquireAccount id max m) r I) as Hms. simpl in Hms.
  assert (ks_ms (obs (AcquireAccountSlot c id max m r).2) + elapsed es
          < 1000 * (TIME r + slotTTLSeconds c)) as Hlt.
  { rewrite Hms, TIME_obs. unfold ks_seconds.
    pose proof (Z.div_mod (ks_ms (obs r)) 1000 ltac:(lia)).
    pose proof (Z.mod_pos_bound (ks_ms (obs r)) 1000 ltac:(lia)). lia. }
  destruct (run_retained id m (TIME r) es _ (TIME r) Hes Hlt Hr) as [n' Hn'].
  by eapply retained_owner.
Qed.
End Retention.

(** ** Instances *)

Lemma wait_queue_bounded_witness :
  0 ≤ GetAccountWaitingCount 7 demo_server ≤ 1
  ∧ 0 ≤ GetAccountWaitingCount 7 (run demo_cache
      [EvIncAccountWait 7 1; EvIncAccountWait 7 1; EvElapse 5; EvDecAccountWait 7;
       EvDecAccountWait 7] demo_server) ≤ 1.
Proof.
  split; [vm_compute; split; discriminate|].
  apply wait_queue_bounded; [vm_compute; split; discriminate | repeat constructor; intros; lia].
Defined.

Lemma account_slot_retained_witness :
  0 < slotTTLSeconds demo_cache
  ∧ (AcquireAccountSlot demo_cache 7 1 "req-1" demo_server).1 = true
  ∧ "req-1" ∈ regular_owners demo_cache 7 (run demo_cache
      [EvAcquireAccount 7 1 "req-2"; EvElapse 899000; EvCleanup; EvReleaseAccount 7 "req-2";
       EvCleanupAccount 7]
      (AcquireAccountSlot demo_cache 7 1 "req-1" demo_server).2).
Proof.
  split; [done|]. split; [by vm_compute|].
  apply account_slot_retained; [done | by vm_compute | | vm_compute; discriminate].
  repeat constructor; simpl; [lia|]. by intros [_ ?].
Defined.
