(* ===== verification/Idempotency.v ===== *)
(** * Idempotent execution of write requests

    [service/idempotency.go] and [repository/idempotency_repo.go].

    The table [idempotency_records] is an explicit state and each SQL statement
    of the repository a function on it.  [Execute] is written once, as a
    [prog]: a tree of the calls it makes (clock, repository, the caller's
    function).  The sequential meaning [run] answers the calls from one table;
    the concurrent meaning is in IdempotencyConcurrency.v.

    JSON, SHA-256 and the redaction of secrets are the class [Codec].  Instants
    are kept exactly (the database rounds them to microseconds). *)

From Stdlib Require Import ZArith Lia String.
From stdpp Require Import base tactics numbers list gmap strings sorting.
From S2P Require Import Prelude GoStrings.

Open Scope Z_scope.

Definition IdempotencyStatusProcessing : string := "processing".
Definition IdempotencyStatusSucceeded : string := "succeeded".
Definition IdempotencyStatusFailedRetryable : string := "failed_retryable".

Record IdempotencyRecord := mkIdempotencyRecord {
  ir_ID : Z;
  ir_Scope : string;
  ir_IdempotencyKeyHash : string;
  ir_RequestFingerprint : string;
  ir_Status : string;
  ir_ResponseStatus : option Z;
  ir_ResponseBody : option string;
  ir_ErrorReason : option string;
  ir_LockedUntil : option Z;
  ir_ExpiresAt : Z;
  ir_CreatedAt : Z;
  ir_UpdatedAt : Z
}.

Record IdempotencyConfig := mkIdempotencyConfig {
  DefaultTTL : Z;
  SystemOperationTTL : Z;
  ProcessingTimeout : Z;
  FailedRetryBackoff : Z;
  MaxStoredResponseLen : Z;
  ObserveOnly : bool
}.

Definition DefaultIdempotencyConfig : IdempotencyConfig :=
  mkIdempotencyConfig (24 * Hour) (1 * Hour) (30 * Second) (5 * Second) (64 * 1024) true.

(** ** The repository *)

Record IdempotencyTable := mkTable {
  tbl_rows : gmap Z IdempotencyRecord;
  tbl_next : Z                          (* next value of the id sequence *)
}.

Definition row_key (r : IdempotencyRecord) : string * string :=
  (ir_Scope r, ir_IdempotencyKeyHash r).

(** The rows of one key (at most one: a unique index covers it). *)
Definition rows_of (key : string * string) (t : IdempotencyTable) : gmap Z IdempotencyRecord :=
  filter (λ e, row_key e.2 = key) (tbl_rows t).

Definition GetByScopeAndKeyHash (scope keyHash : string) (t : IdempotencyTable)
    : option IdempotencyRecord :=
  snd <$> head (map_to_list (rows_of (scope, keyHash) t)).

(** Returns the id of the inserted row; [now] is the server's [NOW()]. *)
Definition CreateProcessing (now : Z) (record : IdempotencyRecord) (t : IdempotencyTable)
    : option Z * IdempotencyTable :=
  match GetByScopeAndKeyHash (ir_Scope record) (ir_IdempotencyKeyHash record) t with
  | Some _ => (None, t)
  | None =>
      let id := tbl_next t in
      let row := mkIdempotencyRecord id (ir_Scope record) (ir_IdempotencyKeyHash record)
        (ir_RequestFingerprint record) (ir_Status record) None None None
        (ir_LockedUntil record) (ir_ExpiresAt record) now now in
      (Some id, mkTable (<[id := row]> (tbl_rows t)) (id + 1))
  end.

(** [UPDATE ... SET set WHERE id = id AND cond]; the flag says whether a row
    was affected. *)
Definition update_row (id : Z) (cond : IdempotencyRecord → bool)
    (set : IdempotencyRecord → IdempotencyRecord) (t : IdempotencyTable)
    : bool * IdempotencyTable :=
  match tbl_rows t !! id with
  | Some r =>
      if cond r then (true, mkTable (<[id := set r]> (tbl_rows t)) (tbl_next t)) else (false, t)
  | None => (false, t)
  end.

Definition TryReclaim (id : Z) (fromStatus : string) (now newLockedUntil newExpiresAt : Z)
    (stamp : Z) : IdempotencyTable → bool * IdempotencyTable :=
  update_row id
    (λ r, String.eqb (ir_Status r) fromStatus
          && match ir_LockedUntil r with None => true | Some l => l <=? now end)
    (λ r, mkIdempotencyRecord (ir_ID r) (ir_Scope r) (ir_IdempotencyKeyHash r)
            (ir_RequestFingerprint r) IdempotencyStatusProcessing (ir_ResponseStatus r)
            (ir_ResponseBody r) None (Some newLockedUntil) newExpiresAt (ir_CreatedAt r) stamp).

Definition ExtendProcessingLock (id : Z) (requestFingerprint : string)
    (newLockedUntil newExpiresAt : Z) (stamp : Z) : IdempotencyTable → bool * IdempotencyTable :=
  update_row id
    (λ r, String.eqb (ir_Status r) IdempotencyStatusProcessing
          && String.eqb (ir_RequestFingerprint r) requestFingerprint)
    (λ r, mkIdempotencyRecord (ir_ID r) (ir_Scope r) (ir_IdempotencyKeyHash r)
            (ir_RequestFingerprint r) (ir_Status r) (ir_ResponseStatus r)
            (ir_ResponseBody r) (ir_ErrorReason r) (Some newLockedUntil) newExpiresAt
            (ir_CreatedAt r) stamp).

Definition MarkSucceeded (id responseStatus : Z) (responseBody : string) (expiresAt : Z)
    (stamp : Z) (t : IdempotencyTable) : IdempotencyTable :=
  (update_row id (λ _, true)
    (λ r, mkIdempotencyRecord (ir_ID r) (ir_Scope r) (ir_IdempotencyKeyHash r)
            (ir_RequestFingerprint r) IdempotencyStatusSucceeded (Some responseStatus)
            (Some responseBody) None None expiresAt (ir_CreatedAt r) stamp) t).2.

Definition MarkFailedRetryable (id : Z) (errorReason : string) (lockedUntil expiresAt : Z)
    (stamp : Z) (t : IdempotencyTable) : IdempotencyTable :=
  (update_row id (λ _, true)
    (λ r, mkIdempotencyRecord (ir_ID r) (ir_Scope r) (ir_IdempotencyKeyHash r)
            (ir_RequestFingerprint r) IdempotencyStatusFailedRetryable (ir_ResponseStatus r)
            (ir_ResponseBody r) (Some errorReason) (Some lockedUntil) expiresAt
            (ir_CreatedAt r) stamp) t).2.

Definition expires_le (a b : Z * IdempotencyRecord) : Prop := ir_ExpiresAt a.2 ≤ ir_ExpiresAt b.2.

#[export] Instance expires_le_dec a b : Decision (expires_le a b).
Proof. unfold expires_le. apply _. Defined.

(** The ids the [victims] query selects. *)
Definition victims (now limit : Z) (t : IdempotencyTable) : list Z :=
  take (Z.to_nat limit) (merge_sort expires_le
    (map_to_list (filter (λ e : Z * IdempotencyRecord, ir_ExpiresAt e.2 ≤ now) (tbl_rows t)))).*1.

Definition DeleteExpired (now limit : Z) (t : IdempotencyTable) : Z * IdempotencyTable :=
  let limit := if limit <=? 0 then 500 else limit in
  let ids := victims now limit t in
  (Z.of_nat (length ids), mkTable (foldr delete (tbl_rows t) ids) (tbl_next t)).

(** ** Keys, fingerprints and stored responses *)

(** JSON values and the third-party or configurable functions on them. *)
Class Codec := {
  Data : Type;
  Marshal : Data → option string;        (* encoding/json *)
  Unmarshal : string → option Data;
  EmptyObject : Data;                    (* map[string]any{} *)
  RedactText : string → string;          (* util/logredact *)
  Sha256Hex : string → string            (* crypto/sha256, encoding/hex *)
}.

Inductive idem_error :=
| ErrIdempotencyKeyRequired
| ErrIdempotencyKeyInvalid
| ErrIdempotencyKeyConflict
| ErrIdempotencyInProgress (retry_after : option Z)
| ErrIdempotencyRetryBackoff (retry_after : option Z)
| ErrIdempotencyStoreUnavail
| ErrIdempotencyInvalidPayload
| ErrIdempotencyExecutorNil
| ErrIdempotencyScopeRequired
| ErrExecution (reason : string).        (* the caller's own error, by reason *)

Definition NormalizeIdempotencyKey (raw : string) : idem_error + string :=
  let key := TrimSpace raw in
  if String.eqb key "" then inr ""%string
  else if 128 <? len key then inl ErrIdempotencyKeyInvalid
  else if existsb (λ r, (r <? 33) || (126 <? r)) (runes key) then inl ErrIdempotencyKeyInvalid
  else inr key.

(** [int(lockedUntil.Sub(now).Seconds())]: whole seconds, towards zero (exact
    below 2^23 seconds, where the float64 quotient does not round up). *)
Definition retry_after_seconds (lockedUntil now : Z) : Z :=
  let sec := Z.quot (time_sub lockedUntil now) Second in
  if sec <=? 0 then 1 else sec.

Definition conflictWithRetryAfter (base : option Z → idem_error) (lockedUntil : option Z) (now : Z)
    : idem_error :=
  base ((λ l, retry_after_seconds l now) <$> lockedUntil).

(** The loop of [truncateUTF8]. *)
Fixpoint truncate_loop (s : string) (maxBytes : nat) : nat :=
  match maxBytes with
  | O => O
  | S n => if ValidString (slice_to (S n) s) then S n else truncate_loop s n
  end.

Definition truncateUTF8 (s : string) (maxBytes : Z) : string :=
  if (maxBytes <=? 0) || (len s <=? maxBytes) then s
  else slice_to (truncate_loop s (Z.to_nat maxBytes)) s.

Record ExecuteOptions := mkExecuteOptions {
  opt_Scope : string;
  opt_ActorScope : string;
  opt_Method : string;
  opt_Route : string;
  opt_IdempotencyKey : string;
  opt_TTL : Z;
  opt_RequireKey : bool;
  opt_ExecutionTimeout : Z
}.

Section Coordinator.
Context `{UnicodeCase} `{Codec}.

Definition HashIdempotencyKey (key : string) : string := Sha256Hex key.

Definition newline : string := String (byte 10) "".

Definition BuildIdempotencyFingerprint (method route actorScope : string) (payload : Data)
    : idem_error + string :=
  let method := if String.eqb method "" then "POST"%string else method in
  let route := if String.eqb route "" then "/"%string else route in
  let actorScope := if String.eqb actorScope "" then "anonymous"%string else actorScope in
  match Marshal payload with
  | None => inl ErrIdempotencyInvalidPayload
  | Some raw =>
      inr (Sha256Hex (ToUpper method +:+ newline +:+ route +:+ newline +:+ actorScope
                      +:+ newline +:+ raw))
  end.

Definition marshalStoredResponse (cfg : IdempotencyConfig) (data : Data) : option string :=
  raw ← Marshal data;
  let redacted := RedactText raw in
  if (0 <? MaxStoredResponseLen cfg) && (MaxStoredResponseLen cfg <? len redacted)
  then Some (truncateUTF8 redacted (MaxStoredResponseLen cfg) +:+ "...(truncated)")
  else Some redacted.

Definition decodeStoredResponse (stored : option string) : option Data :=
  match stored with
  | None => Some EmptyObject
  | Some s => if String.eqb (TrimSpace s) "" then Some EmptyObject else Unmarshal s
  end.

(** ** Programs *)

(** What the caller's function returns: data, or an error with its reason. *)
Definition outcome : Type := (string + Data)%type.

(** A repository call may fail; [None] is a store error. *)
Inductive op : Type → Type :=
| OpNow : op Z
| OpCreate (record : IdempotencyRecord) : op (option (option Z))
| OpGet (scope keyHash : string) : op (option (option IdempotencyRecord))
| OpReclaim (id : Z) (fromStatus : string) (now newLockedUntil newExpiresAt : Z) : op (option bool)
| OpSucceeded (id responseStatus : Z) (body : string) (expiresAt : Z) : op (option ())
| OpFailed (id : Z) (reason : string) (lockedUntil expiresAt : Z) : op (option ())
| OpRenew (id : Z) (fingerprint : string) (lease ttl : Z) : op ()  (* starts the renewal goroutine *)
| OpExec : op outcome.                                             (* the caller's function *)

Inductive prog (A : Type) : Type :=
| Ret (a : A)
| Do {X : Type} (o : op X) (k : X → prog A).

Record ExecuteResult := mkExecuteResult { res_Data : Data; res_Replayed : bool }.

Definition reply : Type := (idem_error + ExecuteResult)%type.
End Coordinator.

Arguments Ret {_ _} _.
Arguments Do {_ _ _} _ _.

Notation "x ← 'call' o ; p" := (Do o (λ x, p))
  (at level 20, o at level 100, p at level 200, only parsing) : go_scope.

(** ** [Execute] *)

Section Execute.
Context `{UnicodeCase} `{Codec} (cfg : IdempotencyConfig).
Local Open Scope go_scope.

Definition reply_error (e : idem_error) : prog reply := Ret (inl e).

(** The lease the renewal goroutine asks for. *)
Definition renewal_lease : Z :=
  if ProcessingTimeout cfg <=? 0 then ProcessingTimeout DefaultIdempotencyConfig
  else ProcessingTimeout cfg.

Definition effective_ttl (opts : ExecuteOptions) : Z :=
  if opt_TTL opts <=? 0 then DefaultTTL cfg else opt_TTL opts.

(** The end of [Execute]: the outcome of the caller's function is recorded. *)
Definition store_result (id expiresAt : Z) (result : outcome) : prog reply :=
  match result with
  | inl reason =>
      t ← call OpNow;
      let backoffUntil := time_add t (FailedRetryBackoff cfg) in
      let stored := if String.eqb reason "" then "EXECUTION_FAILED"%string else reason in
      _ ← call OpFailed id stored backoffUntil expiresAt;
      reply_error (ErrExecution reason)
  | inr data =>
      match marshalStoredResponse cfg data with
      | None => reply_error ErrIdempotencyStoreUnavail
      | Some storedBody =>
          marked ← call OpSucceeded id 200 storedBody expiresAt;
          match marked with
          | None => reply_error ErrIdempotencyStoreUnavail
          | Some _ => Ret (inr (mkExecuteResult data false))
          end
      end
  end.

(** From the check of [record.ID] on: run the caller's function under the claim
    on row [id].  Bounded executions renew their lease and count the lifetime of
    the result from its completion. *)
Definition perform (opts : ExecuteOptions) (fingerprint : string) (id expiresAt : Z) : prog reply :=
  if id =? 0 then reply_error ErrIdempotencyStoreUnavail else
  let ttl := effective_ttl opts in
  if 0 <? opt_ExecutionTimeout opts then
    _ ← call OpRenew id fingerprint renewal_lease ttl;
    result ← call OpExec;
    t ← call OpNow;
    store_result id (time_add t ttl) result
  else
    result ← call OpExec;
    store_result id expiresAt result.

(** The [switch existing.Status]. *)
Definition on_existing (opts : ExecuteOptions) (fingerprint : string)
    (now lockedUntil expiresAt : Z) (existing : IdempotencyRecord) : prog reply :=
  if String.eqb (ir_Status existing) IdempotencyStatusSucceeded then
    match decodeStoredResponse (ir_ResponseBody existing) with
    | None => reply_error ErrIdempotencyStoreUnavail
    | Some data => Ret (inr (mkExecuteResult data true))
    end
  else if String.eqb (ir_Status existing) IdempotencyStatusProcessing then
    reply_error (conflictWithRetryAfter ErrIdempotencyInProgress (ir_LockedUntil existing) now)
  else if String.eqb (ir_Status existing) IdempotencyStatusFailedRetryable then
    if match ir_LockedUntil existing with Some l => time_after l now | None => false end
    then reply_error (conflictWithRetryAfter ErrIdempotencyRetryBackoff (ir_LockedUntil existing) now)
    else
      taken ← call OpReclaim (ir_ID existing) IdempotencyStatusFailedRetryable now lockedUntil
                expiresAt;
      match taken with
      | None => reply_error ErrIdempotencyStoreUnavail
      | Some false =>
          reply_error (conflictWithRetryAfter ErrIdempotencyInProgress (ir_LockedUntil existing) now)
      | Some true => perform opts fingerprint (ir_ID existing) expiresAt
      end
  else reply_error ErrIdempotencyKeyConflict.

(** The branch for a key that already has a record. *)
Definition on_conflict (opts : ExecuteOptions) (fingerprint keyHash : string)
    (now lockedUntil expiresAt : Z) : prog reply :=
  got ← call OpGet (opt_Scope opts) keyHash;
  match got with
  | None | Some None => reply_error ErrIdempotencyStoreUnavail
  | Some (Some existing) =>
      if negb (String.eqb (ir_RequestFingerprint existing) fingerprint)
      then reply_error ErrIdempotencyKeyConflict
      else if negb (time_after (ir_ExpiresAt existing) now) then
        taken ← call OpReclaim (ir_ID existing) (ir_Status existing) now lockedUntil expiresAt;
        match taken with
        | None => reply_error ErrIdempotencyStoreUnavail
        | Some true => perform opts fingerprint (ir_ID existing) expiresAt
        | Some false =>
            latest ← call OpGet (opt_Scope opts) keyHash;
            match latest with
            | None | Some None => reply_error ErrIdempotencyStoreUnavail
            | Some (Some latest) =>
                if negb (String.eqb (ir_RequestFingerprint latest) fingerprint)
                then reply_error ErrIdempotencyKeyConflict
                else on_existing opts fingerprint now lockedUntil expiresAt latest
            end
        end
      else on_existing opts fingerprint now lockedUntil expiresAt existing
  end.

(** [repo_nil] and [execute_nil]: the coordinator has no repository, the caller
    passed no function. *)
Definition Execute (repo_nil execute_nil : bool) (opts : ExecuteOptions) (payload : Data)
    : prog reply :=
  if execute_nil then reply_error ErrIdempotencyExecutorNil else
  match NormalizeIdempotencyKey (opt_IdempotencyKey opts) with
  | inl e => reply_error e
  | inr key =>
      if String.eqb key "" then
        if opt_RequireKey opts && negb (ObserveOnly cfg) then reply_error ErrIdempotencyKeyRequired
        else
          result ← call OpExec;
          match result with
          | inl reason => reply_error (ErrExecution reason)
          | inr data => Ret (inr (mkExecuteResult data false))
          end
      else if repo_nil then reply_error ErrIdempotencyStoreUnavail
      else if String.eqb (opt_Scope opts) "" then reply_error ErrIdempotencyScopeRequired
      else
        match BuildIdempotencyFingerprint (opt_Method opts) (opt_Route opts) (opt_ActorScope opts)
                payload with
        | inl e => reply_error e
        | inr fingerprint =>
            now ← call OpNow;
            let expiresAt := time_add now (effective_ttl opts) in
            let lockedUntil := time_add now (ProcessingTimeout cfg) in
            let keyHash := HashIdempotencyKey key in
            owner ← call OpCreate (mkIdempotencyRecord 0 (opt_Scope opts) keyHash fingerprint
                      IdempotencyStatusProcessing None None None (Some lockedUntil) expiresAt 0 0);
            match owner with
            | None => reply_error ErrIdempotencyStoreUnavail
            | Some (Some id) => perform opts fingerprint id expiresAt
            | Some None => on_conflict opts fingerprint keyHash now lockedUntil expiresAt
            end
        end
  end.

(** Which row a request works on; requests without a key use none. *)
Definition request_key (opts : ExecuteOptions) : option (string * string) :=
  match NormalizeIdempotencyKey (opt_IdempotencyKey opts) with
  | inr key => if String.eqb key "" then None else Some (opt_Scope opts, HashIdempotencyKey key)
  | inl _ => None
  end.
End Execute.

(** ** Sequential meaning *)

Section Sequential.
Context `{UnicodeCase} `{Codec}.

(** The answers of a repository that does not fail, read at instant [now], to a
    caller whose function returns [result]. *)
Definition answer (now : Z) (result : outcome) {X} (o : op X) (t : IdempotencyTable)
    : X * IdempotencyTable :=
  match o in op X return X * IdempotencyTable with
  | OpNow => (now, t)
  | OpCreate record => let '(id, t) := CreateProcessing now record t in (Some id, t)
  | OpGet scope keyHash => (Some (GetByScopeAndKeyHash scope keyHash t), t)
  | OpReclaim id from n l e => let '(b, t) := TryReclaim id from n l e now t in (Some b, t)
  | OpSucceeded id st body e => (Some (), MarkSucceeded id st body e now t)
  | OpFailed id reason l e => (Some (), MarkFailedRetryable id reason l e now t)
  | OpRenew _ _ _ _ => ((), t)
  | OpExec => (result, t)
  end.

(** Runs a program; the flag says whether the caller's function ran. *)
Fixpoint run {A} (now : Z) (result : outcome) (p : prog A) (t : IdempotencyTable)
    : A * bool * IdempotencyTable :=
  match p with
  | Ret a => (a, false, t)
  | Do o k =>
      let '(x, t) := answer now result o t in
      let '(a, executed, t) := run now result (k x) t in
      (a, executed || match o with OpExec => true | _ => false end, t)
  end.
End Sequential.

(** ** The table *)

Record table_wf (t : IdempotencyTable) : Prop := {
  wf_next : 0 < tbl_next t;
  wf_id : ∀ id r, tbl_rows t !! id = Some r → ir_ID r = id ∧ 0 < id < tbl_next t;
  wf_unique : ∀ i j r r', tbl_rows t !! i = Some r → tbl_rows t !! j = Some r' →
    row_key r = row_key r' → i = j
}.

Lemma GetByScopeAndKeyHash_Some scope kh t r :
  table_wf t →
  GetByScopeAndKeyHash scope kh t = Some r ↔
  tbl_rows t !! ir_ID r = Some r ∧ row_key r = (scope, kh).
Proof.
  intros Hwf. unfold GetByScopeAndKeyHash.
  destruct (map_to_list (rows_of (scope, kh) t)) as [|[i r'] l] eqn:Hl; simpl.
  - split; [done|]. intros [Hr Hk].
    assert ((ir_ID r, r) ∈ map_to_list (rows_of (scope, kh) t)) as Hin.
    { apply elem_of_map_to_list, map_lookup_filter_Some. done. }
    rewrite Hl in Hin. by apply elem_of_nil in Hin.
  - assert (rows_of (scope, kh) t !! i = Some r') as Hi.
    { apply elem_of_map_to_list. rewrite Hl. apply elem_of_cons. by left. }
    apply map_lookup_filter_Some in Hi as [Hi Hk']. simpl in Hk'.
    destruct (wf_id t Hwf _ _ Hi) as [Hid _]. split.
    + intros [= <-]. by rewrite Hid.
    + intros [Hr Hk]. assert (i = ir_ID r) as -> by (eapply wf_unique; [done..|congruence]).
      congruence.
Qed.

Lemma GetByScopeAndKeyHash_None scope kh t :
  table_wf t →
  GetByScopeAndKeyHash scope kh t = None ↔
  ∀ id r, tbl_rows t !! id = Some r → row_key r ≠ (scope, kh).
Proof.
  intros Hwf. split.
  - intros Hn id r Hr Hk. destruct (wf_id t Hwf _ _ Hr) as [Hid _].
    assert (GetByScopeAndKeyHash scope kh t = Some r) as Hs; [|congruence].
    apply GetByScopeAndKeyHash_Some; [done|]. by rewrite Hid.
  - intros Hn. destruct (GetByScopeAndKeyHash scope kh t) as [r|] eqn:Hg; [|done].
    apply GetByScopeAndKeyHash_Some in Hg as [Hr Hk]; [|done]. by destruct (Hn _ _ Hr).
Qed.

(** Statements that keep the identity of the rows they change. *)
Definition keeps_identity (set : IdempotencyRecord → IdempotencyRecord) : Prop :=
  ∀ r, ir_ID (set r) = ir_ID r ∧ row_key (set r) = row_key r.

Lemma update_row_true id cond set t t' :
  update_row id cond set t = (true, t') →
  ∃ r, tbl_rows t !! id = Some r ∧ cond r = true
    ∧ t' = mkTable (<[id := set r]> (tbl_rows t)) (tbl_next t).
Proof. unfold update_row. intros. repeat case_match; simplify_eq. eauto. Qed.

Lemma update_row_false id cond set t t' : update_row id cond set t = (false, t') → t' = t.
Proof. unfold update_row. intros. by repeat case_match; simplify_eq. Qed.

Lemma replace_row_wf id r r' t :
  table_wf t → tbl_rows t !! id = Some r → ir_ID r' = ir_ID r → row_key r' = row_key r →
  table_wf (mkTable (<[id := r']> (tbl_rows t)) (tbl_next t)).
Proof.
  intros [Hn Hid Hu] Hr Hi Hk. split; simpl; [done|..].
  - intros j x. rewrite lookup_insert. case_decide; [|by auto]. intros [= <-].
    subst. rewrite Hi. by apply Hid.
  - intros i j r1 r2 H1 H2 Heq.
    assert (∀ k x, <[id := r']> (tbl_rows t) !! k = Some x →
      ∃ y, tbl_rows t !! k = Some y ∧ row_key x = row_key y) as Hback.
    { intros k x. rewrite lookup_insert. case_decide; [intros [= <-]; subst; eauto|eauto]. }
    destruct (Hback _ _ H1) as (y1 & ? & ?), (Hback _ _ H2) as (y2 & ? & ?).
    eapply Hu; [done..|congruence].
Qed.

Lemma update_row_wf id cond set t :
  keeps_identity set → table_wf t → table_wf (update_row id cond set t).2.
Proof.
  intros Hset Hwf. unfold update_row. destruct (tbl_rows t !! id) as [r|] eqn:Hr; [|done].
  case_match; [|done]. destruct (Hset r) as [Hi Hk]. by apply (replace_row_wf id r).
Qed.

Lemma CreateProcessing_fresh now r t :
  GetByScopeAndKeyHash (ir_Scope r) (ir_IdempotencyKeyHash r) t = None →
  ∃ row, CreateProcessing now r t
         = (Some (tbl_next t), mkTable (<[tbl_next t := row]> (tbl_rows t)) (tbl_next t + 1))
    ∧ ir_ID row = tbl_next t ∧ row_key row = row_key r
    ∧ ir_RequestFingerprint row = ir_RequestFingerprint r ∧ ir_Status row = ir_Status r
    ∧ ir_ExpiresAt row = ir_ExpiresAt r ∧ ir_LockedUntil row = ir_LockedUntil r.
Proof. unfold CreateProcessing. intros ->. by eexists. Qed.

Lemma CreateProcessing_wf now r t : table_wf t → table_wf (CreateProcessing now r t).2.
Proof.
  intros Hwf. destruct (GetByScopeAndKeyHash (ir_Scope r) (ir_IdempotencyKeyHash r) t) as [r'|] eqn:Hg.
  - unfold CreateProcessing. by rewrite Hg.
  - destruct (CreateProcessing_fresh now r t Hg) as (row & -> & Hid & Hk & _).
    pose proof (proj1 (GetByScopeAndKeyHash_None _ _ _ Hwf) Hg) as Hnone.
    destruct Hwf as [Hn Hids Hu]. split; simpl; [lia|..].
    + intros j r'. rewrite lookup_insert. case_decide; [intros [= <-]; subst; lia|].
      intros Hj. destruct (Hids _ _ Hj). split; [done|lia].
    + intros i j r1 r2. rewrite !lookup_insert. repeat case_decide; intros; simplify_eq; try done.
      * exfalso. eapply Hnone; [done|]. unfold row_key in *. congruence.
      * exfalso. eapply Hnone; [done|]. unfold row_key in *. congruence.
      * eapply (Hu i j r1 r2); [done..|]. unfold row_key. congruence.
Qed.

Lemma foldr_delete_lookup (ids : list Z) (m : gmap Z IdempotencyRecord) i r :
  foldr delete m ids !! i = Some r ↔ i ∉ ids ∧ m !! i = Some r.
Proof.
  induction ids as [|j ids IH]; simpl; [set_solver|].
  rewrite lookup_delete_Some, IH, not_elem_of_cons. naive_solver.
Qed.

Lemma DeleteExpired_wf now limit t : table_wf t → table_wf (DeleteExpired now limit t).2.
Proof.
  intros [Hn Hid Hu]. split; simpl; [done|..].
  - intros id r [_ Hr]%foldr_delete_lookup. by apply Hid.
  - intros i j r r' [_ Hi]%foldr_delete_lookup [_ Hj]%foldr_delete_lookup. by eapply Hu.
Qed.

(** Only expired rows are deleted. *)
Lemma victims_expired now limit t id :
  id ∈ victims now limit t → ∃ r, tbl_rows t !! id = Some r ∧ ir_ExpiresAt r ≤ now.
Proof.
  unfold victims. intros Hin.
  assert (id ∈ (merge_sort expires_le
    (map_to_list (filter (λ e : Z * IdempotencyRecord, ir_ExpiresAt e.2 ≤ now) (tbl_rows t)))).*1)
    as Hin' by (revert Hin; apply subseteq_take).
  apply list_elem_of_fmap in Hin' as ([i r] & -> & Hin').
  rewrite (merge_sort_Permutation _ _) in Hin'.
  apply elem_of_map_to_list, map_lookup_filter_Some in Hin' as [Hr Hle]. eauto.
Qed.

Lemma DeleteExpired_keeps now limit t id r :
  tbl_rows t !! id = Some r → now < ir_ExpiresAt r →
  tbl_rows (DeleteExpired now limit t).2 !! id = Some r.
Proof.
  intros Hr Hlt. simpl. apply foldr_delete_lookup. split; [|done].
  intros (r' & Hr' & Hle)%victims_expired. rewrite Hr in Hr'. injection Hr' as <-. lia.
Qed.

(** ** What one request does *)

Section Requests.
Context `{UnicodeCase} `{Codec} (cfg : IdempotencyConfig).
Implicit Types t : IdempotencyTable.

(** A request that reaches the repository: its key, its row and its
    fingerprint. *)
Record keyed (opts : ExecuteOptions) (payload : Data) (key fingerprint : string) : Prop := {
  keyed_key : NormalizeIdempotencyKey (opt_IdempotencyKey opts) = inr key;
  keyed_nonempty : key ≠ "";
  keyed_scope : opt_Scope opts ≠ "";
  keyed_fingerprint :
    BuildIdempotencyFingerprint (opt_Method opts) (opt_Route opts) (opt_ActorScope opts) payload
    = inr fingerprint
}.

Definition claim_record (opts : ExecuteOptions) (key fingerprint : string) (now : Z)
    : IdempotencyRecord :=
  mkIdempotencyRecord 0 (opt_Scope opts) (HashIdempotencyKey key) fingerprint
    IdempotencyStatusProcessing None None None (Some (time_add now (ProcessingTimeout cfg)))
    (time_add now (effective_ttl cfg opts)) 0 0.

Lemma Execute_keyed opts payload key fingerprint :
  keyed opts payload key fingerprint →
  Execute cfg false false opts payload =
  Do OpNow (λ now, Do (OpCreate (claim_record opts key fingerprint now)) (λ owner,
    match owner with
    | None => reply_error ErrIdempotencyStoreUnavail
    | Some (Some id) =>
        perform cfg opts fingerprint id (time_add now (effective_ttl cfg opts))
    | Some None =>
        on_conflict cfg opts fingerprint (HashIdempotencyKey key) now
          (time_add now (ProcessingTimeout cfg)) (time_add now (effective_ttl cfg opts))
    end)).
Proof.
  intros [Hk Hne Hs Hf]. unfold Execute. rewrite Hk.
  rewrite (proj2 (String.eqb_neq _ _) Hne), (proj2 (String.eqb_neq _ _) Hs), Hf. done.
Qed.

(** The row a finished execution leaves behind. *)
Definition finished (cfg : IdempotencyConfig) (opts : ExecuteOptions) (now : Z) (result : outcome)
    (r : IdempotencyRecord) : Prop :=
  ir_ExpiresAt r = time_add now (effective_ttl cfg opts)
  ∧ match result with
    | inl _ => ir_Status r = IdempotencyStatusFailedRetryable
               ∧ ir_LockedUntil r = Some (time_add now (FailedRetryBackoff cfg))
    | inr data => ir_Status r = IdempotencyStatusSucceeded
                  ∧ ir_ResponseBody r = marshalStoredResponse cfg data
    end.

(** Running the caller's function under a claim on row [id]. *)
Lemma run_perform opts fingerprint id now result t r :
  id ≠ 0 → tbl_rows t !! id = Some r →
  (∀ data, result = inr data → is_Some (marshalStoredResponse cfg data)) →
  ∃ r', run now result (perform cfg opts fingerprint id (time_add now (effective_ttl cfg opts))) t
        = (match result with
           | inl reason => inl (ErrExecution reason)
           | inr data => inr (mkExecuteResult data false)
           end, true, mkTable (<[id := r']> (tbl_rows t)) (tbl_next t))
    ∧ finished cfg opts now result r'
    ∧ ir_ID r' = ir_ID r ∧ row_key r' = row_key r
    ∧ ir_RequestFingerprint r' = ir_RequestFingerprint r.
Proof.
  intros Hid Hr Hbody. unfold perform. rewrite (proj2 (Z.eqb_neq _ _) Hid).
  destruct (0 <? opt_ExecutionTimeout opts), result as [reason|data]; simpl;
    try (unfold MarkFailedRetryable, update_row; rewrite Hr; simpl;
         eexists; split; [done|]; split; [|done]; by split).
  all: destruct (Hbody _ eq_refl) as [body Hb]; rewrite Hb; simpl;
    unfold MarkSucceeded, update_row; rewrite Hr; simpl;
    eexists; split; [done|]; split; [|done]; split; [done|]; by rewrite Hb.
Qed.

Lemma Create_known now r r' t :
  GetByScopeAndKeyHash (ir_Scope r) (ir_IdempotencyKeyHash r) t = Some r' →
  CreateProcessing now r t = (None, t).
Proof. unfold CreateProcessing. by intros ->. Qed.

(** First request with a key. *)
Lemma run_fresh opts payload key fingerprint now result t :
  table_wf t → keyed opts payload key fingerprint →
  GetByScopeAndKeyHash (opt_Scope opts) (HashIdempotencyKey key) t = None →
  (∀ data, result = inr data → is_Some (marshalStoredResponse cfg data)) →
  ∃ r', run now result (Execute cfg false false opts payload) t
        = (match result with
           | inl reason => inl (ErrExecution reason)
           | inr data => inr (mkExecuteResult data false)
           end, true, mkTable (<[tbl_next t := r']> (tbl_rows t)) (tbl_next t + 1))
    ∧ finished cfg opts now result r'
    ∧ ir_RequestFingerprint r' = fingerprint ∧ ir_ID r' = tbl_next t
    ∧ GetByScopeAndKeyHash (opt_Scope opts) (HashIdempotencyKey key)
        (mkTable (<[tbl_next t := r']> (tbl_rows t)) (tbl_next t + 1)) = Some r'.
Proof.
  intros Hwf Hk Hnone Hbody. rewrite (Execute_keyed opts payload key fingerprint Hk).
  pose proof (CreateProcessing_wf now (claim_record opts key fingerprint now) t Hwf) as Hwf'.
  destruct (CreateProcessing_fresh now (claim_record opts key fingerprint now) t Hnone)
    as (row & Hc & Hid & Hrk & Hfp & _).
  rewrite Hc in Hwf'. simpl in Hwf'. pose proof (wf_next t Hwf).
  destruct (run_perform opts fingerprint (tbl_next t) now result
    (mkTable (<[tbl_next t := row]> (tbl_rows t)) (tbl_next t + 1)) row)
    as (r' & Hrun & Hfin & Hid' & Hrk' & Hfp'); [lia|apply lookup_insert_eq|done|].
  exists r'. simpl. rewrite Hc. simpl. rewrite Hrun. simpl. rewrite insert_insert_eq.
  split; [done|]. split; [done|]. split; [by rewrite Hfp', Hfp|].
  split; [by rewrite Hid', Hid|].
  assert (table_wf (mkTable (<[tbl_next t := r']> (tbl_rows t)) (tbl_next t + 1))) as Hwf2.
  { pose proof (replace_row_wf (tbl_next t) row r' _ Hwf' (lookup_insert_eq _ _ _) Hid' Hrk') as Hu.
    simpl in Hu. by rewrite insert_insert_eq in Hu. }
  apply GetByScopeAndKeyHash_Some; [done|]. rewrite Hid', Hid. simpl.
  split; [by rewrite lookup_insert_eq|]. by rewrite Hrk', Hrk.
Qed.

(** Later requests with the same key, before the record expires. *)
Lemma run_known opts payload key fingerprint now result t r :
  keyed opts payload key fingerprint →
  GetByScopeAndKeyHash (opt_Scope opts) (HashIdempotencyKey key) t = Some r →
  ir_RequestFingerprint r = fingerprint → now < ir_ExpiresAt r →
  run now result (Execute cfg false false opts payload) t
  = run now result (on_existing cfg opts fingerprint now (time_add now (ProcessingTimeout cfg))
      (time_add now (effective_ttl cfg opts)) r) t.
Proof.
  intros Hk Hg Hfp Hlt. rewrite (Execute_keyed opts payload key fingerprint Hk).
  cbn [run answer]. rewrite (Create_known _ _ r) by done. cbn [run answer on_conflict].
  rewrite Hg, Hfp, String.eqb_refl. cbn [negb].
  assert (time_after (ir_ExpiresAt r) now = true) as -> by (apply Z.ltb_lt; lia).
  cbn [negb]. destruct (run _ _ _ _) as [[a e] t']. by rewrite !orb_false_r.
Qed.

(**  Replay: the first request with a key runs the caller's function once;
    until the record expires, repeating the request returns the stored
    response without running anything and without touching the table. *)
Theorem replay_after_success opts payload key fingerprint now1 now2 data body data' other t
    (Hwf : table_wf t) (Hk : keyed opts payload key fingerprint)
    (Hnew : GetByScopeAndKeyHash (opt_Scope opts) (HashIdempotencyKey key) t = None)
    (Hbody : marshalStoredResponse cfg data = Some body)
    (Hdecode : decodeStoredResponse (Some body) = Some data')
    (Hlive : now2 < time_add now1 (effective_ttl cfg opts)) :
  let '(reply1, ran1, t1) := run now1 (inr data) (Execute cfg false false opts payload) t in
  let '(reply2, ran2, t2) := run now2 other (Execute cfg false false opts payload) t1 in
  reply1 = inr (mkExecuteResult data false) ∧ ran1 = true
  ∧ reply2 = inr (mkExecuteResult data' true) ∧ ran2 = false ∧ t2 = t1.
Proof.
  destruct (run_fresh opts payload key fingerprint now1 (inr data) t Hwf Hk Hnew)
    as (r' & -> & [Hexp [Hst Hb]] & Hfp & _ & Hget); [intros ? [= <-]; by eexists|].
  rewrite (run_known opts payload key fingerprint now2 other _ r' Hk Hget Hfp) by (rewrite Hexp; lia).
  unfold on_existing. rewrite Hst. simpl. rewrite Hb, Hbody, Hdecode. done.
Qed.

(**  A key reused with a different payload, route, method or actor is
    refused: the caller's function does not run and the table is unchanged. *)
Theorem conflict_on_other_request opts payload key fingerprint now other t r
    (Hk : keyed opts payload key fingerprint)
    (Hold : GetByScopeAndKeyHash (opt_Scope opts) (HashIdempotencyKey key) t = Some r)
    (Hne : ir_RequestFingerprint r ≠ fingerprint) :
  run now other (Execute cfg false false opts payload) t
  = (inl ErrIdempotencyKeyConflict, false, t).
Proof.
  rewrite (Execute_keyed opts payload key fingerprint Hk).
  cbn [run answer]. rewrite (Create_known _ _ r) by done. cbn [run answer on_conflict].
  rewrite Hold, (proj2 (String.eqb_neq _ _) Hne). done.
Qed.

(**  After a failure the same request is refused with the remaining
    back-off until it has passed, and then runs again on the same row. *)
Theorem retry_after_failure opts payload key fingerprint now1 now2 reason result t
    (Hwf : table_wf t) (Hk : keyed opts payload key fingerprint)
    (Hnew : GetByScopeAndKeyHash (opt_Scope opts) (HashIdempotencyKey key) t = None)
    (Hbody : ∀ data, result = inr data → is_Some (marshalStoredResponse cfg data))
    (Hlive : now2 < time_add now1 (effective_ttl cfg opts)) :
  let '(reply1, ran1, t1) := run now1 (inl reason) (Execute cfg false false opts payload) t in
  let '(reply2, ran2, t2) := run now2 result (Execute cfg false false opts payload) t1 in
  let backoffUntil := time_add now1 (FailedRetryBackoff cfg) in
  reply1 = inl (ErrExecution reason) ∧ ran1 = true
  ∧ if now2 <? backoffUntil
    then reply2 = inl (ErrIdempotencyRetryBackoff (Some (retry_after_seconds backoffUntil now2)))
         ∧ ran2 = false ∧ t2 = t1
    else ran2 = true
         ∧ reply2 = match result with
                    | inl reason => inl (ErrExecution reason)
                    | inr data => inr (mkExecuteResult data false)
                    end
         ∧ tbl_next t2 = tbl_next t1.
Proof.
  destruct (run_fresh opts payload key fingerprint now1 (inl reason) t Hwf Hk Hnew)
    as (r' & -> & [Hexp [Hst Hlock]] & Hfp & Hid & Hget); [done|].
  rewrite (run_known opts payload key fingerprint now2 result _ r' Hk Hget Hfp) by (rewrite Hexp; lia).
  unfold on_existing. rewrite Hst. cbn [String.eqb IdempotencyStatusFailedRetryable
    IdempotencyStatusProcessing IdempotencyStatusSucceeded Ascii.eqb Bool.eqb].
  rewrite Hlock. unfold time_after.
  destruct (now2 <? time_add now1 (FailedRetryBackoff cfg)) eqn:Hback; [done|].
  pose proof (wf_next t Hwf). bool_to_prop. cbn [run answer].
  unfold TryReclaim, update_row. cbn [tbl_rows].
  rewrite Hid, lookup_insert_eq, Hst, Hlock, String.eqb_refl.
  rewrite (proj2 (Z.leb_le _ _)) by lia. cbn [andb].
  match goal with |- context [run now2 result (perform _ _ _ _ _) (mkTable ?m ?n)] =>
    edestruct (run_perform opts fingerprint (tbl_next t) now2 result (mkTable m n))
      as (r2 & -> & _); [lia | apply lookup_insert_eq | done |] end.
  done.
Qed.
End Requests.

(** ** Keys and stored bodies *)

(**  A key is accepted exactly when, without the white space around it, it
    has 1 to 128 bytes, all of them visible ASCII; the accepted key is the
    trimmed one. *)
Theorem normalize_key_spec raw key :
  NormalizeIdempotencyKey raw = inr key ∧ key ≠ ""
  ↔ key = TrimSpace raw ∧ 1 ≤ len key ≤ 128 ∧ Forall (λ b, 33 ≤ b ≤ 126) (bytes key).
Proof.
  unfold NormalizeIdempotencyKey. rewrite <- (runes_ascii 33 126) by lia.
  assert (∀ s, len s = 0 ↔ s = ""%string) as Hlen.
  { intros [|a s]; unfold len; simpl; split; try done; lia. }
  pose proof (Hlen (TrimSpace raw)) as H0.
  assert (0 ≤ len (TrimSpace raw)) by (unfold len; lia).
  destruct (String.eqb (TrimSpace raw) "") eqn:He; bool_to_prop.
  { split; [intros [[= <-] ?]; done|]. intros (-> & Hl & _). tauto || (apply H0 in He; lia). }
  destruct (128 <? len (TrimSpace raw)) eqn:Hl; bool_to_prop.
  { split; [by intros [? _]|]. intros (-> & ? & _). lia. }
  destruct (existsb _ (runes (TrimSpace raw))) eqn:Hr.
  - split; [by intros [? _]|]. intros (-> & _ & Hall). exfalso.
    apply existsb_exists in Hr as (r & Hin & Hr). rewrite Forall_forall in Hall.
    specialize (Hall r (proj2 (list_elem_of_In _ _) Hin)).
    apply orb_true_iff in Hr as [?|?]; bool_to_prop; lia.
  - split; [|intros (-> & _ & _); done]. intros [[= <-] _]. split; [done|]. split.
    + assert (len (TrimSpace raw) ≠ 0) by (by rewrite H0). lia.
    + apply Forall_forall. intros r Hin. rewrite <- not_true_iff_false, existsb_exists in Hr.
      destruct (decide (33 ≤ r ≤ 126)) as [|Hno]; [done|]. exfalso. apply Hr. exists r.
      split; [by apply list_elem_of_In|]. apply orb_true_iff. rewrite !Z.ltb_lt. lia.
Qed.

Lemma slice_to_0 s : slice_to 0 s = ""%string.
Proof. by destruct s. Qed.

Lemma truncate_loop_spec s n :
  (truncate_loop s n ≤ n)%nat ∧ ValidString (slice_to (truncate_loop s n) s) = true
  ∧ ∀ k, (truncate_loop s n < k ≤ n)%nat → ValidString (slice_to k s) = false.
Proof.
  induction n as [|n (IHle & IHv & IHmax)].
  { simpl. rewrite slice_to_0. repeat split; [lia|]. intros. lia. }
  simpl. destruct (ValidString (slice_to (S n) s)) eqn:Hv.
  - repeat split; [lia|done|intros; lia].
  - split; [lia|]. split; [done|]. intros k Hk.
    destruct (decide (k = S n)) as [->|]; [done|]. apply IHmax. lia.
Qed.

(**  [truncateUTF8] cuts an overlong text to its longest prefix of at most
    [maxBytes] bytes that is valid UTF-8: no character is cut in half and no
    longer cut would do. *)
Theorem truncateUTF8_longest s maxBytes
    (Hpos : 0 < maxBytes) (Hlong : maxBytes < len s) :
  ∃ n, truncateUTF8 s maxBytes = slice_to n s ∧ Z.of_nat n ≤ maxBytes
    ∧ ValidString (truncateUTF8 s maxBytes) = true
    ∧ ∀ k, (n < k)%nat → Z.of_nat k ≤ maxBytes → ValidString (slice_to k s) = false.
Proof.
  unfold truncateUTF8. rewrite (proj2 (Z.leb_gt _ _)) by lia. rewrite (proj2 (Z.leb_gt _ _)) by lia.
  simpl. destruct (truncate_loop_spec s (Z.to_nat maxBytes)) as (Hle & Hv & Hmax).
  exists (truncate_loop s (Z.to_nat maxBytes)). split; [done|]. split; [lia|]. split; [done|].
  intros k Hk Hk'. apply Hmax. lia.
Qed.

(** ** Instances *)

(** A codec whose JSON values are strings between quotes. *)
Definition demo_codec : Codec := {|
  Data := string;
  Marshal s := Some (String (byte 34) s +:+ String (byte 34) "");
  Unmarshal s := if HasPrefix s (String (byte 34) "") && HasSuffix s (String (byte 34) "")
                 then Some (String.substring 1 (String.length s - 2) s) else None;
  EmptyObject := "{}"%string;
  RedactText s := s;
  Sha256Hex s := s
|}.

Definition demo_options : ExecuteOptions :=
  mkExecuteOptions "admin.users" "admin:1" "post" "/users" " k-1 " 0 true 0.
Definition demo_table : IdempotencyTable := mkTable ∅ 1.

Lemma demo_table_wf : table_wf demo_table.
Proof. split; [done|intros ??; simpl; by rewrite lookup_empty|intros ????; simpl; by rewrite lookup_empty]. Qed.

Definition demo_fingerprint : string :=
  String.concat (String (byte 10) "") ["POST"; "/users"; "admin:1";
    (String (byte 34) "alice" +:+ String (byte 34) "")]%string.

Lemma demo_keyed : @keyed ascii_case demo_codec demo_options "alice"%string "k-1" demo_fingerprint.
Proof. by split; vm_compute. Qed.

#[local] Existing Instance demo_codec.
#[local] Existing Instance ascii_case.

Definition made : @Data demo_codec := "made"%string.
Definition again : @Data demo_codec := "again"%string.
Definition alice : @Data demo_codec := "alice"%string.
Definition bob : @Data demo_codec := "bob"%string.
Definition demo_cfg : IdempotencyConfig := DefaultIdempotencyConfig.

Lemma replay_after_success_witness :
  let E := Execute demo_cfg false false demo_options alice in
  let '(reply1, ran1, t1) := run 100 (inr made) E demo_table in
  let '(reply2, ran2, t2) := run 200 (inr again) E t1 in
  reply1 = inr (mkExecuteResult made false) ∧ ran1 = true
  ∧ reply2 = inr (mkExecuteResult made true) ∧ ran2 = false ∧ t2 = t1.
Proof.
  apply (@replay_after_success ascii_case demo_codec demo_cfg demo_options alice "k-1"
    demo_fingerprint 100 200 made (String (byte 34) "made" +:+ String (byte 34) "")
    made (inr again) demo_table);
    [apply demo_table_wf | apply demo_keyed | by vm_compute..].
Defined.

Definition demo_used : IdempotencyTable :=
  (run 100 (inr made)
     (Execute demo_cfg false false demo_options bob) demo_table).2.

Lemma conflict_on_other_request_witness :
  run 200 (inr made)
    (Execute demo_cfg false false demo_options alice) demo_used
  = (inl ErrIdempotencyKeyConflict, false, demo_used).
Proof.
  eapply (@conflict_on_other_request ascii_case demo_codec demo_cfg demo_options alice
    "k-1" demo_fingerprint 200); [apply demo_keyed | by vm_compute | by vm_compute].
Defined.

Lemma retry_after_failure_witness :
  let E := Execute demo_cfg false false demo_options alice in
  let '(reply1, ran1, t1) := run 100 (inl "UPSTREAM"%string) E demo_table in
  let '(reply2, ran2, t2) := run (100 + 5 * Second) (inr made) E t1 in
  reply1 = inl (ErrExecution "UPSTREAM") ∧ ran1 = true
  ∧ ran2 = true ∧ reply2 = inr (mkExecuteResult made false)
  ∧ tbl_next t2 = tbl_next t1.
Proof.
  apply (@retry_after_failure ascii_case demo_codec demo_cfg demo_options alice "k-1"
    demo_fingerprint 100 (100 + 5 * Second) "UPSTREAM" (inr made) demo_table);
    [apply demo_table_wf | apply demo_keyed | done | intros ? [= <-]; vm_compute; by eexists | by vm_compute].
Defined.

(** "aé" cut at two bytes loses the whole second character. *)
Definition demo_text : string := of_bytes [97; 195; 169].

Lemma truncateUTF8_longest_witness :
  ∃ n, truncateUTF8 demo_text 2 = slice_to n demo_text ∧ Z.of_nat n ≤ 2
    ∧ ValidString (truncateUTF8 demo_text 2) = true
    ∧ ∀ k, (n < k)%nat → Z.of_nat k ≤ 2 → ValidString (slice_to k demo_text) = false.
Proof. apply truncateUTF8_longest; by vm_compute. Defined.
