(* ===== verification/IdempotencyConcurrency.v ===== *)
(** * Idempotent execution under interleaving

    Any number of requests run [Execute] at the same time on one table.  A step
    of the system is one call of one request, answered by the table (or by an
    error, with or without the effect of the statement), one renewal by a
    request's goroutine, the crash of a request, a clean-up of expired rows, or
    the passing of time.

    [one_execution_per_key]: once a key is new, and as long as its lifetime
    lasts, no two requests execute under it at the same time, and none executes
    after one has succeeded.  [expired_reclaim_runs_twice] shows that the
    hypothesis on the lifetime matters: two requests that meet an expired row
    can both execute, one of them after the other has succeeded. *)

From Stdlib Require Import ZArith Lia String.
From stdpp Require Import base tactics numbers list gmap strings relations.
From S2P Require Import Prelude GoStrings Idempotency.

Open Scope Z_scope.

Section System.
Context `{UnicodeCase} `{Codec} (cfg : IdempotencyConfig).

Record request := mkRequest {
  rq_opts : ExecuteOptions;
  rq_prog : prog reply;
  rq_renewal : option (Z * string * Z * Z)   (* row, fingerprint, lease, ttl *)
}.

Record system := mkSystem {
  sys_clock : Z;
  sys_table : IdempotencyTable;
  sys_requests : gmap nat request
}.

(** The answers a call may get at instant [now]. *)
Definition may_answer (now : Z) {X} (o : op X) (t : IdempotencyTable) (x : X)
    (t' : IdempotencyTable) : Prop :=
  match o in op X return X → Prop with
  | OpNow => λ x, x = now ∧ t' = t
  | OpCreate record => λ x,
      (x = Some (CreateProcessing now record t).1 ∧ t' = (CreateProcessing now record t).2)
      ∨ (x = None ∧ (t' = t ∨ t' = (CreateProcessing now record t).2))
  | OpGet scope keyHash => λ x,
      (x = Some (GetByScopeAndKeyHash scope keyHash t) ∨ x = None) ∧ t' = t
  | OpReclaim id from n l e => λ x,
      (x = Some (TryReclaim id from n l e now t).1 ∧ t' = (TryReclaim id from n l e now t).2)
      ∨ (x = None ∧ (t' = t ∨ t' = (TryReclaim id from n l e now t).2))
  | OpSucceeded id st body e => λ x,
      (x = Some () ∧ t' = MarkSucceeded id st body e now t)
      ∨ (x = None ∧ (t' = t ∨ t' = MarkSucceeded id st body e now t))
  | OpFailed id reason l e => λ x,
      (x = Some () ∧ t' = MarkFailedRetryable id reason l e now t)
      ∨ (x = None ∧ (t' = t ∨ t' = MarkFailedRetryable id reason l e now t))
  | OpRenew _ _ _ _ => λ _, t' = t
  | OpExec => λ _, t' = t
  end x.

Definition after_call {X} (o : op X) (rq : request) (p : prog reply) : request :=
  mkRequest (rq_opts rq) p
    match o with
    | OpRenew id fingerprint lease ttl => Some (id, fingerprint, lease, ttl)
    | _ => rq_renewal rq
    end.

(** [admitted opts]: the requests that are considered. *)
Inductive step (admitted : ExecuteOptions → Prop) (s : system) : system → Prop :=
| step_start pid opts payload :
    sys_requests s !! pid = None → admitted opts →
    step admitted s (mkSystem (sys_clock s) (sys_table s)
      (<[pid := mkRequest opts (Execute cfg false false opts payload) None]> (sys_requests s)))
| step_call pid rq {X} (o : op X) k x t' :
    sys_requests s !! pid = Some rq → rq_prog rq = Do o k →
    may_answer (sys_clock s) o (sys_table s) x t' →
    step admitted s (mkSystem (sys_clock s) t'
      (<[pid := after_call o rq (k x)]> (sys_requests s)))
| step_renew pid rq id fingerprint lease ttl :
    sys_requests s !! pid = Some rq → rq_renewal rq = Some (id, fingerprint, lease, ttl) →
    step admitted s (mkSystem (sys_clock s)
      (ExtendProcessingLock id fingerprint (time_add (sys_clock s) lease)
         (time_add (sys_clock s) ttl) (sys_clock s) (sys_table s)).2 (sys_requests s))
| step_crash pid :
    step admitted s (mkSystem (sys_clock s) (sys_table s) (delete pid (sys_requests s)))
| step_clean now limit :
    now ≤ sys_clock s →
    step admitted s (mkSystem (sys_clock s) (DeleteExpired now limit (sys_table s)).2
      (sys_requests s))
| step_time d :
    0 ≤ d → step admitted s (mkSystem (sys_clock s + d) (sys_table s) (sys_requests s)).

(** A request is executing when its next event is the end of the caller's
    function. *)
Definition executing (s : system) (key : string * string) (pid : nat) : Prop :=
  ∃ rq k, sys_requests s !! pid = Some rq ∧ request_key (rq_opts rq) = Some key
    ∧ rq_prog rq = Do OpExec k.

Definition row_for (s : system) (key : string * string) (r : IdempotencyRecord) : Prop :=
  tbl_rows (sys_table s) !! ir_ID r = Some r ∧ row_key r = key.

(** ** The discipline of a program

    [disciplined F lo hi K known held p]: program [p], which may mention the
    rows in [known] and holds the claim on row [held], touches only rows of key
    [K], claims at most one row at a time and executes only while it holds one.
    Under [F] the clock stays in [lo, hi) and the rows of the key live until
    [hi] at least. *)
Fixpoint disciplined (F : Prop) (lo hi : Z) (K : option (string * string)) (known : list Z)
    (held : option Z) (p : prog reply) : Prop :=
  match p with
  | Ret _ => True
  | @Do _ _ X o k =>
      match o in op X return (list Z → option Z → X → Prop) → Prop with
      | OpNow => λ D, ∀ n, (F → lo ≤ n < hi) → D known held n
      | OpCreate r => λ D,
          held = None ∧ K = Some (row_key r) ∧ ir_Status r = IdempotencyStatusProcessing
          ∧ (F → hi ≤ ir_ExpiresAt r)
          ∧ (∀ id, D (id :: known) (Some id) (Some (Some id)))
          ∧ D known None (Some None) ∧ D known None None
      | OpGet scope kh => λ D,
          K = Some (scope, kh) ∧ D known held None ∧ D known held (Some None)
          ∧ ∀ r, (F → hi ≤ ir_ExpiresAt r) → D (ir_ID r :: known) held (Some (Some r))
      | OpReclaim id from _ _ e => λ D,
          held = None ∧ id ∈ known ∧ (F → from = IdempotencyStatusFailedRetryable)
          ∧ (F → hi ≤ e)
          ∧ D known (Some id) (Some true) ∧ D known None (Some false) ∧ D known None None
      | OpSucceeded id _ _ e => λ D, held = Some id ∧ (F → hi ≤ e) ∧ ∀ x, D known None x
      | OpFailed id _ _ e => λ D, held = Some id ∧ (F → hi ≤ e) ∧ ∀ x, D known None x
      | OpRenew id _ _ ttl => λ D, held = Some id ∧ (F → hi ≤ lo + ttl) ∧ D known held ()
      | OpExec => λ D, (K = None ∨ is_Some held) ∧ ∀ x, D known held x
      end (λ known held x, disciplined F lo hi K known held (k x))
  end.

Lemma disciplined_unfocused F F' lo hi lo' hi' K known held p :
  ¬ F → ¬ F' → disciplined F lo hi K known held p → disciplined F' lo' hi' K known held p.
Proof.
  intros HF HF'. revert known held. induction p as [|X o k IH]; intros known held; [done|].
  destruct o; simpl; naive_solver.
Qed.

Lemma perform_disciplined F lo hi K known opts fingerprint id expiresAt :
  (F → hi ≤ lo + effective_ttl cfg opts) → (F → hi ≤ expiresAt) →
  disciplined F lo hi K known (Some id) (perform cfg opts fingerprint id expiresAt).
Proof.
  intros Hw He. unfold perform. case_match; [done|].
  assert (∀ e result, (F → hi ≤ e) →
    disciplined F lo hi K known (Some id) (store_result cfg id e result)) as Hstore.
  { intros e [reason|data] Hle; simpl.
    - intros n Hn. split; [done|]. by split.
    - case_match; simpl; [|done]. split; [done|]. split; [done|]. intros x. by case_match. }
  case_match; simpl.
  - split; [done|]. split; [done|]. split; [right; by eexists|]. intros result n Hn.
    apply Hstore. intros HF. specialize (Hn HF). specialize (Hw HF). unfold time_add. lia.
  - split; [right; by eexists|]. intros result. by apply Hstore.
Qed.

Lemma on_existing_disciplined F lo hi K known opts fingerprint now l e r :
  (F → hi ≤ lo + effective_ttl cfg opts) → (F → hi ≤ e) → ir_ID r ∈ known →
  disciplined F lo hi K known None (on_existing cfg opts fingerprint now l e r).
Proof.
  intros Hw He Hin. unfold on_existing.
  repeat (case_match; try done); simpl; repeat (split; [done|]);
    (split; [by apply perform_disciplined|done]).
Qed.

Lemma Execute_disciplined F lo hi opts payload :
  (F → hi ≤ lo + effective_ttl cfg opts) →
  disciplined F lo hi (request_key opts) [] None (Execute cfg false false opts payload).
Proof.
  intros Hw. unfold Execute, request_key.
  destruct (NormalizeIdempotencyKey _) as [e|key]; [done|].
  destruct (String.eqb key "") eqn:He.
  { case_match; [done|]. simpl. split; [by left|]. intros x. by case_match. }
  case_match; [done|]. destruct (BuildIdempotencyFingerprint _ _ _ _) as [|fp]; [done|].
  simpl. intros now Hnow.
  assert (F → hi ≤ time_add now (effective_ttl cfg opts)) as Hexp.
  { intros HF. specialize (Hnow HF). specialize (Hw HF). unfold time_add. lia. }
  split; [done|]. split; [done|]. split; [done|]. split; [done|].
  split; [intros id; by apply perform_disciplined|]. split; [|done].
  unfold on_conflict. simpl. split; [done|]. split; [done|]. split; [done|]. intros r Hr.
  case_match; [done|]. destruct (time_after _ _) eqn:Ha; simpl.
  - apply on_existing_disciplined; [done..|]. set_solver.
  - unfold time_after in Ha. bool_to_prop.
    split; [done|]. split; [set_solver|].
    split; [intros HF; specialize (Hr HF); specialize (Hnow HF); lia|].
    split; [done|]. split; [by apply perform_disciplined|].
    split; [|done]. split; [done|]. split; [done|]. split; [done|]. intros r' Hr'.
    case_match; [done|]. apply on_existing_disciplined; [done..|]. set_solver.
Qed.

(** ** What a statement does to the row of one key *)

Definition get (key : string * string) (t : IdempotencyTable) : option IdempotencyRecord :=
  GetByScopeAndKeyHash key.1 key.2 t.

Lemma get_Some key t r :
  table_wf t → get key t = Some r ↔ tbl_rows t !! ir_ID r = Some r ∧ row_key r = key.
Proof. intros Hwf. unfold get. rewrite GetByScopeAndKeyHash_Some by done. by destruct key. Qed.

Lemma get_eq key t o :
  table_wf t →
  (∀ r, o = Some r → tbl_rows t !! ir_ID r = Some r ∧ row_key r = key) →
  (o = None → ∀ id r, tbl_rows t !! id = Some r → row_key r ≠ key) →
  get key t = o.
Proof.
  intros Hwf Hs Hn. destruct o as [r|]; [by apply get_Some; auto|].
  destruct (get key t) as [r|] eqn:Hg; [|done]. apply get_Some in Hg as [Hr Hk]; [|done].
  by destruct (Hn eq_refl _ _ Hr).
Qed.

Lemma get_update id cond set t key :
  table_wf t → keeps_identity set →
  get key (update_row id cond set t).2
  = match get key t with
    | Some r => if (ir_ID r =? id) && cond r then Some (set r) else Some r
    | None => None
    end.
Proof.
  intros Hwf Hset. pose proof (update_row_wf id cond set t Hset Hwf) as Hwf'.
  apply get_eq; [done|..].
  - intros r. destruct (get key t) as [r0|] eqn:Hg; [|done].
    apply get_Some in Hg as [Hr0 Hk]; [|done]. destruct (Hset r0) as [Hi Hrk].
    unfold update_row. destruct (ir_ID r0 =? id) eqn:He; simpl; bool_to_prop.
    + subst id. rewrite Hr0. destruct (cond r0); intros [= <-]; simpl; [|done].
      rewrite Hi, lookup_insert_eq. by rewrite Hrk.
    + intros [= <-]. repeat case_match; simpl; try done. by rewrite lookup_insert_ne.
  - destruct (get key t) as [r0|] eqn:Hg; [by case_match|]. intros _ j r.
    pose proof (proj1 (GetByScopeAndKeyHash_None _ _ _ Hwf) Hg) as Hnone.
    unfold update_row. destruct (tbl_rows t !! id) as [x|] eqn:Hx; [|destruct key; apply Hnone].
    destruct (cond x); [|destruct key; apply Hnone]. simpl.
    rewrite lookup_insert. case_decide; [|destruct key; apply Hnone].
    intros [= <-]. rewrite (proj2 (Hset x)). destruct key. by eapply Hnone.
Qed.

Lemma get_create now r t :
  table_wf t →
  match get (row_key r) t with
  | Some _ => CreateProcessing now r t = (None, t)
  | None => ∃ row, (CreateProcessing now r t).1 = Some (tbl_next t)
      ∧ tbl_next (CreateProcessing now r t).2 = tbl_next t + 1
      ∧ tbl_rows (CreateProcessing now r t).2 = <[tbl_next t := row]> (tbl_rows t)
      ∧ ir_ID row = tbl_next t ∧ row_key row = row_key r ∧ ir_Status row = ir_Status r
      ∧ ir_ExpiresAt row = ir_ExpiresAt r
      ∧ ∀ key, get key (CreateProcessing now r t).2
               = if decide (key = row_key r) then Some row else get key t
  end.
Proof.
  intros Hwf. unfold get at 1. simpl. destruct (GetByScopeAndKeyHash _ _ t) as [r0|] eqn:Hg.
  { by eapply Create_known. }
  pose proof (CreateProcessing_wf now r t Hwf) as Hwf'.
  destruct (CreateProcessing_fresh now r t Hg) as (row & Hc & Hid & Hk & _ & Hst & Hexp & _).
  rewrite Hc in *. exists row. simpl in *. repeat (split; [done|]). intros key.
  apply get_eq; [done|..]; simpl.
  - intros r1. case_decide as Hd.
    + intros [= <-]. rewrite Hid, lookup_insert_eq. by rewrite Hk.
    + intros [Hr1 Hk1]%get_Some; [|done]. split; [|done].
      rewrite lookup_insert_ne; [done|]. pose proof (wf_id t Hwf _ _ Hr1). lia.
  - case_decide as Hd; [done|]. intros Hn j r1. rewrite lookup_insert.
    case_decide; [intros [= <-]; congruence|]. intros Hj Hkey.
    pose proof (proj1 (GetByScopeAndKeyHash_None _ _ _ Hwf) Hn _ _ Hj). by destruct key.
Qed.

Lemma get_delete now limit t key :
  table_wf t → (∀ r, get key t = Some r → now < ir_ExpiresAt r) →
  get key (DeleteExpired now limit t).2 = get key t.
Proof.
  intros Hwf Hlive. pose proof (DeleteExpired_wf now limit t Hwf). apply get_eq; [done|..].
  - intros r Hg. pose proof (Hlive r Hg). apply get_Some in Hg as [Hr Hk]; [|done].
    split; [by apply DeleteExpired_keeps|done].
  - intros Hn j r [_ Hj]%foldr_delete_lookup.
    pose proof (proj1 (GetByScopeAndKeyHash_None _ _ _ Hwf) Hn _ _ Hj). by destruct key.
Qed.

(** ** The invariant

    [focus] is the key under study, if any; its row lives until [hi]. *)
Context (focus : option (string * string)) (lo hi : Z).

Definition focused (K : option (string * string)) : Prop := is_Some focus ∧ K = focus.

Definition focus_row (t : IdempotencyTable) : option IdempotencyRecord := key ← focus; get key t.

(** Row [id] belongs to a request of key [K]. *)
Record id_ok (t : IdempotencyTable) (K : option (string * string)) (id : Z) : Prop := {
  id_ok_next : id < tbl_next t;
  id_ok_key : ∀ r, tbl_rows t !! id = Some r → K = Some (row_key r);
  id_ok_focus : focused K → ∃ r, focus_row t = Some r ∧ ir_ID r = id
}.

Definition request_ok (t : IdempotencyTable) (holder : option nat) (pid : nat) (rq : request)
    : Prop :=
  let K := request_key (rq_opts rq) in
  ∃ known held, disciplined (focused K) lo hi K known held (rq_prog rq)
    ∧ (∀ id, id ∈ known → id_ok t K id)
    ∧ (∀ id, held = Some id → id_ok t K id)
    ∧ (focused K → is_Some held → holder = Some pid)
    ∧ (∀ id fp l ttl, rq_renewal rq = Some (id, fp, l, ttl) →
         id_ok t K id ∧ (focused K → hi ≤ lo + ttl)).

Definition holder_ok (t : IdempotencyTable) (holder : option nat) : Prop :=
  ∀ pid, holder = Some pid →
    ∃ r, focus_row t = Some r ∧ ir_Status r = IdempotencyStatusProcessing.

Definition live_ok (t : IdempotencyTable) : Prop :=
  ∀ r, focus_row t = Some r → hi ≤ ir_ExpiresAt r.

Record inv (s : system) : Prop := {
  inv_wf : table_wf (sys_table s);
  inv_clock : is_Some focus → lo ≤ sys_clock s;
  inv_live : live_ok (sys_table s);
  inv_requests : ∃ holder, holder_ok (sys_table s) holder
    ∧ ∀ pid rq, sys_requests s !! pid = Some rq → request_ok (sys_table s) holder pid rq
}.

(** How tables may change under the feet of a request. *)
Record evolves (t t' : IdempotencyTable) : Prop := {
  evolves_next : tbl_next t ≤ tbl_next t';
  evolves_rows : ∀ id r', tbl_rows t' !! id = Some r' → id < tbl_next t →
    ∃ r, tbl_rows t !! id = Some r ∧ row_key r' = row_key r;
  evolves_focus : ∀ r, focus_row t = Some r → ∃ r', focus_row t' = Some r' ∧ ir_ID r' = ir_ID r
}.

#[local] Instance evolves_refl : Reflexive evolves.
Proof. intros t. split; [lia|eauto|eauto]. Qed.

Lemma id_ok_evolves t t' K id : evolves t t' → id_ok t K id → id_ok t' K id.
Proof.
  intros [Hn Hr Hf] [Hlt Hk Hfo]. split; [lia|..].
  - intros r' Hr'. destruct (Hr id r' Hr' Hlt) as (r & Hr0 & ->). by apply Hk.
  - intros HF. destruct (Hfo HF) as (r & Hg & <-). by apply Hf.
Qed.

Lemma request_ok_evolves t t' holder holder' pid rq :
  evolves t t' → (holder = Some pid → holder' = Some pid) →
  request_ok t holder pid rq → request_ok t' holder' pid rq.
Proof.
  intros Hev Hh (known & held & Hd & Hkn & Hhe & Hho & Hre). exists known, held.
  split; [done|]. split; [eauto using id_ok_evolves|]. split; [eauto using id_ok_evolves|].
  split; [eauto|]. intros id fp l ttl Hr. destruct (Hre _ _ _ _ Hr).
  eauto using id_ok_evolves.
Qed.

(** One request moves, the table evolves. *)
Lemma inv_move s t' holder holder' pid rq rq' :
  inv s → sys_requests s !! pid = Some rq →
  (∀ pid rq, sys_requests s !! pid = Some rq → request_ok (sys_table s) holder pid rq) →
  table_wf t' → live_ok t' → evolves (sys_table s) t' → holder_ok t' holder' →
  (∀ pid', pid' ≠ pid → holder = Some pid' → holder' = Some pid') →
  request_ok t' holder' pid rq' →
  inv (mkSystem (sys_clock s) t' (<[pid := rq']> (sys_requests s))).
Proof.
  intros Hinv Hrq Hall Hwf Hlive Hev Hho Hoth Hnew. split; simpl; [done|by apply inv_clock|done|].
  exists holder'. split; [done|]. intros pid' rq0. rewrite lookup_insert. case_decide as Hd.
  - intros [= <-]. by subst.
  - intros Hrq0. eapply request_ok_evolves; [done| |by apply Hall]. intros. by apply Hoth.
Qed.

Lemma focus_row_wf t r : table_wf t → focus_row t = Some r → tbl_rows t !! ir_ID r = Some r ∧ focus = Some (row_key r).
Proof.
  intros Hwf. unfold focus_row. destruct focus as [key|]; simpl; [|done].
  intros [Hr Hk]%get_Some; [|done]. by rewrite Hk.
Qed.

Lemma focus_row_update t id cond set :
  table_wf t → keeps_identity set →
  focus_row (update_row id cond set t).2
  = match focus_row t with
    | Some r => if (ir_ID r =? id) && cond r then Some (set r) else Some r
    | None => None
    end.
Proof.
  intros Hwf Hset. unfold focus_row. destruct focus as [key|]; simpl; [|done].
  by apply get_update.
Qed.

Lemma update_evolves t id cond set :
  table_wf t → keeps_identity set → evolves t (update_row id cond set t).2.
Proof.
  intros Hwf Hset. split.
  - unfold update_row. by repeat case_match.
  - intros j r'. unfold update_row. destruct (tbl_rows t !! id) as [r|] eqn:Hr; [|eauto].
    destruct (cond r); simpl; [|eauto]. rewrite lookup_insert. case_decide as Hd; [|eauto].
    intros [= <-] _. subst. exists r. split; [done|]. apply Hset.
  - intros r Hr. rewrite focus_row_update, Hr by done. destruct (Hset r) as [Hi _].
    case_match; eauto.
Qed.

(** An update by a request of another key leaves the focus alone; one by a
    request of the key hits exactly its row. *)
Lemma update_unfocused t K id cond set :
  table_wf t → keeps_identity set → id_ok t K id → ¬ focused K →
  focus_row (update_row id cond set t).2 = focus_row t.
Proof.
  intros Hwf Hset Hid HF. rewrite focus_row_update by done.
  destruct (focus_row t) as [r|] eqn:Hr; [|done]. destruct (focus_row_wf _ _ Hwf Hr) as [Hr' Hk].
  destruct (ir_ID r =? id) eqn:He; [|done]. bool_to_prop. exfalso. apply HF.
  split; [by eexists|]. rewrite Hk. apply (id_ok_key _ _ _ Hid). by rewrite <- He.
Qed.

Lemma update_focused t K id cond set :
  table_wf t → keeps_identity set → id_ok t K id → focused K →
  ∃ r, focus_row t = Some r ∧ ir_ID r = id
    ∧ (update_row id cond set t).1 = cond r
    ∧ focus_row (update_row id cond set t).2 = Some (if cond r then set r else r).
Proof.
  intros Hwf Hset Hid HF. destruct (id_ok_focus _ _ _ Hid HF) as (r & Hr & Hi).
  exists r. split; [done|]. split; [done|].
  destruct (focus_row_wf _ _ Hwf Hr) as [Hr' _]. split.
  - unfold update_row. rewrite <- Hi, Hr'. by destruct (cond r).
  - rewrite focus_row_update, Hr by done. rewrite (proj2 (Z.eqb_eq _ _) Hi). simpl. by destruct (cond r).
Qed.

#[local] Instance focused_dec K : Decision (focused K).
Proof. unfold focused. apply _. Defined.

Lemma update_live t K id cond set :
  table_wf t → keeps_identity set → id_ok t K id → live_ok t →
  (focused K → ∀ r, hi ≤ ir_ExpiresAt (set r)) → live_ok (update_row id cond set t).2.
Proof.
  intros Hwf Hset Hid Hlive Hexp r. destruct (decide (focused K)) as [HF|HF].
  - destruct (update_focused t K id cond set Hwf Hset Hid HF) as (r0 & Hr0 & _ & _ & ->).
    intros [= <-]. case_match; [by apply Hexp|by apply Hlive].
  - rewrite (update_unfocused t K id cond set) by done. apply Hlive.
Qed.

(** An update that keeps the status keeps the holder. *)
Lemma update_holder t K id cond set holder :
  table_wf t → keeps_identity set → id_ok t K id → holder_ok t holder →
  (focused K → ∀ r, cond r = true → ir_Status r = IdempotencyStatusProcessing →
     ir_Status (set r) = IdempotencyStatusProcessing) →
  holder_ok (update_row id cond set t).2 holder.
Proof.
  intros Hwf Hset Hid Hho Hst pid Hp. destruct (Hho pid Hp) as (r & Hr & Hs).
  destruct (decide (focused K)) as [HF|HF].
  - destruct (update_focused t K id cond set Hwf Hset Hid HF) as (r0 & Hr0 & _ & _ & ->).
    rewrite Hr in Hr0. injection Hr0 as <-. eexists. split; [done|].
    destruct (cond r) eqn:Hc; [by apply Hst|done].
  - rewrite (update_unfocused t K id cond set) by done. eauto.
Qed.

(** A request that has just taken, or never had, the claim. *)
Lemma holder_none t K holder :
  holder_ok t holder → focused K →
  (∀ r, focus_row t = Some r → ir_Status r ≠ IdempotencyStatusProcessing) → holder = None.
Proof.
  intros Hho HF Hst. destruct holder as [pid|]; [|done].
  destruct (Hho pid eq_refl) as (r & Hr & Hs). by destruct (Hst r Hr).
Qed.

Record created (t : IdempotencyTable) (K : option (string * string)) (t' : IdempotencyTable)
    : Prop := {
  created_wf : table_wf t';
  created_evolves : evolves t t';
  created_live : live_ok t → live_ok t';
  created_focused : focused K → focus_row t = None
    ∧ ∃ row, focus_row t' = Some row ∧ ir_Status row = IdempotencyStatusProcessing;
  created_unfocused : ¬ focused K → focus_row t' = focus_row t;
  created_id : id_ok t' K (tbl_next t)
}.

Lemma create_created now r t :
  table_wf t → ir_Status r = IdempotencyStatusProcessing →
  (focused (Some (row_key r)) → hi ≤ ir_ExpiresAt r) → get (row_key r) t = None →
  created t (Some (row_key r)) (CreateProcessing now r t).2.
Proof.
  intros Hwf Hst Hexp Hnone.
  pose proof (CreateProcessing_wf now r t Hwf) as Hwf'.
  pose proof (get_create now r t Hwf) as Hc. rewrite Hnone in Hc.
  destruct Hc as (row & _ & Hnext & Hrows & Hid & Hk & Hs & He & Hget).
  assert (∀ key, focus = Some key → focus_row (CreateProcessing now r t).2
    = if decide (key = row_key r) then Some row else focus_row t) as Hf.
  { intros key Hkey. unfold focus_row. rewrite Hkey. simpl. by rewrite Hget. }
  split; [done|..].
  - split; [lia|..].
    + intros j r'. rewrite Hrows, lookup_insert. case_decide; [lia|eauto].
    + intros r0 Hr0. destruct focus as [key|] eqn:Hfo;
        [|unfold focus_row in Hr0; by rewrite Hfo in Hr0].
      rewrite (Hf key eq_refl). case_decide as Hd; [|eauto]. subst.
      unfold focus_row in Hr0. rewrite Hfo in Hr0. simpl in Hr0. congruence.
  - intros Hlive r0. destruct focus as [key|] eqn:Hfo;
      [|unfold focus_row; by rewrite Hfo].
    rewrite (Hf key eq_refl). case_decide as Hd; [|apply Hlive].
    intros [= <-]. rewrite He. apply Hexp. unfold focused. rewrite Hfo. by rewrite Hd.
  - intros [_ HF]. rewrite (Hf (row_key r)), decide_True by done.
    unfold focus_row. rewrite <- HF. split; [done|]. exists row. by rewrite Hs.
  - intros HF. destruct focus as [key|] eqn:Hfo; [|unfold focus_row; by rewrite Hfo].
    rewrite (Hf key eq_refl). rewrite decide_False; [done|]. intros ->. apply HF.
    unfold focused. by rewrite Hfo.
  - split; [lia|..].
    + intros r0. rewrite Hrows, lookup_insert_eq. intros [= <-]. by rewrite Hk.
    + intros [_ HF]. rewrite (Hf (row_key r)), decide_True by done. eauto.
Qed.

(** ** One call *)

Section Call.
Context (s : system) (pid : nat) (rq : request) (holder : option nat).
Hypothesis Hinv : inv s.
Hypothesis Hrq : sys_requests s !! pid = Some rq.
Hypothesis Hho : holder_ok (sys_table s) holder.
Hypothesis Hall : ∀ pid rq, sys_requests s !! pid = Some rq →
  request_ok (sys_table s) holder pid rq.
Context (known : list Z) (held : option Z).
Let K := request_key (rq_opts rq).
Let t := sys_table s.
Hypothesis Hknown : ∀ id, id ∈ known → id_ok t K id.
Hypothesis Hheld : ∀ id, held = Some id → id_ok t K id.
Hypothesis Hholds : focused K → is_Some held → holder = Some pid.
Hypothesis Hrenew : ∀ id fp l ttl, rq_renewal rq = Some (id, fp, l, ttl) →
  id_ok t K id ∧ (focused K → hi ≤ lo + ttl).

(** The table is untouched and so is the claim. *)
Lemma call_pure known' rq' :
  rq_opts rq' = rq_opts rq →
  (∀ id fp l ttl, rq_renewal rq' = Some (id, fp, l, ttl) →
     id_ok t K id ∧ (focused K → hi ≤ lo + ttl)) →
  (∀ id, id ∈ known' → id_ok t K id) →
  disciplined (focused K) lo hi K known' held (rq_prog rq') →
  inv (mkSystem (sys_clock s) (sys_table s) (<[pid := rq']> (sys_requests s))).
Proof using Hinv Hrq Hho Hall Hheld Hholds.
  intros Ho Hr Hk Hd.
  apply (inv_move s _ holder holder pid rq); [done|done|done|by apply inv_wf|by apply inv_live
    |reflexivity|done|done|].
  unfold request_ok. rewrite Ho. exists known', held. done.
Qed.

Lemma call_changed t' holder' known' held' rq' :
  rq_opts rq' = rq_opts rq → rq_renewal rq' = rq_renewal rq →
  table_wf t' → live_ok t' → evolves t t' → holder_ok t' holder' →
  (∀ pid', pid' ≠ pid → holder = Some pid' → holder' = Some pid') →
  (∀ id, id ∈ known' → id_ok t' K id) →
  (∀ id, held' = Some id → id_ok t' K id) →
  (focused K → is_Some held' → holder' = Some pid) →
  disciplined (focused K) lo hi K known' held' (rq_prog rq') →
  inv (mkSystem (sys_clock s) t' (<[pid := rq']> (sys_requests s))).
Proof using Hinv Hrq Hall Hrenew.
  intros Ho Hr Hwf Hlive Hev Hho' Hoth Hk Hh Hhd Hd.
  apply (inv_move s t' holder holder' pid rq); try done.
  unfold request_ok. rewrite Ho, Hr. exists known', held'. split; [done|]. split; [done|].
  split; [done|]. split; [done|]. intros id fp l ttl Hrn.
  destruct (Hrenew _ _ _ _ Hrn). split; [by eapply id_ok_evolves|done].
Qed.

(** A claim taken by inserting the row, seen by the caller or not. *)
Lemma call_create t' known' held' rq' :
  rq_opts rq' = rq_opts rq → rq_renewal rq' = rq_renewal rq → held = None →
  created t K t' →
  (known' = known ∧ held' = None ∨ known' = tbl_next t :: known ∧ held' = Some (tbl_next t)) →
  disciplined (focused K) lo hi K known' held' (rq_prog rq') →
  inv (mkSystem (sys_clock s) t' (<[pid := rq']> (sys_requests s))).
Proof using Hinv Hrq Hho Hall Hknown Hrenew Hheld Hholds.
  intros Ho Hr Hnone [Hwf Hev Hlive Hfo Hun Hid] Hkh Hd.
  assert (∀ id, id ∈ known → id_ok t' K id) as Hk by eauto using id_ok_evolves.
  destruct (decide (focused K)) as [HF|HF].
  - destruct (Hfo HF) as (Hg & row & Hrow & Hst).
    assert (holder = None) as Hhn by (eapply holder_none; [done..|]; fold t; by rewrite Hg).
    apply call_changed with (known' := known') (held' := held') (holder' := Some pid); try done.
    + by apply Hlive, inv_live.
    + intros pid' _. eauto.
    + by rewrite Hhn.
    + destruct Hkh as [[-> ->]|[-> ->]]; [done|]. set_solver.
    + destruct Hkh as [[-> ->]|[-> ->]]; [done|]. by intros id [= <-].
  - apply call_changed with (known' := known') (held' := held') (holder' := holder); try done.
    + by apply Hlive, inv_live.
    + intros pid' Hp. rewrite (Hun HF). by apply (Hho pid').
    + destruct Hkh as [[-> ->]|[-> ->]]; [done|]. set_solver.
    + destruct Hkh as [[-> ->]|[-> ->]]; [done|]. by intros id [= <-].
Qed.

(** A reclaim that changed the row, seen by the caller or not. *)
Lemma call_reclaim id from n l e stamp held' rq' :
  rq_opts rq' = rq_opts rq → rq_renewal rq' = rq_renewal rq → held = None → id ∈ known →
  (focused K → from = IdempotencyStatusFailedRetryable) → (focused K → hi ≤ e) →
  (held' = None ∨ held' = Some id) →
  (TryReclaim id from n l e stamp t).1 = true →
  disciplined (focused K) lo hi K known held' (rq_prog rq') →
  inv (mkSystem (sys_clock s) (TryReclaim id from n l e stamp t).2
    (<[pid := rq']> (sys_requests s))).
Proof using Hinv Hrq Hho Hall Hknown Hrenew Hheld Hholds.
  intros Ho Hr Hnone Hin Hfrom Hexp Hh Hok Hd. unfold TryReclaim in *.
  match goal with |- context [update_row id ?c ?f t] => set (cond := c) in *; set (set' := f) in * end.
  assert (keeps_identity set') as Hset by done. pose proof (inv_wf s Hinv) as Hwf. fold t in Hwf.
  pose proof (Hknown id Hin) as Hid.
  assert (evolves t (update_row id cond set' t).2) as Hev by by apply update_evolves.
  assert (∀ i, i ∈ known → id_ok (update_row id cond set' t).2 K i) as Hk
    by eauto using id_ok_evolves.
  destruct (decide (focused K)) as [HF|HF].
  - destruct (update_focused t K id cond set' Hwf Hset Hid HF) as (r & Hg & _ & Hc & Hg').
    rewrite Hok in Hc. rewrite <- Hc in Hg'.
    assert (holder = None) as Hhn.
    { eapply holder_none; [done..|]. fold t. rewrite Hg. intros ? [= <-].
      symmetry in Hc. apply andb_true_iff in Hc as [Hc _]. apply String.eqb_eq in Hc.
      rewrite Hc, (Hfrom HF). done. }
    apply call_changed with (known' := known) (held' := held') (holder' := Some pid); try done.
    + by apply update_row_wf.
    + apply (update_live t K); try done; [by apply inv_live|]. intros _ r'. by apply Hexp.
    + intros pid' _. eauto.
    + by rewrite Hhn.
    + destruct Hh as [->| ->]; [done|]. intros ? [= <-]. by apply Hk.
  - apply call_changed with (known' := known) (held' := held') (holder' := holder); try done.
    + by apply update_row_wf.
    + apply (update_live t K); try done. by apply inv_live.
    + intros pid' Hp. rewrite (update_unfocused t K) by done. by apply (Hho pid').
    + destruct Hh as [->| ->]; [done|]. intros ? [= <-]. by apply Hk.
Qed.

(** The claim is given up, whatever happened to the row. *)
Lemma call_release id cond set t' rq' :
  rq_opts rq' = rq_opts rq → rq_renewal rq' = rq_renewal rq → held = Some id →
  keeps_identity set → (focused K → ∀ r, hi ≤ ir_ExpiresAt (set r)) →
  t' = t ∨ t' = (update_row id cond set t).2 →
  disciplined (focused K) lo hi K known None (rq_prog rq') →
  inv (mkSystem (sys_clock s) t' (<[pid := rq']> (sys_requests s))).
Proof using Hinv Hrq Hho Hall Hknown Hrenew Hheld Hholds.
  intros Ho Hr Hs Hset Hexp Ht Hd. pose proof (inv_wf s Hinv) as Hwf. fold t in Hwf.
  pose proof (Hheld id Hs) as Hid.
  assert (table_wf t' ∧ live_ok t' ∧ evolves t t') as (Hwf' & Hlive & Hev).
  { destruct Ht as [->| ->].
    - split; [done|]. split; [by apply inv_live|]. reflexivity.
    - split; [by apply update_row_wf|]. split; [|by apply update_evolves].
      apply (update_live t K); try done. by apply inv_live. }
  assert (∀ i, i ∈ known → id_ok t' K i) as Hk by eauto using id_ok_evolves.
  destruct (decide (focused K)) as [HF|HF].
  - assert (holder = Some pid) as Hp by (apply Hholds; [done|by rewrite Hs]).
    apply call_changed with (known' := known) (held' := None) (holder' := None); try done.
    intros pid' Hne Hp'. congruence.
  - apply call_changed with (known' := known) (held' := None) (holder' := holder); try done.
    intros pid' Hp. destruct Ht as [->| ->]; [by apply (Hho pid')|].
    rewrite (update_unfocused t K) by done. by apply (Hho pid').
Qed.
End Call.

Lemma inv_call s pid rq {X} (o : op X) k x t' :
  inv s → sys_requests s !! pid = Some rq → rq_prog rq = Do o k →
  (is_Some focus → sys_clock s < hi) →
  may_answer (sys_clock s) o (sys_table s) x t' →
  inv (mkSystem (sys_clock s) t' (<[pid := after_call o rq (k x)]> (sys_requests s))).
Proof.
  intros Hinv Hrq Hp Hclock Hans. destruct (inv_requests s Hinv) as (holder & Hho & Hall).
  destruct (Hall pid rq Hrq) as (known & held & Hd & Hkn & Hhe & Hhold & Hre).
  rewrite Hp in Hd. pose proof (inv_wf s Hinv) as Hwf.
  pose proof (λ known', call_pure s pid rq holder Hinv Hrq Hho Hall held Hhe Hhold known') as Hpure.
  destruct o; simpl in Hd, Hans.
  - destruct Hans as [-> ->]. apply (Hpure known); try done. apply Hd.
    intros [HF _]. split; [by apply inv_clock|by apply Hclock].
  - destruct Hd as (-> & HK & Hst & Hexp & Hdn & Hd0 & He0).
    destruct (get (row_key record) (sys_table s)) as [r0|] eqn:Hg.
    + rewrite (Create_known _ _ r0) in Hans by done.
      destruct Hans as [[-> ->]|[-> [-> | ->]]]; by apply (Hpure known).
    + pose proof (get_create (sys_clock s) record (sys_table s) Hwf) as Hc. rewrite Hg in Hc.
      destruct Hc as (row & Hid & _).
      assert (created (sys_table s) (request_key (rq_opts rq))
                (CreateProcessing (sys_clock s) record (sys_table s)).2) as Hcr.
      { rewrite HK in *. by apply create_created. }
      pose proof (call_create s pid rq holder Hinv Hrq Hho Hall known None Hkn Hhe Hhold Hre)
        as Hcreate.
      destruct Hans as [[-> ->]|[-> [-> | ->]]].
      * rewrite Hid. by apply (Hcreate _ (tbl_next (sys_table s) :: known)
          (Some (tbl_next (sys_table s)))); auto.
      * by apply (Hpure known).
      * by apply (Hcreate _ known None); auto.
  - destruct Hd as (HK & He0 & Hd0 & Hdr). destruct Hans as [Hx ->].
    assert (x = None ∨ x = Some None ∨
      ∃ r, x = Some (Some r) ∧ tbl_rows (sys_table s) !! ir_ID r = Some r
        ∧ row_key r = (scope, keyHash)) as [-> |[->|(r & -> & Hr & Hk)]].
    { destruct Hx as [-> | ->]; [|by left].
      destruct (GetByScopeAndKeyHash scope keyHash (sys_table s)) as [r|] eqn:Hg; [|auto].
      right; right. exists r. apply GetByScopeAndKeyHash_Some in Hg; [by split|done]. }
    + by apply (Hpure known).
    + by apply (Hpure known).
    + assert (focused (request_key (rq_opts rq)) → focus_row (sys_table s) = Some r) as Hfr.
      { intros [_ HF]. unfold focus_row. rewrite <- HF, HK. simpl. by apply get_Some. }
      apply (Hpure (ir_ID r :: known)); try done;
        [|apply Hdr; intros HF; by eapply inv_live, Hfr].
      intros id [->|Hin]%elem_of_cons; [|by apply Hkn]. split.
      * by eapply wf_id.
      * intros r'. rewrite Hr. intros [= <-]. by rewrite HK, Hk.
      * intros HF. exists r. by rewrite Hfr.
  - destruct Hd as (-> & Hin & Hfrom & Hexp & Hdt & Hdf & Hde).
    pose proof (call_reclaim s pid rq holder Hinv Hrq Hho Hall known None Hkn Hhe Hhold Hre
      id fromStatus now newLockedUntil newExpiresAt (sys_clock s)) as Hrec.
    destruct (TryReclaim id fromStatus now newLockedUntil newExpiresAt (sys_clock s) (sys_table s))
      as [ok t1] eqn:Ht. simpl in Hrec.
    destruct ok; simpl in Hans.
    + destruct Hans as [[-> ->]|[-> [-> | ->]]].
      * apply (Hrec (Some id)); auto.
      * by apply (Hpure known).
      * apply (Hrec None); auto.
    + apply update_row_false in Ht. subst t1.
      destruct Hans as [[-> ->]|[-> [-> | ->]]]; by apply (Hpure known).
  - destruct Hd as (Hh & Hexp & Hdx). unfold MarkSucceeded in Hans.
    match type of Hans with context [update_row id ?c ?f _] =>
      apply (call_release s pid rq holder Hinv Hrq Hho Hall known held Hkn Hhe Hhold Hre id c f)
    end; try done; [|by destruct Hans as [[_ ->]|[_ [-> | ->]]]; auto|apply Hdx].
    intros HF r. by apply Hexp.
  - destruct Hd as (Hh & Hexp & Hdx). unfold MarkFailedRetryable in Hans.
    match type of Hans with context [update_row id ?c ?f _] =>
      apply (call_release s pid rq holder Hinv Hrq Hho Hall known held Hkn Hhe Hhold Hre id c f)
    end; try done; [|by destruct Hans as [[_ ->]|[_ [-> | ->]]]; auto|apply Hdx].
    intros HF r. by apply Hexp.
  - destruct Hd as (Hh & Hexp & Hdx). subst t'. destruct x. apply (Hpure known); try done.
    simpl. intros ? ? ? ? [= <- <- <- <-]. split; [by apply Hhe|done].
  - destruct Hd as (_ & Hdx). subst t'. apply (Hpure known); try done. apply Hdx.
Qed.

Lemma delete_evolves now limit t :
  table_wf t → (∀ r, focus_row t = Some r → now < ir_ExpiresAt r) →
  focus_row (DeleteExpired now limit t).2 = focus_row t
  ∧ evolves t (DeleteExpired now limit t).2.
Proof.
  intros Hwf Hlive.
  assert (focus_row (DeleteExpired now limit t).2 = focus_row t) as Heq.
  { unfold focus_row in *. destruct focus as [key|]; simpl in *; [|done]. by apply get_delete. }
  split; [done|]. split; [simpl; lia|..].
  - intros id r' [_ Hr]%foldr_delete_lookup _. eauto.
  - intros r Hr. exists r. by rewrite Heq.
Qed.

Lemma inv_step admitted s s' :
  (∀ opts, admitted opts → focused (request_key opts) → hi ≤ lo + effective_ttl cfg opts) →
  step admitted s s' → (is_Some focus → sys_clock s' < hi) → inv s → inv s'.
Proof.
  intros Hadm Hstep Hclock Hinv.
  destruct Hstep as [pid opts payload Hnew Hok | pid rq X o k x t' Hrq Hp Hans
    | pid rq id fp lease ttl Hrq Hren | pid | now limit Hnow | d Hd]; simpl in *.
  - destruct (inv_requests s Hinv) as (holder & Hho & Hall).
    split; simpl; [by apply inv_wf|by apply inv_clock|by apply inv_live|].
    exists holder. split; [done|]. intros pid' rq. rewrite lookup_insert. case_decide; [|eauto].
    intros [= <-]. exists [], None. simpl. split; [apply Execute_disciplined; by apply Hadm|].
    split; [set_solver|]. split; [done|]. split; [by intros _ [? ?]|done].
  - by eapply inv_call.
  - destruct (inv_requests s Hinv) as (holder & Hho & Hall).
    pose proof (inv_wf s Hinv) as Hwf. unfold ExtendProcessingLock.
    match goal with |- context [update_row id ?c ?f _] => set (cond := c); set (set' := f) end.
    assert (keeps_identity set') as Hset by done.
    destruct (Hall pid rq Hrq) as (known & held & _ & _ & _ & _ & Hre).
    destruct (Hre _ _ _ _ Hren) as [Hid Hlong].
    split; simpl; [by apply update_row_wf|by apply inv_clock|..].
    + eapply update_live; try done; [by apply inv_live|]. intros HF r. simpl.
      specialize (Hlong HF). destruct HF as [HF _]. pose proof (inv_clock s Hinv HF).
      unfold time_add. lia.
    + exists holder. split; [by eapply update_holder|].
      intros pid' rq' Hrq'. eapply request_ok_evolves; [by apply update_evolves|done|by apply Hall].
  - destruct (inv_requests s Hinv) as (holder & Hho & Hall).
    split; simpl; [by apply inv_wf|by apply inv_clock|by apply inv_live|].
    exists holder. split; [done|]. intros pid' rq [_ Hrq]%lookup_delete_Some. by apply Hall.
  - destruct (inv_requests s Hinv) as (holder & Hho & Hall).
    pose proof (inv_wf s Hinv) as Hwf.
    destruct (delete_evolves now limit (sys_table s) Hwf) as [Heq Hev].
    { intros r Hr. pose proof (inv_live s Hinv r Hr). enough (is_Some focus) as Hf.
      - specialize (Hclock Hf). lia.
      - unfold focus_row in Hr. by destruct focus. }
    split; simpl; [by apply DeleteExpired_wf|by apply inv_clock|..].
    + intros r. simpl in Heq. rewrite Heq. by apply inv_live.
    + exists holder. split; [intros pid Hp; simpl in Heq; rewrite Heq; by apply (Hho pid)|].
      intros pid' rq' Hrq'. by eapply request_ok_evolves; [| |apply Hall].
  - destruct (inv_requests s Hinv) as (holder & Hho & Hall).
    split; simpl; [by apply inv_wf| |by apply inv_live|by exists holder].
    intros Hf. pose proof (inv_clock s Hinv Hf). lia.
Qed.

Lemma step_clock admitted s s' : step admitted s s' → sys_clock s ≤ sys_clock s'.
Proof. intros []; simpl; lia. Qed.

Lemma inv_steps admitted s s' :
  (∀ opts, admitted opts → focused (request_key opts) → hi ≤ lo + effective_ttl cfg opts) →
  rtc (step admitted) s s' → (is_Some focus → sys_clock s' < hi) → inv s → inv s'.
Proof.
  intros Hadm Hsteps Hclock Hinv. revert s' Hsteps Hclock.
  refine (rtc_ind_r _ _ _ _); [done|].
  intros y z _ Hyz IH Hclock. pose proof (step_clock _ _ _ Hyz).
  eapply inv_step; [done..|]. apply IH. intros Hf. specialize (Hclock Hf). lia.
Qed.

Lemma inv_executing s key p :
  focus = Some key → inv s → executing s key p →
  ∃ holder, holder = Some p ∧ holder_ok (sys_table s) holder
    ∧ ∀ pid rq, sys_requests s !! pid = Some rq → request_ok (sys_table s) holder pid rq.
Proof.
  intros Hf Hinv (rq & k & Hrq & Hk & Hp).
  destruct (inv_requests s Hinv) as (holder & Hho & Hall). exists holder.
  destruct (Hall p rq Hrq) as (known & held & Hd & _ & _ & Hh & _).
  rewrite Hp in Hd. simpl in Hd. destruct Hd as [[Hd|Hd] _]; [congruence|].
  split; [|done]. apply Hh; [|done]. unfold focused. rewrite Hf. by rewrite Hk.
Qed.
End System.

(** ** The theorem *)

Section OneExecution.
Context `{UnicodeCase} `{Codec} (cfg : IdempotencyConfig).

(** Everything that may have happened before the key was first used. *)
Definition reachable (s : system) : Prop :=
  ∃ s0, table_wf (sys_table s0) ∧ sys_requests s0 = ∅ ∧ rtc (step cfg (λ _, True)) s0 s.

(** The key has no row and no request that uses it is under way. *)
Definition unused (s : system) (key : string * string) : Prop :=
  get key (sys_table s) = None
  ∧ ∀ pid rq, sys_requests s !! pid = Some rq → request_key (rq_opts rq) ≠ Some key.

Lemma reachable_inv s : reachable s → inv None 0 0 s.
Proof.
  intros (s0 & Hwf & Hnone & Hsteps).
  eapply (inv_steps cfg None 0 0 (λ _, True)); [|done|by intros [? ?]|].
  - by intros ? _ [[? ?] _].
  - split; [done|by intros [? ?]|by intros ?|]. exists None. split; [done|].
    intros pid rq. by rewrite Hnone, lookup_empty.
Qed.

Lemma refocus s key lo hi :
  inv None 0 0 s → unused s key → lo ≤ sys_clock s → inv (Some key) lo hi s.
Proof.
  intros Hinv [Hg Hunused] Hlo. destruct (inv_requests None 0 0 s Hinv) as (holder & _ & Hall).
  split; [by eapply inv_wf|done|by intros r; unfold focus_row; simpl; rewrite Hg|].
  exists None. split; [done|]. intros pid rq Hrq.
  destruct (Hall pid rq Hrq) as (known & held & Hd & Hkn & Hhe & _ & Hre).
  assert (¬ focused (Some key) (request_key (rq_opts rq))) as HF.
  { intros [_ HF]. by destruct (Hunused pid rq Hrq). }
  assert (¬ focused None (request_key (rq_opts rq))) as HF0 by by intros [[? ?] _].
  assert (∀ id, id_ok None (sys_table s) (request_key (rq_opts rq)) id →
    id_ok (Some key) (sys_table s) (request_key (rq_opts rq)) id) as Hid by by intros id [? ? _].
  exists known, held. split; [by eapply disciplined_unfocused; [exact HF0|..]|].
  split; [auto|]. split; [auto|]. split; [done|].
  intros id fp l ttl Hr. destruct (Hre _ _ _ _ Hr). split; [auto|done].
Qed.

(** C8.  At most one execution at a time, and none after a success: from the
    moment a key is unused, and for as long as the lifetime [w] of its record
    lasts, whatever requests start, interleave, fail, crash, renew or meet
    store errors, no two requests execute the caller's function under the key
    at the same time, and while one executes the record is neither finished nor
    released. *)
Theorem one_execution_per_key key w s0 s
    (Hreach : reachable s0) (Hunused : unused s0 key)
    (Hsteps : rtc (step cfg (λ opts, request_key opts = Some key → w ≤ effective_ttl cfg opts)) s0 s)
    (Hwindow : sys_clock s < sys_clock s0 + w) :
  (∀ p q, executing s key p → executing s key q → p = q)
  ∧ ∀ p, executing s key p →
      ∃ r, row_for s key r ∧ ir_Status r = IdempotencyStatusProcessing
        ∧ ∀ r', row_for s key r' → r' = r.
Proof.
  assert (inv (Some key) (sys_clock s0) (sys_clock s0 + w) s) as Hinv.
  { eapply inv_steps; [|done|done|by apply refocus; [apply reachable_inv|..]].
    intros opts Hok [_ HF]. specialize (Hok HF). simpl. lia. }
  split.
  - intros p q Hp Hq.
    destruct (inv_executing _ _ _ s key p eq_refl Hinv Hp) as (h & Hh & _ & Hall).
    destruct Hq as (rq & k & Hrq & Hk & Hprog).
    destruct (Hall q rq Hrq) as (known & held & Hd & _ & _ & Hhold & _).
    rewrite Hprog in Hd. simpl in Hd. destruct Hd as [[Hd|Hd] _]; [congruence|].
    rewrite Hk in Hhold. rewrite Hhold in Hh; [congruence|by split; [eexists|]|done].
  - intros p Hp. destruct (inv_executing _ _ _ s key p eq_refl Hinv Hp) as (h & -> & Hho & _).
    destruct (Hho p eq_refl) as (r & Hr & Hst). unfold focus_row in Hr. simpl in Hr.
    pose proof (inv_wf _ _ _ s Hinv) as Hwf. exists r.
    split; [by apply get_Some|]. split; [done|]. intros r' Hr'.
    apply (get_Some key _ _ Hwf) in Hr'. congruence.
Qed.
End OneExecution.

(** ** Running schedules *)

Section Schedules.
Context `{UnicodeCase} `{Codec} (cfg : IdempotencyConfig).

Inductive move :=
| Start (pid : nat) (opts : ExecuteOptions) (payload : Data)
| Call (pid : nat) (result : outcome)
| Elapse (d : Z).

(** One step in which the store does not fail. *)
Definition act (s : system) (m : move) : option system :=
  match m with
  | Start pid opts payload =>
      match sys_requests s !! pid with
      | None => Some (mkSystem (sys_clock s) (sys_table s)
          (<[pid := mkRequest opts (Execute cfg false false opts payload) None]> (sys_requests s)))
      | Some _ => None
      end
  | Call pid result =>
      match sys_requests s !! pid with
      | Some rq =>
          match rq_prog rq with
          | Do o k =>
              let '(x, t) := answer (sys_clock s) result o (sys_table s) in
              Some (mkSystem (sys_clock s) t (<[pid := after_call o rq (k x)]> (sys_requests s)))
          | Ret _ => None
          end
      | None => None
      end
  | Elapse d => if 0 <=? d then Some (mkSystem (sys_clock s + d) (sys_table s) (sys_requests s))
                else None
  end.

Fixpoint play (ms : list move) (s : system) : option system :=
  match ms with [] => Some s | m :: ms => s' ← act s m; play ms s' end.

Lemma answer_may now result {X} (o : op X) t :
  may_answer now o t (answer now result o t).1 (answer now result o t).2.
Proof.
  destruct o; simpl; auto.
  - destruct (CreateProcessing now record t); simpl; auto.
  - destruct (TryReclaim _ _ _ _ _ _ _); simpl; auto.
Qed.

Lemma act_step admitted s m s' :
  match m with Start _ opts _ => admitted opts | _ => True end →
  act s m = Some s' → step cfg admitted s s'.
Proof.
  intros Hadm Hact. destruct m as [pid opts payload|pid result|d]; simpl in Hact.
  - case_match; simplify_eq. by apply step_start.
  - destruct (sys_requests s !! pid) as [rq|] eqn:Hrq; [|done].
    destruct (rq_prog rq) as [|X o k] eqn:Hp; [done|].
    pose proof (answer_may (sys_clock s) result o (sys_table s)) as Hmay.
    destruct (answer _ _ _ _) as [x t]. simplify_eq/=. by eapply step_call.
  - case_match; simplify_eq. bool_to_prop. by apply step_time.
Qed.

Lemma play_steps admitted ms s s' :
  Forall (λ m, match m with Start _ opts _ => admitted opts | _ => True end) ms →
  play ms s = Some s' → rtc (step cfg admitted) s s'.
Proof.
  intros Hms. revert s. induction Hms as [|m ms Hm Hms IH]; intros s Hp; simplify_eq/=; [done|].
  destruct (act s m) as [s1|] eqn:Ha; [|done]. simpl in Hp.
  eapply rtc_l; [by eapply act_step|by apply IH].
Qed.

Definition executing_b (s : system) (key : string * string) (pid : nat) : bool :=
  match sys_requests s !! pid with
  | Some rq =>
      bool_decide (request_key (rq_opts rq) = Some key)
      && match rq_prog rq with Do OpExec _ => true | _ => false end
  | None => false
  end.

Lemma executing_true s key pid : executing_b s key pid = true → executing s key pid.
Proof.
  unfold executing_b, executing. destruct (sys_requests s !! pid) as [rq|] eqn:Hrq; [|done].
  intros [Hk Hp]%andb_true_iff. bool_to_prop. exists rq.
  destruct (rq_prog rq) as [|X o k] eqn:Hpr; [done|]. destruct o; try done. by exists k.
Qed.
End Schedules.

#[local] Existing Instance demo_codec.
#[local] Existing Instance ascii_case.

Definition demo_key : string * string := ("admin.users", "k-1")%string.
Definition demo_start : system := mkSystem 0 demo_table ∅.
Definition ok : outcome := inr made.

(** One request runs to its end and its record expires; then two requests find
    it expired, and the first of them succeeds. *)
Definition demo_before : list move :=
  [Start 0 demo_options alice; Call 0 ok; Call 0 ok; Call 0 ok; Call 0 ok; Elapse (25 * Hour);
   Start 1 demo_options alice; Start 2 demo_options alice;
   Call 1 ok; Call 1 ok; Call 1 ok; Call 2 ok; Call 2 ok; Call 2 ok;
   Call 1 ok; Call 1 ok; Call 1 ok].

Definition demo_twice : bool :=
  match play demo_cfg demo_before demo_start with
  | Some s =>
      match play demo_cfg [Call 2 ok] s, get demo_key (sys_table s) with
      | Some s', Some r =>
          String.eqb (ir_Status r) IdempotencyStatusSucceeded
          && (sys_clock s <? ir_ExpiresAt r) && (sys_clock s' =? sys_clock s)
          && executing_b s' demo_key 2
      | _, _ => false
      end
  | None => false
  end.

(**  When the hypothesis on the lifetime is dropped, a second execution is
    possible: request 1 has succeeded and its record is fresh, yet request 2,
    which read the expired row before, reclaims it and executes. *)
Theorem expired_reclaim_runs_twice :
  ∃ s s' r, reachable demo_cfg s ∧ row_for s demo_key r
    ∧ ir_Status r = IdempotencyStatusSucceeded ∧ sys_clock s < ir_ExpiresAt r
    ∧ rtc (step demo_cfg (λ _, True)) s s' ∧ sys_clock s' = sys_clock s
    ∧ executing s' demo_key 2.
Proof.
  assert (demo_twice = true) as Hd by by vm_compute. unfold demo_twice in Hd.
  destruct (play demo_cfg demo_before demo_start) as [s|] eqn:Hs; [|done].
  destruct (play demo_cfg [Call 2 ok] s) as [s'|] eqn:Hs'; [|done].
  destruct (get demo_key (sys_table s)) as [r|] eqn:Hr; [|done].
  repeat (apply andb_true_iff in Hd as [Hd ?]). bool_to_prop.
  assert (reachable demo_cfg s) as Hreach.
  { exists demo_start. split; [apply demo_table_wf|]. split; [done|].
    eapply play_steps; [|exact Hs]. by repeat constructor. }
  exists s, s', r. split; [done|].
  split; [by eapply get_Some; [eapply inv_wf, (reachable_inv demo_cfg)|]|].
  split; [done|]. split; [done|]. split; [|by auto using executing_true].
  eapply play_steps; [|exact Hs']. by repeat constructor.
Qed.

(** Two requests with one key, interleaved. *)
Definition demo_race : list move :=
  [Start 1 demo_options alice; Start 2 demo_options alice; Call 1 ok; Call 2 ok; Call 2 ok;
   Elapse (5 * Second); Call 1 ok].

Lemma one_execution_per_key_witness :
  match play demo_cfg demo_race demo_start with
  | Some s => executing s demo_key 2 ∧ ∀ p, executing s demo_key p → p = 2%nat
  | None => False
  end.
Proof.
  assert (match play demo_cfg demo_race demo_start with
          | Some s => (sys_clock s =? 5 * Second) && executing_b s demo_key 2
          | None => false end = true) as Hd by by vm_compute.
  destruct (play demo_cfg demo_race demo_start) as [s|] eqn:Hs; [|done].
  apply andb_true_iff in Hd as [Hclock He]. apply Z.eqb_eq in Hclock.
  apply executing_true in He. split; [done|]. intros p Hp.
  eapply (one_execution_per_key demo_cfg demo_key (24 * Hour) demo_start s); [..|exact Hp|exact He].
  - exists demo_start. split; [apply demo_table_wf|]. by split.
  - split; [by vm_compute|]. intros ? ?; simpl; by rewrite lookup_empty.
  - eapply play_steps; [|exact Hs]. repeat constructor; intros _; vm_compute; discriminate.
  - rewrite Hclock. by vm_compute.
Defined.
