(* ===== verification/SystemLock.v ===== *)
(** * The global lock of system operations

    [service/system_operation_lock_service.go]: one row of the idempotency
    table serves as a lease-based lock.  [Acquire] and [Release] are programs of
    repository calls (see Idempotency.v); one tick of [renewLoop] is
    [renew_tick]. *)

From Stdlib Require Import ZArith Lia String.
From stdpp Require Import base tactics numbers list gmap strings.
From S2P Require Import Prelude GoStrings Idempotency.

Open Scope Z_scope.

Definition systemOperationLockScope : string := "admin.system.operations.global_lock".
Definition systemOperationLockKey : string := "global-system-operation-lock".

Inductive lock_error :=
| ErrLockStoreUnavail
| ErrOperationIDRequired
| ErrSystemOperationBusy (operation_id : option string) (retry_after : option Z).

Record SystemOperationLock := mkLock { lock_recordID : Z; lock_operationID : string }.

Record SystemOperationLockService := mkLockService {
  sol_lease : Z;
  sol_renewInterval : Z;
  sol_ttl : Z
}.

Definition NewSystemOperationLockService (cfg : IdempotencyConfig) : SystemOperationLockService :=
  let lease := if ProcessingTimeout cfg <=? 0 then 30 * Second else ProcessingTimeout cfg in
  let renewInterval := if Z.quot lease 3 <? Second then Second else Z.quot lease 3 in
  let ttl := if SystemOperationTTL cfg <=? 0 then Hour else SystemOperationTTL cfg in
  mkLockService lease renewInterval ttl.

Definition busyError (operationID : string) (lockedUntil : option Z) (now : Z) : lock_error :=
  ErrSystemOperationBusy
    (if String.eqb operationID "" then None else Some operationID)
    ((λ l, retry_after_seconds l now) <$> lockedUntil).

Section Service.
Context `{Codec} (s : SystemOperationLockService).
Local Open Scope go_scope.

Definition lock_keyHash : string := HashIdempotencyKey systemOperationLockKey.

(** The end of [Acquire]: the lock is handed out and its renewal starts. *)
Definition granted (operationID : string) (recordID : Z) : prog (lock_error + SystemOperationLock) :=
  if recordID =? 0 then Ret (inl ErrLockStoreUnavail) else
  _ ← call OpRenew recordID operationID (sol_lease s) (sol_ttl s);
  Ret (inr (mkLock recordID operationID)).

Definition Acquire (operationID : string) : prog (lock_error + SystemOperationLock) :=
  if String.eqb operationID "" then Ret (inl ErrOperationIDRequired) else
  now ← call OpNow;
  let expiresAt := time_add now (sol_ttl s) in
  let lockedUntil := time_add now (sol_lease s) in
  owner ← call OpCreate (mkIdempotencyRecord 0 systemOperationLockScope lock_keyHash operationID
            IdempotencyStatusProcessing None None None (Some lockedUntil) expiresAt 0 0);
  match owner with
  | None => Ret (inl ErrLockStoreUnavail)
  | Some (Some id) => granted operationID id
  | Some None =>
      got ← call OpGet systemOperationLockScope lock_keyHash;
      match got with
      | None | Some None => Ret (inl ErrLockStoreUnavail)
      | Some (Some existing) =>
          if String.eqb (ir_Status existing) IdempotencyStatusProcessing
             && match ir_LockedUntil existing with Some l => time_after l now | None => false end
          then Ret (inl (busyError (ir_RequestFingerprint existing) (ir_LockedUntil existing) now))
          else
            reclaimed ← call OpReclaim (ir_ID existing) (ir_Status existing) now lockedUntil expiresAt;
            match reclaimed with
            | None => Ret (inl ErrLockStoreUnavail)
            | Some true => granted operationID (ir_ID existing)
            | Some false =>
                latest ← call OpGet systemOperationLockScope lock_keyHash;
                match latest with
                | Some (Some latest) =>
                    Ret (inl (busyError (ir_RequestFingerprint latest) (ir_LockedUntil latest) now))
                | _ => Ret (inl (ErrSystemOperationBusy None None))
                end
            end
      end
  end.

Definition released_body (lock : SystemOperationLock) : string :=
  let q := String (byte 34) "" in
  "{" +:+ q +:+ "operation_id" +:+ q +:+ ":" +:+ q +:+ lock_operationID lock +:+ q +:+ ","
  +:+ q +:+ "released" +:+ q +:+ ":true}".

(** The store error, if any, is the result; the renewal has been stopped. *)
Definition Release (lock : SystemOperationLock) (succeeded : bool) (failureReason : string)
    : prog (option ()) :=
  t ← call OpNow;
  let expiresAt := time_add t (sol_ttl s) in
  if succeeded then
    r ← call OpSucceeded (lock_recordID lock) 200 (released_body lock) expiresAt;
    Ret r
  else
    let reason := if String.eqb failureReason "" then "SYSTEM_OPERATION_FAILED"%string
                  else failureReason in
    now ← call OpNow;
    r ← call OpFailed (lock_recordID lock) reason now expiresAt;
    Ret r.

(** One tick of [renewLoop] at instant [now]; the loop ends when it returns
    false. *)
Definition renew_tick (lock : SystemOperationLock) (now : Z) (t : IdempotencyTable)
    : bool * IdempotencyTable :=
  ExtendProcessingLock (lock_recordID lock) (lock_operationID lock)
    (time_add now (sol_lease s)) (time_add now (sol_ttl s)) now t.
End Service.

(** ** What the calls do *)

Section Facts.
Context `{Codec} (s : SystemOperationLockService).
Implicit Types t : IdempotencyTable.

Definition acquire_at (operationID : string) (now : Z) (t : IdempotencyTable)
    : (lock_error + SystemOperationLock) * IdempotencyTable :=
  let '(r, _, t) := run now (inl ""%string) (Acquire s operationID) t in (r, t).

Definition release_at (lock : SystemOperationLock) (succeeded : bool) (reason : string) (now : Z)
    (t : IdempotencyTable) : option () * IdempotencyTable :=
  let '(r, _, t) := run now (inl ""%string) (Release s lock succeeded reason) t in (r, t).

Definition lock_row t : option IdempotencyRecord :=
  GetByScopeAndKeyHash systemOperationLockScope lock_keyHash t.

(** The lock is leased to somebody beyond [now]. *)
Definition leased (now : Z) (r : IdempotencyRecord) : bool :=
  match ir_LockedUntil r with Some l => time_after l now | None => false end.

Lemma lock_row_replace t r r' :
  table_wf t → lock_row t = Some r → ir_ID r' = ir_ID r → row_key r' = row_key r →
  table_wf (mkTable (<[ir_ID r := r']> (tbl_rows t)) (tbl_next t))
  ∧ lock_row (mkTable (<[ir_ID r := r']> (tbl_rows t)) (tbl_next t)) = Some r'.
Proof.
  intros Hwf Hg Hid Hk. pose proof Hg as Hg'.
  apply GetByScopeAndKeyHash_Some in Hg' as [Hr Hrk]; [|done].
  assert (table_wf (mkTable (<[ir_ID r := r']> (tbl_rows t)) (tbl_next t))) as Hwf'
    by by apply (replace_row_wf _ r).
  split; [done|]. apply GetByScopeAndKeyHash_Some; [done|]. simpl.
  rewrite Hid, lookup_insert_eq. split; [done|]. by rewrite Hk.
Qed.

(** Row [id], recorded for operation [recorded], is in processing under a full
    lease taken at [now]. *)
Definition taken (now id : Z) (recorded : string) (t : IdempotencyTable) : Prop :=
  table_wf t ∧ ∃ r, lock_row t = Some r ∧ ir_ID r = id
    ∧ ir_Status r = IdempotencyStatusProcessing
    ∧ ir_LockedUntil r = Some (time_add now (sol_lease s))
    ∧ ir_RequestFingerprint r = recorded.

(** The two outcomes of an acquisition. *)
Definition acquire_result (operationID : string) (now : Z) (t : IdempotencyTable)
    (result : lock_error + SystemOperationLock) (t' : IdempotencyTable) : Prop :=
  match lock_row t with
  | Some r =>
      if leased now r
      then result = inl (busyError (ir_RequestFingerprint r) (ir_LockedUntil r) now) ∧ t' = t
      else result = inr (mkLock (ir_ID r) operationID)
           ∧ taken now (ir_ID r) (ir_RequestFingerprint r) t'
  | None => result = inr (mkLock (tbl_next t) operationID)
            ∧ taken now (tbl_next t) operationID t'
  end.

Lemma run_granted operationID id now t :
  id ≠ 0 →
  run now (inl ""%string) (granted s operationID id) t = (inr (mkLock id operationID), false, t).
Proof. intros Hid. unfold granted. by rewrite (proj2 (Z.eqb_neq _ _) Hid). Qed.

Lemma acquire_cases operationID now t :
  table_wf t → operationID ≠ "" →
  acquire_result operationID now t (acquire_at operationID now t).1
    (acquire_at operationID now t).2.
Proof.
  intros Hwf Hop. unfold acquire_result, acquire_at, Acquire.
  rewrite (proj2 (String.eqb_neq _ _) Hop). cbn [run answer].
  destruct (lock_row t) as [r|] eqn:Hr.
  - rewrite (Create_known _ _ r) by done. cbn [run answer]. fold (lock_row t). rewrite Hr.
    pose proof Hr as Hg. apply GetByScopeAndKeyHash_Some in Hg as [Hrow _]; [|done].
    destruct (wf_id t Hwf _ _ Hrow) as [_ Hpos]. fold (leased now r).
    destruct (String.eqb (ir_Status r) IdempotencyStatusProcessing && leased now r) eqn:Hb.
    { apply andb_true_iff in Hb as [_ ->]. done. }
    cbn [run answer]. unfold TryReclaim, update_row. rewrite Hrow, String.eqb_refl.
    unfold leased, time_after in *. cbn [andb].
    destruct (match ir_LockedUntil r with Some l => l <=? now | None => true end) eqn:Hfree.
    + assert (match ir_LockedUntil r with Some l => now <? l | None => false end = false) as ->.
      { destruct (ir_LockedUntil r); [|done]. bool_to_prop. apply Z.ltb_ge. lia. }
      cbn [run]. rewrite run_granted by lia. cbn. split; [done|].
      match goal with |- taken _ _ _ (mkTable (<[_ := ?r']> _) _) =>
        destruct (lock_row_replace t r r' Hwf Hr eq_refl eq_refl) as [Hwf' Hrow'] end.
      split; [done|]. eexists. by split.
    + assert (match ir_LockedUntil r with Some l => now <? l | None => false end = true) as ->.
      { destruct (ir_LockedUntil r); [|done]. bool_to_prop. apply Z.ltb_lt. lia. }
      cbn [run answer]. fold (lock_row t). by rewrite Hr.
  - match goal with |- context [CreateProcessing now ?rec t] =>
      pose proof (CreateProcessing_wf now rec t Hwf) as Hwf';
      destruct (CreateProcessing_fresh now rec t Hr) as (row & Hc & Hid & Hk & Hfp & Hst & _ & Hl)
    end.
    rewrite Hc in *. cbn [run answer]. pose proof (wf_next t Hwf). rewrite run_granted by lia. cbn.
    split; [done|]. split; [done|]. exists row. split; [|done].
    apply GetByScopeAndKeyHash_Some; [done|]. cbn. by rewrite Hid, lookup_insert_eq.
Qed.

(**  [Acquire], on every state of the table: while the row's lease has not
    lapsed the caller is refused with the recorded operation and the remaining
    seconds, and nothing changes; otherwise it gets the lock, and the row is in
    processing under a full lease (a row that existed keeps the operation it
    was first recorded for). *)
Theorem acquire_spec operationID now t
    (Hwf : table_wf t) (Hop : operationID ≠ "") :
  let '(result, t') := acquire_at operationID now t in
  acquire_result operationID now t result t'.
Proof.
  pose proof (acquire_cases operationID now t Hwf Hop). by destruct (acquire_at _ _ _).
Qed.

Lemma acquire_leased operationID now t r :
  table_wf t → operationID ≠ "" → lock_row t = Some r → leased now r = true →
  acquire_at operationID now t
  = (inl (busyError (ir_RequestFingerprint r) (ir_LockedUntil r) now), t).
Proof.
  intros Hwf Hop Hr Hl. pose proof (acquire_cases operationID now t Hwf Hop) as Hc.
  unfold acquire_result in Hc. rewrite Hr, Hl in Hc. destruct Hc as [H1 H2].
  destruct (acquire_at _ _ _). simpl in *. by subst.
Qed.

Lemma acquire_free operationID now t :
  table_wf t → operationID ≠ "" →
  (∀ r, lock_row t = Some r → leased now r = false) →
  ∃ id recorded, (acquire_at operationID now t).1 = inr (mkLock id operationID)
    ∧ taken now id recorded (acquire_at operationID now t).2.
Proof.
  intros Hwf Hop Hf. pose proof (acquire_cases operationID now t Hwf Hop) as Hc.
  unfold acquire_result in Hc. destruct (lock_row t) as [r|]; [rewrite (Hf r eq_refl) in Hc|];
    destruct Hc; eauto.
Qed.

Lemma acquired_taken operationID now t lock t' :
  table_wf t → operationID ≠ "" → acquire_at operationID now t = (inr lock, t') →
  lock_operationID lock = operationID ∧ ∃ recorded, taken now (lock_recordID lock) recorded t'.
Proof.
  intros Hwf Hop Ha. pose proof (acquire_cases operationID now t Hwf Hop) as Hc.
  rewrite Ha in Hc. unfold acquire_result in Hc. simpl in Hc.
  repeat case_match; destruct Hc as [Hl Ht]; simplify_eq; simpl; eauto.
Qed.

(** C32.  Mutual exclusion: once an operation holds the lock, every other
    attempt made before the lease ends is refused, is told how long to wait,
    and leaves the lock as it is. *)
Theorem lock_excludes opA opB now1 now2 t lock t1
    (Hwf : table_wf t) (HA : opA ≠ "") (HB : opB ≠ "")
    (Hacq : acquire_at opA now1 t = (inr lock, t1))
    (Hlease : now2 < time_add now1 (sol_lease s)) :
  ∃ recorded, acquire_at opB now2 t1
  = (inl (ErrSystemOperationBusy recorded
            (Some (retry_after_seconds (time_add now1 (sol_lease s)) now2))), t1).
Proof.
  destruct (acquired_taken opA now1 t lock t1 Hwf HA Hacq)
    as (_ & rec & Hwf1 & r & Hr & _ & _ & Hl & _).
  eexists. rewrite (acquire_leased opB now2 t1 r); [by rewrite Hl|done..|].
  unfold leased. rewrite Hl. by apply Z.ltb_lt.
Qed.

(**  Release: whoever holds the lock releases it, in success or failure, and
    the next operation acquires it at once. *)
Theorem release_frees_lock opA opB now1 now2 now3 succeeded reason t lock t1
    (Hwf : table_wf t) (HA : opA ≠ "") (HB : opB ≠ "")
    (Hacq : acquire_at opA now1 t = (inr lock, t1)) (Hlater : now2 <= now3) :
  let '(released, t2) := release_at lock succeeded reason now2 t1 in
  released = Some () ∧ ∃ id t3, acquire_at opB now3 t2 = (inr (mkLock id opB), t3).
Proof.
  destruct (acquired_taken opA now1 t lock t1 Hwf HA Hacq)
    as (_ & rec & Hwf1 & r & Hr & Hid & Hst & Hl & _).
  pose proof Hr as Hg. apply GetByScopeAndKeyHash_Some in Hg as [Hrow _]; [|done].
  unfold release_at, Release. cbn [run answer].
  destruct succeeded; cbn [run answer]; unfold MarkSucceeded, MarkFailedRetryable, update_row;
    rewrite <- Hid, Hrow; cbn [snd]; (split; [done|]);
    match goal with |- context [mkTable (<[_ := ?r']> _) _] =>
      destruct (lock_row_replace t1 r r' Hwf1 Hr eq_refl eq_refl) as [Hwf2 Hrow2] end;
    (edestruct (acquire_free opB now3 _ Hwf2 HB) as (id & rec' & Hres & _);
     [ intros r2 Hr2; rewrite Hrow2 in Hr2; injection Hr2 as <-; cbn;
       first [done | by apply Z.ltb_ge]
     | exists id; eexists; rewrite (surjective_pairing (acquire_at opB now3 _)), Hres; reflexivity ]).
Qed.

(**  An operation that took over a row first recorded for another operation
    cannot renew it, so the lock is free again after one lease although it was
    not released: [renewLoop] stops at its first tick, and a third operation
    acquires the lock at the end of the lease. *)
Theorem renewal_lost_after_takeover opB opC now1 now2 now3 t r lock t1
    (Hwf : table_wf t) (HB : opB ≠ "") (HC : opC ≠ "")
    (Hrow : lock_row t = Some r) (Hother : ir_RequestFingerprint r ≠ opB)
    (Hacq : acquire_at opB now1 t = (inr lock, t1))
    (Hlapsed : time_add now1 (sol_lease s) <= now3) :
  renew_tick s lock now2 t1 = (false, t1)
  ∧ ∃ lock' t3, acquire_at opC now3 t1 = (inr lock', t3).
Proof.
  pose proof (acquire_cases opB now1 t Hwf HB) as Hc. unfold acquire_result in Hc.
  rewrite Hacq, Hrow in Hc. simpl in Hc. destruct (leased now1 r); [by destruct Hc|].
  destruct Hc as [[= ->] (Hwf1 & r1 & Hr1 & Hid & Hst & Hl & Hfp)].
  pose proof Hr1 as Hg. apply GetByScopeAndKeyHash_Some in Hg as [Hrow1 _]; [|done]. split.
  - unfold renew_tick, ExtendProcessingLock, update_row. cbn. rewrite <- Hid, Hrow1, Hst, Hfp.
    by rewrite (proj2 (String.eqb_neq _ _) Hother), andb_false_r.
  - destruct (acquire_free opC now3 t1 Hwf1 HC) as (id & rec & Hres & _).
    { intros r2. rewrite Hr1. intros [= <-]. unfold leased. rewrite Hl. by apply Z.ltb_ge. }
    destruct (acquire_at opC now3 t1) as [res t3]. simpl in Hres. subst. eauto.
Qed.
End Facts.

(** ** Instances *)

#[local] Existing Instance demo_codec.

Definition demo_service : SystemOperationLockService :=
  NewSystemOperationLockService DefaultIdempotencyConfig.

Lemma acquire_spec_witness :
  table_wf demo_table
  ∧ let '(result, t') := acquire_at demo_service "op-1" 5 demo_table in
    acquire_result demo_service "op-1" 5 demo_table result t'.
Proof. split; [apply demo_table_wf|]. by apply acquire_spec; [apply demo_table_wf|]. Defined.

Definition demo_locked : IdempotencyTable := (acquire_at demo_service "op-1" 5 demo_table).2.

Lemma lock_excludes_witness :
  ∃ recorded, acquire_at demo_service "op-2" (10 * Second) demo_locked
  = (inl (ErrSystemOperationBusy recorded
      (Some (retry_after_seconds (time_add 5 (sol_lease demo_service)) (10 * Second)))),
     demo_locked).
Proof.
  apply (lock_excludes demo_service "op-1" "op-2" 5 (10 * Second) demo_table (mkLock 1 "op-1"));
    [apply demo_table_wf | done | done | by vm_compute | by vm_compute].
Defined.

Lemma release_frees_lock_witness :
  let '(released, t2) := release_at demo_service (mkLock 1 "op-1") false "" 20 demo_locked in
  released = Some () ∧ ∃ id t3, acquire_at demo_service "op-2" 20 t2 = (inr (mkLock id "op-2"), t3).
Proof.
  apply (release_frees_lock demo_service "op-1" "op-2" 5 20 20 false "" demo_table (mkLock 1 "op-1"));
    [apply demo_table_wf | done | done | by vm_compute | lia].
Defined.

(** A lock used once and released, then taken over by a second operation. *)
Definition demo_released : IdempotencyTable := MarkSucceeded 1 200 "{}" (20 + Hour) 20 demo_locked.

Lemma demo_released_wf : table_wf demo_released.
Proof.
  unfold demo_released, MarkSucceeded. apply update_row_wf; [done|].
  destruct (acquired_taken demo_service "op-1" 5 demo_table (mkLock 1 "op-1") demo_locked)
    as (_ & rec & Hwf & _); [apply demo_table_wf | done | by vm_compute | done].
Qed.

Definition demo_taken : IdempotencyTable := (acquire_at demo_service "op-2" 100 demo_released).2.

Lemma renewal_lost_after_takeover_witness :
  renew_tick demo_service (mkLock 1 "op-2") (100 + 10 * Second) demo_taken = (false, demo_taken)
  ∧ ∃ lock' t3, acquire_at demo_service "op-3" (100 + 30 * Second) demo_taken = (inr lock', t3).
Proof.
  eapply (renewal_lost_after_takeover demo_service "op-2" "op-3" 100 (100 + 10 * Second)
    (100 + 30 * Second) demo_released);
    [apply demo_released_wf | done | done | by vm_compute | by vm_compute | by vm_compute
    | by vm_compute].
Defined.
