(* ===== verification/ModelAllowlist.v ===== *)
(** * Model allow lists of groups

    [service/group_model_allowlist.go]: patterns in which [*] stands for any
    text, admission of a requested model, normalisation of a submitted list and
    the listing shown to clients.  Patterns are checked against a declarative
    reading of globs; the listing is shown to promise nothing that admission
    refuses. *)

From Stdlib Require Import ZArith Lia Ascii String.
From stdpp Require Import base tactics numbers list gmap strings.
From S2P Require Import Prelude GoStrings.

Open Scope Z_scope.

Definition star : ascii := "*"%char.
Definition star_string : string := String star "".

Record GroupModelAllowlist := mkGroupModelAllowlist {
  al_Enabled : bool;
  al_Models : list string
}.

Inductive allowlist_error := ErrInvalidModelAllowlist.

(** [claude.NormalizeModelID] ([pkg/claude/constants.go]). *)
Definition ModelIDOverrides : list (string * string) :=
  [("claude-sonnet-4-5", "claude-sonnet-4-5-20250929");
   ("claude-opus-4-5", "claude-opus-4-5-20251101");
   ("claude-haiku-4-5", "claude-haiku-4-5-20251001")]%string.

Definition NormalizeModelID (id : string) : string :=
  match List.find (λ e, String.eqb e.1 id) ModelIDOverrides with
  | Some e => e.2
  | None => id
  end.

Section Allowlist.
Context `{UnicodeCase}.

(** The loop over the middle parts: each is searched from where the previous one
    ended; [None] is the early return. *)
Fixpoint skip_parts (parts : list string) (model : string) : option string :=
  match parts with
  | [] => Some model
  | part :: parts =>
      match Index model part with
      | None => None
      | Some index => skip_parts parts (slice_from (index + String.length part) model)
      end
  end.

Definition groupAllowlistPatternMatches (pattern model : string) : bool :=
  let pattern := ToLower pattern in
  let model := ToLower model in
  match Split pattern star with
  | [] => false
  | [_] => String.eqb pattern model
  | first :: rest =>
      if negb (HasPrefix model first) then false
      else
        match skip_parts (removelast rest) (slice_from (String.length first) model) with
        | None => false
        | Some model => HasSuffix model (List.last rest ""%string)
        end
  end.

(** [add] of [groupModelAllowlistCandidates]. *)
Definition add_candidate (candidates : list string) (value : string) : list string :=
  let value := ToLower (TrimSpace value) in
  if String.eqb value "" then candidates
  else if existsb (String.eqb value) candidates then candidates
  else candidates ++ [value].

(** The normalisation of OpenAI reasoning suffixes ([openai_compat_model.go]) is
    a parameter. *)
Context (NormalizeOpenAICompatRequestedModel : string → string).

Definition groupModelAllowlistCandidates (model : string) : list string :=
  foldl add_candidate []
    [model; TrimPrefix model "models/"; NormalizeModelID (TrimSuffix model "-thinking");
     NormalizeOpenAICompatRequestedModel model].

Definition Allows (a : GroupModelAllowlist) (model : string) : bool :=
  if negb (al_Enabled a) then true else
  let model := TrimSpace model in
  if String.eqb model "" then true else
  let candidates := groupModelAllowlistCandidates model in
  existsb (λ entry,
    let entry := TrimSpace entry in
    if String.eqb entry "" then false
    else existsb (groupAllowlistPatternMatches entry) candidates) (al_Models a).

(** The loop of [normalizeGroupModelAllowlist]: the keys seen and the models
    kept. *)
Definition keep_model (acc : gset string * list string) (model : string) : gset string * list string :=
  let '(seen, models) := acc in
  let model := TrimSpace model in
  if String.eqb model "" then (seen, models)
  else if decide (ToLower model ∈ seen) then (seen, models)
  else ({[ToLower model]} ∪ seen, models ++ [model]).

Definition normalizeGroupModelAllowlist (cfg : GroupModelAllowlist)
    : allowlist_error + GroupModelAllowlist :=
  match al_Models cfg with
  | [] => if al_Enabled cfg then inl ErrInvalidModelAllowlist else inr (mkGroupModelAllowlist false [])
  | _ =>
      let models := (foldl keep_model (∅, []) (al_Models cfg)).2 in
      match models with
      | [] => if al_Enabled cfg then inl ErrInvalidModelAllowlist
              else inr (mkGroupModelAllowlist (al_Enabled cfg) [])
      | _ => inr (mkGroupModelAllowlist (al_Enabled cfg) models)
      end
  end.

Definition allowlistSourcePatternAllowsModel (patterns : list string) (model : string) : bool :=
  existsb (λ pattern,
    EqualFold pattern model
    || (HasSuffix pattern star_string
        && HasPrefix (ToLower model) (ToLower (TrimSuffix pattern star_string)))) patterns
  || (let normalizedClaudeModel := NormalizeModelID (TrimSuffix model "-thinking") in
      negb (EqualFold normalizedClaudeModel model)
      && existsb (λ pattern, EqualFold pattern normalizedClaudeModel) patterns).

(** [add] of [FilterForListing]. *)
Definition add_listed (acc : gset string * list string) (model : string) : gset string * list string :=
  let '(seen, filtered) := acc in
  if decide (ToLower model ∈ seen) then (seen, filtered)
  else ({[ToLower model]} ∪ seen, filtered ++ [model]).

(** One entry of the allow list. *)
Definition list_entry (patterns : list string) (acc : gset string * list string) (entry : string)
    : gset string * list string :=
  let entry := TrimSpace entry in
  if String.eqb entry "" then acc
  else if Contains entry star_string then
    foldl (λ acc pattern,
      if groupAllowlistPatternMatches entry pattern then add_listed acc pattern
      else if HasSuffix pattern star_string
              && negb (Contains (TrimSuffix pattern star_string) star_string)
              && HasPrefix (ToLower entry) (ToLower (TrimSuffix pattern star_string))
           then add_listed acc entry
           else acc) acc patterns
  else if allowlistSourcePatternAllowsModel patterns entry then add_listed acc entry
  else acc.

Definition listing_patterns (source : list string) : list string :=
  List.filter (λ p, negb (String.eqb p "")) (TrimSpace <$> source).

Definition FilterForListing (a : GroupModelAllowlist) (source : list string) : list string :=
  if negb (al_Enabled a) then source else
  match al_Models a, listing_patterns source with
  | [], _ => []
  | _, [] => []
  | models, patterns => (foldl (list_entry patterns) (∅, []) models).2
  end.
End Allowlist.

(** ** Globs *)

(** What a pattern means: [*] stands for any text, every other character for
    itself. *)
Inductive glob : string → string → Prop :=
| glob_nil : glob "" ""
| glob_char c p s : c ≠ star → glob p s → glob (String c p) (String c s)
| glob_star p t s : glob p s → glob (String star p) (t +:+ s).

(** The parts after the first star: each somewhere after the previous one, the
    last at the end. *)
Fixpoint parts_after (parts : list string) (u : string) : Prop :=
  match parts with
  | [] => False
  | [q] => ∃ a, u = a +:+ q
  | q :: rest => ∃ a b, u = a +:+ (q +:+ b) ∧ parts_after rest b
  end.

Definition parts_match (parts : list string) (s : string) : Prop :=
  match parts with
  | [] => False
  | [q] => s = q
  | q :: rest => ∃ u, s = q +:+ u ∧ parts_after rest u
  end.

Lemma parts_after_match parts u :
  parts_after parts u ↔ ∃ a s, u = a +:+ s ∧ parts_match parts s.
Proof.
  destruct parts as [|q [|q' rest]]; simpl; [naive_solver|..].
  - split; [intros [a ->]; eauto|]. intros (a & s & -> & ->). eauto.
  - split.
    + intros (a & b & -> & Hb). eauto 10.
    + intros (a & s & -> & u0 & -> & Hu). eauto 10.
Qed.

Lemma parts_match_cons c q rest s :
  parts_match (String c q :: rest) s ↔ ∃ s', s = String c s' ∧ parts_match (q :: rest) s'.
Proof.
  destruct rest as [|q' rest]; simpl.
  - naive_solver.
  - split; [intros (u & -> & Hu); rewrite app_cons_string; eauto 10|].
    intros (s' & -> & u & -> & Hu). exists u. by rewrite app_cons_string.
Qed.

Lemma glob_parts p s : glob p s ↔ parts_match (Split p star) s.
Proof.
  revert s. induction p as [|c p IH]; intros s; simpl.
  - split; [by inversion 1|]. intros ->. constructor.
  - destruct (Ascii.eqb_spec c star) as [->|Hc].
    + assert (parts_match ("" :: Split p star)%string s ↔ parts_after (Split p star) s) as ->.
      { pose proof (Split_nonempty p star). simpl. destruct (Split p star); [done|].
        split; [by intros (u & -> & Hu)|]. intros Hu. by exists s. }
      rewrite parts_after_match. split.
      * inversion 1 as [|? ? ? Hne|? t s' Hg]; subst; [done|]. exists t, s'. by rewrite <- IH.
      * intros (a & s' & -> & Hs%IH). by constructor.
    + pose proof (Split_nonempty p star) as Hne.
      destruct (Split p star) as [|q rest] eqn:Hp; [done|]. rewrite parts_match_cons. split.
      * inversion 1 as [|? ? s' ? Hg|]; subst; [|done]. exists s'. by rewrite <- IH.
      * intros (s' & -> & Hs%IH). by constructor.
Qed.

(** Text in front of what follows a star does not matter. *)
Lemma parts_after_prepend parts a u : parts_after parts u → parts_after parts (a +:+ u).
Proof.
  rewrite !parts_after_match. intros (b & s & -> & Hs). exists (a +:+ b), s.
  by rewrite app_assoc_string.
Qed.

(** The greedy search finds a match whenever there is one. *)
Lemma skip_parts_spec parts q u :
  (∃ m, skip_parts parts u = Some m ∧ HasSuffix m q = true) ↔ parts_after (parts ++ [q]) u.
Proof.
  revert u. induction parts as [|part parts IH]; intros u.
  - simpl. split; [intros (m & [= <-] & Hs%HasSuffix_spec); done|].
    intros Hs%HasSuffix_spec. eauto.
  - assert (parts_after ((part :: parts) ++ [q]) u
            ↔ ∃ a b, u = a +:+ (part +:+ b) ∧ parts_after (parts ++ [q]) b) as ->.
    { simpl. by destruct parts. }
    simpl. split.
    + destruct (Index u part) as [i|] eqn:Hi; [|by intros (? & ? & _)].
      apply Index_Some in Hi as (a & b & Hu & _ & ->). intros Hm%IH. eauto.
    + intros (a & b & -> & Hb). destruct (Index_first a part b) as (i & Hi & Hle). rewrite Hi.
      apply IH. apply Index_Some in Hi as (a' & b' & Heq & Hl & ->).
      rewrite !app_assoc_string in Heq.
      destruct (app_suffix_longer (a' +:+ part) b' (a +:+ part) b) as [x ->]; [done| |].
      * rewrite !length_app_string. lia.
      * by apply parts_after_prepend.
Qed.

Lemma skip_tail_spec tail u :
  tail ≠ [] →
  (∃ m, skip_parts (removelast tail) u = Some m ∧ HasSuffix m (List.last tail ""%string) = true)
  ↔ parts_after tail u.
Proof.
  intros Hne. rewrite skip_parts_spec.
  by rewrite <- (app_removelast_last (l := tail) ""%string Hne).
Qed.

Section Matching.
Context `{UnicodeCase}.

(** C31.  [groupAllowlistPatternMatches] decides globs: its greedy search from
    left to right accepts a model exactly when the lower-cased pattern, read
    with [*] as any text, matches the whole lower-cased model. *)
Theorem pattern_matches_glob pattern model :
  groupAllowlistPatternMatches pattern model = true ↔ glob (ToLower pattern) (ToLower model).
Proof.
  rewrite glob_parts. unfold groupAllowlistPatternMatches.
  destruct (Split (ToLower pattern) star) as [|first [|part rest]] eqn:Hs; [done|..].
  - assert (ToLower pattern = first) as <-.
    { pose proof (proj2 (glob_parts (ToLower pattern) first)) as Hg. rewrite Hs in Hg.
      specialize (Hg eq_refl). revert Hs Hg. clear. intros Hs Hg.
      apply glob_parts in Hg. revert first Hs Hg. induction (ToLower pattern) as [|c p IH];
        intros first Hs Hg; simpl in Hs; [by injection Hs|].
      case_match; [by destruct (Split_nonempty p star); injection Hs|].
      destruct (Split p star) as [|q [|]] eqn:Hp; [by destruct (Split_nonempty p star)| |done].
      injection Hs as <-. f_equal. by apply IH. }
    simpl. rewrite String.eqb_eq. naive_solver.
  - set (tail := part :: rest). assert (tail ≠ []) as Hne by done.
    change (parts_match (first :: tail) (ToLower model))
      with (∃ u, ToLower model = first +:+ u ∧ parts_after tail u).
    destruct (HasPrefix (ToLower model) first) eqn:Hp; simpl negb; cbv iota.
    + apply HasPrefix_spec in Hp as [u Hu]. rewrite Hu, slice_from_app.
      transitivity (parts_after tail u).
      * rewrite <- skip_tail_spec by done. destruct (skip_parts _ u); naive_solver.
      * split; [eauto|]. intros (u' & Heq & Hu'). apply app_inj_string in Heq. by subst.
    + split; [done|]. intros (u & Hu & _).
      assert (HasPrefix (ToLower model) first = true); [|congruence].
      apply HasPrefix_spec. eauto.
Qed.
End Matching.

(** ** Normalisation and listing *)

Section Lists.
Context `{UnicodeCase} (normalize_openai : string → string).

Lemma matches_lower_pattern p p' model :
  ToLower p = ToLower p' →
  groupAllowlistPatternMatches p model = groupAllowlistPatternMatches p' model.
Proof. unfold groupAllowlistPatternMatches. by intros ->. Qed.

Lemma matches_lower_model p m m' :
  ToLower m = ToLower m' → groupAllowlistPatternMatches p m = groupAllowlistPatternMatches p m'.
Proof. unfold groupAllowlistPatternMatches. by intros ->. Qed.

Lemma glob_refl p : glob p p.
Proof.
  induction p as [|c p IH]; [constructor|].
  destruct (decide (c = star)) as [->|Hc]; [|by constructor].
  change (String star p) with (star_string +:+ p) at 2. by constructor.
Qed.

(** A trimmed, non-empty model name. *)
Definition clean (m : string) : Prop := m ≠ "" ∧ TrimSpace m = m.

(** Some entry of the list admits [m]. *)
Definition admitted_by (entries : list string) (m : string) : Prop :=
  ∃ entry, entry ∈ entries ∧ TrimSpace entry ≠ ""
    ∧ groupAllowlistPatternMatches (TrimSpace entry) m = true.

Lemma entry_existsb entries candidates :
  existsb (λ entry,
    let entry := TrimSpace entry in
    if String.eqb entry "" then false
    else existsb (groupAllowlistPatternMatches entry) candidates) entries = true
  ↔ ∃ c, c ∈ candidates ∧ admitted_by entries c.
Proof.
  rewrite existsb_exists. split.
  - intros (entry & Hin & He). simpl in He. case_match; [done|]. bool_to_prop.
    apply existsb_exists in He as (c & Hc & Hm). exists c.
    split; [by apply list_elem_of_In|]. exists entry. by rewrite list_elem_of_In.
  - intros (c & Hc & entry & Hin & Hne & Hm). exists entry. split; [by apply list_elem_of_In|].
    simpl. rewrite (proj2 (String.eqb_neq _ _) Hne). apply existsb_exists.
    exists c. by rewrite <- list_elem_of_In.
Qed.

Lemma Allows_spec a model :
  Allows normalize_openai a model = true ↔
  al_Enabled a = false ∨ TrimSpace model = ""
  ∨ ∃ c, c ∈ groupModelAllowlistCandidates normalize_openai (TrimSpace model)
      ∧ admitted_by (al_Models a) c.
Proof.
  unfold Allows. destruct (al_Enabled a); simpl; [|naive_solver].
  destruct (String.eqb _ "") eqn:He; bool_to_prop; [naive_solver|].
  rewrite entry_existsb. naive_solver.
Qed.

Lemma add_candidate_keeps l v x : x ∈ l → x ∈ add_candidate l v.
Proof. unfold add_candidate. intros. repeat case_match; set_solver. Qed.

(** The requested name itself, lower-cased, is always a candidate. *)
Lemma candidates_self m :
  clean m → ToLower m ∈ groupModelAllowlistCandidates normalize_openai m.
Proof.
  intros [Hne Ht]. unfold groupModelAllowlistCandidates. simpl.
  do 3 apply add_candidate_keeps. unfold add_candidate. rewrite Ht.
  destruct (String.eqb (ToLower m) "") eqn:He; [|simpl; set_solver].
  bool_to_prop. by apply ToLower_empty in He.
Qed.

Lemma clean_admitted a m :
  clean m → admitted_by (al_Models a) m → Allows normalize_openai a m = true.
Proof.
  intros Hc (entry & Hin & Hne & Hm). apply Allows_spec. right; right.
  pose proof Hc as [_ Ht]. rewrite Ht. exists (ToLower m). split; [by apply candidates_self|].
  exists entry. split; [done|]. split; [done|].
  rewrite (matches_lower_model _ _ m); [done|]. apply ToLower_idem.
Qed.

(** What the normalising loop has kept of the entries [l] it has seen. *)
Record kept (l : list string) (acc : gset string * list string) : Prop := {
  kept_seen k : k ∈ acc.1 ↔ ∃ m, m ∈ acc.2 ∧ ToLower m = k;
  kept_distinct : NoDup (ToLower <$> acc.2);
  kept_clean m : m ∈ acc.2 → clean m ∧ ∃ entry, entry ∈ l ∧ TrimSpace entry = m;
  kept_all entry : entry ∈ l → TrimSpace entry ≠ "" → ToLower (TrimSpace entry) ∈ acc.1
}.

Lemma keep_model_kept l acc entry : kept l acc → kept (l ++ [entry]) (keep_model acc entry).
Proof.
  intros [Hs Hd Hc Ha]. destruct acc as [seen models]. unfold keep_model. simpl in *.
  assert (∀ m, m ∈ models → clean m ∧ ∃ e, e ∈ l ++ [entry] ∧ TrimSpace e = m) as Hc'.
  { intros m Hm. destruct (Hc m Hm) as (? & e & He & ?). split; [done|]. exists e.
    by rewrite elem_of_app; auto. }
  destruct (String.eqb (TrimSpace entry) "") eqn:He; bool_to_prop.
  { split; simpl; [done..|].
    intros x [Hx|Hx%list_elem_of_singleton]%elem_of_app Hne; [auto|by subst]. }
  case_decide as Hin.
  { split; simpl; [done..|].
    intros x [Hx|Hx%list_elem_of_singleton]%elem_of_app Hne; [auto|by subst]. }
  split; simpl.
  - intros k. rewrite elem_of_union, elem_of_singleton, Hs. split.
    + intros [->|(m & Hm & Hk)]; [exists (TrimSpace entry)|exists m]; set_solver.
    + intros (m & [Hm|Hm%list_elem_of_singleton]%elem_of_app & Hk); [eauto|]. subst. by left.
  - rewrite fmap_app. apply NoDup_app. split; [done|]. split; [|apply NoDup_singleton].
    simpl. intros k Hk Hk'. apply list_elem_of_singleton in Hk'. subst.
    apply Hin. apply list_elem_of_fmap in Hk as (m & Hm & Hin'). apply Hs. eauto.
  - intros m [Hm|Hm%list_elem_of_singleton]%elem_of_app; [by apply Hc'|]. subst. split.
    + split; [done|apply TrimSpace_idem].
    + exists entry. split; [|done]. apply elem_of_app. right. by apply list_elem_of_singleton.
  - intros x [Hx|Hx%list_elem_of_singleton]%elem_of_app Hne; rewrite elem_of_union; [auto|].
    left. subst. by apply elem_of_singleton.
Qed.

Lemma keep_models_kept l : kept l (foldl keep_model (∅, []) l).
Proof.
  induction l as [|l entry IH] using rev_ind.
  - split; simpl; [set_solver|constructor|by intros ? ?%elem_of_nil|by intros ? ?%elem_of_nil].
  - rewrite foldl_app. simpl. by apply keep_model_kept.
Qed.

Lemma admitted_by_kept l acc m :
  kept l acc → (admitted_by acc.2 m ↔ admitted_by l m).
Proof.
  intros [Hs Hd Hc Ha]. split.
  - intros (entry & Hin & Hne & Hm). destruct (Hc entry Hin) as ([_ Ht] & x & Hx & Hxe).
    exists x. rewrite Hxe. rewrite Ht in Hne, Hm. done.
  - intros (entry & Hin & Hne & Hm). pose proof (Ha entry Hin Hne) as Hk.
    apply Hs in Hk as (x & Hx & Hlow). exists x. destruct (Hc x Hx) as ([Hne' Ht] & _).
    split; [done|]. rewrite Ht. split; [done|].
    by rewrite (matches_lower_pattern x (TrimSpace entry)).
Qed.

(**  Normalising a submitted list: it is refused exactly when it is enabled
    and has only blank entries; otherwise the entries are trimmed, not blank
    and distinct up to case, and the list admits the same models as the
    submitted one. *)
Theorem normalization_preserves_admission cfg :
  match normalizeGroupModelAllowlist cfg with
  | inl _ => al_Enabled cfg = true ∧ ∀ entry, entry ∈ al_Models cfg → TrimSpace entry = ""
  | inr out =>
      al_Enabled out = al_Enabled cfg
      ∧ (al_Enabled out = true → al_Models out ≠ [])
      ∧ (∀ m, m ∈ al_Models out → clean m)
      ∧ NoDup (ToLower <$> al_Models out)
      ∧ ∀ model, Allows normalize_openai out model = Allows normalize_openai cfg model
  end.
Proof.
  pose proof (keep_models_kept (al_Models cfg)) as Hk.
  assert (∀ out, al_Enabled out = al_Enabled cfg →
    al_Models out = (foldl keep_model (∅, []) (al_Models cfg)).2 →
    ∀ model, Allows normalize_openai out model = Allows normalize_openai cfg model) as Hsame.
  { intros out He Hm model. apply eq_true_iff_eq. rewrite !Allows_spec, He, Hm.
    setoid_rewrite (admitted_by_kept _ _ _ Hk). done. }
  assert ((foldl keep_model (∅, []) (al_Models cfg)).2 = [] →
    ∀ entry, entry ∈ al_Models cfg → TrimSpace entry = "") as Hblank.
  { intros Hnil entry Hin. destruct (decide (TrimSpace entry = "")) as [|Hne]; [done|].
    apply (kept_all _ _ Hk) in Hin; [|done]. apply (kept_seen _ _ Hk) in Hin as (m & Hm & _).
    rewrite Hnil in Hm. by apply elem_of_nil in Hm. }
  pose proof (λ m Hm, proj1 (kept_clean _ _ Hk m Hm)) as Hclean.
  pose proof (kept_distinct _ _ Hk) as Hdist.
  unfold normalizeGroupModelAllowlist.
  destruct (al_Models cfg) as [|x l]; [|destruct (foldl _ _ _).2 as [|y out]];
    destruct (al_Enabled cfg); simpl; auto 10.
Qed.

(** What the listing loops maintain. *)
Record listed (a : GroupModelAllowlist) (acc : gset string * list string) : Prop := {
  listed_seen k : k ∈ acc.1 ↔ ∃ m, m ∈ acc.2 ∧ ToLower m = k;
  listed_distinct : NoDup (ToLower <$> acc.2);
  listed_ok m : m ∈ acc.2 → clean m ∧ admitted_by (al_Models a) m
}.

Lemma add_listed_listed a acc m :
  clean m → admitted_by (al_Models a) m → listed a acc → listed a (add_listed acc m).
Proof.
  intros Hm Hadm [Hs Hd Hc]. destruct acc as [seen ms]. unfold add_listed. simpl in *.
  case_decide as Hin; [done|]. split; simpl.
  - intros k. rewrite elem_of_union, elem_of_singleton, Hs. split.
    + intros [->|(x & Hx & Hk)]; [exists m|exists x]; set_solver.
    + intros (x & [Hx|Hx%list_elem_of_singleton]%elem_of_app & Hk); [eauto|]. subst. by left.
  - rewrite fmap_app. apply NoDup_app. split; [done|]. split; [|apply NoDup_singleton].
    simpl. intros k Hk Hk'. apply list_elem_of_singleton in Hk'. subst.
    apply Hin. apply list_elem_of_fmap in Hk as (x & Hx & Hin'). apply Hs. eauto.
  - intros x [Hx|Hx%list_elem_of_singleton]%elem_of_app; [by apply Hc|by subst].
Qed.

Lemma listing_patterns_clean source p : p ∈ listing_patterns source → clean p.
Proof.
  unfold listing_patterns. intros [Hin Hne]%list_elem_of_In%filter_In. bool_to_prop.
  split; [done|]. apply list_elem_of_In, list_elem_of_fmap in Hin as (x & -> & _).
  apply TrimSpace_idem.
Qed.

(** An entry admits its own text. *)
Lemma entry_admits_itself entries entry :
  entry ∈ entries → TrimSpace entry ≠ "" → admitted_by entries (TrimSpace entry).
Proof.
  intros Hin Hne. exists entry. split; [done|]. split; [done|].
  apply pattern_matches_glob, glob_refl.
Qed.

Lemma list_entry_listed a patterns acc entry :
  (∀ p, p ∈ patterns → clean p) → entry ∈ al_Models a →
  listed a acc → listed a (list_entry patterns acc entry).
Proof.
  intros Hp Hin Hacc. unfold list_entry.
  destruct (String.eqb (TrimSpace entry) "") eqn:He; [done|]. bool_to_prop.
  assert (clean (TrimSpace entry)) as Hce by (split; [done|apply TrimSpace_idem]).
  pose proof (entry_admits_itself _ _ Hin He) as Hself.
  case_match; [|case_match; [by apply add_listed_listed|done]].
  induction patterns as [|p ps IH] in acc, Hp, Hacc |- *; simpl; [done|].
  apply IH; [set_solver|]. destruct (groupAllowlistPatternMatches (TrimSpace entry) p) eqn:Hm.
  - apply add_listed_listed; [set_solver| |done]. by exists entry.
  - case_match; [by apply add_listed_listed|done].
Qed.

Lemma list_entries_listed a source acc entries :
  entries ⊆ al_Models a →
  listed a acc → listed a (foldl (list_entry (listing_patterns source)) acc entries).
Proof.
  revert acc. induction entries as [|e es IH]; intros acc Hsub Hacc; simpl; [done|].
  apply IH; [set_solver|]. apply list_entry_listed; [apply listing_patterns_clean|set_solver|done].
Qed.

(**  What clients are shown, they may call: every model the listing of an
    enabled list shows is admitted by it, and none is shown twice. *)
Theorem listed_models_allowed a source
    (Henabled : al_Enabled a = true) :
  NoDup (ToLower <$> FilterForListing a source)
  ∧ ∀ m, m ∈ FilterForListing a source → Allows normalize_openai a m = true.
Proof.
  unfold FilterForListing. rewrite Henabled. simpl.
  destruct (al_Models a) as [|x l] eqn:Hms; [split; [constructor|by intros ? ?%elem_of_nil]|].
  destruct (listing_patterns source) as [|p ps] eqn:Hps;
    [split; [constructor|by intros ? ?%elem_of_nil]|].
  change (foldl (list_entry (p :: ps)) (list_entry (p :: ps) (∅, []) x) l)
    with (foldl (list_entry (p :: ps)) (∅, []) (x :: l)).
  rewrite <- Hms, <- Hps.
  assert (listed a (foldl (list_entry (listing_patterns source)) (∅, []) (al_Models a)))
    as [Hs Hd Hc].
  { apply list_entries_listed; [done|]. split; simpl; [set_solver|constructor|by intros ? ?%elem_of_nil]. }
  split; [done|]. intros m Hm. destruct (Hc m Hm). by apply clean_admitted.
Qed.
End Lists.

(** ** Instances *)

#[local] Existing Instance ascii_case.

Definition demo_allowlist : GroupModelAllowlist :=
  mkGroupModelAllowlist true [" GPT-*-mini "; "claude-sonnet-4-5"; "gpt-*-MINI"]%string.

Example demo_matches :
  groupAllowlistPatternMatches "a*b*c" "aXbYbZc" = true
  ∧ groupAllowlistPatternMatches "a*b*bc" "abc" = false
  ∧ groupAllowlistPatternMatches "gpt-*-mini" "GPT-5-mini" = true.
Proof. by vm_compute. Qed.

Lemma listed_models_allowed_witness :
  al_Enabled demo_allowlist = true
  ∧ FilterForListing demo_allowlist ["gpt-5-mini"; "gpt-5"; "claude-*"]%string
    = ["gpt-5-mini"; "claude-sonnet-4-5"]%string
  ∧ ∀ m, m ∈ FilterForListing demo_allowlist ["gpt-5-mini"; "gpt-5"; "claude-*"]%string →
      Allows id demo_allowlist m = true.
Proof.
  split; [done|]. split; [by vm_compute|]. by apply (listed_models_allowed id demo_allowlist).
Defined.
