(* ===== verification/CompositeRouting.v ===== *)
(** * Routing of models in composite groups

    [service/composite_model_route.go], [service/composite_route_resolver.go],
    [service/composite_platform.go] (the built-in detector) and the registry of
    [domain/platforms.go].  A composite group serves models of several
    providers; explicit routes come first, then the ownership claimed by
    accounts, then the detector. *)

From Stdlib Require Import ZArith Lia Ascii String Sorted.
From stdpp Require Import base tactics numbers list gmap strings.
From S2P Require Import Prelude GoStrings.

Open Scope string_scope.
Open Scope list_scope.
Open Scope Z_scope.

(** ** Platforms *)

Definition PlatformAnthropic := "anthropic".
Definition PlatformOpenAI := "openai".
Definition PlatformGemini := "gemini".
Definition PlatformAntigravity := "antigravity".
Definition PlatformGrok := "grok".
Definition PlatformKimi := "kimi".
Definition PlatformZhipu := "zhipu".
Definition PlatformDeepseek := "deepseek".
Definition PlatformStepFun := "stepfun".
Definition PlatformMiniMax := "minimax".
Definition PlatformTypeSafe := "typesafe".
Definition PlatformOpenCodeGo := "opencode_go".
Definition PlatformCommandCode := "command_code".
Definition PlatformCline := "cline".
Definition PlatformComposite := "composite".

Inductive PlatformGateway := GatewayAnthropic | GatewayOpenAI | GatewayGemini | GatewayAntigravity.

#[export] Instance PlatformGateway_eq_dec : EqDecision PlatformGateway.
Proof. solve_decision. Defined.

Record PlatformSpec := mkPlatformSpec {
  plat_ID : string;
  plat_DisplayName : string;
  plat_Gateway : PlatformGateway;
  plat_CNProvider : bool;
  plat_LiteLLMProvider : string
}.

Definition platformList : list PlatformSpec :=
  [mkPlatformSpec PlatformAnthropic "Anthropic" GatewayAnthropic false "anthropic";
   mkPlatformSpec PlatformOpenAI "OpenAI" GatewayOpenAI false "openai";
   mkPlatformSpec PlatformGemini "Gemini" GatewayGemini false "gemini";
   mkPlatformSpec PlatformAntigravity "Antigravity" GatewayAntigravity false "anthropic";
   mkPlatformSpec PlatformGrok "Grok" GatewayOpenAI false "xai";
   mkPlatformSpec PlatformKimi "Kimi" GatewayOpenAI true "moonshot";
   mkPlatformSpec PlatformZhipu "Zhipu GLM" GatewayOpenAI true "zhipu";
   mkPlatformSpec PlatformDeepseek "DeepSeek" GatewayOpenAI true "deepseek";
   mkPlatformSpec PlatformMiniMax "MiniMax" GatewayOpenAI true "minimax";
   mkPlatformSpec PlatformStepFun "StepFun" GatewayOpenAI true "stepfun";
   mkPlatformSpec PlatformOpenCodeGo "OpenCode" GatewayOpenAI false "opencode-go";
   mkPlatformSpec PlatformTypeSafe "TypeSafe / Jev" GatewayAnthropic false "typesafe";
   mkPlatformSpec PlatformCommandCode "Command Code" GatewayOpenAI false "";
   mkPlatformSpec PlatformCline "Cline" GatewayOpenAI false ""].

(** [platformIndex]: the last position wins when an id is listed twice. *)
Definition platformIndex : gmap string nat :=
  foldl (λ m e, <[plat_ID e.2 := e.1]> m) ∅ (zip (seq 0 (length platformList)) platformList).

Definition LookupPlatform (id : string) : option PlatformSpec :=
  i ← platformIndex !! id; platformList !! i.

Definition IsConcretePlatform (id : string) : bool := bool_decide (is_Some (platformIndex !! id)).
Definition IsGroupPlatform (id : string) : bool :=
  String.eqb id PlatformComposite || IsConcretePlatform id.
Definition PlatformIDsWhere (test : PlatformSpec → bool) : list string :=
  plat_ID <$> List.filter test platformList.
Definition ConcretePlatformIDs : list string := PlatformIDsWhere (λ _, true).

Definition compositePrecedenceHead : list string := [PlatformAnthropic; PlatformGemini; PlatformOpenAI].

Definition CompositePrecedencePlatformIDs : list string :=
  let head := List.filter IsConcretePlatform compositePrecedenceHead in
  head ++ List.filter (λ id, negb (existsb (String.eqb id) head)) (plat_ID <$> platformList).

Definition UsesOpenAIGateway (id : string) : bool :=
  match LookupPlatform id with
  | Some spec => bool_decide (plat_Gateway spec = GatewayOpenAI)
  | None => false
  end.

Definition IsCNProviderPlatform (id : string) : bool :=
  match LookupPlatform id with Some spec => plat_CNProvider spec | None => false end.

(** ** The detector *)

Definition isOneOf (s : string) (l : list string) : bool := existsb (String.eqb s) l.
Definition hasOneOf (s : string) (prefixes : list string) : bool := existsb (HasPrefix s) prefixes.

Definition hasOpenAISeriesPrefix (model : string) : bool :=
  existsb (λ prefix, String.eqb model prefix || HasPrefix model (prefix +:+ "-"))
    ["o1"; "o3"; "o4"; "o5"].

(** The [switch] on the part before a slash. *)
Definition provider_platform (provider : string) : option string :=
  if isOneOf provider ["anthropic"; "claude"] then Some PlatformAnthropic
  else if isOneOf provider ["openai"; "chatgpt"] then Some PlatformOpenAI
  else if isOneOf provider ["google"; "google-ai-studio"; "gemini"] then Some PlatformGemini
  else if isOneOf provider ["xai"; "x-ai"; "grok"] then Some PlatformGrok
  else if isOneOf provider ["kimi"; "moonshot"] then Some PlatformKimi
  else if isOneOf provider ["zhipu"; "glm"; "bigmodel"] then Some PlatformZhipu
  else if isOneOf provider ["deepseek"] then Some PlatformDeepseek
  else if isOneOf provider ["step"; "stepfun"] then Some PlatformStepFun
  else if isOneOf provider ["minimax"] then Some PlatformMiniMax
  else if isOneOf provider ["typesafe"; "jev"] then Some PlatformTypeSafe
  else None.

(** The [switch] on the model name. *)
Definition name_platform (normalized : string) : option string :=
  if hasOneOf normalized ["anthropic.claude-"; "claude-"] then Some PlatformAnthropic
  else if hasOneOf normalized ["gpt-"; "chatgpt-"; "codex-"; "text-embedding-";
            "text-moderation-"; "omni-moderation-"; "dall-e-"; "gpt-image-"; "tts-"; "whisper-"]
          || hasOpenAISeriesPrefix normalized then Some PlatformOpenAI
  else if hasOneOf normalized ["gemini-"; "learnlm-"] then Some PlatformGemini
  else if isOneOf normalized ["grok"] || hasOneOf normalized ["grok-"] then Some PlatformGrok
  else if isOneOf normalized ["k3"; "k3-256k"] || hasOneOf normalized ["kimi-"; "moonshot-"]
       then Some PlatformKimi
  else if hasOneOf normalized ["glm-"] then Some PlatformZhipu
  else if hasOneOf normalized ["deepseek-"] then Some PlatformDeepseek
  else if hasOneOf normalized ["step-"] then Some PlatformStepFun
  else if hasOneOf normalized ["minimax-"; "abab5"; "abab6"; "abab7"] then Some PlatformMiniMax
  else if isOneOf normalized ["jev-latest"] || hasOneOf normalized ["jev-"] then Some PlatformTypeSafe
  else None.

Section Routing.
Context `{UnicodeCase}.

Definition DetectModelPlatform (model : string) : option string :=
  let normalized := ToLower (TrimSpace model) in
  if String.eqb normalized "" then None else
  let normalized := TrimPrefix normalized "models/" in
  match Index normalized "/" with
  | Some (S _ as slash) =>
      let provider := TrimSpace (slice_to slash normalized) in
      let rest := TrimSpace (slice_from (slash + 1) normalized) in
      match provider_platform provider with
      | Some platform => Some platform
      | None => name_platform (if String.eqb rest "" then normalized else TrimPrefix rest "models/")
      end
  | _ => name_platform normalized
  end.

Definition isConcreteRequestPlatform (platform : string) : bool := IsConcretePlatform platform.

(** ** Routes *)

Definition CompositeRouteMatchExact := "exact".
Definition CompositeRouteMatchPrefix := "prefix".
Definition CompositeRouteEndpointAny := "any".
Definition CompositeRouteEndpointResponses := "responses".

(** The endpoints other than [any]. *)
Definition CompositeRouteEndpoints : list string :=
  ["messages"; "count_tokens"; CompositeRouteEndpointResponses; "chat_completions"; "embeddings";
   "images"; "gemini"].

Record CompositeModelRoute := mkRoute {
  rt_ID : Z;
  rt_GroupID : Z;
  rt_PublicModel : string;
  rt_MatchType : string;
  rt_TargetPlatform : string;
  rt_UpstreamModel : string;
  rt_Endpoint : string;
  rt_Priority : Z;
  rt_Enabled : bool;
  rt_Notes : string
}.

Record CompositeRouteInput := mkRouteInput {
  in_PublicModel : string;
  in_MatchType : string;
  in_TargetPlatform : string;
  in_UpstreamModel : string;
  in_Endpoint : string;
  in_Priority : Z;
  in_Enabled : bool;
  in_Notes : string
}.

Definition normalizeCompositeRouteEndpoint (endpoint : string) : string :=
  let endpoint := ToLower (TrimSpace endpoint) in
  if String.eqb endpoint "" then CompositeRouteEndpointAny
  else if isOneOf endpoint CompositeRouteEndpoints then endpoint
  else CompositeRouteEndpointAny.

Definition normalizeCompositeRouteMatchType (matchType : string) : string :=
  if String.eqb (ToLower (TrimSpace matchType)) CompositeRouteMatchPrefix
  then CompositeRouteMatchPrefix else CompositeRouteMatchExact.

Definition normalizeCompositeRouteInput (input : CompositeRouteInput) : CompositeRouteInput :=
  let publicModel := TrimSpace (in_PublicModel input) in
  let matchType := normalizeCompositeRouteMatchType (in_MatchType input) in
  let upstream := TrimSpace (in_UpstreamModel input) in
  let upstream := if String.eqb upstream "" && String.eqb matchType CompositeRouteMatchExact
                  then publicModel else upstream in
  mkRouteInput publicModel matchType (TrimSpace (in_TargetPlatform input)) upstream
    (normalizeCompositeRouteEndpoint (in_Endpoint input)) (in_Priority input) (in_Enabled input)
    (TrimSpace (in_Notes input)).

Record candidate := mkCandidate {
  cd_route : CompositeModelRoute;
  cd_matchStrength : Z;
  cd_endpointWeight : Z;
  cd_prefixLen : Z
}.

Definition set_match (r : CompositeModelRoute) (endpoint matchType : string) : CompositeModelRoute :=
  mkRoute (rt_ID r) (rt_GroupID r) (rt_PublicModel r) matchType (rt_TargetPlatform r)
    (rt_UpstreamModel r) endpoint (rt_Priority r) (rt_Enabled r) (rt_Notes r).

(** One iteration of the first loop of [matchCompositeRoute]; [None] is
    [continue]. *)
Definition candidate_of (model endpoint : string) (route : CompositeModelRoute) : option candidate :=
  let ep := normalizeCompositeRouteEndpoint (rt_Endpoint route) in
  if negb (String.eqb ep endpoint) && negb (String.eqb ep CompositeRouteEndpointAny) then None else
  let mt := normalizeCompositeRouteMatchType (rt_MatchType route) in
  let publicModel := TrimSpace (rt_PublicModel route) in
  if String.eqb publicModel "" then None else
  let weight := if String.eqb ep endpoint then 1 else 0 in
  if String.eqb mt CompositeRouteMatchExact then
    if String.eqb publicModel model
    then Some (mkCandidate (set_match route ep mt) 2 weight (len publicModel)) else None
  else if String.eqb mt CompositeRouteMatchPrefix then
    if HasPrefix model publicModel
    then Some (mkCandidate (set_match route ep mt) 1 weight (len publicModel)) else None
  else None.

(** The comparison of the sort: [a] comes before [b]. *)
Definition better (a b : candidate) : bool :=
  if negb (cd_matchStrength a =? cd_matchStrength b) then cd_matchStrength b <? cd_matchStrength a
  else if negb (cd_endpointWeight a =? cd_endpointWeight b)
       then cd_endpointWeight b <? cd_endpointWeight a
  else if negb (cd_prefixLen a =? cd_prefixLen b) then cd_prefixLen b <? cd_prefixLen a
  else if negb (rt_Priority (cd_route a) =? rt_Priority (cd_route b))
       then rt_Priority (cd_route a) <? rt_Priority (cd_route b)
  else rt_ID (cd_route a) <? rt_ID (cd_route b).

(** [sort.SliceStable]: insertion after every element that is not greater. *)
Fixpoint insert_stable (x : candidate) (l : list candidate) : list candidate :=
  match l with
  | [] => [x]
  | y :: l => if better x y then x :: y :: l else y :: insert_stable x l
  end.

Definition SliceStable (l : list candidate) : list candidate :=
  foldl (λ sorted x, insert_stable x sorted) [] l.

Definition matchCompositeRoute (routes : list CompositeModelRoute) (model endpoint : string)
    : option CompositeModelRoute :=
  cd_route <$> head (SliceStable (omap (candidate_of model endpoint) routes)).

(** ** Resolution *)

Record CompositeModelOwnership := mkOwnership {
  own_TargetPlatform : string;
  own_Matched : bool;
  own_Ambiguous : bool;
  own_OpenAIGatewayOAuthClaimed : bool
}.

Inductive decision_reason :=
| ReasonNone
| ReasonModelRequired
| ReasonAmbiguous
| ReasonOAuthAmbiguous
| ReasonNoConcretePlatform
| ReasonNoMatch.

Inductive decision_source := SourceNone | SourceExplicit | SourceDetector | SourceAccount.

Record CompositeRouteDecision := mkDecision {
  dc_Matched : bool;
  dc_Source : decision_source;
  dc_GroupID : Z;
  dc_PublicModel : string;
  dc_TargetPlatform : string;
  dc_UpstreamModel : string;
  dc_Endpoint : string;
  dc_Route : option CompositeModelRoute;
  dc_Reason : decision_reason
}.

Definition OAuthAmbiguous (d : CompositeRouteDecision) : bool :=
  negb (dc_Matched d) && match dc_Reason d with ReasonOAuthAmbiguous => true | _ => false end.

(** The collaborators of the resolver; an absent one is [nil].  A [None] answer
    is an error of the collaborator. *)
Record CompositeRouteResolver := mkResolver {
  rs_ListByGroup : option (Z → option (list CompositeModelRoute));
  rs_modelOwnership : option (Z → string → option CompositeModelOwnership);
  rs_nativeAccess : option (CompositeRouteDecision → string → option bool)
}.

Inductive resolve_error := ErrListRoutes | ErrResolveOwnership.

Section Resolve.
Context (r : CompositeRouteResolver) (groupID : Z).

(** The tail of [Resolve]: the built-in detector. *)
Definition detect (model endpoint : string) : CompositeRouteDecision :=
  match DetectModelPlatform model with
  | Some platform => mkDecision true SourceDetector groupID model platform model endpoint None ReasonNone
  | None => mkDecision false SourceNone groupID model "" "" endpoint None ReasonNoMatch
  end.

(** The middle of [Resolve]: the ownership claimed by accounts. *)
Definition by_ownership (model endpoint : string) : resolve_error + CompositeRouteDecision :=
  let unmatched := λ reason, mkDecision false SourceNone groupID model "" "" endpoint None reason in
  match rs_modelOwnership r with
  | Some resolver =>
      if 0 <? groupID then
        match resolver groupID model with
        | None =>
            match DetectModelPlatform model with
            | Some _ => inr (detect model endpoint)
            | None => inl ErrResolveOwnership
            end
        | Some ownership =>
            if own_Ambiguous ownership then
              match DetectModelPlatform model with
              | Some guessed =>
                  if own_OpenAIGatewayOAuthClaimed ownership && UsesOpenAIGateway guessed
                  then inr (unmatched ReasonOAuthAmbiguous)
                  else inr (unmatched ReasonAmbiguous)
              | None => inr (unmatched ReasonAmbiguous)
              end
            else if own_Matched ownership then
              let platform := TrimSpace (own_TargetPlatform ownership) in
              if isConcreteRequestPlatform platform
              then inr (mkDecision true SourceAccount groupID model platform model endpoint None
                          ReasonNone)
              else inr (unmatched ReasonNoConcretePlatform)
            else inr (detect model endpoint)
        end
      else inr (detect model endpoint)
  | None => inr (detect model endpoint)
  end.

Definition Resolve (model endpoint : string) : resolve_error + CompositeRouteDecision :=
  let model := TrimSpace model in
  let endpoint := normalizeCompositeRouteEndpoint endpoint in
  if String.eqb model ""
  then inr (mkDecision false SourceNone groupID model "" "" endpoint None ReasonModelRequired) else
  match rs_ListByGroup r with
  | Some list =>
      if 0 <? groupID then
        match list groupID with
        | None => inl ErrListRoutes
        | Some routes =>
            match matchCompositeRoute routes model endpoint with
            | Some route =>
                let upstream := TrimSpace (rt_UpstreamModel route) in
                inr (mkDecision true SourceExplicit groupID model (rt_TargetPlatform route)
                       (if String.eqb upstream "" then model else upstream) endpoint (Some route)
                       ReasonNone)
            | None => by_ownership model endpoint
            end
        end
      else by_ownership model endpoint
  | None => by_ownership model endpoint
  end.

Definition filterSystemOneRouteModels (routes : list CompositeModelRoute) (models : list string)
    (endpoint : string) : list string :=
  List.filter (λ model,
    match matchCompositeRoute routes model (normalizeCompositeRouteEndpoint endpoint) with
    | Some route => negb (String.eqb (rt_TargetPlatform route) PlatformTypeSafe)
    | None => true
    end) models.

Definition exact_public_model (endpoint : string) (route : CompositeModelRoute) : option string :=
  let ep := normalizeCompositeRouteEndpoint (rt_Endpoint route) in
  if rt_Enabled route && String.eqb (rt_MatchType route) CompositeRouteMatchExact
     && (String.eqb endpoint "" || String.eqb ep CompositeRouteEndpointAny || String.eqb ep endpoint)
  then let model := TrimSpace (rt_PublicModel route) in
       if String.eqb model "" then None else Some model
  else None.

Definition ListExactPublicModels (endpoint : string) (includeSystemOne : bool)
    : option (list string) :=
  match rs_ListByGroup r with
  | Some list =>
      if 0 <? groupID then
        routes ← list groupID;
        let models := omap (exact_public_model endpoint) routes in
        Some (if includeSystemOne then models else filterSystemOneRouteModels routes models endpoint)
      else Some []
  | None => Some []
  end.

Definition FilterCodexModels (models : list string) : option (list string) :=
  match rs_ListByGroup r with
  | Some list =>
      if 0 <? groupID then
        routes ← list groupID;
        Some (filterSystemOneRouteModels routes models CompositeRouteEndpointResponses)
      else Some models
  | None => Some models
  end.

Definition APIProtocolAnthropic := "anthropic".

Definition NativeAccessAllowed (decision : CompositeRouteDecision) (protocol : string)
    : option bool :=
  let target := dc_TargetPlatform decision in
  if negb (dc_Matched decision) then Some false
  else if String.eqb protocol "" then Some true
  else if String.eqb target PlatformAnthropic && negb (String.eqb protocol APIProtocolAnthropic)
  then Some false
  else if (String.eqb target PlatformGemini || String.eqb target PlatformAntigravity)
          && negb (String.eqb protocol "gemini")
  then Some false
  else if String.eqb target PlatformOpenAI && String.eqb protocol APIProtocolAnthropic
  then Some false
  else if String.eqb target PlatformTypeSafe && negb (String.eqb protocol "systemone")
  then Some false
  else match rs_nativeAccess r with
       | Some resolver => resolver decision protocol
       | None => Some true
       end.
End Resolve.
End Routing.

(** ** Which route wins *)

(** Lexicographic order of lists of the same length. *)
Fixpoint lex_lt (a b : list Z) : Prop :=
  match a, b with
  | x :: a, y :: b => x < y ∨ (x = y ∧ lex_lt a b)
  | _, _ => False
  end.

(** Exact routes before prefixes, routes of the endpoint before those of any
    endpoint, longer names before shorter ones, then smaller priority numbers,
    then smaller ids. *)
Definition rank (c : candidate) : list Z :=
  [- cd_matchStrength c; - cd_endpointWeight c; - cd_prefixLen c;
   rt_Priority (cd_route c); rt_ID (cd_route c)].

Lemma better_rank a b : better a b = true ↔ lex_lt (rank a) (rank b).
Proof.
  unfold better. simpl. repeat case_match; bool_to_prop; rewrite ?Z.ltb_lt; lia.
Qed.

Lemma better_false a b : better a b = false ↔ ¬ lex_lt (rank a) (rank b).
Proof. rewrite <- better_rank. symmetry; apply not_true_iff_false. Qed.

(** [a] need not come after [b]. *)
Definition not_after (a b : candidate) : Prop := better b a = false.

#[export] Instance not_after_transitive : Transitive not_after.
Proof. intros a b c. unfold not_after. rewrite !better_false. simpl. lia. Qed.

Lemma insert_stable_elem x y l : y ∈ insert_stable x l ↔ y = x ∨ y ∈ l.
Proof.
  induction l as [|z l IH]; simpl; [set_solver|]. case_match; [set_solver|].
  rewrite !elem_of_cons, IH. tauto.
Qed.

Lemma insert_stable_sorted x l :
  StronglySorted not_after l → StronglySorted not_after (insert_stable x l).
Proof.
  induction 1 as [|y l Hl IH Hall]; simpl; [repeat constructor|].
  destruct (better x y) eqn:Hb.
  - assert (not_after x y) as Hxy.
    { unfold not_after. apply better_false. apply better_rank in Hb. simpl in *. lia. }
    constructor; [by constructor|]. constructor; [done|].
    rewrite Forall_forall in *. intros z Hz. etrans; [done|by apply Hall].
  - constructor; [done|]. rewrite Forall_forall in *. intros z Hz%insert_stable_elem.
    destruct Hz as [->|Hz]; [done|by apply Hall].
Qed.

Lemma SliceStable_spec l :
  StronglySorted not_after (SliceStable l) ∧ ∀ x, x ∈ SliceStable l ↔ x ∈ l.
Proof.
  induction l as [|y l [IHs IHe]] using rev_ind; unfold SliceStable in *;
    [split; [constructor|done]|].
  rewrite foldl_app. simpl. split; [by apply insert_stable_sorted|].
  intros x. rewrite insert_stable_elem, IHe, elem_of_app, list_elem_of_singleton. tauto.
Qed.

Section RouteFacts.
Context `{UnicodeCase}.

(** A route applies to a request: its endpoint is the request's or any, and its
    trimmed name is the model (exact) or a prefix of it (prefix). *)
Definition applies (model endpoint : string) (route : CompositeModelRoute) : Prop :=
  let ep := normalizeCompositeRouteEndpoint (rt_Endpoint route) in
  let mt := normalizeCompositeRouteMatchType (rt_MatchType route) in
  let name := TrimSpace (rt_PublicModel route) in
  (ep = endpoint ∨ ep = CompositeRouteEndpointAny) ∧ name ≠ ""
  ∧ (mt = CompositeRouteMatchExact ∧ name = model
     ∨ mt = CompositeRouteMatchPrefix ∧ ∃ rest, model = name +:+ rest).

(** The rank of an applicable route, in terms of the route alone. *)
Definition route_rank (endpoint : string) (route : CompositeModelRoute) : list Z :=
  [if String.eqb (normalizeCompositeRouteMatchType (rt_MatchType route)) CompositeRouteMatchExact
   then -2 else -1;
   if String.eqb (normalizeCompositeRouteEndpoint (rt_Endpoint route)) endpoint then -1 else 0;
   - len (TrimSpace (rt_PublicModel route)); rt_Priority route; rt_ID route].

Lemma match_type_cases m :
  normalizeCompositeRouteMatchType m = CompositeRouteMatchExact
  ∨ normalizeCompositeRouteMatchType m = CompositeRouteMatchPrefix.
Proof. unfold normalizeCompositeRouteMatchType. case_match; auto. Qed.

Lemma candidate_of_spec model endpoint route :
  match candidate_of model endpoint route with
  | Some c =>
      applies model endpoint route ∧ rank c = route_rank endpoint route
      ∧ cd_route c = set_match route (normalizeCompositeRouteEndpoint (rt_Endpoint route))
                       (normalizeCompositeRouteMatchType (rt_MatchType route))
  | None => ¬ applies model endpoint route
  end.
Proof.
  unfold candidate_of, applies, route_rank, rank.
  set (ep := normalizeCompositeRouteEndpoint _). set (name := TrimSpace _).
  destruct (String.eqb ep endpoint) eqn:He, (String.eqb ep CompositeRouteEndpointAny) eqn:Ha;
    bool_to_prop; simpl; try (intros [[?|?] _]; congruence).
  all: destruct (String.eqb name "") eqn:Hn; bool_to_prop; [by intros (_ & ? & _)|].
  all: destruct (match_type_cases (rt_MatchType route)) as [->| ->]; simpl.
  all: match goal with
       | |- context [HasPrefix ?m ?n] => destruct (HasPrefix m n) eqn:Hm
       | |- context [String.eqb ?n ?m] => destruct (String.eqb n m) eqn:Hm
       end; bool_to_prop; try (apply HasPrefix_spec in Hm); simpl; auto 10.
  all: intros (_ & _ & [[? ?]|[? Hp]]); try done.
  all: apply HasPrefix_spec in Hp; congruence.
Qed.

(** C33.  The chosen route: there is one exactly when some route of the group
    applies, it is an applicable route with its endpoint and match type in
    normal form, and no applicable route outranks it. *)
Theorem best_route_chosen routes model endpoint :
  match matchCompositeRoute routes model endpoint with
  | None => ∀ route, route ∈ routes → ¬ applies model endpoint route
  | Some chosen =>
      ∃ route, route ∈ routes ∧ applies model endpoint route
        ∧ chosen = set_match route (normalizeCompositeRouteEndpoint (rt_Endpoint route))
                     (normalizeCompositeRouteMatchType (rt_MatchType route))
        ∧ ∀ other, other ∈ routes → applies model endpoint other →
            ¬ lex_lt (route_rank endpoint other) (route_rank endpoint route)
  end.
Proof.
  unfold matchCompositeRoute.
  set (cs := omap (candidate_of model endpoint) routes).
  assert (∀ route, route ∈ routes → applies model endpoint route →
    ∃ c, c ∈ cs ∧ rank c = route_rank endpoint route) as Hcs.
  { intros route Hin Happ. pose proof (candidate_of_spec model endpoint route) as Hc.
    destruct (candidate_of model endpoint route) as [c|] eqn:Hco; [|done].
    exists c. split; [|by apply Hc]. apply list_elem_of_omap. eauto. }
  destruct (SliceStable_spec cs) as [Hs He].
  destruct (SliceStable cs) as [|c l]; simpl.
  - intros route Hin Happ. destruct (Hcs route Hin Happ) as (c & Hc & _).
    apply He in Hc. by apply elem_of_nil in Hc.
  - assert (c ∈ cs) as Hin by (apply He; set_solver).
    apply list_elem_of_omap in Hin as (route & Hroute & Hco).
    pose proof (candidate_of_spec model endpoint route) as Hc. rewrite Hco in Hc.
    destruct Hc as (Happ & Hrank & Hset). exists route. repeat (split; [done|]).
    intros other Hother Hoapp. destruct (Hcs other Hother Hoapp) as (c' & Hc' & Hr).
    change (¬ lex_lt (route_rank endpoint other) (route_rank endpoint route)).
    rewrite <- Hr, <- Hrank. apply He in Hc'. apply elem_of_cons in Hc' as [->|Hc'].
    + simpl. lia.
    + apply StronglySorted_inv in Hs as [_ Hall]. rewrite Forall_forall in Hall.
      by apply better_false, Hall.
Qed.
End RouteFacts.

(** ** Resolution *)

(** Every platform the detector can name is registered. *)
Lemma provider_platform_concrete s p : provider_platform s = Some p → IsConcretePlatform p = true.
Proof. unfold provider_platform. intros. repeat case_match; simplify_eq; by vm_compute. Qed.

Lemma name_platform_concrete s p : name_platform s = Some p → IsConcretePlatform p = true.
Proof. unfold name_platform. intros. repeat case_match; simplify_eq; by vm_compute. Qed.

(**  The registry: platform ids are distinct and [composite] is none of
    them, a lookup finds exactly the listed entries, and the precedence order
    of composite groups starts with Anthropic, Gemini and OpenAI and contains
    every platform once. *)
Theorem platform_registry :
  NoDup ConcretePlatformIDs
  ∧ IsConcretePlatform PlatformComposite = false
  ∧ Forall (λ spec, LookupPlatform (plat_ID spec) = Some spec) platformList
  ∧ (∀ id spec, LookupPlatform id = Some spec → spec ∈ platformList ∧ plat_ID spec = id)
  ∧ CompositePrecedencePlatformIDs ≡ₚ ConcretePlatformIDs
  ∧ take 3 CompositePrecedencePlatformIDs = [PlatformAnthropic; PlatformGemini; PlatformOpenAI].
Proof.
  split; [apply (bool_decide_unpack _); by vm_compute|]. split; [by vm_compute|].
  split; [repeat (constructor; [by vm_compute|]); constructor|]. split; [|split; [|by vm_compute]].
  - intros id spec Hl. unfold LookupPlatform in Hl.
    destruct (platformIndex !! id) as [i|] eqn:Hi; [|done]. simpl in Hl.
    split; [by eapply list_elem_of_lookup_2|].
    assert (map_Forall (λ id i, plat_ID <$> platformList !! i = Some id) platformIndex) as Hall.
    { apply (bool_decide_unpack _). by vm_compute. }
    specialize (Hall id i Hi). simpl in Hall. rewrite Hl in Hall. by injection Hall.
  - apply NoDup_Permutation; [apply (bool_decide_unpack _); by vm_compute..|].
    intros id.
    assert (Forall (λ x, x ∈ ConcretePlatformIDs) CompositePrecedencePlatformIDs) as H1
      by (apply (bool_decide_unpack _); by vm_compute).
    assert (Forall (λ x, x ∈ CompositePrecedencePlatformIDs) ConcretePlatformIDs) as H2
      by (apply (bool_decide_unpack _); by vm_compute).
    rewrite Forall_forall in H1, H2. split; auto.
Qed.

Section ResolveFacts.
Context `{UnicodeCase}.

Lemma DetectModelPlatform_concrete model p :
  DetectModelPlatform model = Some p → IsConcretePlatform p = true.
Proof.
  unfold DetectModelPlatform. intros Hd.
  repeat case_match; simplify_eq;
    eauto using provider_platform_concrete, name_platform_concrete.
Qed.

(** The routes consulted for a group, if the resolver has a repository. *)
Definition explicit_route (r : CompositeRouteResolver) (groupID : Z) (model endpoint : string)
    : option CompositeModelRoute :=
  list ← rs_ListByGroup r;
  if 0 <? groupID then routes ← list groupID; matchCompositeRoute routes model endpoint else None.

(**  What a decision of [Resolve] guarantees: a matched one carries the
    trimmed model, a model to send upstream that is not empty, and a target
    that is the one of the chosen route if and only if a route was chosen, and a
    registered platform otherwise.  When accounts of several platforms claim
    the model and no route decides, nothing is matched: no platform is
    guessed. *)
Theorem resolve_sound r groupID model endpoint :
  let name := TrimSpace model in
  let ep := normalizeCompositeRouteEndpoint endpoint in
  match Resolve r groupID model endpoint with
  | inl _ => True
  | inr d =>
      (dc_Matched d = true →
         name ≠ "" ∧ dc_PublicModel d = name ∧ dc_UpstreamModel d ≠ ""
         ∧ match explicit_route r groupID name ep with
           | Some route => dc_Source d = SourceExplicit ∧ dc_TargetPlatform d = rt_TargetPlatform route
           | None => dc_Source d ≠ SourceExplicit ∧ IsConcretePlatform (dc_TargetPlatform d) = true
           end)
      ∧ (∀ resolver ownership,
           rs_modelOwnership r = Some resolver → 0 < groupID → resolver groupID name = Some ownership →
           own_Ambiguous ownership = true → explicit_route r groupID name ep = None →
           dc_Matched d = false)
  end.
Proof.
  intros name ep. unfold Resolve. fold name ep.
  destruct (String.eqb name "") eqn:Hname; bool_to_prop; [by split|].
  assert (match detect groupID name ep with d =>
    dc_Matched d = true → dc_PublicModel d = name ∧ dc_UpstreamModel d ≠ ""
      ∧ dc_Source d ≠ SourceExplicit ∧ IsConcretePlatform (dc_TargetPlatform d) = true end) as Hdet.
  { unfold detect. destruct (DetectModelPlatform name) as [p|] eqn:Hp; simpl; [|done].
    intros _. split; [done|]. split; [done|]. split; [done|]. by eapply DetectModelPlatform_concrete. }
  assert (explicit_route r groupID name ep = None →
    match by_ownership r groupID name ep with
    | inl _ => True
    | inr d =>
      (dc_Matched d = true → dc_PublicModel d = name ∧ dc_UpstreamModel d ≠ ""
         ∧ dc_Source d ≠ SourceExplicit ∧ IsConcretePlatform (dc_TargetPlatform d) = true)
      ∧ (∀ resolver ownership, rs_modelOwnership r = Some resolver → 0 < groupID →
           resolver groupID name = Some ownership → own_Ambiguous ownership = true →
           dc_Matched d = false)
    end) as Hown.
  { intros _. unfold by_ownership. unfold isConcreteRequestPlatform.
    repeat case_match; bool_to_prop; simplify_eq/=; try done;
      (split; [try done; intros Hm; by apply Hdet|]); intros; simplify_eq/=; try congruence; try lia. }
  unfold explicit_route in *.
  destruct (rs_ListByGroup r) as [list|]; simpl in *.
  - destruct (0 <? groupID) eqn:Hg; simpl in *.
    + destruct (list groupID) as [routes|]; simpl in *; [|done].
      destruct (matchCompositeRoute routes name ep) as [route|]; simpl.
      * split; [|done]. intros _. split; [done|]. split; [done|]. split; [|done].
        clear Hown; case_match; bool_to_prop; done.
      * specialize (Hown eq_refl). destruct (by_ownership _ _ _ _); [done|]. naive_solver.
    + specialize (Hown eq_refl). destruct (by_ownership _ _ _ _); [done|]. naive_solver.
  - specialize (Hown eq_refl). destruct (by_ownership _ _ _ _); [done|]. naive_solver.
Qed.
End ResolveFacts.
