(* ===== verification/ProxyStreamCircuit.v ===== *)
(** * The circuit breaker of proxies that drop streams

    [service/openai_proxy_stream_circuit.go]: an in-process, bounded map from
    proxy ids to failure counts.  A proxy with enough failures in a window is
    quarantined; a burst of disconnects counts once; a success, or the end of
    the quarantine, forgets the proxy; the least recently touched entry makes
    room for a new one.

    The iteration of a Go map has no fixed order, so an operation that ranges
    over the map takes the order as an argument, [range]; the theorems hold for
    every order, which may differ at every call ([circuit_step]). *)

From Stdlib Require Import ZArith Lia String Sorted.
From stdpp Require Import base tactics numbers list gmap strings.
From S2P Require Import Prelude GoStrings CompositeRouting.

Open Scope Z_scope.

(** ** Settings *)

Definition defaultOpenAIProxyStreamFailureThreshold : Z := 2.
Definition defaultOpenAIProxyStreamFailureWindow : Z := Minute.
Definition defaultOpenAIProxyStreamQuarantineTTL : Z := 10 * Minute.
Definition defaultOpenAIProxyStreamCircuitMaxEntries : Z := 4096.
Definition defaultOpenAIProxyStreamFailureCollapse : Z := 3 * Second.

Record openAIProxyStreamCircuitSettings := mkSettings {
  disabled : bool;
  failureThreshold : Z;
  failureWindow : Z;
  quarantineTTL : Z;
  collapseInterval : Z;
  maxEntries : Z
}.

Record openAIProxyStreamCircuitEntry := mkEntry {
  failureCount : Z;
  windowStart : Z;
  lastFailureAt : Z;
  blockedUntil : Z;
  lastTouched : Z
}.

(** The zero value a missing key yields. *)
Definition zero_entry : openAIProxyStreamCircuitEntry := mkEntry 0 0 0 0 0.

Abbreviation entry_map := (gmap Z openAIProxyStreamCircuitEntry).

Record openAIProxyStreamCircuit := mkCircuit {
  settings : openAIProxyStreamCircuitSettings;
  entries : entry_map
}.

Record GatewayOpenAIProxyStreamCircuitConfig := mkCircuitConfig {
  cfg_Disabled : bool;
  cfg_FailureThreshold : Z;
  cfg_WindowSeconds : Z;
  cfg_TTLSeconds : Z
}.

(** [None] is a nil service or a nil configuration. *)
Definition resolveOpenAIProxyStreamCircuitSettings
    (config : option GatewayOpenAIProxyStreamCircuitConfig) : openAIProxyStreamCircuitSettings :=
  match config with
  | None =>
      mkSettings false defaultOpenAIProxyStreamFailureThreshold
        defaultOpenAIProxyStreamFailureWindow defaultOpenAIProxyStreamQuarantineTTL
        defaultOpenAIProxyStreamFailureCollapse defaultOpenAIProxyStreamCircuitMaxEntries
  | Some cfg =>
      mkSettings (cfg_Disabled cfg)
        (if 0 <? cfg_FailureThreshold cfg then cfg_FailureThreshold cfg
         else defaultOpenAIProxyStreamFailureThreshold)
        (if 0 <? cfg_WindowSeconds cfg then seconds (cfg_WindowSeconds cfg)
         else defaultOpenAIProxyStreamFailureWindow)
        (if 0 <? cfg_TTLSeconds cfg then seconds (cfg_TTLSeconds cfg)
         else defaultOpenAIProxyStreamQuarantineTTL)
        defaultOpenAIProxyStreamFailureCollapse defaultOpenAIProxyStreamCircuitMaxEntries
  end.

Definition newOpenAIProxyStreamCircuit (s : openAIProxyStreamCircuitSettings)
    : openAIProxyStreamCircuit :=
  mkCircuit
    (mkSettings (disabled s)
       (if failureThreshold s <=? 0 then defaultOpenAIProxyStreamFailureThreshold
        else failureThreshold s)
       (if failureWindow s <=? 0 then defaultOpenAIProxyStreamFailureWindow else failureWindow s)
       (if quarantineTTL s <=? 0 then defaultOpenAIProxyStreamQuarantineTTL else quarantineTTL s)
       (if collapseInterval s <? 0 then 0 else collapseInterval s)
       (if maxEntries s <=? 0 then defaultOpenAIProxyStreamCircuitMaxEntries else maxEntries s))
    ∅.

(** ** Operations *)

Definition stale_or_expired (window now : Z) (e : openAIProxyStreamCircuitEntry) : bool :=
  let staleObservation := time_is_zero (blockedUntil e) && (window <? time_sub now (lastTouched e)) in
  let expiredQuarantine := negb (time_is_zero (blockedUntil e)) && negb (time_before now (blockedUntil e)) in
  staleObservation || expiredQuarantine.

Definition oldest_step (acc : Z * Z) (p : Z * openAIProxyStreamCircuitEntry) : Z * Z :=
  let '(oldestProxyID, oldest) := acc in
  let '(proxyID, entry) := p in
  if (oldestProxyID =? 0) || time_before (lastTouched entry) oldest
  then (proxyID, lastTouched entry) else acc.

Section operations.
Context (range : entry_map → list (Z * openAIProxyStreamCircuitEntry)).

Definition ensureCapacityLocked (c : openAIProxyStreamCircuit) (now : Z) : openAIProxyStreamCircuit :=
  if Z.of_nat (size (entries c)) <? maxEntries (settings c) then c
  else
    let m := foldl (λ m '(proxyID, entry),
                 if stale_or_expired (failureWindow (settings c)) now entry
                 then delete proxyID m else m) (entries c) (range (entries c)) in
    if Z.of_nat (size m) <? maxEntries (settings c) then mkCircuit (settings c) m
    else
      let '(oldestProxyID, _) := foldl oldest_step (0, 0) (range m) in
      if 0 <? oldestProxyID then mkCircuit (settings c) (delete oldestProxyID m)
      else mkCircuit (settings c) m.

Definition restart_window (s : openAIProxyStreamCircuitSettings) (now : Z)
    (e : openAIProxyStreamCircuitEntry) : openAIProxyStreamCircuitEntry :=
  if time_is_zero (windowStart e) || time_before now (windowStart e)
     || (failureWindow s <? time_sub now (windowStart e))
  then mkEntry 0 now (lastFailureAt e) 0 (lastTouched e)
  else e.

Definition same_incident (s : openAIProxyStreamCircuitSettings) (now : Z)
    (e : openAIProxyStreamCircuitEntry) : bool :=
  (0 <? collapseInterval s) && negb (time_is_zero (lastFailureAt e))
  && (0 <=? time_sub now (lastFailureAt e)) && (time_sub now (lastFailureAt e) <? collapseInterval s).

(** Returns whether this failure tripped the circuit, and the end of the quarantine. *)
Definition recordFailure (c : openAIProxyStreamCircuit) (proxyID now : Z)
    : openAIProxyStreamCircuit * (bool * Z) :=
  if disabled (settings c) || (proxyID <=? 0) then (c, (false, 0))
  else
    let set c e := mkCircuit (settings c) (<[proxyID := e]> (entries c)) in
    let exists_ := entries c !! proxyID in
    let entry := default zero_entry exists_ in
    if bool_decide (is_Some exists_) && time_before now (blockedUntil entry) then
      (set c (mkEntry (failureCount entry) (windowStart entry) (lastFailureAt entry)
                (blockedUntil entry) now),
       (false, blockedUntil entry))
    else
      let c := if bool_decide (is_Some exists_) then c else ensureCapacityLocked c now in
      let entry := restart_window (settings c) now entry in
      if same_incident (settings c) now entry then
        (set c (mkEntry (failureCount entry) (windowStart entry) (lastFailureAt entry)
                  (blockedUntil entry) now),
         (false, 0))
      else
        let count := failureCount entry + 1 in
        let tripped := failureThreshold (settings c) <=? count in
        let until := if tripped then time_add now (quarantineTTL (settings c))
                     else blockedUntil entry in
        (set c (mkEntry count (windowStart entry) now until now), (tripped, until)).

Definition recordSuccess (c : openAIProxyStreamCircuit) (proxyID : Z)
    : openAIProxyStreamCircuit * bool :=
  if proxyID <=? 0 then (c, false)
  else match entries c !! proxyID with
       | None => (c, false)
       | Some _ => (mkCircuit (settings c) (delete proxyID (entries c)), true)
       end.

Definition isBlocked (c : openAIProxyStreamCircuit) (proxyID now : Z)
    : openAIProxyStreamCircuit * bool :=
  if disabled (settings c) || (proxyID <=? 0) then (c, false)
  else match entries c !! proxyID with
       | None => (c, false)
       | Some entry =>
           if time_is_zero (blockedUntil entry) then (c, false)
           else if negb (time_before now (blockedUntil entry))
                then (mkCircuit (settings c) (delete proxyID (entries c)), false)
                else (c, true)
       end.

Definition activeBlockCount (c : openAIProxyStreamCircuit) (now : Z) : Z :=
  if disabled (settings c) then 0
  else foldl (λ count '(_, entry),
          if negb (time_is_zero (blockedUntil entry)) && time_before now (blockedUntil entry)
          then count + 1 else count) 0 (range (entries c)).

(** ** The gateway's side *)

Record account := mkAccount { Platform : string; ProxyID : option Z }.

Definition openAIProxyStreamCircuitProxyID (a : option account) : option Z :=
  match a with
  | None => None
  | Some a =>
      if negb (String.eqb (Platform a) PlatformOpenAI) then None
      else match ProxyID a with
           | None => None
           | Some p => if p <=? 0 then None else Some p
           end
  end.

Inductive stream_error := Canceled | DeadlineExceeded | OtherError (message : string).

(** The circuit the service creates on first use ([sync.Once]). *)
Definition getOpenAIProxyStreamCircuit (config : option GatewayOpenAIProxyStreamCircuitConfig)
    (circuit : option openAIProxyStreamCircuit) : openAIProxyStreamCircuit :=
  match circuit with
  | Some c => c
  | None => newOpenAIProxyStreamCircuit (resolveOpenAIProxyStreamCircuitSettings config)
  end.

Definition recordOpenAIProxyStreamDisconnect (c : openAIProxyStreamCircuit) (a : option account)
    (streamErr : option stream_error) (now : Z) : openAIProxyStreamCircuit :=
  match openAIProxyStreamCircuitProxyID a, streamErr with
  | Some proxyID, Some (OtherError _) => (recordFailure c proxyID now).1
  | _, _ => c
  end.

Definition recordOpenAIProxyTransportFailure (c : openAIProxyStreamCircuit) (a : option account)
    (failure : string) (now : Z) : openAIProxyStreamCircuit :=
  match openAIProxyStreamCircuitProxyID a with
  | Some proxyID =>
      if String.eqb (TrimSpace failure) "" then c else (recordFailure c proxyID now).1
  | None => c
  end.

Definition clearOpenAIProxyStreamDisconnect (c : openAIProxyStreamCircuit) (a : option account)
    : openAIProxyStreamCircuit :=
  match openAIProxyStreamCircuitProxyID a with
  | Some proxyID => (recordSuccess c proxyID).1
  | None => c
  end.

Definition isOpenAIProxyStreamQuarantined (c : openAIProxyStreamCircuit) (bypassed : bool)
    (a : option account) (now : Z) : openAIProxyStreamCircuit * bool :=
  match openAIProxyStreamCircuitProxyID a with
  | None => (c, false)
  | Some proxyID => if bypassed then (c, false) else isBlocked c proxyID now
  end.

End operations.

(** ** Traces of the circuit *)

Inductive event :=
| Failure (proxyID now : Z)
| Success (proxyID : Z)
| Query (proxyID now : Z).

Definition event_proxy (ev : event) : Z :=
  match ev with Failure p _ => p | Success p => p | Query p _ => p end.

(** The orders in which a range statement may visit a map. *)
Definition fair (range : entry_map → list (Z * openAIProxyStreamCircuitEntry)) : Prop :=
  ∀ m, range m ≡ₚ map_to_list m.

Inductive circuit_step (c : openAIProxyStreamCircuit) : event → openAIProxyStreamCircuit → Prop :=
| step_failure range p now :
    fair range → 0 < now →
    circuit_step c (Failure p now) (recordFailure range c p now).1
| step_success p : circuit_step c (Success p) (recordSuccess c p).1
| step_query p now : 0 < now → circuit_step c (Query p now) (isBlocked c p now).1.

(** The histories a circuit can have, newest event last. *)
Inductive reaches (c0 : openAIProxyStreamCircuit) : list event → openAIProxyStreamCircuit → Prop :=
| reaches_nil : reaches c0 [] c0
| reaches_snoc h ev c c' :
    reaches c0 h c → circuit_step c ev c' → reaches c0 (h ++ [ev]) c'.

(** The failure times of [p] since its last success, oldest first. *)
Definition recent_step (p : Z) (ts : list Z) (ev : event) : list Z :=
  match ev with
  | Failure q t => if decide (q = p) then ts ++ [t] else ts
  | Success q => if decide (q = p) then [] else ts
  | Query _ _ => ts
  end.

Definition recent_failures (p : Z) (h : list event) : list Z := foldl (recent_step p) [] h.

(** No two consecutive failures belong to one incident. *)
Definition distinct_incidents (collapse : Z) (ts : list Z) : Prop :=
  ∀ i a b, ts !! i = Some a → ts !! S i = Some b → ¬ (0 ≤ b - a < collapse).

Definition within_window (w window : Z) (ts : list Z) : Prop :=
  Forall (λ t, w ≤ t ≤ w + window) ts.

Definition settings_in_range (s : openAIProxyStreamCircuitSettings) : Prop :=
  failureWindow s < max_int64 ∧ collapseInterval s ≤ max_int64.

(** What the single entry of a proxy goes through when nothing is evicted. *)
Definition entry_failure (s : openAIProxyStreamCircuitSettings)
    (oe : option openAIProxyStreamCircuitEntry) (now : Z) : openAIProxyStreamCircuitEntry :=
  let entry := default zero_entry oe in
  if bool_decide (is_Some oe) && time_before now (blockedUntil entry) then
    mkEntry (failureCount entry) (windowStart entry) (lastFailureAt entry) (blockedUntil entry) now
  else
    let entry := restart_window s now entry in
    if same_incident s now entry then
      mkEntry (failureCount entry) (windowStart entry) (lastFailureAt entry) (blockedUntil entry) now
    else
      let count := failureCount entry + 1 in
      mkEntry count (windowStart entry) now
        (if failureThreshold s <=? count then time_add now (quarantineTTL s)
         else blockedUntil entry) now.

(** ** Making room *)

Lemma foldl_delete_subseteq (f : openAIProxyStreamCircuitEntry → bool) l (m : entry_map) :
  foldl (λ m '(proxyID, entry), if f entry then delete proxyID m else m) m l ⊆ m.
Proof.
  revert m. induction l as [|[p e] l IH]; intros m; simpl; [done|].
  etrans; [apply IH|]. destruct (f e); [apply delete_subseteq|done].
Qed.

Lemma foldl_delete_lookup (f : openAIProxyStreamCircuitEntry → bool) l (m : entry_map) p :
  NoDup l.*1 → (∀ q e, (q, e) ∈ l → m !! q = Some e) →
  foldl (λ m '(proxyID, entry), if f entry then delete proxyID m else m) m l !! p
  = if decide (p ∈ l.*1) then (m !! p ≫= λ e, if f e then None else Some e) else m !! p.
Proof.
  revert m. induction l as [|[q e] l IH]; intros m Hnd Hin; csimpl; [done|].
  rewrite fmap_cons in Hnd. apply NoDup_cons in Hnd as [Hq Hnd]. rewrite IH; [|done|].
  2:{ intros q' e' H'. assert (q' ≠ q) by (intros ->; apply Hq; by apply (list_elem_of_fmap_2 fst) in H').
      destruct (f e); [rewrite lookup_delete_ne by done|]; apply Hin; by right. }
  destruct (decide (p = q)) as [->|Hne].
  - rewrite (decide_False (P := q ∈ l.*1)) by done.
    rewrite (decide_True (P := q ∈ q :: l.*1)) by (by left).
    rewrite (Hin q e) by (by left). simpl. destruct (f e); [by rewrite lookup_delete_eq|].
    apply Hin; by left.
  - assert ((p ∈ q :: l.*1) ↔ (p ∈ l.*1)) as Hiff by (rewrite elem_of_cons; naive_solver).
    rewrite (decide_ext _ _ _ _ Hiff).
    destruct (f e); [rewrite lookup_delete_ne by done|]; done.
Qed.

Lemma fair_lookup range m p e : fair range → (p, e) ∈ range m ↔ m !! p = Some e.
Proof. intros Hf. by rewrite (Hf m), elem_of_map_to_list. Qed.

Lemma fair_NoDup range m : fair range → NoDup (range m).*1.
Proof. intros Hf. rewrite (Hf m). apply NoDup_fst_map_to_list. Qed.

Lemma fair_fst range m p : fair range → p ∈ (range m).*1 ↔ is_Some (m !! p).
Proof.
  intros Hf. rewrite list_elem_of_fmap. split.
  - intros ([q e] & -> & H). apply fair_lookup in H; [|done]. simpl. by rewrite H.
  - intros [e He]. exists (p, e). split; [done|]. by apply fair_lookup.
Qed.

(** The pruning pass keeps exactly the live entries. *)
Lemma prune_lookup range (f : openAIProxyStreamCircuitEntry → bool) m p :
  fair range →
  foldl (λ m '(proxyID, entry), if f entry then delete proxyID m else m) m (range m) !! p
  = m !! p ≫= λ e, if f e then None else Some e.
Proof.
  intros Hf. rewrite foldl_delete_lookup;
    [|by apply fair_NoDup|by intros q e; rewrite fair_lookup].
  case_decide as Hp; [done|]. rewrite fair_fst in Hp by done.
  destruct (m !! p) eqn:E; [|done]. destruct Hp. by eexists.
Qed.

Lemma oldest_spec l : l ≠ [] → Forall (λ pe, 0 < pe.1) l →
  ∃ p e, (p, e) ∈ l ∧ foldl oldest_step (0, 0) l = (p, lastTouched e)
       ∧ ∀ q e', (q, e') ∈ l → lastTouched e ≤ lastTouched e'.
Proof.
  induction l as [|[p e] l IH] using rev_ind; intros Hne Hpos; [done|].
  apply Forall_app in Hpos as [Hpos Hp]. apply Forall_singleton in Hp. simpl in Hp.
  rewrite foldl_app. simpl. destruct l as [|x l].
  - exists p, e. simpl. split; [by left|]. split; [done|].
    intros q e' [= -> ->]%list_elem_of_singleton. done.
  - destruct IH as (p' & e' & Hin & -> & Hmin); [done..|].
    rewrite Forall_forall in Hpos. assert (0 < p') by (by apply (Hpos _ Hin)).
    unfold oldest_step. destruct (_ || _) eqn:E; bool_to_prop; unfold_time; bool_to_prop.
    + exists p, e. split; [apply elem_of_app; right; by left|]. split; [done|].
      intros q e2 [H2|[= -> ->]%list_elem_of_singleton]%elem_of_app; [|done].
      apply Hmin in H2. destruct E; bool_to_prop; lia.
    + exists p', e'. split; [apply elem_of_app; by left|]. split; [done|].
      intros q e2 [H2|[= -> ->]%list_elem_of_singleton]%elem_of_app; [eauto|lia].
Qed.

Definition positive_keys (m : entry_map) : Prop := map_Forall (λ p _, 0 < p) m.

(** What remains after making room: a part of the map with room for one more
    entry; nothing goes while there is room, and a live entry only goes when no
    live entry that stays was touched earlier. *)
Lemma ensureCapacityLocked_spec range c now :
  fair range → positive_keys (entries c) → 0 < maxEntries (settings c) →
  Z.of_nat (size (entries c)) ≤ maxEntries (settings c) →
  let c' := ensureCapacityLocked range c now in
  settings c' = settings c ∧ entries c' ⊆ entries c
  ∧ Z.of_nat (size (entries c')) < maxEntries (settings c)
  ∧ (Z.of_nat (size (entries c)) < maxEntries (settings c) → c' = c)
  ∧ (∀ p e, entries c !! p = Some e → entries c' !! p = None →
       stale_or_expired (failureWindow (settings c)) now e = false →
       ∀ q e', entries c' !! q = Some e' → lastTouched e ≤ lastTouched e').
Proof.
  intros Hf Hpos Hmax Hsize. unfold ensureCapacityLocked.
  destruct (_ <? _) eqn:Eroom; bool_to_prop.
  { do 4 (split; [done|]). intros p e H1 H2. congruence. }
  set (m := foldl _ _ _).
  assert (∀ p, m !! p = entries c !! p ≫= λ e,
    if stale_or_expired (failureWindow (settings c)) now e then None else Some e) as Hm.
  { intros p. by apply prune_lookup. }
  assert (m ⊆ entries c) as Hsub by apply foldl_delete_subseteq.
  destruct (_ <? _) eqn:Eroom2; bool_to_prop.
  { simpl. split; [done|]. split; [done|]. split; [done|]. split; [lia|].
    intros p e H1 H2 Hlive. rewrite Hm, H1 in H2. simpl in H2. by rewrite Hlive in H2. }
  assert (size m ≠ 0%nat) as Hne by lia.
  destruct (oldest_spec (range m)) as (p & e & Hin & -> & Hmin).
  { intros E. apply Hne. rewrite <- length_map_to_list, <- (Hf m), E. done. }
  { apply Forall_forall. intros [p e] Hin. apply fair_lookup in Hin; [|done].
    eapply Hpos, lookup_weaken; done. }
  apply fair_lookup in Hin; [|done].
  assert (0 < p) as Hp by (eapply Hpos, lookup_weaken; done).
  rewrite (proj2 (Z.ltb_lt _ _) Hp). simpl.
  assert (size m ≤ size (entries c))%nat as Hle by by apply map_subseteq_size.
  split; [done|]. split; [etrans; [apply delete_subseteq|done]|].
  split; [rewrite map_size_delete, Hin; simpl; lia|]. split; [lia|].
  intros q e' H1 H2 Hlive r e2 Hr.
  apply lookup_delete_Some in Hr as [_ Hr]. apply lookup_delete_None in H2 as [<-|H2].
  - assert (e' = e) as -> by (eapply lookup_weaken in Hin; [|done]; congruence).
    eapply Hmin. by apply fair_lookup.
  - rewrite Hm, H1 in H2. simpl in H2. by rewrite Hlive in H2.
Qed.

(** ** The shape of one operation *)

Lemma recordFailure_inactive range c p now :
  disabled (settings c) = true ∨ p ≤ 0 → recordFailure range c p now = (c, (false, 0)).
Proof.
  intros H. unfold recordFailure.
  destruct (disabled _); [done|]. destruct H; [done|].
  by rewrite (proj2 (Z.leb_le p 0)).
Qed.

Lemma recordFailure_entries range c p now :
  disabled (settings c) = false → 0 < p →
  let room := if bool_decide (is_Some (entries c !! p)) then c
              else ensureCapacityLocked range c now in
  settings room = settings c →
  (recordFailure range c p now).1
  = mkCircuit (settings c) (<[p := entry_failure (settings c) (entries c !! p) now]> (entries room)).
Proof.
  intros Hd Hp room Hs. unfold recordFailure, entry_failure. rewrite Hd.
  rewrite (proj2 (Z.leb_gt p 0)) by done. simpl. fold room. rewrite Hs.
  destruct (_ && _) eqn:E1.
  - unfold room. bool_to_prop. by rewrite bool_decide_eq_true_2.
  - by destruct (same_incident _ _ _).
Qed.

Definition circuit_ok (c : openAIProxyStreamCircuit) : Prop :=
  positive_keys (entries c) ∧ 0 < maxEntries (settings c)
  ∧ Z.of_nat (size (entries c)) ≤ maxEntries (settings c).

Lemma room_spec range c p now :
  fair range → circuit_ok c →
  let room := if bool_decide (is_Some (entries c !! p)) then c
              else ensureCapacityLocked range c now in
  settings room = settings c ∧ entries room ⊆ entries c
  ∧ (is_Some (entries c !! p) ∨ Z.of_nat (size (entries room)) < maxEntries (settings c))
  ∧ (is_Some (entries c !! p) ∨ Z.of_nat (size (entries c)) < maxEntries (settings c) → room = c)
  ∧ entries room !! p = entries c !! p.
Proof.
  intros Hf (Hpos & Hmax & Hsize). case_bool_decide as Hp; simpl.
  - by repeat split; try left.
  - destruct (ensureCapacityLocked_spec range c now) as (H1 & H2 & H3 & H4 & _); [done..|].
    split; [done|]. split; [done|]. split; [by right|]. split; [naive_solver|].
    destruct (entries c !! p) eqn:E; [by destruct Hp|]. by eapply lookup_weaken_None.
Qed.

Lemma circuit_step_settings c ev c' : circuit_ok c → circuit_step c ev c' → settings c' = settings c.
Proof.
  intros Hok Hstep. destruct Hstep as [range p now Hf _|p|p now _].
  - destruct (disabled (settings c)) eqn:Hd; [by rewrite recordFailure_inactive by auto|].
    destruct (decide (0 < p)); [|by rewrite recordFailure_inactive by (right; lia)].
    destruct (room_spec range c p now) as (H1 & _); [done..|].
    by rewrite recordFailure_entries by done.
  - unfold recordSuccess. by repeat case_match.
  - unfold isBlocked. by repeat case_match.
Qed.

Lemma size_insert_room (m : entry_map) p e n :
  Z.of_nat (size m) ≤ n → (is_Some (m !! p) ∨ Z.of_nat (size m) < n) →
  Z.of_nat (size (<[p := e]> m)) ≤ n.
Proof. intros H1 H2. rewrite map_size_insert. destruct (m !! p) eqn:E; simpl; [lia|].
  destruct H2 as [[? ?]|?]; [done|lia]. Qed.

Lemma circuit_step_ok c ev c' : circuit_ok c → circuit_step c ev c' → circuit_ok c'.
Proof.
  intros Hok Hstep. pose proof (circuit_step_settings _ _ _ Hok Hstep) as Hs.
  pose proof Hok as (Hpos & Hmax & Hsize). unfold circuit_ok. rewrite Hs. clear Hs.
  destruct Hstep as [range p now Hf _|p|p now _].
  - destruct (disabled (settings c)) eqn:Hd; [by rewrite recordFailure_inactive by auto|].
    destruct (decide (0 < p)); [|by rewrite recordFailure_inactive by (right; lia)].
    destruct (room_spec range c p now) as (H1 & H2 & H3 & _ & H5); [done..|].
    rewrite recordFailure_entries by done. simpl. split_and!; [|done|].
    + apply map_Forall_insert_2; [done|]. intros q e Hq. eapply Hpos, lookup_weaken; done.
    + apply map_subseteq_size in H2. apply size_insert_room; [lia|]. by rewrite H5.
  - unfold recordSuccess. repeat case_match; simpl; split_and!; try done.
    + by apply map_Forall_delete.
    + rewrite map_size_delete. case_match; simpl; lia.
  - unfold isBlocked. repeat case_match; simpl; split_and!; try done.
    + by apply map_Forall_delete.
    + rewrite map_size_delete. case_match; simpl; lia.
Qed.

Lemma new_circuit_ok s : circuit_ok (newOpenAIProxyStreamCircuit s).
Proof.
  unfold circuit_ok. simpl. split_and!.
  - apply map_Forall_empty.
  - case_match; bool_to_prop; [done|lia].
  - rewrite map_size_empty. case_match; bool_to_prop; [done|lia].
Qed.

Lemma reaches_ok s h c :
  reaches (newOpenAIProxyStreamCircuit s) h c →
  circuit_ok c ∧ settings c = settings (newOpenAIProxyStreamCircuit s).
Proof.
  induction 1 as [|h ev c c' _ [IH1 IH2] Hstep]; [split; [apply new_circuit_ok|done]|].
  split; [by eapply circuit_step_ok|]. rewrite <- IH2. by eapply circuit_step_settings.
Qed.

(** ** A quarantine is backed by failures *)

Definition certificate (s : openAIProxyStreamCircuitSettings) (fs : list Z)
    (e : openAIProxyStreamCircuitEntry) : Prop :=
  ∃ ts, ts `sublist_of` fs
    ∧ Z.of_nat (length ts) = failureCount e
    ∧ distinct_incidents (collapseInterval s) ts
    ∧ within_window (windowStart e) (failureWindow s) ts
    ∧ (ts ≠ [] → last ts = Some (lastFailureAt e))
    ∧ (blockedUntil e = 0
       ∨ failureThreshold s ≤ failureCount e ∧ blockedUntil e = lastFailureAt e + quarantineTTL s).

Lemma distinct_incidents_snoc d ts t :
  distinct_incidents d ts → (∀ a, last ts = Some a → ¬ (0 ≤ t - a < d)) →
  distinct_incidents d (ts ++ [t]).
Proof.
  intros Hts Hlast i a b Ha Hb. apply lookup_snoc_Some in Hb as [[Hb1 Hb]|[Hb <-]].
  - rewrite lookup_app_l in Ha by lia. by eapply Hts.
  - rewrite lookup_app_l in Ha by lia. apply Hlast.
    rewrite last_lookup. rewrite <- Hb. done.
Qed.

Lemma certificate_mono s fs fs' e e' :
  fs `sublist_of` fs' → failureCount e = failureCount e' → windowStart e = windowStart e' →
  lastFailureAt e = lastFailureAt e' → blockedUntil e = blockedUntil e' →
  certificate s fs e → certificate s fs' e'.
Proof.
  intros Hsub H1 H2 H3 H4 (ts & Hts & Hrest). exists ts.
  rewrite <- H1, <- H2, <- H3, <- H4. split; [by etrans|done].
Qed.

Lemma saturate_lt z n : z < n → n ≤ max_int64 → saturate_int64 z < n ∨ n ≤ min_int64.
Proof. unfold saturate_int64, max_int64, min_int64. lia. Qed.

Lemma restart_window_certificate s fs e now :
  settings_in_range s → certificate s fs e → certificate s fs (restart_window s now e).
Proof.
  intros Hr Hc. unfold restart_window. destruct (_ || _) eqn:E; [|done].
  exists []. split; [apply sublist_nil_l|]. simpl. split_and!; [done|..|done|by left].
  - intros i a b Ha. by rewrite lookup_nil in Ha.
  - constructor.
Qed.

Lemma restart_window_bounds s e now :
  settings_in_range s → 0 ≤ failureWindow s →
  let e' := restart_window s now e in
  windowStart e' ≤ now ≤ windowStart e' + failureWindow s
  ∧ lastFailureAt e' = lastFailureAt e.
Proof.
  intros [Hr _] Hw. unfold restart_window. destruct (_ || _) eqn:E; simpl; [lia|].
  bool_to_prop. unfold_time. unfold time_sub, saturate_int64, max_int64, min_int64 in *.
  bool_to_prop. lia.
Qed.

Lemma not_same_incident s e now :
  settings_in_range s → same_incident s now e = false → lastFailureAt e ≠ 0 →
  ¬ (0 ≤ now - lastFailureAt e < collapseInterval s).
Proof.
  intros [_ Hr] H Hne. unfold same_incident in H. unfold_time.
  unfold time_sub, saturate_int64, max_int64, min_int64 in *.
  rewrite (proj2 (Z.eqb_neq _ _) Hne) in H. simpl in H.
  bool_to_prop. destruct H as [H|H]; bool_to_prop; [|lia].
  destruct H as [H|H]; bool_to_prop; lia.
Qed.

Lemma entry_failure_certificate s fs oe now :
  settings_in_range s → 0 ≤ failureWindow s → 0 < now → Forall (λ t, 0 < t) fs →
  (∀ e, oe = Some e → certificate s fs e) →
  certificate s (fs ++ [now]) (entry_failure s oe now).
Proof.
  intros Hr Hw Hnow Hfs Hoe. unfold entry_failure.
  assert (fs `sublist_of` fs ++ [now]) as Hsub by apply sublist_inserts_r, reflexivity.
  assert (certificate s fs (default zero_entry oe)) as Hc.
  { destruct oe as [e|]; [by apply Hoe|]. exists []. simpl.
    split_and!; [apply sublist_nil_l|done|by intros i a b Ha|constructor|done|by left]. }
  destruct (_ && _); [by eapply certificate_mono|].
  destruct (restart_window_bounds s (default zero_entry oe) now Hr Hw) as [Hbounds _].
  apply (restart_window_certificate s fs _ now Hr) in Hc.
  set (e := restart_window _ _ _) in *. clearbody e.
  destruct (same_incident s now e) eqn:Einc; [by eapply certificate_mono|].
  destruct Hc as (ts & Hts & Hlen & Hdist & Hwin & Hlast & Hblk).
  exists (ts ++ [now]). simpl. split_and!.
  - by apply sublist_app.
  - rewrite length_app. simpl. lia.
  - apply distinct_incidents_snoc; [done|]. intros a Ha.
    assert (ts ≠ []) as Hne by (intros ->; done).
    specialize (Hlast Hne). assert (a = lastFailureAt e) as -> by congruence.
    apply not_same_incident; [done..|].
    rewrite last_lookup in Ha. apply list_elem_of_lookup_2 in Ha.
    apply (elem_of_sublist _ fs) in Ha; [|done].
    rewrite Forall_forall in Hfs. apply Hfs in Ha. lia.
  - apply Forall_app_2; [done|]. by apply Forall_singleton.
  - intros _. by rewrite last_snoc.
  - destruct (failureThreshold s <=? failureCount e + 1) eqn:Etrip; bool_to_prop.
    + right. split; [lia|]. done.
    + left. destruct Hblk as [Hblk|[Hcount _]]; [done|lia].
Qed.

Lemma recent_snoc p h ev : recent_failures p (h ++ [ev]) = recent_step p (recent_failures p h) ev.
Proof. unfold recent_failures. by rewrite foldl_app. Qed.

Lemma circuit_step_entries c ev c' p e :
  circuit_ok c → circuit_step c ev c' → entries c' !! p = Some e →
  match ev with
  | Failure q now => 0 < now ∧
      (q = p ∧ e = entry_failure (settings c) (entries c !! p) now ∨ entries c !! p = Some e)
  | Success q => q ≠ p ∧ entries c !! p = Some e ∨ p ≤ 0
  | Query _ _ => entries c !! p = Some e
  end.
Proof.
  intros Hok Hstep. destruct Hstep as [range q now Hf Hnow|q|q now _].
  - intros He. split; [done|].
    destruct (disabled (settings c)) eqn:Hd.
    { rewrite recordFailure_inactive in He by auto. by right. }
    destruct (decide (0 < q)).
    2:{ rewrite recordFailure_inactive in He by (right; lia). by right. }
    destruct (room_spec range c q now) as (H1 & H2 & _); [done..|].
    rewrite recordFailure_entries in He by done. simpl in He.
    apply lookup_insert_Some in He as [[-> <-]|[Hne He]]; [by left|].
    right. by eapply lookup_weaken.
  - unfold recordSuccess. intros He. destruct (q <=? 0) eqn:Eq; bool_to_prop.
    { simpl in He. destruct (decide (q = p)); [right; lia|by left]. }
    destruct (entries c !! q) eqn:E; simpl in He.
    + apply lookup_delete_Some in He. by left.
    + left. split; [congruence|done].
  - unfold isBlocked. intros He. repeat case_match; simpl in He; try done.
    by apply lookup_delete_Some in He as [_ ?].
Qed.

Lemma recent_positive s h c p :
  reaches s h c → Forall (λ t, 0 < t) (recent_failures p h).
Proof.
  induction 1 as [|h ev c c' _ IH Hstep]; [constructor|]. rewrite recent_snoc.
  destruct Hstep as [range q now _ Hnow|q|]; simpl; [| |done].
  - case_decide; [|done]. apply Forall_app_2; [done|]. by apply Forall_singleton.
  - case_decide; [constructor|done].
Qed.

Lemma reaches_certificate s h c :
  let c0 := newOpenAIProxyStreamCircuit s in
  settings_in_range (settings c0) → 0 ≤ failureWindow (settings c0) →
  reaches c0 h c →
  ∀ p e, entries c !! p = Some e → certificate (settings c0) (recent_failures p h) e.
Proof.
  intros c0 Hr Hw. induction 1 as [|h ev c c' Hreach IH Hstep]; intros p e He.
  { simpl in He. by rewrite lookup_empty in He. }
  pose proof Hreach as Hreach2.
  apply reaches_ok in Hreach as [Hok Hs]. fold c0 in Hs.
  pose proof (circuit_step_ok _ _ _ Hok Hstep) as [Hpos' _].
  apply (circuit_step_entries _ _ _ _ _ Hok Hstep) in He as He'. rewrite recent_snoc.
  assert (0 < p) as Hp by by apply (Hpos' p e).
  destruct ev as [q now|q|q now]; simpl.
  - destruct He' as (Hnow & [[-> ->]|He']).
    + rewrite decide_True, Hs by done. apply entry_failure_certificate; auto.
      by eapply recent_positive.
    + case_decide; [|by apply IH]. eapply certificate_mono; [|done..|by apply IH].
      apply sublist_inserts_r, reflexivity.
  - destruct He' as [[Hne He']|]; [|lia]. rewrite decide_False by done. by apply IH.
  - by apply IH.
Qed.

(** C21. A proxy is quarantined only with cause, whatever the history of the
    circuit and the iteration order of its map: since its last success it had at
    least threshold failures that lie in one window and are separate incidents
    (no two consecutive ones closer than the collapse interval), and less than
    the quarantine time has passed since the last of them. *)
Theorem quarantine_needs_failures s h c p now :
  let c0 := newOpenAIProxyStreamCircuit s in
  settings_in_range (settings c0) →
  reaches c0 h c → (isBlocked c p now).2 = true →
  ∃ ts w t, ts `sublist_of` recent_failures p h
    ∧ failureThreshold (settings c0) ≤ Z.of_nat (length ts)
    ∧ distinct_incidents (collapseInterval (settings c0)) ts
    ∧ within_window w (failureWindow (settings c0)) ts
    ∧ last ts = Some t ∧ now < t + quarantineTTL (settings c0).
Proof.
  intros c0 Hr Hreach Hblocked.
  assert (0 < failureThreshold (settings c0) ∧ 0 ≤ failureWindow (settings c0)) as [Hth Hw].
  { simpl. unfold defaultOpenAIProxyStreamFailureThreshold,
      defaultOpenAIProxyStreamFailureWindow, Minute, Second.
    split; case_match; bool_to_prop; lia. }
  unfold isBlocked in Hblocked. destruct (_ || _); [done|].
  destruct (entries c !! p) as [e|] eqn:He; [|done].
  eapply reaches_certificate in He as (ts & Hts & Hlen & Hd & Hwin & Hlast & Hblk); [|done..].
  fold c0 in Hts, Hlen, Hd, Hwin, Hlast, Hblk.
  unfold_time. destruct (blockedUntil e =? 0) eqn:E0; [done|].
  destruct (negb _) eqn:E1; [done|]. bool_to_prop.
  destruct Hblk as [Hblk|[Hcount Hblk]]; [done|].
  exists ts, (windowStart e), (lastFailureAt e). rewrite Hlen.
  split_and!; [done..| |lia]. apply Hlast. intros ->. simpl in Hlen. lia.
Qed.

(** ** A proxy that fails often enough is quarantined *)

Definition entry_step (s : openAIProxyStreamCircuitSettings) (p : Z)
    (oe : option openAIProxyStreamCircuitEntry) (ev : event) : option openAIProxyStreamCircuitEntry :=
  match ev with
  | Failure q now => if decide (q = p) then Some (entry_failure s oe now) else oe
  | Success q => if decide (q = p) then None else oe
  | Query q now =>
      if decide (q = p) then
        e ← oe;
        if negb (time_is_zero (blockedUntil e)) && negb (time_before now (blockedUntil e))
        then None else Some e
      else oe
  end.

Definition failing_step (acc : gset Z) (ev : event) : gset Z :=
  match ev with Failure q _ => {[q]} ∪ acc | _ => acc end.

(** The proxies with a failure in the history. *)
Definition failing (h : list event) : gset Z := foldl failing_step ∅ h.

Lemma failing_snoc h ev : failing (h ++ [ev]) = failing_step (failing h) ev.
Proof. unfold failing. by rewrite foldl_app. Qed.

Lemma reaches_failing s h c :
  reaches (newOpenAIProxyStreamCircuit s) h c → dom (entries c) ⊆ failing h.
Proof.
  induction 1 as [|h ev c c' Hreach IH Hstep]; [simpl; set_solver|].
  apply reaches_ok in Hreach as [Hok _].
  pose proof (circuit_step_ok _ _ _ Hok Hstep) as [Hpos _].
  intros q [e He]%elem_of_dom. assert (0 < q) by by apply (Hpos q e).
  apply (circuit_step_entries _ _ _ _ _ Hok Hstep) in He. rewrite failing_snoc.
  destruct ev as [r now|r|r now]; simpl.
  - destruct He as (_ & [[-> _]|He]); [set_solver|]. apply elem_of_dom_2 in He. set_solver.
  - destruct He as [[_ He]|]; [|lia]. apply elem_of_dom_2 in He. set_solver.
  - apply elem_of_dom_2 in He. set_solver.
Qed.

(** While no entry has to be evicted, one event changes the entry of its own
    proxy only, by [entry_step]. *)
Lemma circuit_step_entry c ev c' p :
  circuit_ok c → disabled (settings c) = false → 0 < p → circuit_step c ev c' →
  (∀ q now, ev = Failure q now →
     is_Some (entries c !! q) ∨ Z.of_nat (size (entries c)) < maxEntries (settings c)) →
  entries c' !! p = entry_step (settings c) p (entries c !! p) ev.
Proof.
  intros Hok Hd Hp Hstep Hroom. destruct Hstep as [range q now Hf Hnow|q|q now _]; simpl.
  - destruct (decide (0 < q)).
    2:{ rewrite recordFailure_inactive by (right; lia). by rewrite decide_False by lia. }
    destruct (room_spec range c q now) as (H1 & H2 & _ & H4 & _); [done..|].
    rewrite recordFailure_entries by done. rewrite H4 by eauto. simpl.
    case_decide as Hq; [subst; by rewrite lookup_insert_eq|by rewrite lookup_insert_ne].
  - unfold recordSuccess. destruct (q <=? 0) eqn:E; bool_to_prop;
      [by rewrite decide_False by lia|].
    destruct (entries c !! q) eqn:Eq; simpl; case_decide as Hq; subst; try done.
    + by rewrite lookup_delete_eq.
    + by rewrite lookup_delete_ne.
  - unfold isBlocked. rewrite Hd. simpl. destruct (q <=? 0) eqn:E; bool_to_prop;
      [by rewrite decide_False by lia|].
    destruct (entries c !! q) as [e|] eqn:Eq; simpl.
    2:{ case_decide; subst; [by rewrite Eq|done]. }
    case_decide as Hq; subst; try rewrite Eq; simpl;
      repeat case_match; simpl in *; try done; by rewrite ?lookup_delete_eq, ?lookup_delete_ne.
Qed.

Lemma circuit_refines_entry s h c p :
  let c0 := newOpenAIProxyStreamCircuit s in
  disabled s = false → 0 < p → reaches c0 h c →
  Z.of_nat (size (failing h)) ≤ maxEntries (settings c0) →
  entries c !! p = foldl (entry_step (settings c0) p) None h.
Proof.
  intros c0 Hd Hp. induction 1 as [|h ev c c' Hreach IH Hstep]; [done|]. intros Hsize.
  rewrite failing_snoc in Hsize. rewrite foldl_app, foldl_step.
  pose proof (reaches_failing _ _ _ Hreach) as Hdom.
  apply reaches_ok in Hreach as [Hok Hs]. fold c0 in Hs.
  change (foldl ?f ?a []) with a. rewrite <- IH.
  2:{ enough (size (failing h) ≤ size (failing_step (failing h) ev))%nat by lia.
      apply subseteq_size. destruct ev; simpl; set_solver. }
  rewrite <- Hs. apply circuit_step_entry; [done|by rewrite Hs|done..|].
  intros q now ->. cbn [failing_step] in Hsize. rewrite Hs.
  destruct (entries c !! q) eqn:Eq; [by left; eexists|right].
  enough (size (dom (entries c)) < size ({[q]} ∪ failing h))%nat as Hlt.
  { rewrite size_dom in Hlt. lia. }
  apply subset_size. apply not_elem_of_dom in Eq. set_solver.
Qed.

(** Failures that the breaker counts one by one, in one window. *)
Definition separate_failures (s : openAIProxyStreamCircuitSettings) (ts : list Z) : Prop :=
  (∀ i a b, ts !! i = Some a → ts !! S i = Some b → a + collapseInterval s ≤ b)
  ∧ (∀ a t, head ts = Some a → t ∈ ts → 0 < a ≤ t ∧ t ≤ a + failureWindow s).

Lemma separate_failures_snoc s ts t :
  separate_failures s (ts ++ [t]) → separate_failures s ts.
Proof.
  intros [H1 H2]. split.
  - intros i a b Ha Hb. by apply (H1 i); apply lookup_app_l_Some.
  - intros a u Ha Hu. apply H2; [by destruct ts|]. apply elem_of_app; by left.
Qed.

(** The entry of a proxy with the separate failures [ts]. *)
Definition counted_entry (s : openAIProxyStreamCircuitSettings) (ts : list Z)
    (oe : option openAIProxyStreamCircuitEntry) : Prop :=
  match head ts, last ts with
  | Some first, Some latest => ∃ e, oe = Some e
      ∧ failureCount e = Z.of_nat (length ts) ∧ windowStart e = first ∧ lastFailureAt e = latest
      ∧ blockedUntil e = if failureThreshold s <=? Z.of_nat (length ts)
                         then latest + quarantineTTL s else 0
  | _, _ => oe = None
  end.

Lemma entry_failure_counted s ts oe now :
  settings_in_range s → 0 < failureThreshold s → 0 < now →
  separate_failures s (ts ++ [now]) → Z.of_nat (length ts) < failureThreshold s →
  counted_entry s ts oe → counted_entry s (ts ++ [now]) (Some (entry_failure s oe now)).
Proof.
  intros [Hr1 Hr2] Hth Hnow [Hgap Hwin] Hlen Hc.
  unfold counted_entry. rewrite last_snoc. destruct ts as [|first ts'].
  - unfold counted_entry in Hc. simpl in Hc. subst oe. simpl. eexists. split; [done|].
    unfold entry_failure, same_incident, restart_window. simpl. unfold_time. simpl.
    rewrite andb_false_r. simpl. split_and!; try done.
  - change (head ((first :: ts') ++ [now])) with (Some first).
    set (ts := first :: ts') in *.
    destruct (last ts) as [latest|] eqn:Elast.
    2:{ apply last_None in Elast. done. }
    unfold counted_entry in Hc. rewrite Elast in Hc. simpl in Hc.
    destruct Hc as (e & -> & Hcnt & Hws & Hlf & Hbu).
    rewrite (proj2 (Z.leb_gt _ _)) in Hbu by (subst ts; simpl in *; lia).
    assert (0 < first ≤ now ∧ now ≤ first + failureWindow s) as Hfw.
    { apply Hwin; [done|]. apply elem_of_app; right; by left. }
    assert (first ≤ latest) as Hfl.
    { apply Hwin; [done|]. apply elem_of_app; left.
      rewrite last_lookup in Elast. by eapply list_elem_of_lookup_2. }
    assert (latest + collapseInterval s ≤ now) as Hgap'.
    { rewrite last_lookup in Elast. eapply (Hgap (length ts - 1)%nat).
      - apply lookup_app_l_Some. by rewrite <- Nat.sub_1_r in Elast.
      - replace (S (length ts - 1)) with (length ts) by (subst ts; simpl; lia).
        by apply list_lookup_middle. }
    eexists. split; [done|]. unfold entry_failure. simpl. unfold_time. rewrite Hbu.
    rewrite (proj2 (Z.ltb_ge now 0)) by lia. rewrite ?andb_false_r.
    assert (restart_window s now e = e) as ->.
    { unfold restart_window. unfold_time. rewrite Hws.
      rewrite (proj2 (Z.eqb_neq first 0)), (proj2 (Z.ltb_ge now first)), (proj2 (Z.ltb_ge (failureWindow s) _));
        [done|unfold time_sub, saturate_int64, max_int64, min_int64 in *; lia..]. }
    assert (same_incident s now e = false) as ->.
    { unfold same_incident. rewrite Hlf. apply andb_false_iff. right. apply Z.ltb_ge.
      unfold time_sub, saturate_int64, max_int64, min_int64 in *. lia. }
    simpl. rewrite length_app, Hcnt, Hbu. unfold ts. simpl length. split_and!; [lia|done..|].
    replace (Z.of_nat (S (length ts')) + 1) with (Z.of_nat (S (length ts' + 1))) by lia.
    by case_match.
Qed.

Lemma entry_steps_counted s p h n :
  settings_in_range s → 0 < failureThreshold s →
  Forall (λ ev, match ev with Failure _ t => 0 < t | _ => True end) h →
  separate_failures s (recent_failures p h) →
  Z.of_nat (length (recent_failures p h)) ≤ failureThreshold s →
  (failureThreshold s ≤ Z.of_nat (length (recent_failures p h)) →
   ∀ latest, last (recent_failures p h) = Some latest → n < latest + quarantineTTL s) →
  (∀ t, Query p t ∈ h → t ≤ n) →
  counted_entry s (recent_failures p h) (foldl (entry_step s p) None h).
Proof.
  intros Hr Hth. induction h as [|ev h IH] using rev_ind; intros Hpos Hsep Hlen Hn Hq; [done|].
  apply Forall_app in Hpos as [Hpos [Hev _]%Forall_cons].
  rewrite recent_snoc in *. rewrite foldl_app, foldl_step. change (foldl ?f ?a []) with a.
  assert (∀ t, Query p t ∈ h → t ≤ n) as Hq' by (intros t Ht; apply Hq; set_solver).
  destruct ev as [q now|q|q now]; simpl in *; case_decide as E; subst; auto.
  - rewrite length_app in Hlen. simpl in Hlen. apply entry_failure_counted; auto with lia.
    apply IH; auto; [by eapply separate_failures_snoc|lia|intros; lia].
  - done.
  - specialize (IH Hpos Hsep Hlen Hn Hq'). unfold counted_entry in *.
    destruct (head _) as [first|] eqn:Ehead; [|by rewrite IH].
    destruct (last _) as [latest|] eqn:Elast; [|by rewrite IH].
    destruct IH as (e & -> & Hrest). exists e. split; [|done]. simpl.
    destruct Hrest as (_ & _ & _ & Hbu). unfold_time.
    destruct (failureThreshold s <=? _) eqn:Eth; rewrite Hbu; [|done]. bool_to_prop.
    assert (now ≤ n) by (apply Hq; set_solver). specialize (Hn Eth _ eq_refl).
    rewrite (proj2 (Z.ltb_lt now _)) by lia. by rewrite andb_false_r.
Qed.

Lemma reaches_positive s h c : reaches s h c →
  Forall (λ ev, match ev with Failure _ t => 0 < t | _ => True end) h.
Proof.
  induction 1 as [|h ev c c' _ IH Hstep]; [done|]. apply Forall_app_2; [done|].
  apply Forall_singleton. by destruct Hstep.
Qed.

(** A proxy that keeps failing is quarantined: when, since its last success
    (or ever), it had threshold failures in one window, each at least the
    collapse interval after the one before, then it is blocked until the
    quarantine time after the last of them has passed, however the events of
    other proxies are interleaved, as long as no more proxies fail than the
    circuit has entries. *)
Theorem separate_failures_quarantine s h c p latest now :
  let c0 := newOpenAIProxyStreamCircuit s in
  disabled s = false → settings_in_range (settings c0) → 0 < p →
  reaches c0 h c →
  Z.of_nat (size (failing h)) ≤ maxEntries (settings c0) →
  separate_failures (settings c0) (recent_failures p h) →
  Z.of_nat (length (recent_failures p h)) = failureThreshold (settings c0) →
  last (recent_failures p h) = Some latest →
  (∀ t, Query p t ∈ h → t ≤ now) →
  now < latest + quarantineTTL (settings c0) →
  (isBlocked c p now).2 = true.
Proof.
  intros c0 Hd Hr Hp Hreach Hsize Hsep Hlen Hlast Hq Enow.
  pose proof (reaches_ok _ _ _ Hreach) as [_ Hs]. fold c0 in Hs.
  assert (0 < failureThreshold (settings c0)) as Hth.
  { destruct (recent_failures p h); [done|]. simpl in Hlen. simpl. lia. }
  pose proof (circuit_refines_entry s h c p Hd Hp Hreach Hsize) as Hentry. fold c0 in Hentry.
  pose proof (entry_steps_counted (settings c0) p h now Hr Hth (reaches_positive _ _ _ Hreach)
    Hsep) as Hc.
  unfold isBlocked. rewrite Hs. replace (disabled (settings c0)) with false by done.
  rewrite (proj2 (Z.leb_gt p 0)) by done. simpl orb. cbv iota.
  unfold counted_entry in Hc. rewrite <- Hentry, Hlast, Hlen in Hc.
  destruct (head (recent_failures p h)) as [first|] eqn:Ehead;
    [|by destruct (recent_failures p h)].
  destruct Hc as (e & -> & _ & _ & _ & Hbu); [done|by intros _ l' [= <-]|done|].
  rewrite Z.leb_refl in Hbu. unfold_time. rewrite Hbu.
  assert (0 < latest) as Hpos.
  { destruct Hsep as [_ Hsep]. rewrite last_lookup in Hlast.
    apply list_elem_of_lookup_2, (Hsep _ _ Ehead) in Hlast. lia. }
  assert (0 < quarantineTTL (settings c0)) as Httl.
  { simpl. unfold defaultOpenAIProxyStreamQuarantineTTL, Minute, Second.
    case_match; bool_to_prop; lia. }
  rewrite (proj2 (Z.eqb_neq _ 0)) by lia. by rewrite (proj2 (Z.ltb_lt _ _)).
Qed.

(** The circuit stays within its bound along every history, and it makes room
    fairly: when a failure of a new proxy removes a live entry, every entry that
    stays was touched no earlier than the removed one. *)
Theorem circuit_bounded_lru s h c range p now :
  let c0 := newOpenAIProxyStreamCircuit s in
  reaches c0 h c → fair range →
  let c' := (recordFailure range c p now).1 in
  Z.of_nat (size (entries c)) ≤ maxEntries (settings c0)
  ∧ Z.of_nat (size (entries c')) ≤ maxEntries (settings c0)
  ∧ (∀ q e, entries c !! q = Some e → entries c' !! q = None →
       stale_or_expired (failureWindow (settings c0)) now e = false →
       ∀ r e', r ≠ p → entries c' !! r = Some e' → lastTouched e ≤ lastTouched e').
Proof.
  intros c0 Hreach Hf c'. apply reaches_ok in Hreach as [Hok Hs]. fold c0 in Hs.
  pose proof Hok as (Hpos & Hmax & Hsize). rewrite <- Hs. split; [done|].
  assert ((p ≤ 0 ∨ disabled (settings c) = true) ∨ (0 < p ∧ disabled (settings c) = false))
    as [Hin|[Hp Hd]] by (destruct (disabled (settings c)); lia || (left; by right)).
  { unfold c'. rewrite recordFailure_inactive by tauto. simpl. split; [done|].
    intros q e H1 H2. congruence. }
  destruct (room_spec range c p now) as (H1 & H2 & H3 & H4 & H5); [done..|].
  unfold c'. rewrite recordFailure_entries by done. simpl. split.
  - apply map_subseteq_size in H2. apply size_insert_room; [lia|]. by rewrite H5.
  - intros q e Hq [Hroom Hne]%lookup_insert_None Hlive r e' Hr He'.
    rewrite lookup_insert_ne in He' by done. case_bool_decide as Hex; [congruence|].
    destruct (ensureCapacityLocked_spec range c now) as (_ & _ & _ & _ & Hlru); [done..|].
    by eapply Hlru.
Qed.

(** ** A concrete circuit *)

Definition run_event (c : openAIProxyStreamCircuit) (ev : event) : openAIProxyStreamCircuit :=
  match ev with
  | Failure p now => (recordFailure map_to_list c p now).1
  | Success p => (recordSuccess c p).1
  | Query p now => (isBlocked c p now).1
  end.

Definition timed (ev : event) : Prop :=
  match ev with Failure _ t => 0 < t | Query _ t => 0 < t | Success _ => True end.

Lemma fair_map_to_list : fair map_to_list.
Proof. by intros m. Qed.

Lemma run_reaches c0 h : Forall timed h → reaches c0 h (foldl run_event c0 h).
Proof.
  induction h as [|ev h IH] using rev_ind; intros Ht; [constructor|].
  apply Forall_app in Ht as [Ht [Hev _]%Forall_cons].
  rewrite foldl_app. eapply reaches_snoc; [by apply IH|].
  destruct ev; simpl in *; constructor; done || apply fair_map_to_list.
Qed.

Definition demo_settings : openAIProxyStreamCircuitSettings :=
  mkSettings false 2 Minute (10 * Minute) (3 * Second) 2.

(** Proxy 7 loses several streams at once, then again five seconds later; proxy 8
    fails once. *)
Definition demo_history : list event :=
  [Failure 7 (10 * Second); Failure 7 (10 * Second + 5); Failure 8 (12 * Second);
   Query 7 (14 * Second); Failure 7 (15 * Second); Failure 7 (16 * Second)].

Definition demo_circuit : openAIProxyStreamCircuit :=
  foldl run_event (newOpenAIProxyStreamCircuit demo_settings) demo_history.

Example demo_blocked :
  (isBlocked demo_circuit 7 (600 * Second)).2 = true
  ∧ (isBlocked demo_circuit 7 (615 * Second)).2 = false
  ∧ (isBlocked demo_circuit 8 (16 * Second)).2 = false
  ∧ activeBlockCount map_to_list demo_circuit (16 * Second) = 1.
Proof. vm_compute. done. Qed.

Lemma demo_reaches :
  reaches (newOpenAIProxyStreamCircuit demo_settings) demo_history demo_circuit.
Proof. apply run_reaches. repeat constructor. Qed.

Lemma quarantine_needs_failures_witness :
  ∃ ts w t, ts `sublist_of` recent_failures 7 demo_history ∧ 2 ≤ Z.of_nat (length ts)
    ∧ distinct_incidents (3 * Second) ts ∧ within_window w Minute ts
    ∧ last ts = Some t ∧ 600 * Second < t + 10 * Minute.
Proof.
  apply (quarantine_needs_failures demo_settings demo_history demo_circuit 7 (600 * Second)).
  - by vm_compute.
  - exact demo_reaches.
  - vm_compute. reflexivity.
Defined.

Definition demo_history2 : list event :=
  [Failure 7 (10 * Second); Failure 8 (12 * Second); Query 7 (14 * Second); Failure 7 (15 * Second)].

Lemma separate_failures_quarantine_witness :
  (isBlocked (foldl run_event (newOpenAIProxyStreamCircuit demo_settings) demo_history2)
     7 (600 * Second)).2 = true.
Proof.
  apply (separate_failures_quarantine demo_settings demo_history2 _ 7 (15 * Second)).
  - reflexivity.
  - by vm_compute.
  - lia.
  - apply run_reaches. repeat constructor.
  - by vm_compute.
  - split.
    + intros [|[|i]] a b Ha Hb; [|done..].
      vm_compute in Ha, Hb. simplify_eq. by vm_compute.
    + intros a t Ha Ht. vm_compute in Ha. simplify_eq.
      change (t ∈ [10 * Second; 15 * Second]) in Ht. rewrite !elem_of_cons, elem_of_nil in Ht.
      destruct Ht as [->|[->|[]]]; split_and!; by vm_compute.
  - by vm_compute.
  - reflexivity.
  - intros t Ht. unfold demo_history2 in Ht. rewrite !elem_of_cons, elem_of_nil in Ht.
    destruct Ht as [[=]|[[=]|[[= ->]|[[=]|[]]]]]. by vm_compute.
  - by vm_compute.
Defined.

Lemma circuit_bounded_lru_witness :
  Z.of_nat (size (entries demo_circuit)) ≤ 2
  ∧ Z.of_nat (size (entries (recordFailure map_to_list demo_circuit 9 (20 * Second)).1)) ≤ 2
  ∧ entries (recordFailure map_to_list demo_circuit 9 (20 * Second)).1 !! 8 = None
  ∧ is_Some (entries (recordFailure map_to_list demo_circuit 9 (20 * Second)).1 !! 7).
Proof.
  pose proof (circuit_bounded_lru demo_settings demo_history demo_circuit map_to_list 9
    (20 * Second) demo_reaches fair_map_to_list) as (H1 & H2 & _).
  split; [exact H1|]. split; [exact H2|]. vm_compute. eauto.
Defined.
