(* ===== verification/InvalidAuthLimiter.v ===== *)
(** * The limiter of clients that present invalid API keys

    [service/invalid_auth_abuse_limiter.go]: sixteen shards of per-client failure
    counters, a shared bound on the number of tracked clients, and one overflow
    counter for the clients that do not fit.  Every method is one step: the
    shard mutexes and the atomic counters are not interleaved. *)

From Stdlib Require Import ZArith Lia String.
From stdpp Require Import base tactics numbers list gmap strings.
From S2P Require Import Prelude GoStrings.

Open Scope Z_scope.

(** ** Data *)

Definition invalidAuthAbuseShardCount : Z := 16.

(** Also the fields of [invalidAuthOverflow], which are the same. *)
Record invalidAuthAbuseEntry := mkEntry {
  failures : Z;
  windowStart : Z;
  blockedUntil : Z
}.

Definition zero_entry : invalidAuthAbuseEntry := mkEntry 0 0 0.

Abbreviation shard_map := (gmap string invalidAuthAbuseEntry).

(** The fixed fields of [invalidAuthAbuseLimiter]. *)
Record limits := mkLimits { threshold : Z; window : Z; block : Z; capacity : Z }.

(** Its fields that change. *)
Record invalidAuthAbuseLimiter := mkLimiter {
  shards : list shard_map;
  overflow : invalidAuthAbuseEntry;
  tracked : Z;
  recorded : Z;
  blocked : Z;
  rejected : Z;
  expired : Z;
  overflowed : Z;
  globalBlocked : Z;
  cleanupNext : Z;
  cleanupCursor : Z
}.

Record InvalidAuthAbuseHealth := mkHealth {
  Enabled : bool;
  Tracked : Z;
  Capacity : Z;
  Recorded : Z;
  Blocks : Z;
  Rejected : Z;
  Expired : Z;
  Overflowed : Z;
  GlobalBlocked : Z
}.

Record InvalidAuthAbuseConfig := mkConfig {
  cfg_Enabled : bool;
  cfg_Threshold : Z;
  cfg_WindowSeconds : Z;
  cfg_BlockSeconds : Z;
  cfg_Capacity : Z
}.

Definition new_state : invalidAuthAbuseLimiter :=
  mkLimiter (replicate (Z.to_nat invalidAuthAbuseShardCount) ∅) zero_entry 0 0 0 0 0 0 0 0 0.

Definition newInvalidAuthAbuseLimiter (cfg : option InvalidAuthAbuseConfig)
    : option (limits * invalidAuthAbuseLimiter) :=
  match cfg with
  | None => None
  | Some c =>
      if negb (cfg_Enabled c) then None
      else if (cfg_Threshold c <=? 0) || (cfg_WindowSeconds c <=? 0)
              || (cfg_BlockSeconds c <=? 0) || (cfg_Capacity c <=? 0) then None
      else Some (mkLimits (cfg_Threshold c) (seconds (cfg_WindowSeconds c))
                   (seconds (cfg_BlockSeconds c)) (cfg_Capacity c), new_state)
  end.

Definition uint64_add (a b : Z) : Z := wrap_unsigned 64 (a + b).
Definition uint32_add (a b : Z) : Z := wrap_unsigned 32 (a + b).

(** The shard of a client: FNV-1a on 32 bits. *)
Definition shard_index (clientKey : string) : nat :=
  Z.to_nat (foldl (λ hash b, wrap_unsigned 32 (Z.lxor hash b * 16777619)) 2166136261
              (bytes clientKey) `mod` invalidAuthAbuseShardCount).

Example shard_index_examples : shard_index "" = 5%nat ∧ shard_index "a" = 12%nat.
Proof. by vm_compute. Qed.

(** ** Operations *)

Section operations.
Context (L : limits).

Definition entryExpired (e : invalidAuthAbuseEntry) (now : Z) : bool :=
  negb (time_after (blockedUntil e) now) && negb (time_after (windowStart e) now)
  && negb (time_before now (time_add (windowStart e) (window L))).

Definition lookup_entry (l : invalidAuthAbuseLimiter) (clientKey : string)
    : option invalidAuthAbuseEntry :=
  default ∅ (shards l !! shard_index clientKey) !! clientKey.

(** Replaces the map of one shard. *)
Definition set_shard (l : invalidAuthAbuseLimiter) (i : nat) (m : shard_map)
    : invalidAuthAbuseLimiter :=
  mkLimiter (<[i := m]> (shards l)) (overflow l) (tracked l) (recorded l) (blocked l)
    (rejected l) (expired l) (overflowed l) (globalBlocked l) (cleanupNext l) (cleanupCursor l).

Definition put_entry (l : invalidAuthAbuseLimiter) (clientKey : string)
    (e : invalidAuthAbuseEntry) : invalidAuthAbuseLimiter :=
  set_shard l (shard_index clientKey)
    (<[clientKey := e]> (default ∅ (shards l !! shard_index clientKey))).

Definition set_tracked (l : invalidAuthAbuseLimiter) (n : Z) : invalidAuthAbuseLimiter :=
  mkLimiter (shards l) (overflow l) n (recorded l) (blocked l)
    (rejected l) (expired l) (overflowed l) (globalBlocked l) (cleanupNext l) (cleanupCursor l).

(** [n] entries were deleted because they expired. *)
Definition count_expired (l : invalidAuthAbuseLimiter) (n : Z) : invalidAuthAbuseLimiter :=
  mkLimiter (shards l) (overflow l) (tracked l - n) (recorded l) (blocked l)
    (rejected l) (uint64_add (expired l) n) (overflowed l) (globalBlocked l)
    (cleanupNext l) (cleanupCursor l).

Definition count_rejected (l : invalidAuthAbuseLimiter) : invalidAuthAbuseLimiter :=
  mkLimiter (shards l) (overflow l) (tracked l) (recorded l) (blocked l)
    (uint64_add (rejected l) 1) (expired l) (overflowed l) (globalBlocked l)
    (cleanupNext l) (cleanupCursor l).

Definition count_globalBlocked (l : invalidAuthAbuseLimiter) : invalidAuthAbuseLimiter :=
  mkLimiter (shards l) (overflow l) (tracked l) (recorded l) (blocked l)
    (rejected l) (expired l) (overflowed l) (uint64_add (globalBlocked l) 1)
    (cleanupNext l) (cleanupCursor l).

Definition count_recorded (l : invalidAuthAbuseLimiter) : invalidAuthAbuseLimiter :=
  mkLimiter (shards l) (overflow l) (tracked l) (uint64_add (recorded l) 1) (blocked l)
    (rejected l) (expired l) (overflowed l) (globalBlocked l) (cleanupNext l) (cleanupCursor l).

Definition count_blocked (l : invalidAuthAbuseLimiter) (n : Z) : invalidAuthAbuseLimiter :=
  mkLimiter (shards l) (overflow l) (tracked l) (recorded l) (uint64_add (blocked l) n)
    (rejected l) (expired l) (overflowed l) (globalBlocked l) (cleanupNext l) (cleanupCursor l).

(** The order in which the loop visits the shard does not matter: each entry is
    kept or deleted by itself. *)
Definition maybeCleanupAtCapacity (l : invalidAuthAbuseLimiter) (now : Z)
    : invalidAuthAbuseLimiter :=
  if tracked l <? capacity L then l
  else if UnixNano now <? cleanupNext l then l
  else
    let cursor := uint32_add (cleanupCursor l) 1 in
    let index := uint32_add cursor (-1) in
    let l := mkLimiter (shards l) (overflow l) (tracked l) (recorded l) (blocked l)
               (rejected l) (expired l) (overflowed l) (globalBlocked l)
               (UnixNano (time_add now (100 * Millisecond))) cursor in
    let i := Z.to_nat (index `mod` invalidAuthAbuseShardCount) in
    let m := default ∅ (shards l !! i) in
    let kept : shard_map := filter (λ p, entryExpired p.2 now = false) m in
    count_expired (set_shard l i kept) (Z.of_nat (size m) - Z.of_nat (size kept)).

(** Looks the client up, and deletes its entry if it expired. *)
Definition live_entry (l : invalidAuthAbuseLimiter) (clientKey : string) (now : Z)
    : invalidAuthAbuseLimiter * option invalidAuthAbuseEntry :=
  match lookup_entry l clientKey with
  | None => (l, None)
  | Some entry =>
      if entryExpired entry now then
        (count_expired (set_shard l (shard_index clientKey)
           (delete clientKey (default ∅ (shards l !! shard_index clientKey)))) 1, None)
      else (l, Some entry)
  end.

Definition checkOverflow (l : invalidAuthAbuseLimiter) (now : Z) : option Z :=
  if time_after (blockedUntil (overflow l)) now
  then Some (time_sub (blockedUntil (overflow l)) now) else None.

(** [Some retry] when the client is refused. *)
Definition check (l : invalidAuthAbuseLimiter) (clientKey : string) (now : Z)
    : invalidAuthAbuseLimiter * option Z :=
  if String.eqb clientKey "" then (l, None)
  else
    let l := maybeCleanupAtCapacity l now in
    let '(l, entry) := live_entry l clientKey now in
    match entry with
    | Some e =>
        if time_after (blockedUntil e) now
        then (count_rejected l, Some (time_sub (blockedUntil e) now))
        else (l, None)
    | None =>
        if capacity L <=? tracked l then
          match checkOverflow l now with
          | Some retry => (count_globalBlocked (count_rejected l), Some retry)
          | None => (l, None)
          end
        else (l, None)
    end.

Definition reserveEntry (l : invalidAuthAbuseLimiter) : invalidAuthAbuseLimiter * bool :=
  if capacity L <=? tracked l then (l, false) else (set_tracked l (tracked l + 1), true).

(** Counts a failure in a window that starts over when [restart] holds; returns
    whether the failure reached the threshold. *)
Definition count_failure (restart : bool) (e : invalidAuthAbuseEntry) (now : Z)
    : invalidAuthAbuseEntry * bool :=
  let e := if restart then mkEntry 0 now (blockedUntil e) else e in
  if threshold L <=? failures e + 1 then
    (mkEntry 0 (time_add now (block L)) (time_add now (block L)), true)
  else (mkEntry (failures e + 1) (windowStart e) (blockedUntil e), false).

(** [record] on a client's entry. *)
Definition entry_failure (e : invalidAuthAbuseEntry) (now : Z) : invalidAuthAbuseEntry * bool :=
  if time_after (blockedUntil e) now then (e, false)
  else count_failure
         (time_after (windowStart e) now
          || negb (time_before now (time_add (windowStart e) (window L)))) e now.

(** [recordOverflow] on the overflow counter. *)
Definition overflow_failure (e : invalidAuthAbuseEntry) (now : Z) : invalidAuthAbuseEntry * bool :=
  if time_after (blockedUntil e) now then (e, false)
  else count_failure
         (time_is_zero (windowStart e)
          || negb (time_before now (time_add (windowStart e) (window L)))) e now.

Definition recordOverflow (l : invalidAuthAbuseLimiter) (now : Z) : invalidAuthAbuseLimiter :=
  let '(e, tripped) := overflow_failure (overflow l) now in
  count_blocked
    (mkLimiter (shards l) e (tracked l) (recorded l) (blocked l) (rejected l) (expired l)
       (uint64_add (overflowed l) 1) (globalBlocked l) (cleanupNext l) (cleanupCursor l))
    (if tripped then 1 else 0).

Definition record (l : invalidAuthAbuseLimiter) (clientKey : string) (now : Z)
    : invalidAuthAbuseLimiter :=
  if String.eqb clientKey "" then l
  else
    let l := maybeCleanupAtCapacity (count_recorded l) now in
    let '(l, entry) := live_entry l clientKey now in
    let update l e :=
      let '(e, tripped) := entry_failure e now in
      count_blocked (put_entry l clientKey e) (if tripped then 1 else 0) in
    match entry with
    | Some e => update l e
    | None =>
        let '(l, ok) := reserveEntry l in
        if ok then update l (mkEntry 0 now 0) else recordOverflow l now
    end.

Definition health (l : invalidAuthAbuseLimiter) : InvalidAuthAbuseHealth :=
  mkHealth true (tracked l) (capacity L) (recorded l) (blocked l) (rejected l) (expired l)
    (overflowed l) (globalBlocked l).

End operations.

(** ** The API key service's side: [None] is a disabled limiter *)

Definition CheckInvalidAuthAbuse (s : option (limits * invalidAuthAbuseLimiter))
    (clientKey : string) (now : Z)
    : option (limits * invalidAuthAbuseLimiter) * option Z :=
  match s with
  | None => (None, None)
  | Some (L, l) => let '(l, r) := check L l clientKey now in (Some (L, l), r)
  end.

Definition RecordInvalidAuthFailure (s : option (limits * invalidAuthAbuseLimiter))
    (clientKey : string) (now : Z) : option (limits * invalidAuthAbuseLimiter) :=
  match s with
  | None => None
  | Some (L, l) => Some (L, record L l clientKey now)
  end.

Definition InvalidAuthAbuseHealth_of (s : option (limits * invalidAuthAbuseLimiter))
    : InvalidAuthAbuseHealth :=
  match s with
  | None => mkHealth false 0 0 0 0 0 0 0 0
  | Some (L, l) => health L l
  end.

(** ** Histories *)

Inductive event :=
| Record_ (clientKey : string) (now : Z)
| Check_ (clientKey : string) (now : Z).

Definition event_time (ev : event) : Z :=
  match ev with Record_ _ t => t | Check_ _ t => t end.
Definition event_client (ev : event) : string :=
  match ev with Record_ k _ => k | Check_ k _ => k end.

Definition run_event (L : limits) (l : invalidAuthAbuseLimiter) (ev : event)
    : invalidAuthAbuseLimiter :=
  match ev with
  | Record_ k now => record L l k now
  | Check_ k now => (check L l k now).1
  end.

(** The limiter after a history, oldest event first. *)
Definition run (L : limits) (h : list event) : invalidAuthAbuseLimiter :=
  foldl (run_event L) new_state h.

Lemma run_snoc L h ev : run L (h ++ [ev]) = run_event L (run L h) ev.
Proof. unfold run. by rewrite foldl_app. Qed.

(** The clock does not go back. *)
Fixpoint clocked (start : Z) (h : list event) : Prop :=
  match h with
  | [] => True
  | ev :: h => start ≤ event_time ev ∧ clocked (event_time ev) h
  end.

(** The time of the last event, [start] if there is none. *)
Definition clock (start : Z) (h : list event) : Z := default start (event_time <$> last h).

Lemma clocked_snoc start h ev :
  clocked start (h ++ [ev]) ↔ clocked start h ∧ clock start h ≤ event_time ev.
Proof.
  revert start. induction h as [|x h IH]; intros start; simpl; [unfold clock; simpl; tauto|].
  rewrite IH. unfold clock. destruct h as [|y h]; [simpl; tauto|].
  change (last (x :: y :: h)) with (last (y :: h)).
  destruct (last (y :: h)) eqn:E; [simpl; tauto|by apply last_None in E].
Qed.

Lemma clock_snoc start h ev : clock start (h ++ [ev]) = event_time ev.
Proof. unfold clock. by rewrite last_snoc. Qed.

Lemma clocked_start start h : clocked start h → start ≤ clock start h.
Proof.
  induction h as [|ev h IH] using rev_ind; [done|].
  rewrite clocked_snoc, clock_snoc. intros [H1%IH ?]. lia.
Qed.

(** ** The stored entries *)

Definition stored (l : invalidAuthAbuseLimiter) : nat := sum_list_with size (shards l).

Record well_formed (L : limits) (l : invalidAuthAbuseLimiter) : Prop := {
  wf_shards : length (shards l) = Z.to_nat invalidAuthAbuseShardCount;
  wf_placed : ∀ i m k, shards l !! i = Some m → is_Some (m !! k) → shard_index k = i;
  wf_tracked : tracked l = Z.of_nat (stored l);
  wf_capacity : tracked l ≤ capacity L
}.

Lemma shard_index_lt k : (shard_index k < 16)%nat.
Proof.
  unfold shard_index. change invalidAuthAbuseShardCount with 16.
  pose proof (Z.mod_pos_bound (foldl (λ hash b, wrap_unsigned 32 (Z.lxor hash b * 16777619))
    2166136261 (bytes k)) 16). lia.
Qed.

Lemma sum_list_insert {A} (f : A → nat) (l : list A) i x y :
  l !! i = Some x → (sum_list_with f (<[i := y]> l) + f x = sum_list_with f l + f y)%nat.
Proof.
  revert i. induction l as [|z l IH]; intros [|i] H; simplify_eq/=; [lia|].
  specialize (IH _ H). lia.
Qed.

Lemma sum_list_lookup {A} (f : A → nat) (l : list A) i x :
  l !! i = Some x → (f x ≤ sum_list_with f l)%nat.
Proof.
  revert i. induction l as [|z l IH]; intros [|i] H; simplify_eq/=; [lia|].
  specialize (IH _ H). lia.
Qed.

Lemma stored_set_shard l i m m' :
  shards l !! i = Some m →
  (stored (set_shard l i m') + size m = stored l + size m')%nat.
Proof. apply sum_list_insert. Qed.

Lemma wf_shard L l k : well_formed L l → ∃ m, shards l !! shard_index k = Some m.
Proof.
  intros Hwf. apply lookup_lt_is_Some. rewrite (wf_shards _ _ Hwf).
  pose proof (shard_index_lt k). change (Z.to_nat _) with 16%nat. lia.
Qed.

(** A set of keys of the size that is stored. *)
Lemma stored_keys L l :
  well_formed L l →
  ∃ X : gset string, stored l = size X ∧ ∀ k, k ∈ X ↔ is_Some (lookup_entry l k).
Proof.
  intros Hwf.
  assert (∀ (ms : list shard_map) (n : nat), (∀ i m k, ms !! i = Some m → is_Some (m !! k) → shard_index k = n + i)%nat →
    ∃ X : gset string, sum_list_with size ms = size X
      ∧ ∀ k, k ∈ X ↔ ∃ i m, ms !! i = Some m ∧ is_Some (m !! k)) as Hgen.
  { intros ms. induction ms as [|m ms IH]; intros n Hplaced.
    { exists ∅. split; [by rewrite size_empty|]. set_solver. }
    destruct (IH (S n)) as (X & Hsize & HX).
    { intros i m' k Hm' Hk. rewrite (Hplaced (S i) m' k) by done. lia. }
    exists (dom m ∪ X). split.
    - simpl. rewrite size_union, size_dom, Hsize; [done|].
      intros k Hk HkX. apply HX in HkX as (i & m' & Hm' & Hk').
      apply elem_of_dom in Hk. pose proof (Hplaced 0%nat m k eq_refl Hk).
      pose proof (Hplaced (S i) m' k Hm' Hk'). lia.
    - intros k. rewrite elem_of_union, elem_of_dom, HX. split.
      + intros [Hk|(i & m' & ? & ?)]; [by exists 0%nat, m|by exists (S i), m'].
      + intros ([|i] & m' & Hm' & Hk); simplify_eq/=; [by left|right; eauto]. }
  destruct (Hgen (shards l) 0%nat) as (X & Hsize & HX); [by apply (wf_placed _ _ Hwf)|].
  exists X. split; [done|]. intros k. rewrite HX. unfold lookup_entry. split.
  - intros (i & m & Hm & Hk). rewrite (wf_placed _ _ Hwf i m k) by done. by rewrite Hm.
  - destruct (wf_shard L l k) as [m Hm]; [done|]. rewrite Hm. intros Hk. eauto.
Qed.

Lemma lookup_set_shard L l i m k :
  well_formed L l → (i < 16)%nat →
  lookup_entry (set_shard l i m) k = if decide (shard_index k = i) then m !! k else lookup_entry l k.
Proof.
  intros Hwf Hi. unfold lookup_entry. simpl. case_decide as H.
  - subst. rewrite list_lookup_insert_eq; [done|]. rewrite (wf_shards _ _ Hwf).
    change (Z.to_nat _) with 16%nat. lia.
  - by rewrite list_lookup_insert_ne.
Qed.

(** Replacing a shard by one with keys that belong there. *)
Lemma wf_set_shard L l l' i m m' :
  well_formed L l → shards l !! i = Some m →
  shards l' = <[i := m']> (shards l) →
  (∀ k, is_Some (m' !! k) → shard_index k = i) →
  tracked l' = tracked l + Z.of_nat (size m') - Z.of_nat (size m) →
  tracked l' ≤ capacity L → well_formed L l'.
Proof.
  intros Hwf Hm Hl' Hplaced Htracked Hcap.
  pose proof (stored_set_shard l i m m' Hm) as Hstored.
  assert (stored l' = stored (set_shard l i m')) as Hsame by (unfold stored; by rewrite Hl').
  split; [by rewrite Hl', length_insert, (wf_shards _ _ Hwf)| | |done].
  - intros j m2 k Hj Hk. rewrite Hl' in Hj.
    destruct (decide (i = j)) as [->|Hne].
    + rewrite list_lookup_insert_eq in Hj by by apply lookup_lt_Some in Hm. simplify_eq.
      by apply Hplaced.
    + rewrite list_lookup_insert_ne in Hj by done. by apply (wf_placed _ _ Hwf j m2).
  - rewrite Htracked, (wf_tracked _ _ Hwf), Hsame. lia.
Qed.

(** ** What one operation does to the entries *)

Definition drop_expired (L : limits) (now : Z) (oe : option invalidAuthAbuseEntry)
    : option invalidAuthAbuseEntry :=
  e ← oe; if entryExpired L e now then None else Some e.

(** Entries are as before, except that some expired ones are gone. *)
Definition prunes (L : limits) (now : Z) (l l' : invalidAuthAbuseLimiter) : Prop :=
  overflow l' = overflow l
  ∧ ∀ k, lookup_entry l' k = lookup_entry l k
         ∨ lookup_entry l' k = None ∧ drop_expired L now (lookup_entry l k) = None.

Lemma prunes_refl L now l l' :
  overflow l' = overflow l → shards l' = shards l → prunes L now l l'.
Proof. intros H1 H2. split; [done|]. intros k. left. unfold lookup_entry. by rewrite H2. Qed.

Lemma prunes_trans L now l1 l2 l3 :
  prunes L now l1 l2 → prunes L now l2 l3 → prunes L now l1 l3.
Proof.
  intros [H1 H2] [H3 H4]. split; [congruence|]. intros k.
  destruct (H4 k) as [->|[-> Hd]]; [apply H2|right].
  split; [done|]. destruct (H2 k) as [<-|[_ ?]]; done.
Qed.

Lemma prunes_drop L now l l' k :
  prunes L now l l' →
  drop_expired L now (lookup_entry l' k) = drop_expired L now (lookup_entry l k).
Proof. intros [_ H]. destruct (H k) as [->|[-> Hd]]; [done|by rewrite Hd]. Qed.

Lemma wf_same L l l' :
  well_formed L l → shards l' = shards l → tracked l' = tracked l → well_formed L l'.
Proof.
  intros [H1 H2 H3 H4] Hs Ht. unfold stored in *.
  split; unfold stored; rewrite ?Hs, ?Ht; done.
Qed.

Lemma maybeCleanupAtCapacity_spec L l now :
  well_formed L l →
  well_formed L (maybeCleanupAtCapacity L l now)
  ∧ prunes L now l (maybeCleanupAtCapacity L l now).
Proof.
  intros Hwf. unfold maybeCleanupAtCapacity.
  destruct (_ <? _) eqn:E; [split; [done|by apply prunes_refl]|].
  destruct (UnixNano _ <? _); [split; [done|by apply prunes_refl]|].
  set (idx := uint32_add _ (-1)). clearbody idx. cbv zeta.
  set (i := Z.to_nat (idx `mod` invalidAuthAbuseShardCount)).
  assert (i < 16)%nat as Hi.
  { unfold i. change invalidAuthAbuseShardCount with 16.
    pose proof (Z.mod_pos_bound idx 16). lia. }
  destruct (lookup_lt_is_Some_2 (shards l) i) as [m Hm].
  { rewrite (wf_shards _ _ Hwf). change (Z.to_nat _) with 16%nat. lia. }
  simpl shards. rewrite Hm. simpl default.
  set (kept := filter _ m).
  assert (kept ⊆ m) as Hsub by apply map_filter_subseteq.
  assert (∀ k, is_Some (m !! k) → shard_index k = i) as Hplaced
    by (intros k; by apply (wf_placed _ _ Hwf i m)).
  assert (∀ k, is_Some (kept !! k) → shard_index k = i) as Hplaced'.
  { intros k [e He]. apply Hplaced. exists e. by eapply lookup_weaken. }
  apply map_subseteq_size in Hsub as Hsize. split.
  - eapply (wf_set_shard L l _ i m kept); simpl; [done..| |].
    + lia.
    + pose proof (wf_capacity _ _ Hwf). lia.
  - split; [done|]. intros k.
    pose proof (lookup_set_shard L l i kept k Hwf Hi) as Hlook.
    unfold lookup_entry in *. simpl in *. rewrite Hlook.
    case_decide as Hk; [|by left]. subst i. rewrite Hk, Hm. simpl.
    unfold kept. rewrite map_lookup_filter. unfold drop_expired.
    destruct (m !! k) as [e|]; simpl; [|by left].
    destruct (entryExpired L e now) eqn:Ee; simpl; [right|left]; by rewrite ?option_guard_True, ?option_guard_False.
Qed.

Lemma live_entry_spec L l k now :
  well_formed L l →
  well_formed L (live_entry L l k now).1
  ∧ prunes L now l (live_entry L l k now).1
  ∧ lookup_entry (live_entry L l k now).1 k = (live_entry L l k now).2
  ∧ (live_entry L l k now).2 = drop_expired L now (lookup_entry l k).
Proof.
  intros Hwf. unfold live_entry, drop_expired.
  destruct (lookup_entry l k) as [e|] eqn:Ek; simpl; [|by split_and!; try apply prunes_refl].
  destruct (entryExpired L e now) eqn:Ee; simpl; [|by split_and!; try apply prunes_refl].
  destruct (wf_shard L l k Hwf) as [m Hm]. rewrite Hm. simpl.
  assert (m !! k = Some e) as Hk by (unfold lookup_entry in Ek; by rewrite Hm in Ek).
  assert (∀ k', lookup_entry (count_expired (set_shard l (shard_index k) (delete k m)) 1) k'
    = if decide (k' = k) then None else lookup_entry l k') as Hlook.
  { intros k'. pose proof (lookup_set_shard L l (shard_index k) (delete k m) k' Hwf
      (shard_index_lt k)) as H. unfold lookup_entry in *. simpl in *. rewrite H.
    case_decide as Hk'; [rewrite Hk', Hm; simpl|]; case_decide as Hkk; subst;
      by rewrite ?lookup_delete_eq, ?lookup_delete_ne. }
  split_and!.
  - apply (wf_set_shard L l _ (shard_index k) m (delete k m)); simpl; [done..| | |].
    + intros k' [e' [_ He']%lookup_delete_Some]. eapply (wf_placed _ _ Hwf); [done|by eexists].
    + rewrite map_size_delete, Hk. simpl.
      assert (size m ≠ 0)%nat by (apply map_size_non_empty_iff; intros ->; done). lia.
    + pose proof (wf_capacity _ _ Hwf). lia.
  - split; [done|]. intros k'. rewrite Hlook. case_decide; [|by left]. subst. right.
    unfold drop_expired. rewrite Ek. simpl. by rewrite Ee.
  - rewrite Hlook. by rewrite decide_True.
  - done.
Qed.

Lemma put_entry_spec L l l' k e :
  well_formed L l → shards l' = shards (put_entry l k e) →
  tracked l' = tracked l + match lookup_entry l k with Some _ => 0 | None => 1 end →
  tracked l' ≤ capacity L →
  well_formed L l' ∧ ∀ k', lookup_entry l' k' = if decide (k' = k) then Some e else lookup_entry l k'.
Proof.
  intros Hwf Hs Ht Hcap. destruct (wf_shard L l k Hwf) as [m Hm].
  unfold put_entry in Hs. rewrite Hm in Hs. simpl in Hs. split.
  - apply (wf_set_shard L l _ (shard_index k) m (<[k:=e]> m)); [done..| | |done].
    + intros k' [e' [[-> _]|[_ He']]%lookup_insert_Some]; [done|].
      eapply (wf_placed _ _ Hwf); [done|by eexists].
    + rewrite Ht, map_size_insert. unfold lookup_entry. rewrite Hm. simpl.
      destruct (m !! k); simpl; lia.
  - intros k'. pose proof (lookup_set_shard L l (shard_index k) (<[k:=e]> m) k' Hwf
      (shard_index_lt k)) as H. unfold lookup_entry in *. rewrite Hs. simpl in H. rewrite H.
    case_decide as Hk'; [rewrite Hk', Hm; simpl|]; case_decide as Hkk; subst;
      by rewrite ?lookup_insert_eq, ?lookup_insert_ne.
Qed.

(** The answer to a client, from its live entry. *)
Definition refusal (now : Z) (oe : option invalidAuthAbuseEntry) : option Z :=
  e ← oe; if time_after (blockedUntil e) now then Some (time_sub (blockedUntil e) now) else None.

Lemma check_spec L l k now :
  well_formed L l → k ≠ "" →
  let l' := (check L l k now).1 in
  let oe := drop_expired L now (lookup_entry l k) in
  well_formed L l' ∧ prunes L now l l' ∧ lookup_entry l' k = oe
  ∧ (check L l k now).2
    = if bool_decide (oe = None) && (capacity L <=? tracked l') then checkOverflow l now
      else refusal now oe.
Proof.
  intros Hwf Hk. unfold check. rewrite (proj2 (String.eqb_neq _ _) Hk).
  destruct (maybeCleanupAtCapacity_spec L l now Hwf) as [Hwf1 Hp1].
  set (l1 := maybeCleanupAtCapacity L l now) in *. clearbody l1.
  destruct (live_entry_spec L l1 k now Hwf1) as (Hwf2 & Hp2 & Hk2 & Hoe).
  destruct (live_entry L l1 k now) as [l2 oe2]. simpl in *.
  pose proof (prunes_trans _ _ _ _ _ Hp1 Hp2) as Hp.
  rewrite (prunes_drop _ _ _ _ _ Hp1) in Hoe. rewrite Hoe in Hk2 |- *. clear Hoe oe2.
  set (oe := drop_expired L now (lookup_entry l k)) in *. clearbody oe.
  assert (checkOverflow l2 now = checkOverflow l now) as Hov.
  { unfold checkOverflow. by rewrite (proj1 Hp). }
  assert (∀ l3, shards l3 = shards l2 → tracked l3 = tracked l2 → overflow l3 = overflow l2 →
    well_formed L l3 ∧ prunes L now l l3 ∧ lookup_entry l3 k = oe) as Hsame.
  { intros l3 H1 H2 H3. split; [by eapply wf_same|]. split.
    - eapply prunes_trans; [done|]. by apply prunes_refl.
    - unfold lookup_entry in *. by rewrite H1. }
  destruct oe as [e|]; simpl.
  - destruct (time_after _ _); simpl; split_and!; by try apply Hsame.
  - destruct (capacity L <=? tracked l2) eqn:Ecap; simpl; [|rewrite Ecap; by split_and!].
    rewrite <- Hov. destruct (checkOverflow l2 now) eqn:Eo; simpl; rewrite Ecap;
      split_and!; by try apply Hsame.
Qed.

Lemma record_spec L l k now :
  well_formed L l → k ≠ "" →
  let l' := record L l k now in
  let oe := drop_expired L now (lookup_entry l k) in
  well_formed L l' ∧
  (∀ k', k' ≠ k → lookup_entry l' k' = lookup_entry l k'
                  ∨ lookup_entry l' k' = None ∧ drop_expired L now (lookup_entry l k') = None) ∧
  (overflow l' = overflow l
     ∧ lookup_entry l' k = Some (entry_failure L (default (mkEntry 0 now 0) oe) now).1
   ∨ overflow l' = (overflow_failure L (overflow l) now).1
     ∧ lookup_entry l' k = None ∧ oe = None
     ∧ ∃ l2, well_formed L l2 ∧ prunes L now l l2 ∧ lookup_entry l2 k = None
             ∧ capacity L ≤ tracked l2).
Proof.
  intros Hwf Hk. unfold record. rewrite (proj2 (String.eqb_neq _ _) Hk).
  assert (well_formed L (count_recorded l)) as Hwf0 by by eapply wf_same.
  assert (prunes L now l (count_recorded l)) as Hp0 by by apply prunes_refl.
  destruct (maybeCleanupAtCapacity_spec L _ now Hwf0) as [Hwf1 Hp1].
  pose proof (prunes_trans _ _ _ _ _ Hp0 Hp1) as Hp01. clear Hp0 Hp1 Hwf0.
  set (l1 := maybeCleanupAtCapacity L (count_recorded l) now) in *. clearbody l1.
  destruct (live_entry_spec L l1 k now Hwf1) as (Hwf2 & Hp2 & Hk2 & Hoe).
  destruct (live_entry L l1 k now) as [l2 oe2]. simpl in *.
  pose proof (prunes_trans _ _ _ _ _ Hp01 Hp2) as Hp.
  rewrite (prunes_drop _ _ _ _ _ Hp01) in Hoe. rewrite Hoe in Hk2 |- *. clear Hoe oe2.
  set (oe := drop_expired L now (lookup_entry l k)) in *. clearbody oe.
  assert (∀ l4 e, shards l4 = shards (put_entry l2 k e) →
    tracked l4 = tracked l2 + match oe with Some _ => 0 | None => 1 end →
    tracked l4 ≤ capacity L → overflow l4 = overflow l2 →
    well_formed L l4 ∧
    (∀ k', k' ≠ k → lookup_entry l4 k' = lookup_entry l k'
       ∨ lookup_entry l4 k' = None ∧ drop_expired L now (lookup_entry l k') = None) ∧
    overflow l4 = overflow l ∧ lookup_entry l4 k = Some e) as Hput.
  { intros l4 e Hs Ht Hcap Ho. rewrite <- Hk2 in Ht.
    destruct (put_entry_spec L l2 l4 k e Hwf2 Hs Ht Hcap) as [Hwf4 H4].
    split; [done|]. split.
    - intros k' Hk'. rewrite H4, decide_False by done. apply Hp.
    - split; [rewrite Ho; apply Hp|]. by rewrite H4, decide_True. }
  destruct oe as [e|]; simpl.
  - destruct (entry_failure L e now) as [e' tripped] eqn:Ef. simpl.
    edestruct (Hput (count_blocked (put_entry l2 k e') (if tripped then 1 else 0)) e')
      as (? & ? & ? & ?); [done|simpl; lia|apply (wf_capacity _ _ Hwf2)|done|].
    split; [done|]. split; [done|]. by left.
  - unfold reserveEntry. destruct (capacity L <=? tracked l2) eqn:Ecap; bool_to_prop.
    + unfold recordOverflow. rewrite (proj1 Hp).
      destruct (overflow_failure L (overflow l) now) as [e' tripped] eqn:Ef. simpl.
      split; [by eapply wf_same|]. split; [intros k' _; apply Hp|].
      right. split; [done|]. split; [done|]. split; [done|]. by exists l2.
    + destruct (entry_failure L (mkEntry 0 now 0) now) as [e' tripped] eqn:Ef. simpl.
      edestruct (Hput (count_blocked (put_entry (set_tracked l2 (tracked l2 + 1)) k e')
        (if tripped then 1 else 0)) e') as (? & ? & ? & ?); [done|simpl; lia|simpl; lia|done|].
      split; [done|]. split; [done|]. by left.
Qed.

Lemma new_well_formed L : 0 ≤ capacity L → well_formed L new_state.
Proof.
  intros Hcap. split; simpl; [done| |done|done].
  intros i m k Hm [e He]. change (replicate 16 (∅ : shard_map) !! i = Some m) in Hm.
  apply lookup_replicate in Hm as [-> _]. by rewrite lookup_empty in He.
Qed.

Lemma run_event_well_formed L l ev : well_formed L l → well_formed L (run_event L l ev).
Proof.
  intros Hwf. destruct ev as [k now|k now]; simpl; destruct (decide (k = "")) as [->|Hk].
  - done.
  - by apply record_spec.
  - done.
  - by apply check_spec.
Qed.

Lemma run_well_formed L h : 0 ≤ capacity L → well_formed L (run L h).
Proof.
  intros Hcap. unfold run. apply (foldl_invariant (well_formed L)); [|by apply new_well_formed].
  intros l ev. apply run_event_well_formed.
Qed.

(** The limiter tracks a bounded number of clients, and its counter is exact:
    after any history the tracked counter is the number of entries in the shards
    and the number of clients that have one, it is at most the capacity, and it
    is what the health report shows. *)
Theorem tracked_exact L h :
  0 ≤ capacity L →
  let l := run L h in
  ∃ X : gset string,
    (∀ k, k ∈ X ↔ is_Some (lookup_entry l k))
    ∧ tracked l = Z.of_nat (size X) ∧ tracked l = Z.of_nat (stored l)
    ∧ Tracked (health L l) = tracked l ∧ tracked l ≤ capacity L.
Proof.
  intros Hcap l. pose proof (run_well_formed L h Hcap) as Hwf. fold l in Hwf.
  destruct (stored_keys L l Hwf) as (X & Hsize & HX). exists X.
  pose proof (wf_tracked _ _ Hwf). pose proof (wf_capacity _ _ Hwf).
  split_and!; [done|lia|done|done|done].
Qed.

(** ** Clients do not disturb one another *)

(** The history of one client in isolation. *)
Definition own (k : string) (h : list event) : list event :=
  filter (λ ev, event_client ev = k) h.

Definition client_step (L : limits) (oe : option invalidAuthAbuseEntry) (ev : event)
    : option invalidAuthAbuseEntry :=
  let oe := drop_expired L (event_time ev) oe in
  match ev with
  | Record_ _ now => Some (entry_failure L (default (mkEntry 0 now 0) oe) now).1
  | Check_ _ _ => oe
  end.

Definition client_entry (L : limits) (k : string) (h : list event) : option invalidAuthAbuseEntry :=
  foldl (client_step L) None (own k h).

(** What a client that is alone is answered. *)
Definition client_check (L : limits) (k : string) (h : list event) (now : Z) : option Z :=
  refusal now (drop_expired L now (client_entry L k h)).

Definition recorded_step (acc : gset string) (ev : event) : gset string :=
  match ev with Record_ k _ => {[k]} ∪ acc | Check_ _ _ => acc end.

(** The clients that failed at least once. *)
Definition recorded_clients (h : list event) : gset string := foldl recorded_step ∅ h.

Lemma recorded_snoc h ev : recorded_clients (h ++ [ev]) = recorded_step (recorded_clients h) ev.
Proof. unfold recorded_clients. by rewrite foldl_app. Qed.

Lemma client_entry_snoc L k h ev :
  client_entry L k (h ++ [ev])
  = if decide (event_client ev = k) then client_step L (client_entry L k h) ev
    else client_entry L k h.
Proof.
  unfold client_entry, own. rewrite filter_app, filter_cons, filter_nil.
  case_decide; [by rewrite foldl_app|by rewrite app_nil_r].
Qed.

Lemma expired_later L e t t' : t ≤ t' → entryExpired L e t = true → entryExpired L e t' = true.
Proof.
  unfold entryExpired. unfold_time. intros Ht H. bool_to_prop.
  repeat (apply andb_true_iff; split); apply negb_true_iff, Z.ltb_ge; lia.
Qed.

Lemma drop_expired_later L t t' oe :
  t ≤ t' → drop_expired L t oe = None → drop_expired L t' oe = None.
Proof.
  unfold drop_expired. destruct oe as [e|]; simpl; [|done]. intros Ht.
  destruct (entryExpired L e t) eqn:E; [|done]. by rewrite (expired_later _ _ _ _ Ht E).
Qed.

Lemma drop_expired_idem L t oe : drop_expired L t (drop_expired L t oe) = drop_expired L t oe.
Proof.
  unfold drop_expired. destruct oe as [e|]; simpl; [|done].
  by destruct (entryExpired L e t) eqn:E; simpl; rewrite ?E.
Qed.

(** The stored entry is the client's own, or is gone because that one expired. *)
Definition client_view (L : limits) (now : Z) (real own : option invalidAuthAbuseEntry) : Prop :=
  real = own ∨ real = None ∧ drop_expired L now own = None.

Lemma client_view_drop L t t' real own :
  t ≤ t' → client_view L t real own → drop_expired L t' real = drop_expired L t' own.
Proof. intros Ht [->|[-> H]]; [done|]. by rewrite (drop_expired_later _ _ _ _ Ht H). Qed.

Lemma client_view_prune L t t' real real' own :
  t ≤ t' → client_view L t real own →
  real' = real ∨ real' = None ∧ drop_expired L t' real = None → client_view L t' real' own.
Proof.
  intros Ht Hv [->|[-> H]].
  - destruct Hv as [->|[-> Hv]]; [by left|right]. split; [done|]. by eapply drop_expired_later.
  - right. split; [done|]. by rewrite <- (client_view_drop _ _ _ _ _ Ht Hv).
Qed.

Lemma run_event_empty L l ev : event_client ev = "" → run_event L l ev = l.
Proof. by destruct ev; simpl; intros ->. Qed.

Record isolated (L : limits) (h : list event) (l : invalidAuthAbuseLimiter) : Prop := {
  iso_view : ∀ k, k ≠ "" → client_view L (clock 0 h) (lookup_entry l k) (client_entry L k h);
  iso_overflow : overflow l = zero_entry;
  iso_clients : ∀ k, is_Some (lookup_entry l k) → k ∈ recorded_clients h
}.

Lemma isolated_not_full L h l l2 k now :
  isolated L h l → prunes L now l l2 → well_formed L l2 → lookup_entry l2 k = None →
  Z.of_nat (size ({[k]} ∪ recorded_clients h)) ≤ capacity L → capacity L ≤ tracked l2 → False.
Proof.
  intros Hiso [_ Hp] Hwf Hk Hsize Hfull.
  destruct (stored_keys L l2 Hwf) as (X & HsX & HX).
  assert (k ∉ X) as HkX by (rewrite HX, Hk; intros [? ?]; done).
  assert (X ⊆ recorded_clients h) as Hsub.
  { intros k' [e He]%HX. apply (iso_clients _ _ _ Hiso).
    destruct (Hp k') as [Hp'|[Hp' _]]; rewrite Hp' in He; [by eexists|done]. }
  rewrite (wf_tracked _ _ Hwf), HsX in Hfull.
  enough (size ({[k]} ∪ X) ≤ size ({[k]} ∪ recorded_clients h))%nat as Hle.
  { rewrite size_union, size_singleton in Hle by set_solver. lia. }
  apply subseteq_size. set_solver.
Qed.

Lemma isolated_step L h l ev :
  well_formed L l → isolated L h l → clock 0 h ≤ event_time ev →
  Z.of_nat (size (recorded_clients (h ++ [ev]))) ≤ capacity L →
  isolated L (h ++ [ev]) (run_event L l ev).
Proof.
  intros Hwf Hiso Ht Hsize. pose proof (iso_view _ _ _ Hiso) as Hview.
  pose proof (iso_clients _ _ _ Hiso) as Hclients.
  rewrite recorded_snoc in Hsize.
  destruct (decide (event_client ev = "")) as [Hempty|Hk].
  { rewrite run_event_empty by done. split.
    - intros k Hk. rewrite client_entry_snoc, decide_False, clock_snoc by congruence.
      eapply client_view_prune; [done|by apply Hview|by left].
    - apply (iso_overflow _ _ _ Hiso).
    - intros k Hk. rewrite recorded_snoc. apply Hclients in Hk.
      destruct ev; simpl; set_solver. }
  destruct ev as [k now|k now]; simpl in *.
  - destruct (record_spec L l k now Hwf Hk) as (Hwf' & Hother & Hcase).
    destruct Hcase as [[Hov Hsame]|(_ & _ & _ & l2 & Hwf2 & Hp & Hnone & Hfull)].
    2:{ by destruct (isolated_not_full L h l l2 k now). }
    split; [|by rewrite Hov, (iso_overflow _ _ _ Hiso)|].
    + intros k' Hk'. rewrite client_entry_snoc, clock_snoc. simpl. case_decide as Hkk.
      * subst k'. left. rewrite Hsame.
        by rewrite (client_view_drop L _ now _ _ Ht (Hview _ Hk)).
      * eapply client_view_prune; [done|by apply Hview|by apply Hother].
    + intros k' Hin. rewrite recorded_snoc. simpl. destruct (decide (k' = k)); [set_solver|].
      destruct (Hother k') as [Heq|[Heq _]]; [done| |]; rewrite Heq in Hin; [|by destruct Hin].
      apply Hclients in Hin. set_solver.
  - destruct (check_spec L l k now Hwf Hk) as (Hwf' & [Hov Hp] & Hsame & _).
    split; [|by rewrite Hov, (iso_overflow _ _ _ Hiso)|].
    + intros k' Hk'. rewrite client_entry_snoc, clock_snoc. simpl. case_decide as Hkk.
      * subst k'. left. rewrite Hsame.
        by rewrite (client_view_drop L _ now _ _ Ht (Hview _ Hk)).
      * eapply client_view_prune; [done|by apply Hview|by apply Hp].
    + intros k' Hin. rewrite recorded_snoc. simpl. apply Hclients.
      destruct (Hp k') as [Heq|[Heq _]]; rewrite Heq in Hin; [done|by destruct Hin].
Qed.

Lemma lookup_new k : lookup_entry new_state k = None.
Proof.
  unfold lookup_entry. change (shards new_state) with (replicate 16 (∅ : shard_map)).
  rewrite lookup_replicate_2 by apply shard_index_lt. exact (lookup_empty k).
Qed.

Lemma run_isolated L h :
  0 ≤ capacity L → clocked 0 h → Z.of_nat (size (recorded_clients h)) ≤ capacity L →
  isolated L h (run L h).
Proof.
  intros Hcap. induction h as [|ev h IH] using rev_ind; intros Hclock Hsize.
  { split; [|done|].
    - intros k _. left. apply lookup_new.
    - intros k. change (run L []) with new_state. rewrite lookup_new. by intros []. }
  apply clocked_snoc in Hclock as [Hclock Ht]. rewrite run_snoc.
  apply isolated_step; [by apply run_well_formed| |done|done].
  apply IH; [done|]. rewrite recorded_snoc in Hsize.
  enough (size (recorded_clients h) ≤ size (recorded_step (recorded_clients h) ev))%nat by lia.
  apply subseteq_size. destruct ev; simpl; set_solver.
Qed.

Lemma check_isolated L h k now :
  0 ≤ capacity L → clocked 0 h → clock 0 h ≤ now → k ≠ "" →
  Z.of_nat (size (recorded_clients h)) ≤ capacity L →
  (check L (run L h) k now).2 = client_check L k h now.
Proof.
  intros Hcap Hclock Hnow Hk Hsize.
  pose proof (run_isolated L h Hcap Hclock Hsize) as Hiso.
  destruct (check_spec L _ k now (run_well_formed L h Hcap) Hk) as (_ & _ & _ & ->).
  rewrite (client_view_drop L _ now _ _ Hnow (iso_view _ _ _ Hiso k Hk)).
  unfold client_check. apply clocked_start in Hclock.
  destruct (drop_expired L now (client_entry L k h)) as [e|] eqn:E; [done|].
  rewrite bool_decide_eq_true_2 by done. simpl.
  unfold checkOverflow. rewrite (iso_overflow _ _ _ Hiso). unfold_time. simpl.
  destruct (capacity L <=? _); [|done]. rewrite (proj2 (Z.ltb_ge _ 0)) by lia. done.
Qed.

(** C20. The sharded, cleaned-up limiter is a faithful implementation of one
    independent failure counter per client: as long as no more clients have failed
    than it has capacity, and the clock does not go back, every answer is the one
    the client's own history alone determines.  So no client is refused because of
    the failures of others, and the cleanup never forgets a failure that counts. *)
Theorem limiter_refines_clients L h k now :
  0 ≤ capacity L → clocked 0 h → clock 0 h ≤ now → k ≠ "" →
  Z.of_nat (size (recorded_clients h)) ≤ capacity L →
  (check L (run L h) k now).2 = client_check L k h now.
Proof. apply check_isolated. Qed.

(** ** Reaching the threshold *)

Definition limits_ok (L : limits) : Prop := 0 < threshold L ∧ 0 < window L ∧ 0 < block L.

(** The failure times of a client. *)
Definition failure_times (k : string) (h : list event) : list Z :=
  omap (λ ev, match ev with Record_ k' t => if decide (k' = k) then Some t else None
                          | Check_ _ _ => None end) h.

Lemma failure_times_snoc k h ev :
  failure_times k (h ++ [ev])
  = failure_times k h ++ match ev with Record_ k' t => if decide (k' = k) then [t] else []
                                     | Check_ _ _ => [] end.
Proof.
  unfold failure_times. rewrite omap_app. f_equal. destruct ev; simpl; [|done].
  by case_decide.
Qed.

(** A client whose events all lie in the window of its first failure. *)
Definition counting (L : limits) (first : Z) (ts : list Z) (oe : option invalidAuthAbuseEntry)
    : Prop :=
  match last ts with
  | None => oe = None
  | Some latest => first ≤ latest ∧
      oe = Some (if Z.of_nat (length ts) <? threshold L
                 then mkEntry (Z.of_nat (length ts)) first 0
                 else mkEntry 0 (latest + block L) (latest + block L))
  end.

Lemma client_counting L k first h :
  limits_ok L → 0 ≤ first → clocked first (own k h) →
  Forall (λ ev, event_time ev < first + window L) (own k h) →
  (∀ t, head (failure_times k h) = Some t → t = first) →
  Z.of_nat (length (failure_times k h)) ≤ threshold L →
  counting L first (failure_times k h) (client_entry L k h).
Proof.
  intros (Hth & Hw & Hb) Hfirst. induction h as [|ev h IH] using rev_ind; [done|].
  intros Hclock Hwin Hhead Hlen.
  rewrite client_entry_snoc, failure_times_snoc in *.
  unfold own in Hclock, Hwin. rewrite filter_app, filter_cons, filter_nil in Hclock, Hwin.
  fold (own k h) in Hclock, Hwin.
  destruct (decide (event_client ev = k)) as [Hk|Hk].
  2:{ rewrite app_nil_r in Hclock, Hwin. replace (match ev with Record_ _ _ => _ | _ => _ end)
        with (@nil Z) in * by (destruct ev; simpl in *; [by rewrite decide_False|done]).
      rewrite app_nil_r in *. by apply IH. }
  apply clocked_snoc in Hclock as [Hclock Ht]. apply clocked_start in Hclock as Hstart.
  apply Forall_app in Hwin as [Hwin [Hev _]%Forall_cons].
  rewrite length_app in Hlen.
  assert (counting L first (failure_times k h) (client_entry L k h)) as Hc.
  { apply IH; [done..| |lia]. intros t Hh. apply Hhead.
    destruct (failure_times k h); [done|by simplify_eq/=]. }
  clear IH. unfold counting in *.
  assert (∀ e, client_entry L k h = Some e → drop_expired L (event_time ev) (Some e) = Some e)
    as Hdrop.
  { intros e He. rewrite He in Hc. destruct (last _) as [latest|]; [|done].
    destruct Hc as [Hl [= ->]]. unfold drop_expired, entryExpired. unfold_time. simpl.
    destruct (_ <? threshold L); simpl.
    - rewrite (proj2 (Z.ltb_lt (event_time ev) (first + window L))) by lia. by rewrite andb_false_r.
    - rewrite (proj2 (Z.ltb_lt (event_time ev) (latest + block L + window L))) by lia. by rewrite andb_false_r. }
  assert (drop_expired L (event_time ev) (client_entry L k h) = client_entry L k h) as Hkeep.
  { destruct (client_entry L k h) as [e|]; [by apply Hdrop|done]. }
  unfold client_step. rewrite Hkeep. clear Hdrop Hkeep.
  destruct ev as [k' t|k' t]; simpl in *; [|by rewrite app_nil_r].
  rewrite decide_True in * by done. rewrite last_snoc, length_app. simpl in *.
  split; [lia|]. rewrite Nat2Z.inj_add. change (Z.of_nat 1) with 1.
  destruct (last (failure_times k h)) as [latest|] eqn:Elast.
  - destruct Hc as [Hl ->]. rewrite (proj2 (Z.ltb_lt _ _)) by lia. simpl.
    unfold entry_failure. unfold_time. simpl. rewrite (proj2 (Z.ltb_ge t 0)) by lia.
    rewrite (proj2 (Z.ltb_ge t first)), (proj2 (Z.ltb_lt t _)) by lia. simpl.
    unfold count_failure. simpl. f_equal.
    destruct (threshold L <=? _) eqn:E1, (_ <? threshold L) eqn:E2; bool_to_prop; done || lia.
  - rewrite Hc. apply last_None in Elast. rewrite Elast in *. simpl in *.
    assert (t = first) as -> by by apply Hhead.
    unfold entry_failure. unfold_time. simpl. rewrite (proj2 (Z.ltb_ge first 0)) by lia.
    rewrite Z.ltb_irrefl, (proj2 (Z.ltb_lt first _)) by lia. simpl.
    unfold count_failure. simpl. f_equal.
    destruct (threshold L <=? _) eqn:E1, (_ <? threshold L) eqn:E2; bool_to_prop; done || lia.
Qed.

Lemma clocked_weaken s s' h : s ≤ s' → clocked s' h → clocked s h.
Proof. destruct h; simpl; [done|]. intros ? []. split; [lia|done]. Qed.

Lemma clocked_own s k h : clocked s h → clocked s (own k h).
Proof.
  revert s. induction h as [|ev h IH]; intros s; [done|]. intros [H1 H2%IH].
  unfold own. rewrite filter_cons. fold (own k h). case_decide; [done|by eapply clocked_weaken].
Qed.

Lemma clocked_from s first h :
  clocked s h → Forall (λ ev, first ≤ event_time ev) h → clocked first h.
Proof. destruct h; [done|]. intros [_ H] [H1 _]%Forall_cons. done. Qed.

(** The limiter refuses exactly on reaching the threshold: a client whose
    requests so far lie in one window from its first failure is served while it
    has fewer than threshold failures, and once it has threshold failures it is
    refused until the block time after the last one is over, with the remaining
    time as the retry hint. *)
Theorem threshold_failures_block L h k first latest now :
  limits_ok L → 0 ≤ capacity L → clocked 0 h → clock 0 h ≤ now → k ≠ "" →
  Z.of_nat (size (recorded_clients h)) ≤ capacity L →
  head (failure_times k h) = Some first → last (failure_times k h) = Some latest →
  Forall (λ ev, 0 ≤ first ≤ event_time ev ∧ event_time ev < first + window L) (own k h) →
  Z.of_nat (length (failure_times k h)) ≤ threshold L →
  (check L (run L h) k now).2
  = if (Z.of_nat (length (failure_times k h)) =? threshold L) && (now <? latest + block L)
    then Some (time_sub (latest + block L) now) else None.
Proof.
  intros HL Hcap Hclock Hnow Hk Hsize Hfirst Hlatest Hwin Hlen.
  rewrite check_isolated by done. unfold client_check.
  assert (0 ≤ first) as Hpos.
  { destruct (own k h) as [|ev o] eqn:E; [|by apply Forall_cons in Hwin as [[? _] _]; lia].
    exfalso. clear -Hfirst E. induction h as [|ev h IH]; [done|].
    unfold own in E. rewrite filter_cons in E. fold (own k h) in E.
    case_decide; [done|]. destruct ev as [k' t|k' t]; simpl in *; [|by apply IH].
    rewrite decide_False in Hfirst by done. by apply IH. }
  apply clocked_start in Hclock as Hnow0.
  assert (counting L first (failure_times k h) (client_entry L k h)) as Hc.
  { apply client_counting; [done|done| | | |done].
    - eapply clocked_from; [by apply clocked_own|]. eapply Forall_impl; [done|]. simpl. lia.
    - eapply Forall_impl; [done|]. simpl. lia.
    - intros t Ht. congruence. }
  unfold counting in Hc. rewrite Hlatest in Hc. destruct Hc as [Hl ->].
  destruct HL as (Hth & Hw & Hb).
  unfold drop_expired, refusal, entryExpired. unfold_time. simpl.
  destruct (_ <? threshold L) eqn:Ecount; bool_to_prop; simpl.
  - rewrite (proj2 (Z.eqb_neq _ (threshold L))) by lia. rewrite (proj2 (Z.ltb_ge now 0)) by lia.
    destruct (_ && _); simpl; [done|]. by rewrite (proj2 (Z.ltb_ge now 0)) by lia.
  - rewrite (proj2 (Z.eqb_eq _ _)) by lia. simpl.
    destruct (now <? latest + block L) eqn:Enow; simpl; [by rewrite Enow|].
    destruct (negb _); simpl; [done|by rewrite Enow].
Qed.

(** ** Every refusal is backed by failures *)

(** [ts] reached the threshold in one window, and its block lasts until [until]. *)
Definition tripped_by (L : limits) (fs : list Z) (until : Z) : Prop :=
  ∃ ts w t, ts `sublist_of` fs ∧ threshold L ≤ Z.of_nat (length ts)
    ∧ Forall (λ t, w ≤ t < w + window L) ts ∧ last ts = Some t ∧ until = t + block L.

Definition backed (L : limits) (fs : list Z) (e : invalidAuthAbuseEntry) : Prop :=
  (∃ ts, ts `sublist_of` fs ∧ Z.of_nat (length ts) = failures e
     ∧ Forall (λ t, windowStart e ≤ t < windowStart e + window L) ts)
  ∧ (blockedUntil e = 0 ∨ tripped_by L fs (blockedUntil e)).

Lemma tripped_by_mono L fs fs' u : fs `sublist_of` fs' → tripped_by L fs u → tripped_by L fs' u.
Proof. intros H (ts & w & t & Hts & Hrest). exists ts, w, t. split; [by etrans|done]. Qed.

Lemma backed_mono L fs fs' e : fs `sublist_of` fs' → backed L fs e → backed L fs' e.
Proof.
  intros H [(ts & Hts & Hrest) Hb]. split; [exists ts; split; [by etrans|done]|].
  destruct Hb as [?|?]; [by left|right; by eapply tripped_by_mono].
Qed.

Lemma backed_fresh L fs now : backed L fs (mkEntry 0 now 0).
Proof. split; [exists []; split_and!; [apply sublist_nil_l|done|constructor]|by left]. Qed.

Lemma count_failure_backed L fs restart e now :
  limits_ok L → backed L fs e →
  (restart = false → windowStart e ≤ now < windowStart e + window L) →
  backed L (fs ++ [now]) (count_failure L restart e now).1.
Proof.
  intros (Hth & Hw & Hb) [Hcount Hblk] Hwin. unfold count_failure.
  assert (fs `sublist_of` fs ++ [now]) as Hsub by apply sublist_inserts_r, reflexivity.
  set (e' := if restart then _ else e).
  assert (blockedUntil e' = blockedUntil e) as Hbu by (unfold e'; by destruct restart).
  assert (∃ ts, ts `sublist_of` fs ∧ Z.of_nat (length ts) = failures e'
    ∧ Forall (λ t, windowStart e' ≤ t < windowStart e' + window L) (ts ++ [now]))
    as (ts & Hts & Hlen & Hall).
  { unfold e'. destruct restart; simpl.
    - exists []. split_and!; [apply sublist_nil_l|done|]. apply Forall_singleton. lia.
    - destruct Hcount as (ts & Hts & Hlen & Hall). exists ts. split_and!; [done..|].
      apply Forall_app_2; [done|]. apply Forall_singleton. by apply Hwin. }
  assert ((ts ++ [now]) `sublist_of` (fs ++ [now])) as Hts' by by apply sublist_app.
  assert (length (ts ++ [now]) = S (length ts)) as Hlen' by (rewrite length_app; simpl; lia).
  destruct (threshold L <=? _) eqn:Etrip; bool_to_prop; simpl.
  - split; [exists []; split_and!; [apply sublist_nil_l|done|constructor]|right].
    exists (ts ++ [now]), (windowStart e'), now. split_and!; [done|lia|done|by rewrite last_snoc|done].
  - split; [exists (ts ++ [now]); split_and!; [done|simpl; lia|done]|]. rewrite Hbu. simpl.
    destruct Hblk as [?|?]; [by left|right; by apply (tripped_by_mono L fs)].
Qed.

Lemma entry_failure_backed L fs e now :
  limits_ok L → backed L fs e → backed L (fs ++ [now]) (entry_failure L e now).1.
Proof.
  intros HL He. unfold entry_failure. unfold_time. destruct (now <? blockedUntil e).
  { eapply backed_mono; [|done]. apply sublist_inserts_r, reflexivity. }
  apply count_failure_backed; [done..|]. intros H. bool_to_prop. lia.
Qed.

(** The overflow counter: its window starts in the past or at the end of its block. *)
Definition overflow_timed (now : Z) (e : invalidAuthAbuseEntry) : Prop :=
  windowStart e ≤ now ∨ windowStart e = blockedUntil e.

Lemma overflow_failure_backed L fs e now :
  limits_ok L → 0 ≤ now → overflow_timed now e → backed L fs e →
  backed L (fs ++ [now]) (overflow_failure L e now).1
  ∧ overflow_timed now (overflow_failure L e now).1.
Proof.
  intros HL Hnow Ht He. unfold overflow_failure. unfold_time.
  destruct (now <? blockedUntil e) eqn:Eb; bool_to_prop.
  { split; [|done]. eapply backed_mono; [|done]. apply sublist_inserts_r, reflexivity. }
  split.
  - apply count_failure_backed; [done..|]. intros H. bool_to_prop. destruct Ht; lia.
  - unfold count_failure, overflow_timed. destruct (_ <=? _); [by right|]. simpl.
    destruct (_ || _); simpl; [lia|]. destruct Ht; [by left|lia].
Qed.

Definition all_failure_times (h : list event) : list Z :=
  omap (λ ev, match ev with Record_ _ t => Some t | Check_ _ _ => None end) h.

Record justified (L : limits) (h : list event) (l : invalidAuthAbuseLimiter) : Prop := {
  just_entries : ∀ k e, lookup_entry l k = Some e → backed L (failure_times k h) e;
  just_overflow : backed L (all_failure_times h) (overflow l);
  just_timed : overflow_timed (clock 0 h) (overflow l)
}.

Lemma failure_times_sub k h ev : failure_times k h `sublist_of` failure_times k (h ++ [ev]).
Proof. rewrite failure_times_snoc. apply sublist_inserts_r, reflexivity. Qed.

Lemma all_failure_times_sub h ev : all_failure_times h `sublist_of` all_failure_times (h ++ [ev]).
Proof. unfold all_failure_times. rewrite omap_app. apply sublist_inserts_r, reflexivity. Qed.

Lemma drop_expired_Some L now oe e : drop_expired L now oe = Some e → oe = Some e.
Proof. unfold drop_expired. destruct oe as [e'|]; simpl; [|done]. by destruct (entryExpired _ _ _). Qed.

Lemma justified_step L h l ev :
  limits_ok L → well_formed L l → justified L h l → clocked 0 (h ++ [ev]) →
  justified L (h ++ [ev]) (run_event L l ev).
Proof.
  intros HL Hwf Hj Hclock. apply clocked_snoc in Hclock as [Hclock Ht].
  apply clocked_start in Hclock.
  assert (∀ k e, lookup_entry l k = Some e → backed L (failure_times k (h ++ [ev])) e) as Hold.
  { intros k e He. eapply backed_mono; [apply failure_times_sub|]. by apply (just_entries _ _ _ Hj). }
  assert (overflow_timed (event_time ev) (overflow l)) as Htimed.
  { destruct (just_timed _ _ _ Hj); [left; lia|by right]. }
  assert (∀ l', overflow l' = overflow l →
    (∀ k e, lookup_entry l' k = Some e → backed L (failure_times k (h ++ [ev])) e) →
    justified L (h ++ [ev]) l') as Hkeep.
  { intros l' Ho He. split; [done| |by rewrite Ho, clock_snoc].
    rewrite Ho. eapply backed_mono; [apply all_failure_times_sub|apply (just_overflow _ _ _ Hj)]. }
  destruct (decide (event_client ev = "")) as [Hempty|Hk].
  { rewrite run_event_empty by done. by apply Hkeep. }
  destruct ev as [k now|k now]; simpl in Hk, Ht, Htimed |- *.
  - destruct (record_spec L l k now Hwf Hk) as (_ & Hother & Hcase).
    assert (∀ k' e, k' ≠ k → lookup_entry (record L l k now) k' = Some e →
      backed L (failure_times k' (h ++ [Record_ k now])) e) as Hne.
    { intros k' e Hk' He. destruct (Hother k' Hk') as [Heq|[Heq _]]; rewrite Heq in He;
        [by apply Hold|done]. }
    destruct Hcase as [[Ho Hsame]|(Ho & Hsame & _)].
    + apply Hkeep; [done|]. intros k' e He. destruct (decide (k' = k)) as [->|]; [|by apply Hne].
      rewrite Hsame in He. injection He as <-. rewrite failure_times_snoc.
      rewrite decide_True by done. apply entry_failure_backed; [done|].
      destruct (drop_expired L now (lookup_entry l k)) as [e0|] eqn:E; simpl;
        [|apply backed_fresh].
      apply drop_expired_Some in E. by apply (just_entries _ _ _ Hj).
    + destruct (overflow_failure_backed L (all_failure_times h) (overflow l) now) as [Hb Hb'];
        [done|lia|done|apply (just_overflow _ _ _ Hj)|].
      split; rewrite ?Ho, ?clock_snoc; [|by unfold all_failure_times; rewrite omap_app|done].
      intros k' e He. destruct (decide (k' = k)) as [->|]; [congruence|by apply Hne].
  - destruct (check_spec L l k now Hwf Hk) as (_ & [Ho Hp] & _ & _).
    apply Hkeep; [done|]. intros k' e He.
    destruct (Hp k') as [Heq|[Heq _]]; rewrite Heq in He; [by apply Hold|done].
Qed.

Lemma run_justified L h :
  limits_ok L → 0 ≤ capacity L → clocked 0 h → justified L h (run L h).
Proof.
  intros HL Hcap. induction h as [|ev h IH] using rev_ind; intros Hclock.
  - change (run L []) with new_state. split.
    + intros k e He. by rewrite lookup_new in He.
    + apply (backed_fresh L [] 0).
    + by left.
  - rewrite run_snoc. apply justified_step; [done|by apply run_well_formed| |done].
    apply IH. by apply clocked_snoc in Hclock as [? _].
Qed.

(** No refusal without cause, whatever the load: when a client is refused,
    either it had itself threshold failures in one window and the time it is told
    to wait is what remains of the block after the last of them; or the limiter is
    full and threshold failures of clients, in one window, blocked all those it
    cannot track. *)
Theorem refusal_backed L h k now retry :
  limits_ok L → 0 ≤ capacity L → clocked 0 h → clock 0 h ≤ now →
  (check L (run L h) k now).2 = Some retry →
  ∃ until, now < until ∧ retry = time_sub until now
    ∧ (tripped_by L (failure_times k h) until
       ∨ tracked (check L (run L h) k now).1 = capacity L
         ∧ tripped_by L (all_failure_times h) until).
Proof.
  intros HL Hcap Hclock Hnow Hcheck.
  destruct (run_justified L h HL Hcap Hclock) as [Hentries Hover _].
  pose proof (run_well_formed L h Hcap) as Hwf. apply clocked_start in Hclock.
  assert (k ≠ "") as Hk by (by intros ->).
  destruct (check_spec L (run L h) k now Hwf Hk) as (Hwf' & _ & _ & Hres).
  rewrite Hcheck in Hres.
  destruct (drop_expired L now (lookup_entry (run L h) k)) as [e|] eqn:E.
  - simpl in Hres. unfold refusal in Hres. simpl in Hres. unfold_time.
    destruct (now <? blockedUntil e) eqn:Eb; [|done]. injection Hres as ->. bool_to_prop.
    exists (blockedUntil e). split_and!; [done..|left].
    apply drop_expired_Some, Hentries in E as [_ [E|E]]; [lia|done].
  - destruct (_ && _) eqn:Efull; [|done]. bool_to_prop. unfold checkOverflow in Hres. unfold_time.
    destruct (now <? _) eqn:Eb; [|done]. injection Hres as ->. bool_to_prop.
    exists (blockedUntil (overflow (run L h))). split_and!; [done..|right]. split.
    + pose proof (wf_capacity _ _ Hwf'). lia.
    + destruct Hover as [_ [Ho|Ho]]; [lia|done].
Qed.

(** ** A concrete limiter *)

Definition demo_limits : limits := mkLimits 2 (60 * Second) (300 * Second) 2.

Definition T0 : Z := 63800000000 * Second.

Definition demo_history : list event :=
  [Check_ "10.0.0.2" T0; Record_ "10.0.0.1" (T0 + 1 * Second); Record_ "10.0.0.2" (T0 + 2 * Second);
   Check_ "10.0.0.1" (T0 + 3 * Second); Record_ "10.0.0.1" (T0 + 4 * Second)].

Example demo_answers :
  (check demo_limits (run demo_limits demo_history) "10.0.0.1" (T0 + 5 * Second)).2
    = Some (299 * Second)
  ∧ (check demo_limits (run demo_limits demo_history) "10.0.0.2" (T0 + 5 * Second)).2 = None
  ∧ (check demo_limits (run demo_limits demo_history) "10.0.0.1" (T0 + 304 * Second)).2 = None.
Proof. by vm_compute. Qed.

Lemma demo_clocked : clocked 0 demo_history ∧ clock 0 demo_history ≤ T0 + 5 * Second.
Proof. unfold demo_history, T0, Second, clock. simpl. lia. Qed.

Lemma demo_limits_ok : limits_ok demo_limits.
Proof. unfold limits_ok, demo_limits, Second. simpl. lia. Qed.

Lemma tracked_exact_witness :
  tracked (run demo_limits demo_history) = 2 ∧ stored (run demo_limits demo_history) = 2%nat.
Proof.
  destruct (tracked_exact demo_limits demo_history) as (X & _ & _ & H & _); [by vm_compute|].
  split; [by vm_compute|]. change (tracked (run demo_limits demo_history)) with 2 in H. lia.
Defined.

Lemma limiter_refines_clients_witness :
  (check demo_limits (run demo_limits demo_history) "10.0.0.1" (T0 + 5 * Second)).2
  = client_check demo_limits "10.0.0.1" demo_history (T0 + 5 * Second)
  ∧ client_check demo_limits "10.0.0.1" demo_history (T0 + 5 * Second) = Some (299 * Second).
Proof.
  split; [|by vm_compute].
  apply limiter_refines_clients; [by vm_compute|apply demo_clocked|apply demo_clocked|done|].
  by vm_compute.
Defined.

Lemma threshold_failures_block_witness :
  (check demo_limits (run demo_limits demo_history) "10.0.0.1" (T0 + 5 * Second)).2
  = Some (299 * Second).
Proof.
  rewrite (threshold_failures_block demo_limits demo_history "10.0.0.1" (T0 + 1 * Second)
    (T0 + 4 * Second)).
  - by vm_compute.
  - apply demo_limits_ok.
  - by vm_compute.
  - apply demo_clocked.
  - apply demo_clocked.
  - done.
  - by vm_compute.
  - by vm_compute.
  - by vm_compute.
  - change (own "10.0.0.1" demo_history) with
      [Record_ "10.0.0.1" (T0 + 1 * Second); Check_ "10.0.0.1" (T0 + 3 * Second);
       Record_ "10.0.0.1" (T0 + 4 * Second)].
    unfold demo_limits, T0, Second. repeat constructor; simpl; lia.
  - by vm_compute.
Defined.

Lemma refusal_backed_witness :
  ∃ until, T0 + 5 * Second < until ∧ 299 * Second = time_sub until (T0 + 5 * Second)
    ∧ (tripped_by demo_limits (failure_times "10.0.0.1" demo_history) until
       ∨ tracked (check demo_limits (run demo_limits demo_history) "10.0.0.1" (T0 + 5 * Second)).1 = 2
         ∧ tripped_by demo_limits (all_failure_times demo_history) until).
Proof.
  apply (refusal_backed demo_limits demo_history "10.0.0.1" (T0 + 5 * Second) (299 * Second)).
  - apply demo_limits_ok.
  - by vm_compute.
  - apply demo_clocked.
  - apply demo_clocked.
  - vm_compute. reflexivity.
Defined.
