(* ===== verification/KeywordMatcher.v ===== *)
(** * The keyword matcher of content moderation: the automaton

    [service/content_moderation_keyword_matcher.go]: an Aho-Corasick automaton in
    flat arrays.  [newContentModerationKeywordMatcher] builds a trie of the
    lower-cased keywords with sibling lists, links every node to its longest proper
    suffix breadth first, and stores the outgoing edges sorted for binary search;
    [Match] runs a text through it.  Indices are integers at the width the code
    gives them.  Every loop has as fuel the size of the array it walks;
    KeywordMatcherCorrect.v proves it enough. *)

From Stdlib Require Import ZArith Lia String Sorted.
From stdpp Require Import base tactics numbers list strings.
From S2P Require Import Prelude GoStrings.

Open Scope Z_scope.

(** ** Data *)

Definition int32 (z : Z) : Z := wrap_signed 32 z.
Definition uint32 (z : Z) : Z := wrap_unsigned 32 z.
Definition uint16 (z : Z) : Z := wrap_unsigned 16 z.

Record contentModerationKeywordNode := mkNode {
  failure : Z;
  bestKeyword : Z;
  edgeStart : Z;
  edgeCount : Z
}.

Record contentModerationKeywordEdge := mkEdge { target : Z; label : Z }.

Record contentModerationKeywordBuildEdge := mkBuildEdge {
  build_target : Z;
  nextSibling : Z;
  build_label : Z
}.

Record contentModerationKeywordMatcher := mkMatcher {
  nodes : list contentModerationKeywordNode;
  edges : list contentModerationKeywordEdge;
  rootTransitions : list Z;
  keywords : list string
}.

Abbreviation Node := contentModerationKeywordNode.
Abbreviation Edge := contentModerationKeywordEdge.
Abbreviation BuildEdge := contentModerationKeywordBuildEdge.

(** Values for an index out of range, where the code would panic; it never is
    ([KeywordMatcherCorrect.matcher_indices_in_range]). *)
#[export] Instance Node_inhabited : Inhabited Node := populate (mkNode 0 0 0 0).
#[export] Instance Edge_inhabited : Inhabited Edge := populate (mkEdge 0 0).
#[export] Instance BuildEdge_inhabited : Inhabited BuildEdge := populate (mkBuildEdge 0 0 0).

Definition at_index {A} `{!Inhabited A} (l : list A) (i : Z) : A := l !!! Z.to_nat i.
Definition set_index {A} (l : list A) (i : Z) (x : A) : list A := <[Z.to_nat i := x]> l.

Definition newContentModerationKeywordNode : Node := mkNode 0 (-1) 0 0.

Definition set_failure (n : Node) (f : Z) : Node := mkNode f (bestKeyword n) (edgeStart n) (edgeCount n).
Definition set_best (n : Node) (b : Z) : Node := mkNode (failure n) b (edgeStart n) (edgeCount n).
Definition set_edgeStart (n : Node) (e : Z) : Node := mkNode (failure n) (bestKeyword n) e (edgeCount n).
Definition set_edgeCount (n : Node) (c : Z) : Node := mkNode (failure n) (bestKeyword n) (edgeStart n) c.

(** ** Building *)

Definition contentModerationKeywordBuildFirstEdge (node : Node) : Z :=
  if edgeStart node =? 0 then -1 else int32 (edgeStart node - 1).

(** The edges that a loop over [nextSibling] visits. *)
Fixpoint edge_chain (fuel : nat) (edges : list BuildEdge) (edgeIndex : Z) : list BuildEdge :=
  match fuel with
  | O => []
  | S fuel =>
      if edgeIndex <? 0 then []
      else let edge := at_index edges edgeIndex in
           edge :: edge_chain fuel edges (nextSibling edge)
  end.

Definition sibling_edges (nodes : list Node) (edges : list BuildEdge) (state : Z) : list BuildEdge :=
  edge_chain (length edges) edges (contentModerationKeywordBuildFirstEdge (at_index nodes state)).

Definition contentModerationKeywordBuildTransition (nodes : list Node) (edges : list BuildEdge)
    (state lbl : Z) : Z :=
  if (state <? 0) || (Z.of_nat (length nodes) <=? state) then -1
  else match List.find (λ e, build_label e =? lbl) (sibling_edges nodes edges state) with
       | Some e => build_target e
       | None => -1
       end.

Definition minKeywordIndex (left right : Z) : Z :=
  if left <? 0 then right
  else if (right <? 0) || (left <? right) then left
  else right.

Section build.
Context `{UnicodeCase}.

Definition insert_label (st : list Node * list BuildEdge * Z) (lbl : Z)
    : list Node * list BuildEdge * Z :=
  let '(buildNodes, buildEdges, state) := st in
  let next := contentModerationKeywordBuildTransition buildNodes buildEdges state lbl in
  if next <? 0 then
    let next := int32 (Z.of_nat (length buildNodes)) in
    let buildNodes := buildNodes ++ [newContentModerationKeywordNode] in
    let buildEdges := buildEdges ++
      [mkBuildEdge next (contentModerationKeywordBuildFirstEdge (at_index buildNodes state)) lbl] in
    let buildNodes := set_index buildNodes state
      (set_edgeStart (at_index buildNodes state) (uint32 (Z.of_nat (length buildEdges)))) in
    (buildNodes, buildEdges, next)
  else (buildNodes, buildEdges, next).

Definition insert_keyword (st : list Node * list BuildEdge) (k : nat * string)
    : list Node * list BuildEdge :=
  let '(buildNodes, buildEdges) := st in
  let '(keywordIndex, keyword) := k in
  if String.eqb keyword "" then st
  else
    let '(buildNodes, buildEdges, state) :=
      foldl insert_label (buildNodes, buildEdges, 0) (bytes (ToLower keyword)) in
    let current := bestKeyword (at_index buildNodes state) in
    if (current <? 0) || (int32 (Z.of_nat keywordIndex) <? current) then
      (set_index buildNodes state
         (set_best (at_index buildNodes state) (int32 (Z.of_nat keywordIndex))), buildEdges)
    else (buildNodes, buildEdges).

Definition build_trie (keywords : list string) : list Node * list BuildEdge :=
  foldl insert_keyword ([newContentModerationKeywordNode], []) (imap pair keywords).

(** The transitions of the root, and the first states of the queue. *)
Definition root_step (st : list Z * list Z) (edge : BuildEdge) : list Z * list Z :=
  let '(rootTransitions, queue) := st in
  (set_index rootTransitions (build_label edge) (build_target edge), queue ++ [build_target edge]).

Fixpoint failure_loop (fuel : nat) (buildNodes : list Node) (buildEdges : list BuildEdge)
    (fail lbl : Z) : Z :=
  match fuel with
  | O => -1
  | S fuel =>
      let fallback := contentModerationKeywordBuildTransition buildNodes buildEdges fail lbl in
      if (fallback <? 0) && negb (fail =? 0)
      then failure_loop fuel buildNodes buildEdges (failure (at_index buildNodes fail)) lbl
      else fallback
  end.

Definition link_edge (buildEdges : list BuildEdge) (state : Z) (st : list Node * list Z)
    (edge : BuildEdge) : list Node * list Z :=
  let '(buildNodes, queue) := st in
  let t := build_target edge in
  let fallback := failure_loop (length buildNodes) buildNodes buildEdges
                    (failure (at_index buildNodes state)) (build_label edge) in
  let buildNodes := if 0 <=? fallback
                    then set_index buildNodes t (set_failure (at_index buildNodes t) fallback)
                    else buildNodes in
  let buildNodes := set_index buildNodes t
    (set_best (at_index buildNodes t)
       (minKeywordIndex (bestKeyword (at_index buildNodes t))
          (bestKeyword (at_index buildNodes (failure (at_index buildNodes t)))))) in
  (buildNodes, queue ++ [t]).

(** [queue] is the part of the queue from [queueIndex] on. *)
Fixpoint link_loop (fuel : nat) (buildEdges : list BuildEdge) (buildNodes : list Node)
    (queue : list Z) : list Node :=
  match fuel, queue with
  | S fuel, state :: queue =>
      let '(buildNodes, queue) :=
        foldl (link_edge buildEdges state) (buildNodes, queue)
          (sibling_edges buildNodes buildEdges state) in
      link_loop fuel buildEdges buildNodes queue
  | _, _ => buildNodes
  end.

(** Insertion sort of the first [count] outgoing edges by label. *)
Fixpoint shift_loop (current : Edge) (insertAt : nat) (outgoing : list Edge) : nat * list Edge :=
  match insertAt with
  | O => (O, outgoing)
  | S j =>
      if label current <? label (outgoing !!! j)
      then shift_loop current j (<[insertAt := outgoing !!! j]> outgoing)
      else (insertAt, outgoing)
  end.

Definition sort_step (outgoing : list Edge) (index : nat) : list Edge :=
  let current := outgoing !!! index in
  let '(insertAt, outgoing) := shift_loop current index outgoing in
  <[insertAt := current]> outgoing.

Definition sort_outgoing (outgoing : list Edge) : list Edge :=
  foldl sort_step outgoing (seq 1 (length outgoing - 1)).

(** One node: [outgoing[:count]] is filled, sorted and appended. *)
Definition flatten_step (buildEdges : list BuildEdge) (st : list Node * list Edge)
    (nodeIndex : nat) : list Node * list Edge :=
  let '(buildNodes, edges) := st in
  let i := Z.of_nat nodeIndex in
  let outgoing := (λ e, mkEdge (build_target e) (build_label e))
                    <$> sibling_edges buildNodes buildEdges i in
  let count := Z.of_nat (length outgoing) in
  let outgoing := sort_outgoing outgoing in
  let buildNodes := set_index buildNodes i
    (set_edgeCount (set_edgeStart (at_index buildNodes i) (uint32 (Z.of_nat (length edges))))
       (uint16 count)) in
  (buildNodes, edges ++ outgoing).

Definition newContentModerationKeywordMatcher (keywords : list string)
    : option contentModerationKeywordMatcher :=
  if (length keywords =? 0)%nat then None
  else
    let '(buildNodes, buildEdges) := build_trie keywords in
    if (length buildNodes =? 1)%nat then None
    else
      let '(rootTransitions, queue) :=
        foldl root_step (replicate 256 0, []) (sibling_edges buildNodes buildEdges 0) in
      let buildNodes := link_loop (length buildNodes) buildEdges buildNodes queue in
      let '(buildNodes, edges) :=
        foldl (flatten_step buildEdges) (buildNodes, []) (seq 0 (length buildNodes)) in
      Some (mkMatcher buildNodes edges rootTransitions keywords).

(** ** Matching *)

Fixpoint search_loop (fuel : nat) (edges : list Edge) (lbl left right : Z) : Z :=
  match fuel with
  | O => left
  | S fuel =>
      if left <? right then
        let middle := left + Z.quot (right - left) 2 in
        if label (at_index edges middle) <? lbl
        then search_loop fuel edges lbl (middle + 1) right
        else search_loop fuel edges lbl left middle
      else left
  end.

Definition next (m : contentModerationKeywordMatcher) (state lbl : Z) : Z :=
  if state =? 0 then at_index (rootTransitions m) lbl
  else if (state <? 0) || (Z.of_nat (length (nodes m)) <=? state) then 0
  else
    let node := at_index (nodes m) state in
    let finish := edgeStart node + edgeCount node in
    let left := search_loop (length (edges m)) (edges m) lbl (edgeStart node) finish in
    if (left <? finish) && (label (at_index (edges m) left) =? lbl)
    then target (at_index (edges m) left) else 0.

Fixpoint goto_loop (fuel : nat) (m : contentModerationKeywordMatcher) (state lbl : Z) : Z :=
  match fuel with
  | O => state
  | S fuel =>
      let nxt := next m state lbl in
      if negb (nxt =? 0) then nxt
      else if state =? 0 then state
      else goto_loop fuel m (failure (at_index (nodes m) state)) lbl
  end.

(** The best keyword after the loop over the text; 0 ends it early. *)
Fixpoint match_loop (m : contentModerationKeywordMatcher) (text : list Z) (state best : Z) : Z :=
  match text with
  | [] => best
  | lbl :: text =>
      let state := goto_loop (length (nodes m)) m state lbl in
      let best := minKeywordIndex best (bestKeyword (at_index (nodes m) state)) in
      if best =? 0 then best else match_loop m text state best
  end.

Definition Match (om : option contentModerationKeywordMatcher) (text : string) : string * bool :=
  match om with
  | None => (""%string, false)
  | Some m =>
      if String.eqb text "" || (length (nodes m) =? 0)%nat || (length (keywords m) =? 0)%nat
      then (""%string, false)
      else
        let best := match_loop m (bytes (ToLower text)) 0 (-1) in
        if (best <? 0) || (Z.of_nat (length (keywords m)) <=? best) then (""%string, false)
        else (at_index (keywords m) best, true)
  end.

End build.
