(* ===== verification/KeywordTrie.v ===== *)
(** * The keyword matcher: the trie phase

    The words of the nodes, the invariant that ties the sibling lists to them, and
    the correctness of [build_trie]: the nodes spell every prefix of every keyword,
    [contentModerationKeywordBuildTransition] moves along them, and a node's
    [bestKeyword] is the first keyword it spells. *)

From Stdlib Require Import ZArith Lia String Sorted.
From stdpp Require Import base tactics numbers list sets strings.
From S2P Require Import Prelude GoStrings KeywordMatcher.

Open Scope Z_scope.

(** ** Widths, indices *)

Definition max_int32 : Z := 2147483647.

Lemma int32_small z : 0 ≤ z ≤ max_int32 → int32 z = z.
Proof.
  unfold int32, wrap_signed, max_int32. intros. change (2 ^ (32 - 1)) with 2147483648.
  change (2 ^ 32) with 4294967296. rewrite Z.mod_small; lia.
Qed.

Lemma uint32_small z : 0 ≤ z ≤ max_int32 → uint32 z = z.
Proof.
  unfold uint32, wrap_unsigned, max_int32. intros. change (2 ^ 32) with 4294967296.
  rewrite Z.mod_small; lia.
Qed.

Lemma at_index_nat {A} `{!Inhabited A} (l : list A) (i : nat) x :
  l !! i = Some x → at_index l (Z.of_nat i) = x.
Proof. unfold at_index. rewrite Nat2Z.id. apply list_lookup_total_correct. Qed.

Lemma at_index_Z {A} `{!Inhabited A} (l : list A) (i : Z) :
  0 ≤ i < Z.of_nat (length l) → l !! Z.to_nat i = Some (at_index l i).
Proof. intros Hi. apply list_lookup_lookup_total_lt. lia. Qed.

Lemma length_set_index {A} (l : list A) i x : length (set_index l i x) = length l.
Proof. apply length_insert. Qed.

Lemma at_index_set {A} `{!Inhabited A} (l : list A) i j x :
  0 ≤ i < Z.of_nat (length l) → 0 ≤ j →
  at_index (set_index l i x) j = if decide (i = j) then x else at_index l j.
Proof.
  intros Hi Hj. unfold at_index, set_index. case_decide as E.
  - subst. apply list_lookup_total_insert_eq. lia.
  - apply list_lookup_total_insert_ne. lia.
Qed.

Lemma at_index_app {A} `{!Inhabited A} (l l' : list A) i :
  0 ≤ i < Z.of_nat (length l) → at_index (l ++ l') i = at_index l i.
Proof. intros Hi. unfold at_index. apply lookup_total_app_l. lia. Qed.

Lemma at_index_snoc {A} `{!Inhabited A} (l : list A) x i :
  i = Z.of_nat (length l) → at_index (l ++ [x]) i = x.
Proof. intros ->. apply at_index_nat, list_lookup_middle. done. Qed.

(** ** The least element of a set of indices, [-1] when it is empty *)

Definition least (S : Z → Prop) (b : Z) : Prop :=
  b = -1 ∧ (∀ k, ¬ S k) ∨ 0 ≤ b ∧ S b ∧ (∀ k, S k → b ≤ k).

Lemma least_ext (S T : Z → Prop) b : (∀ k, S k ↔ T k) → least S b → least T b.
Proof.
  intros H [[-> Hn]|(H0 & HS & Hmin)]; [left|right].
  - split; [done|]. intros k. rewrite <- H. apply Hn.
  - split; [done|]. split; [by apply H|]. intros k. rewrite <- H. apply Hmin.
Qed.

Lemma least_unique S a b : least S a → least S b → a = b.
Proof.
  intros [[-> Hn]|(? & HS & Hm)] [[-> Hn']|(? & HS' & Hm')]; [done|naive_solver..|].
  apply Hm in HS' as ?. apply Hm' in HS as ?. lia.
Qed.

Lemma minKeywordIndex_least S T a b :
  least S a → least T b → least (λ k, S k ∨ T k) (minKeywordIndex a b).
Proof.
  intros Ha Hb. unfold minKeywordIndex.
  destruct (a <? 0) eqn:E1; [|destruct (_ || _) eqn:E2]; bool_to_prop;
    destruct Ha as [[-> Ha]|(? & HaS & Ha)], Hb as [[-> Hb]|(? & HbS & Hb)]; try lia;
    try (destruct E2; bool_to_prop; lia).
  - left. naive_solver.
  - right. split_and!; [done|by right|naive_solver].
  - right. split_and!; [done|by left|naive_solver].
  - right. split_and!; [done|by left|].
    intros k [Hk|Hk]; [by apply Ha|]. apply Hb in Hk. destruct E2; bool_to_prop; lia.
  - right. split_and!; [done|by right|].
    intros k [Hk|Hk]; [|by apply Hb]. apply Ha in Hk. lia.
Qed.

(** ** Sibling lists *)

(** The siblings of an edge were added before it. *)
Definition siblings_ok (edges : list BuildEdge) : Prop :=
  ∀ j e, edges !! j = Some e → -1 ≤ nextSibling e < Z.of_nat j.

Lemma edge_chain_fuel edges i fuel fuel' :
  siblings_ok edges → i < Z.of_nat (length edges) →
  i < Z.of_nat fuel → i < Z.of_nat fuel' →
  edge_chain fuel edges i = edge_chain fuel' edges i.
Proof.
  intros Hs. revert i fuel'. induction fuel as [|fuel IH]; intros i [|fuel'] Hi Hf Hf'; simpl; try done.
  - by rewrite (proj2 (Z.ltb_lt i 0)) by lia.
  - by rewrite (proj2 (Z.ltb_lt i 0)) by lia.
  - destruct (i <? 0) eqn:E; [done|]. bool_to_prop. f_equal.
    destruct (Hs _ _ (at_index_Z edges i ltac:(lia))) as [H1 H2]. apply IH; lia.
Qed.

Lemma edge_chain_app edges edges' i fuel :
  siblings_ok edges → i < Z.of_nat (length edges) →
  edge_chain fuel (edges ++ edges') i = edge_chain fuel edges i.
Proof.
  intros Hs. revert i. induction fuel as [|fuel IH]; intros i Hi; simpl; [done|].
  destruct (i <? 0) eqn:E; [done|]. bool_to_prop. rewrite at_index_app by lia. f_equal.
  destruct (Hs _ _ (at_index_Z edges i ltac:(lia))) as [H1 H2]. apply IH; lia.
Qed.

Definition starts_ok (nodes : list Node) (edges : list BuildEdge) : Prop :=
  Forall (λ n, 0 ≤ edgeStart n ≤ Z.of_nat (length edges)) nodes.

Lemma FirstEdge_eq n bound :
  0 ≤ edgeStart n ≤ bound → bound ≤ max_int32 →
  contentModerationKeywordBuildFirstEdge n = edgeStart n - 1.
Proof.
  intros Hn Hb. unfold contentModerationKeywordBuildFirstEdge.
  destruct (edgeStart n =? 0) eqn:E; bool_to_prop; [lia|]. apply int32_small. lia.
Qed.

Lemma sibling_edges_start nodes nodes' edges s s' :
  edgeStart (at_index nodes s) = edgeStart (at_index nodes' s') →
  sibling_edges nodes edges s = sibling_edges nodes' edges s'.
Proof.
  intros H. unfold sibling_edges. f_equal. unfold contentModerationKeywordBuildFirstEdge.
  by rewrite H.
Qed.

(** ** The trie *)

Definition word (P : list (list Z)) (s : Z) : list Z := at_index P s.

Definition state_of (P : list (list Z)) (s : Z) : Prop := 0 ≤ s < Z.of_nat (length P).

(** The node [t] is the child of [s] along [c]. *)
Definition child (P : list (list Z)) (s c t : Z) : Prop :=
  state_of P t ∧ word P t = word P s ++ [c].

Record trie (nodes : list Node) (edges : list BuildEdge) (P : list (list Z)) : Prop := {
  trie_length : length nodes = length P;
  trie_root : P !! 0%nat = Some [];
  trie_NoDup : NoDup P;
  trie_edges : length P = S (length edges);
  trie_small : Z.of_nat (length P) ≤ max_int32;
  trie_siblings : siblings_ok edges;
  trie_starts : starts_ok nodes edges;
  trie_children : ∀ s c t, state_of P s →
    (∃ e, e ∈ sibling_edges nodes edges s ∧ build_label e = c ∧ build_target e = t) ↔ child P s c t;
  trie_labels : ∀ s, state_of P s → NoDup (build_label <$> sibling_edges nodes edges s);
  trie_parent : ∀ t w c, state_of P t → word P t = w ++ [c] →
    ∃ s, 0 ≤ s < t ∧ word P s = w
}.

Lemma word_inj P s t : NoDup P → state_of P s → state_of P t → word P s = word P t → s = t.
Proof.
  intros Hnd Hs Ht Hw. apply Z2Nat.inj; [apply Hs|apply Ht|].
  eapply NoDup_lookup; [done|by apply at_index_Z|]. rewrite at_index_Z by done. by f_equal.
Qed.

Lemma word_root nodes edges P : trie nodes edges P → word P 0 = [] ∧ state_of P 0.
Proof.
  intros Ht. pose proof (trie_root _ _ _ Ht) as H. split.
  - by apply (at_index_nat P 0).
  - split; [done|]. apply lookup_lt_Some in H. lia.
Qed.

Lemma word_elem P s : state_of P s → word P s ∈ P.
Proof. intros Hs. eapply list_elem_of_lookup_2. by apply at_index_Z. Qed.

Lemma elem_state P w : w ∈ P → ∃ s, state_of P s ∧ word P s = w.
Proof.
  intros [i Hi]%list_elem_of_lookup. exists (Z.of_nat i).
  apply lookup_lt_Some in Hi as ?. split; [unfold state_of; lia|by apply at_index_nat].
Qed.

Lemma trie_depth nodes edges P t :
  trie nodes edges P → state_of P t → Z.of_nat (length (word P t)) ≤ t.
Proof.
  intros Ht. remember (word P t) as w eqn:Hw. revert t Hw.
  induction w as [|c w IH] using rev_ind; intros t Hw Hs; [simpl; destruct Hs; lia|].
  destruct (trie_parent _ _ _ Ht t w c) as (s & Hst & Hws); [done..|].
  rewrite length_app. simpl. specialize (IH s (eq_sym Hws)).
  assert (state_of P s) by (unfold state_of in *; lia). specialize (IH ltac:(done)). lia.
Qed.

Lemma build_transition_spec nodes edges P s c :
  trie nodes edges P → state_of P s →
  let t := contentModerationKeywordBuildTransition nodes edges s c in
  (0 ≤ t ∧ child P s c t) ∨ (t = -1 ∧ word P s ++ [c] ∉ P).
Proof.
  intros Ht Hs. unfold contentModerationKeywordBuildTransition.
  rewrite (proj2 (Z.ltb_ge s 0)) by apply Hs. rewrite (trie_length _ _ _ Ht).
  rewrite (proj2 (Z.leb_gt _ s)) by apply Hs. simpl.
  destruct (List.find _ _) as [e|] eqn:Ef.
  - apply List.find_some in Ef as [He Hl]. bool_to_prop. left.
    apply list_elem_of_In in He.
    assert (child P s c (build_target e)) as Hc by (apply (trie_children _ _ _ Ht); eauto).
    split; [apply Hc|done].
  - right. split; [done|]. intros (t & Hst & Hwt)%elem_state.
    destruct (proj2 (trie_children _ _ _ Ht s c t Hs)) as (e & He & Hl & _); [done|].
    apply list_elem_of_In in He. pose proof (List.find_none _ _ Ef e He) as Hne.
    apply Z.eqb_neq in Hne. done.
Qed.

(** The trie reads nothing of a node but where its siblings start. *)
Lemma trie_ext nodes nodes' edges P :
  trie nodes edges P → length nodes' = length nodes →
  (∀ u, state_of P u → edgeStart (at_index nodes' u) = edgeStart (at_index nodes u)) →
  trie nodes' edges P.
Proof.
  intros [] Hlen Hstart. split; try done.
  - congruence.
  - apply Forall_lookup. intros i n Hi.
    assert (state_of P (Z.of_nat i)) as Hst.
    { apply lookup_lt_Some in Hi. unfold state_of. lia. }
    rewrite <- (at_index_nat nodes' i n Hi), Hstart by done.
    unfold starts_ok in *. rewrite Forall_forall in trie_starts0. apply trie_starts0.
    eapply list_elem_of_lookup_2, at_index_Z. rewrite trie_length0. apply Hst.
  - intros u c t Hu. rewrite <- trie_children0 by done.
    by rewrite (sibling_edges_start _ nodes _ _ u) by by apply Hstart.
  - intros u Hu. rewrite (sibling_edges_start _ nodes _ _ u) by by apply Hstart.
    by apply trie_labels0.
Qed.

(** ** Adding a node *)

Lemma state_of_snoc P w t : state_of (P ++ [w]) t ↔ state_of P t ∨ t = Z.of_nat (length P).
Proof. unfold state_of. rewrite length_app. simpl. lia. Qed.

Lemma word_snoc P w t : state_of P t → word (P ++ [w]) t = word P t.
Proof. intros Ht. by apply at_index_app. Qed.

Lemma word_snoc_new P w : word (P ++ [w]) (Z.of_nat (length P)) = w.
Proof. by apply at_index_snoc. Qed.

Section add_node.
Context (nodes : list Node) (edges : list BuildEdge) (P : list (list Z)) (s c : Z).
Context (Ht : trie nodes edges P) (Hs : state_of P s) (Hnew : word P s ++ [c] ∉ P)
        (Hroom : Z.of_nat (length P) < max_int32).

Let fresh : Z := Z.of_nat (length P).
Let edge : BuildEdge :=
  mkBuildEdge fresh (contentModerationKeywordBuildFirstEdge (at_index nodes s)) c.
Let nodes' : list Node :=
  set_index (nodes ++ [newContentModerationKeywordNode]) s
    (set_edgeStart (at_index nodes s) (Z.of_nat (length edges) + 1)).
Let edges' : list BuildEdge := edges ++ [edge].
Let P' : list (list Z) := P ++ [word P s ++ [c]].

Lemma start_bound u : state_of P u → 0 ≤ edgeStart (at_index nodes u) ≤ Z.of_nat (length edges).
Proof.
  intros Hu. pose proof (trie_starts _ _ _ Ht) as Hstarts.
  eapply Forall_lookup_1 in Hstarts; [done|]. apply at_index_Z.
  rewrite (trie_length _ _ _ Ht). apply Hu.
Qed.

Lemma first_edge u : state_of P u →
  contentModerationKeywordBuildFirstEdge (at_index nodes u) = edgeStart (at_index nodes u) - 1.
Proof.
  intros Hu. apply (FirstEdge_eq _ (Z.of_nat (length edges))); [by apply start_bound|].
  pose proof (trie_edges _ _ _ Ht). pose proof (trie_small _ _ _ Ht). lia.
Qed.

Lemma at_nodes' u : state_of P' u →
  at_index nodes' u
  = if decide (u = s) then set_edgeStart (at_index nodes s) (Z.of_nat (length edges) + 1)
    else if decide (u = fresh) then newContentModerationKeywordNode
    else at_index nodes u.
Proof.
  intros Hu. pose proof (trie_length _ _ _ Ht) as Hlen. unfold nodes'.
  rewrite at_index_set; [|rewrite length_app, Hlen; destruct Hs; simpl; lia|apply Hu].
  destruct (decide (u = s)) as [->|Hne]; [by rewrite decide_True|].
  rewrite decide_False by done. case_decide as Hf.
  - apply at_index_snoc. rewrite Hlen. apply Hf.
  - apply at_index_app. rewrite Hlen.
    apply state_of_snoc in Hu as [Hu|Hu]; [apply Hu|by destruct Hf].
Qed.

Lemma sibling_edges' u : state_of P' u →
  sibling_edges nodes' edges' u
  = if decide (u = s) then edge :: sibling_edges nodes edges s
    else if decide (u = fresh) then []
    else sibling_edges nodes edges u.
Proof.
  intros Hu. unfold sibling_edges. rewrite at_nodes' by done.
  pose proof (trie_siblings _ _ _ Ht) as Hsib.
  pose proof (trie_edges _ _ _ Ht) as Hedges. pose proof (trie_small _ _ _ Ht) as Hsmall.
  assert (length edges' = S (length edges)) as Hlen
    by (unfold edges'; rewrite length_app; simpl; lia).
  rewrite Hlen. case_decide as Hus; [|case_decide as Hf].
  - rewrite (FirstEdge_eq _ (Z.of_nat (length edges) + 1)); [|simpl; lia|lia].
    simpl edgeStart. replace (Z.of_nat (length edges) + 1 - 1) with (Z.of_nat (length edges)) by lia.
    simpl. rewrite (proj2 (Z.ltb_ge _ 0)) by lia.
    unfold edges'. rewrite at_index_snoc by done. simpl. f_equal.
    apply edge_chain_app; [done|]. rewrite first_edge by done.
    pose proof (start_bound s Hs). lia.
  - done.
  - apply state_of_snoc in Hu as [Hu|Hu]; [|by destruct Hf].
    pose proof (start_bound u Hu). unfold edges'.
    rewrite edge_chain_app by (done || (rewrite first_edge by done; lia)).
    apply edge_chain_fuel; [done|rewrite first_edge by done; lia..].
Qed.

Lemma add_node_children u c' t : state_of P' u →
  (∃ e, e ∈ sibling_edges nodes' edges' u ∧ build_label e = c' ∧ build_target e = t)
  ↔ child P' u c' t.
Proof.
  intros Hu. rewrite sibling_edges' by done.
  assert (∀ v, state_of P v → child P' v c' t ↔
    child P v c' t ∨ t = fresh ∧ v = s ∧ c' = c) as Hchild.
  { intros v Hv. unfold child, P'. rewrite (word_snoc P _ v Hv), state_of_snoc. split.
    - intros [[Ht1|Ht1] Hw]; [left; by rewrite word_snoc in Hw|right].
      subst t. rewrite word_snoc_new in Hw. apply app_inj_tail in Hw as [Hw ->].
      split; [done|]. split; [|done]. by apply (word_inj P); [apply (trie_NoDup _ _ _ Ht)|..].
    - intros [[Ht' Hw]|(-> & -> & ->)]; [by rewrite word_snoc; auto|].
      rewrite word_snoc_new. auto. }
  case_decide as Hus; [subst u|case_decide as Hf; [subst u|]].
  - rewrite (Hchild s Hs), <- (trie_children _ _ _ Ht s c' t Hs). split.
    + intros (e & [->|He]%elem_of_cons & Hl & Htg); [right; simpl in *; auto|left; eauto].
    + intros [(e & He & ?)|(-> & _ & ->)]; [exists e; split; [by right|done]|].
      exists edge. split; [by left|done].
  - split; [by intros (e & He%elem_of_nil & _)|]. intros [Ht' Hw]. exfalso.
    unfold P' in Ht', Hw. rewrite word_snoc_new in Hw.
    apply state_of_snoc in Ht' as [Ht'| ->].
    + rewrite word_snoc in Hw by done.
      destruct (trie_parent _ _ _ Ht t _ c' Ht' Hw) as (p & Hp & Hwp).
      apply Hnew. rewrite <- Hwp. apply word_elem. unfold state_of in *. lia.
    + rewrite word_snoc_new in Hw. apply (f_equal length) in Hw.
      rewrite !length_app in Hw. simpl in Hw. lia.
  - apply state_of_snoc in Hu as [Hu|Hu]; [|by destruct Hf].
    rewrite (Hchild u Hu), <- (trie_children _ _ _ Ht u c' t Hu). naive_solver.
Qed.

Lemma add_node_trie : trie nodes' edges' P'.
Proof.
  pose proof (trie_length _ _ _ Ht) as Hlen. split.
  - unfold nodes', P'. rewrite length_set_index, !length_app. simpl. lia.
  - unfold P'. apply lookup_app_l_Some, (trie_root _ _ _ Ht).
  - unfold P'. apply NoDup_app. split_and!; [apply (trie_NoDup _ _ _ Ht)| |apply NoDup_singleton].
    intros x Hx ->%list_elem_of_singleton. done.
  - unfold P', edges'. rewrite !length_app, (trie_edges _ _ _ Ht). done.
  - unfold P'. rewrite length_app. simpl. lia.
  - intros j e He. unfold edges' in He. apply lookup_snoc_Some in He as [[Hj He]|[-> <-]].
    + by apply (trie_siblings _ _ _ Ht).
    + simpl. rewrite first_edge by done. pose proof (start_bound s Hs). lia.
  - unfold starts_ok, nodes', edges'. rewrite length_app. simpl. apply Forall_insert.
    + apply Forall_app_2; [|apply Forall_singleton; simpl; lia].
      eapply Forall_impl; [apply (trie_starts _ _ _ Ht)|]. simpl. lia.
    + simpl. lia.
  - intros u c' t. apply add_node_children.
  - intros u Hu. rewrite sibling_edges' by done. case_decide; [|case_decide].
    + csimpl. apply NoDup_cons. split; [|by apply (trie_labels _ _ _ Ht)].
      intros (e & Hl & He)%list_elem_of_fmap. apply Hnew.
      destruct (proj1 (trie_children _ _ _ Ht s c (build_target e) Hs)) as [Hst Hw]; [eauto|].
      rewrite <- Hw. by apply word_elem.
    + constructor.
    + apply (trie_labels _ _ _ Ht). by apply state_of_snoc in Hu as [?|?].
  - intros t w c' Hst Hw. unfold P' in *. apply state_of_snoc in Hst as [Hst| ->].
    + rewrite word_snoc in Hw by done.
      destruct (trie_parent _ _ _ Ht t w c' Hst Hw) as (p & Hp & Hwp).
      exists p. split; [done|]. rewrite word_snoc; [done|]. unfold state_of in *. lia.
    + rewrite word_snoc_new in Hw. apply app_inj_tail in Hw as [<- _].
      exists s. split; [apply Hs|]. by apply word_snoc.
Qed.

End add_node.

(** ** Building the trie *)

(** Before the links are set: [bestKeyword] is the least index in [K] of the
    node's word, and every failure link is the root. *)
Definition marks (nodes : list Node) (P : list (list Z)) (K : list Z → Z → Prop) : Prop :=
  ∀ t, state_of P t →
    least (K (word P t)) (bestKeyword (at_index nodes t)) ∧ failure (at_index nodes t) = 0.

(** The words are made of bytes. *)
Definition byte_words (P : list (list Z)) : Prop := Forall (Forall (λ c, 0 ≤ c < 256)) P.

Lemma byte_words_snoc P s c :
  byte_words P → state_of P s → 0 ≤ c < 256 → byte_words (P ++ [word P s ++ [c]]).
Proof.
  intros HP Hs Hc. apply Forall_app_2; [done|]. apply Forall_singleton, Forall_app_2.
  - unfold byte_words in HP. rewrite Forall_forall in HP. by apply HP, word_elem.
  - by apply Forall_singleton.
Qed.

Definition covers (P : list (list Z)) (K : list Z → Z → Prop) : Prop :=
  ∀ w k, K w k → w ∈ P.

Section build_correct.
Context `{UnicodeCase}.

Lemma insert_label_spec nodes edges P K s c :
  trie nodes edges P → state_of P s → Z.of_nat (length P) < max_int32 →
  marks nodes P K → covers P K →
  ∃ nodes' edges' s' P',
    insert_label (nodes, edges, s) c = (nodes', edges', s')
    ∧ trie nodes' edges' P' ∧ marks nodes' P' K ∧ P ⊆ P'
    ∧ (length P' ≤ S (length P))%nat ∧ state_of P' s' ∧ word P' s' = word P s ++ [c]
    ∧ (byte_words P → 0 ≤ c < 256 → byte_words P').
Proof.
  intros Ht Hs Hroom Hmarks Hcov. unfold insert_label.
  destruct (build_transition_spec nodes edges P s c Ht Hs) as [[H0 [Hst Hw]]|[Hneg Hnew]].
  { rewrite (proj2 (Z.ltb_ge _ 0)) by done.
    do 3 eexists. exists P. split; [done|]. split_and!; done || lia. }
  rewrite Hneg. simpl. pose proof (trie_length _ _ _ Ht) as Hlen.
  pose proof (trie_edges _ _ _ Ht) as Hedges.
  rewrite (at_index_app nodes) by (rewrite Hlen; apply Hs).
  rewrite !length_app, Hlen. simpl.
  rewrite int32_small by lia. rewrite uint32_small by lia.
  replace (Z.of_nat (length edges + 1)) with (Z.of_nat (length edges) + 1) by lia.
  do 3 eexists. exists (P ++ [word P s ++ [c]]). split; [done|].
  split; [by apply add_node_trie|]. split_and!.
  - intros t Hst. rewrite (at_nodes' nodes edges P s c Ht Hs t Hst).
    apply state_of_snoc in Hst as [Hst|Hst].
    + rewrite word_snoc by done. case_decide; [subst; simpl; by apply Hmarks|].
      rewrite decide_False by (unfold state_of in Hst; lia). by apply Hmarks.
    + subst t. rewrite word_snoc_new, decide_False by (unfold state_of in Hs; lia).
      rewrite decide_True by done. split; [left; split; [done|]|done].
      intros k Hk%Hcov. done.
  - set_solver.
  - rewrite length_app. simpl. lia.
  - apply state_of_snoc. by right.
  - apply word_snoc_new.
  - intros HP Hc. by apply byte_words_snoc.
Qed.

Lemma insert_labels_spec l nodes edges P K s :
  trie nodes edges P → state_of P s → Z.of_nat (length P + length l) ≤ max_int32 →
  marks nodes P K → covers P K →
  ∃ nodes' edges' s' P',
    foldl insert_label (nodes, edges, s) l = (nodes', edges', s')
    ∧ trie nodes' edges' P' ∧ marks nodes' P' K ∧ P ⊆ P'
    ∧ (length P' ≤ length P + length l)%nat ∧ state_of P' s' ∧ word P' s' = word P s ++ l
    ∧ (byte_words P → Forall (λ c, 0 ≤ c < 256) l → byte_words P').
Proof.
  revert nodes edges P s. induction l as [|c l IH]; intros nodes edges P s Ht Hs Hroom Hm Hc.
  { exists nodes, edges, s, P. simpl. rewrite app_nil_r. split_and!; done || lia. }
  simpl in Hroom.
  destruct (insert_label_spec nodes edges P K s c) as (n1 & e1 & s1 & P1 & E1 & Ht1 & Hm1 & Hsub1
    & Hlen1 & Hs1 & Hw1 & Hb1); [done..|lia|done|done|].
  destruct (IH n1 e1 P1 s1) as (n2 & e2 & s2 & P2 & E2 & Ht2 & Hm2 & Hsub2 & Hlen2 & Hs2 & Hw2 & Hb2);
    [done..|lia|done|intros w k Hk; by eapply Hsub1, Hc|].
  exists n2, e2, s2, P2. rewrite foldl_step, E1. split; [done|]. split_and!; [done..|set_solver| | | |].
  - simpl. lia.
  - done.
  - rewrite Hw2, Hw1, <- (assoc_L (++)). done.
  - intros HP [Hc' Hl']%Forall_cons. auto.
Qed.

(** The keywords that are spelled by [w], by index. *)
Definition spelled (ks : list string) (w : list Z) (k : Z) : Prop :=
  0 ≤ k ∧ ∃ kw, ks !! Z.to_nat k = Some kw ∧ kw ≠ ""%string ∧ bytes (ToLower kw) = w.

Lemma spelled_snoc ks kw w k :
  spelled (ks ++ [kw]) w k ↔
  spelled ks w k ∨ k = Z.of_nat (length ks) ∧ kw ≠ ""%string ∧ bytes (ToLower kw) = w.
Proof.
  unfold spelled. split.
  - intros (Hk & kw' & [[Hlt Hl]|[Heq ->]]%lookup_snoc_Some & Hrest); [left; eauto|right].
    split; [lia|done].
  - intros [(Hk & kw' & Hl & Hrest)|(-> & Hrest)].
    + split; [done|]. exists kw'. split; [by apply lookup_app_l_Some|done].
    + split; [lia|]. exists kw. rewrite Nat2Z.id. split; [by apply list_lookup_middle|done].
Qed.

Lemma spelled_bound ks w k : spelled ks w k → k < Z.of_nat (length ks).
Proof. intros (Hk & kw & Hl%lookup_lt_Some & _). lia. Qed.

Lemma insert_keyword_spec nodes edges P ks kw :
  trie nodes edges P → marks nodes P (spelled ks) → covers P (spelled ks) →
  Z.of_nat (length P + length (bytes (ToLower kw))) ≤ max_int32 →
  Z.of_nat (length ks) ≤ max_int32 →
  ∃ nodes' edges' P',
    insert_keyword (nodes, edges) (length ks, kw) = (nodes', edges')
    ∧ trie nodes' edges' P' ∧ marks nodes' P' (spelled (ks ++ [kw]))
    ∧ covers P' (spelled (ks ++ [kw]))
    ∧ (length P' ≤ length P + length (bytes (ToLower kw)))%nat
    ∧ (byte_words P → byte_words P').
Proof.
  intros Ht Hm Hc Hroom Hks. unfold insert_keyword.
  destruct (String.eqb kw "") eqn:Ekw; bool_to_prop.
  { exists nodes, edges, P. split; [done|]. split_and!; [done| | |lia|done].
    - intros t Hst. destruct (Hm t Hst) as [Hl Hf]. split; [|done].
      eapply least_ext; [|done]. intros k. rewrite spelled_snoc. naive_solver.
    - intros w k [Hk|Hk]%spelled_snoc; [by eapply Hc|naive_solver]. }
  destruct (word_root _ _ _ Ht) as [Hw0 Hs0].
  destruct (insert_labels_spec (bytes (ToLower kw)) nodes edges P (spelled ks) 0)
    as (n1 & e1 & s1 & P1 & -> & Ht1 & Hm1 & Hsub1 & Hlen1 & Hs1 & Hw1 & Hb1); [done..|].
  assert (byte_words P → byte_words P1) as Hbytes.
  { intros HP. apply Hb1; [done|]. apply Forall_forall. intros c. apply bytes_range. }
  rewrite Hw0 in Hw1. simpl in Hw1.
  assert (covers P1 (spelled (ks ++ [kw]))) as Hcov.
  { intros w k [Hk|(_ & _ & <-)]%spelled_snoc; [by eapply Hsub1, Hc|].
    rewrite <- Hw1. by apply word_elem. }
  assert (∀ t, state_of P1 t → t ≠ s1 →
    least (spelled (ks ++ [kw]) (word P1 t)) (bestKeyword (at_index n1 t))) as Hother.
  { intros t Hst Hne. eapply least_ext; [|by apply Hm1]. intros k. rewrite spelled_snoc.
    split; [by left|]. intros [?|(_ & _ & Hw)]; [done|]. destruct Hne.
    apply (word_inj P1); [apply (trie_NoDup _ _ _ Ht1)|done..|congruence]. }
  destruct (Hm1 s1 Hs1) as [Hleast Hfail].
  rewrite int32_small by lia. set (current := bestKeyword (at_index n1 s1)) in *.
  assert (current = -1 ∨ 0 ≤ current < Z.of_nat (length ks)) as Hcur.
  { destruct Hleast as [[-> _]|(? & HS & _)]; [by left|right]. apply spelled_bound in HS. lia. }
  destruct (_ || _) eqn:Eset; bool_to_prop.
  - assert (current = -1) as Hcur' by (destruct Eset; bool_to_prop; lia).
    assert (0 ≤ s1 < Z.of_nat (length n1)) as Hs1' by (rewrite (trie_length _ _ _ Ht1); apply Hs1).
    assert (∀ u, state_of P1 u → edgeStart (at_index (set_index n1 s1
      (set_best (at_index n1 s1) (Z.of_nat (length ks)))) u) = edgeStart (at_index n1 u)) as Hstart.
    { intros u Hu. rewrite at_index_set; [|done|apply Hu]. by case_decide; [subst|]. }
    do 2 eexists. exists P1. split; [done|]. split_and!; [|  |done|lia|done].
    + eapply trie_ext; [done|by rewrite length_set_index|done].
    + intros t Hst. rewrite at_index_set; [|done|apply Hst]. case_decide as Hst'.
      * subst t. simpl. split; [|done]. right. split_and!; [lia| |].
        -- apply spelled_snoc. right. by rewrite Hw1.
        -- intros k [Hk|[-> _]]%spelled_snoc; [|done].
           destruct Hleast as [[_ Hn]|(? & _)]; [by apply Hn in Hk|lia].
      * split; [by apply Hother|by apply Hm1].
  - exists n1, e1, P1. split; [done|]. split_and!; [done| |done|lia|done].
    intros t Hst. split; [|by apply Hm1]. destruct (decide (t = s1)) as [->|]; [|by apply Hother].
    fold current. right. destruct Hleast as [[? _]|(? & ? & Hmin)]; [lia|].
    split_and!; [done|apply spelled_snoc; by left|].
    intros k [Hk|[-> _]]%spelled_snoc; [by apply Hmin|lia].
Qed.

Definition total_length (ks : list string) : nat :=
  sum_list_with (λ kw, length (bytes (ToLower kw))) ks.

Lemma build_trie_spec ks :
  1 + Z.of_nat (total_length ks) ≤ max_int32 → Z.of_nat (length ks) ≤ max_int32 →
  ∃ nodes edges P,
    build_trie ks = (nodes, edges) ∧ trie nodes edges P
    ∧ marks nodes P (spelled ks) ∧ covers P (spelled ks)
    ∧ (length P ≤ 1 + total_length ks)%nat ∧ byte_words P.
Proof.
  induction ks as [|kw ks IH] using rev_ind; intros Htotal Hks.
  - exists [newContentModerationKeywordNode], [], [[]]. split; [done|].
    assert (∀ t, state_of [[]] t → t = 0) as Hzero by (unfold state_of; simpl; intros; lia).
    split_and!; [| | |done|by repeat constructor].
    + split; try done.
      * apply NoDup_singleton.
      * repeat constructor; simpl; lia.
      * intros s c t Hs%Hzero. subst s. split; [by intros (e & He%elem_of_nil & _)|].
        intros [->%Hzero Hw]. done.
      * intros s Hs%Hzero. subst s. constructor.
      * intros t w c Hst%Hzero Hw. subst t. by destruct w.
    + intros t Hst%Hzero. subst t. split; [left; split; [done|]|done].
      intros k (_ & kw & Hl & _). by rewrite lookup_nil in Hl.
    + intros w k (_ & kw & Hl & _). by rewrite lookup_nil in Hl.
  - unfold total_length in *. rewrite sum_list_with_app in *. simpl in *.
    rewrite length_app in Hks. simpl in Hks.
    destruct IH as (n & e & P & E & Ht & Hm & Hc & Hlen & Hb); [lia..|].
    destruct (insert_keyword_spec n e P ks kw) as (n' & e' & P' & E' & Ht' & Hm' & Hc' & Hlen' & Hb');
      [done..|lia|lia|].
    exists n', e', P'. unfold build_trie in *. rewrite imap_app, foldl_app, E.
    change (imap _ [kw]) with [((length ks + 0)%nat, kw)].
    rewrite Nat.add_0_r, foldl_step, E'. split_and!; [done..|lia|auto].
Qed.

End build_correct.
