(* ===== verification/KeywordLinks.v ===== *)
(** * The keyword matcher: the failure links

    [link_loop] visits the trie breadth first; it sets the failure link of every
    node to its longest proper suffix in the trie and its [bestKeyword] to the
    first keyword that is a suffix of its word. *)

From Stdlib Require Import ZArith Lia String Sorted.
From stdpp Require Import base tactics numbers list sets strings.
From S2P Require Import Prelude GoStrings KeywordMatcher KeywordTrie.

Open Scope Z_scope.

(** ** Longest suffixes *)

Fixpoint longest_suffix (P : list (list Z)) (w : list Z) : list Z :=
  if decide (w ∈ P) then w
  else match w with [] => [] | _ :: w => longest_suffix P w end.

Definition prefix_closed (P : list (list Z)) : Prop := ∀ w c, w ++ [c] ∈ P → w ∈ P.

Lemma longest_suffix_in P w : w ∈ P → longest_suffix P w = w.
Proof. destruct w; simpl; intros; by rewrite decide_True. Qed.

Lemma longest_suffix_nil P : longest_suffix P [] = [].
Proof. simpl. by case_decide. Qed.

Lemma longest_suffix_cons P a w :
  a :: w ∉ P → longest_suffix P (a :: w) = longest_suffix P w.
Proof. intros. simpl. by rewrite decide_False. Qed.

Lemma longest_suffix_elem P w : [] ∈ P → longest_suffix P w ∈ P.
Proof.
  intros Hnil. induction w as [|a w IH]; [by rewrite longest_suffix_nil|].
  simpl. by case_decide.
Qed.

Lemma longest_suffix_suffix P w : longest_suffix P w `suffix_of` w.
Proof.
  induction w as [|a w IH]; [by rewrite longest_suffix_nil|].
  simpl. case_decide; [done|]. by apply suffix_cons_r.
Qed.

Lemma suffix_cons_cases (v w : list Z) a :
  v `suffix_of` a :: w → v = a :: w ∨ v `suffix_of` w.
Proof.
  destruct v as [|x v]; [right; apply suffix_nil|]. intros H%suffix_cons_inv. done.
Qed.

Lemma longest_suffix_max P v w : v ∈ P → v `suffix_of` w → v `suffix_of` longest_suffix P w.
Proof.
  intros Hv. induction w as [|a w IH]; intros Hs.
  - apply suffix_nil_inv in Hs as ->. apply suffix_nil.
  - simpl. case_decide; [done|]. apply suffix_cons_cases in Hs as [->|Hs]; [done|by apply IH].
Qed.

Lemma longest_suffix_snoc P w c :
  [] ∈ P → prefix_closed P →
  longest_suffix P (w ++ [c]) = longest_suffix P (longest_suffix P w ++ [c]).
Proof.
  intros Hnil Hpre. induction w as [|a w IH]; [by rewrite longest_suffix_nil|].
  destruct (decide (a :: w ∈ P)); [by rewrite (longest_suffix_in P (a :: w))|].
  rewrite (longest_suffix_cons P a w) by done. rewrite <- IH. simpl app.
  apply longest_suffix_cons. intros H. by apply (Hpre (a :: w)) in H.
Qed.

Lemma longest_suffix_length P w : (length (longest_suffix P w) ≤ length w)%nat.
Proof. apply suffix_length, longest_suffix_suffix. Qed.

Lemma trie_prefix_closed nodes edges P : trie nodes edges P → prefix_closed P.
Proof.
  intros Ht w c (t & Hst & Hw)%elem_state.
  destruct (trie_parent _ _ _ Ht t w c Hst Hw) as (s & Hs & <-).
  apply word_elem. unfold state_of in *. lia.
Qed.

Lemma trie_nil nodes edges P : trie nodes edges P → [] ∈ P.
Proof. intros Ht. eapply list_elem_of_lookup_2, (trie_root _ _ _ Ht). Qed.

Lemma word_nonroot nodes edges P t :
  trie nodes edges P → state_of P t → t ≠ 0 → ∃ w c, word P t = w ++ [c].
Proof.
  intros Ht Hst Hne. destruct (word P t) as [|w c _] eqn:E using rev_ind; [|eauto].
  destruct Hne. destruct (word_root _ _ _ Ht) as [Hw0 Hs0].
  apply (word_inj P); [apply (trie_NoDup _ _ _ Ht)|done..|congruence].
Qed.

(** ** Linked nodes *)

Section links.
Context (P : list (list Z)) (edges : list BuildEdge) (K : list Z → Z → Prop).
Context (Hcov : covers P K) (Hnil : ∀ k, ¬ K [] k).

(** The keywords that end where the word ends. *)
Definition suffix_keys (w : list Z) (k : Z) : Prop := ∃ v, v `suffix_of` w ∧ K v k.

Definition failure_ok (nodes : list Node) (t : Z) : Prop :=
  state_of P (failure (at_index nodes t))
  ∧ word P (failure (at_index nodes t)) = longest_suffix P (tail (word P t)).

Definition linked (nodes : list Node) (t : Z) : Prop :=
  failure_ok nodes t ∧ least (suffix_keys (word P t)) (bestKeyword (at_index nodes t)).

Definition unlinked (nodes : list Node) (t : Z) : Prop :=
  failure (at_index nodes t) = 0 ∧ least (K (word P t)) (bestKeyword (at_index nodes t)).

Record links (nodes : list Node) (Q : list Z) : Prop := {
  links_trie : trie nodes edges P;
  links_linked : ∀ t, state_of P t → t ∈ Q → linked nodes t;
  links_unlinked : ∀ t, state_of P t → t ∉ Q → unlinked nodes t
}.

Definition depth (t : Z) : nat := length (word P t).

Lemma suffix_keys_split w k : suffix_keys w k ↔ K w k ∨ w ≠ [] ∧ suffix_keys (tail w) k.
Proof.
  unfold suffix_keys. destruct w as [|a w]; simpl.
  - split; [|naive_solver]. intros (v & ->%suffix_nil_inv & Hk). by left.
  - split.
    + intros (v & [->|Hv]%suffix_cons_cases & Hk); [by left|right; eauto].
    + intros [Hk|(_ & v & Hv & Hk)]; [by exists (a :: w)|].
      exists v. split; [by apply suffix_cons_r|done].
Qed.

Lemma suffix_keys_longest w k : suffix_keys (longest_suffix P w) k ↔ suffix_keys w k.
Proof.
  split; intros (v & Hv & Hk); exists v; (split; [|done]).
  - etrans; [done|apply longest_suffix_suffix].
  - apply longest_suffix_max; [by eapply Hcov|done].
Qed.

(** ** Walking the failure links *)

Lemma failure_loop_spec nodes fuel f c :
  trie nodes edges P → state_of P f → (depth f < fuel)%nat →
  (∀ u, state_of P u → u ≠ 0 → (depth u ≤ depth f)%nat → failure_ok nodes u) →
  let r := failure_loop fuel nodes edges f c in
  let w := longest_suffix P (word P f ++ [c]) in
  0 ≤ r ∧ state_of P r ∧ word P r = w ∨ r = -1 ∧ w = [].
Proof.
  intros Ht. revert f. induction fuel as [|fuel IH]; intros f Hf Hfuel Hok; [lia|].
  destruct (build_transition_spec nodes edges P f c Ht Hf) as [[H0 [Hst Hw]]|[Hneg Hout]]; simpl.
  - rewrite (proj2 (Z.ltb_ge _ 0)) by done. simpl. left. split; [done|]. split; [done|].
    rewrite Hw, longest_suffix_in; [done|]. rewrite <- Hw. by apply word_elem.
  - rewrite Hneg. destruct (f =? 0) eqn:E; bool_to_prop; simpl.
    + subst f. right. split; [done|]. destruct (word_root _ _ _ Ht) as [Hw0 _].
      rewrite Hw0 in *. simpl app in *. rewrite longest_suffix_cons by done.
      apply longest_suffix_nil.
    + destruct (Hok f Hf E) as [Hsf Hwf]; [done|].
      destruct (word_nonroot _ _ _ _ Ht Hf E) as (v & b & Hwv).
      assert (∃ a v', word P f = a :: v') as (a & v' & Ewf)
        by (rewrite Hwv; destruct v; simpl; eauto).
      rewrite Ewf in *. simpl tail in Hwf. simpl app in *.
      rewrite longest_suffix_cons by done.
      rewrite longest_suffix_snoc; [|by eapply trie_nil|by eapply trie_prefix_closed].
      rewrite <- Hwf.
      assert (depth (failure (at_index nodes f)) < depth f)%nat as Hlt.
      { unfold depth. rewrite Hwf, Ewf. pose proof (longest_suffix_length P v'). simpl. lia. }
      apply IH; [done|lia|]. intros u Hu Hne Hd. apply Hok; [done|done|lia].
Qed.

(** ** Linking one node *)

Lemma child_depth s c t : child P s c t → depth t = S (depth s).
Proof. intros [_ Hw]. unfold depth. rewrite Hw, length_app. simpl. lia. Qed.

(** The result of the inner loop for a child of [s] along [c]. *)
Definition fallback_result (nodes : list Node) (s c : Z) : Z :=
  failure_loop (length nodes) nodes edges (failure (at_index nodes s)) c.

(** The node the failure link of [t] will lead to, from the result of the loop. *)
Definition link_of (r : Z) : Z := if 0 <=? r then r else 0.

Lemma link_target nodes s t c :
  trie nodes edges P → state_of P s → s ≠ 0 → child P s c t →
  failure_ok nodes s →
  (∀ u, state_of P u → u ≠ 0 → (depth u ≤ depth s)%nat → failure_ok nodes u) →
  let g := link_of (fallback_result nodes s c) in
  state_of P g ∧ word P g = longest_suffix P (tail (word P t)) ∧ (depth g ≤ depth s)%nat.
Proof.
  intros Ht Hs Hne [Hst Hwt] [Hsf Hwf] Hok g.
  destruct (word_root _ _ _ Ht) as [Hw0 Hs0].
  destruct (word_nonroot _ _ _ _ Ht Hs Hne) as (v & b & Hwv).
  unfold fallback_result in g. set (f := failure (at_index nodes s)) in *.
  assert (tail (word P t) = tail (word P s) ++ [c]) as Htail by (rewrite Hwt, Hwv; by destruct v).
  assert (length (tail (word P s)) < length (word P s))%nat as Hshort
    by (rewrite Hwv; destruct v; simpl; lia).
  assert (longest_suffix P (tail (word P t)) = longest_suffix P (word P f ++ [c])) as Htgt.
  { rewrite Hwf, Htail. apply longest_suffix_snoc; [by eapply trie_nil|by eapply trie_prefix_closed]. }
  pose proof (longest_suffix_length P (tail (word P t))) as Hl.
  rewrite Htail, length_app in Hl. simpl in Hl.
  assert (word P g = longest_suffix P (tail (word P t)) ∧ state_of P g) as [Hwg Hsg].
  { rewrite Htgt. unfold g, link_of.
    destruct (failure_loop_spec nodes (length nodes) f c Ht Hsf) as [(Hr0 & Hsr & Hwr)|[-> Hw]].
    - pose proof (trie_depth _ _ _ f Ht Hsf). rewrite (trie_length _ _ _ Ht).
      unfold depth, state_of in *. lia.
    - intros u Hu Hu0 Hd. apply Hok; [done|done|]. unfold depth in *. rewrite Hwf in Hd.
      pose proof (longest_suffix_length P (tail (word P s))). lia.
    - by rewrite (proj2 (Z.leb_le 0 _)).
    - rewrite Hw. change (if 0 <=? -1 then -1 else 0) with 0. by rewrite Hw0. }
  split; [done|]. split; [done|]. unfold depth. rewrite Hwg, Htail. lia.
Qed.

(** What [link_edge] writes. *)
Lemma link_edge_effect nodes queue s e :
  length nodes = length P → state_of P (build_target e) →
  failure (at_index nodes (build_target e)) = 0 →
  let t := build_target e in
  let g := link_of (fallback_result nodes s (build_label e)) in
  g ≠ t →
  ∃ nodes', link_edge edges s (nodes, queue) e = (nodes', queue ++ [t])
    ∧ length nodes' = length nodes
    ∧ failure (at_index nodes' t) = g
    ∧ bestKeyword (at_index nodes' t)
      = minKeywordIndex (bestKeyword (at_index nodes t)) (bestKeyword (at_index nodes g))
    ∧ (∀ u, state_of P u → u ≠ t → at_index nodes' u = at_index nodes u)
    ∧ (∀ u, state_of P u → edgeStart (at_index nodes' u) = edgeStart (at_index nodes u)).
Proof.
  intros Hlen Hst Hfail t g Hgt. unfold link_edge. fold t (fallback_result nodes s (build_label e)).
  unfold g, link_of in *. set (r := fallback_result nodes s (build_label e)) in *. clearbody r.
  assert (0 ≤ t < Z.of_nat (length nodes)) as Hti by (rewrite Hlen; apply Hst).
  fold t in Hfail. destruct (0 <=? r) eqn:Er; bool_to_prop.
  - set (nodes1 := set_index nodes t _).
    assert (∀ u, 0 ≤ u → at_index nodes1 u
      = if decide (t = u) then set_failure (at_index nodes t) r else at_index nodes u) as H1
      by (intros u Hu; by apply at_index_set).
    assert (0 ≤ t < Z.of_nat (length nodes1)) as Hti1 by (unfold nodes1; by rewrite length_set_index).
    eexists. split; [done|]. rewrite length_set_index, !at_index_set, !H1 by lia.
    rewrite !(decide_True (P := t = t)) by done. simpl. rewrite H1 by lia.
    rewrite decide_False by congruence.
    split_and!; [apply length_set_index|done|done| |].
    + intros u Hu Hut. rewrite at_index_set, H1 by (done || apply Hu).
      by rewrite !decide_False by congruence.
    + intros u Hu. rewrite at_index_set, H1 by (done || apply Hu). by case_decide; [subst|].
  - eexists. split; [done|]. rewrite length_set_index, !at_index_set by lia.
    rewrite !(decide_True (P := t = t)) by done. simpl. rewrite Hfail.
    split_and!; [done|done|done| |].
    + intros u Hu Hut. rewrite at_index_set by (done || apply Hu). by rewrite decide_False by congruence.
    + intros u Hu. rewrite at_index_set by (done || apply Hu). by case_decide; [subst|].
Qed.

Lemma link_edge_spec nodes Q queue s e :
  links nodes Q → state_of P s → s ≠ 0 →
  (∀ u, state_of P u → u ≠ 0 → (depth u ≤ depth s)%nat → u ∈ Q) → 0 ∉ Q →
  child P s (build_label e) (build_target e) → build_target e ∉ Q →
  ∃ nodes', link_edge edges s (nodes, queue) e = (nodes', queue ++ [build_target e])
    ∧ links nodes' (Q ++ [build_target e])
    ∧ (∀ u, state_of P u → edgeStart (at_index nodes' u) = edgeStart (at_index nodes u)).
Proof.
  intros [Ht Hlinked Hunlinked] Hs Hne Hshallow H0 Hchild Hfresh.
  pose proof Hchild as [Hst Hwt]. pose proof (child_depth _ _ _ Hchild) as Hdt.
  destruct (word_root _ _ _ Ht) as [Hw0 Hs0].
  destruct (link_target nodes s (build_target e) (build_label e) Ht Hs Hne Hchild)
    as (Hsg & Hwg & Hdg); [by apply Hlinked, Hshallow| |].
  { intros u Hu Hu0 Hd. apply Hlinked; [done|by apply Hshallow]. }
  set (t := build_target e) in *. destruct (Hunlinked t Hst Hfresh) as [Hft Hbt].
  destruct (link_edge_effect nodes queue s e) as (nodes' & E & Hlen & Hf & Hb & Hsame & Hstart);
    [apply (trie_length _ _ _ Ht)|done|done|fold t; intros Heq; rewrite Heq in Hdg; lia|].
  fold t in E, Hf, Hb, Hsame. set (g := link_of _) in *. clearbody g.
  assert (least (suffix_keys (word P g)) (bestKeyword (at_index nodes g))) as Hbg.
  { destruct (decide (g = 0)) as [->|Hg0]; [|by apply Hlinked, Hshallow].
    eapply least_ext; [|by apply (Hunlinked 0)]. intros k. rewrite Hw0, suffix_keys_split.
    naive_solver. }
  exists nodes'. split; [done|]. split; [|done]. split.
  - by eapply trie_ext.
  - intros u Hu [HuQ| ->%list_elem_of_singleton]%elem_of_app.
    + assert (u ≠ t) by congruence. destruct (Hlinked u Hu HuQ) as [[H1 H2] H3].
      unfold linked, failure_ok. by rewrite Hsame.
    + unfold linked, failure_ok. rewrite Hf, Hb. split; [done|].
      eapply least_ext; [|by apply minKeywordIndex_least]. intros k. simpl.
      rewrite (suffix_keys_split (word P t)), Hwg, suffix_keys_longest, Hwt.
      destruct (word P s); simpl; naive_solver.
  - intros u Hu HuQ. assert (u ∉ Q ∧ u ≠ t) as [H1 H2] by set_solver.
    unfold unlinked. rewrite Hsame by done. by apply Hunlinked.
Qed.

(** ** Linking the children of one node *)

Lemma link_edges_spec es nodes Q queue s :
  links nodes Q → state_of P s → s ≠ 0 →
  (∀ u, state_of P u → u ≠ 0 → (depth u ≤ depth s)%nat → u ∈ Q) → 0 ∉ Q →
  Forall (λ e, child P s (build_label e) (build_target e)) es →
  NoDup (build_label <$> es) → Forall (λ e, build_target e ∉ Q) es →
  ∃ nodes', foldl (link_edge edges s) (nodes, queue) es = (nodes', queue ++ (build_target <$> es))
    ∧ links nodes' (Q ++ (build_target <$> es))
    ∧ (∀ u, state_of P u → edgeStart (at_index nodes' u) = edgeStart (at_index nodes u)).
Proof.
  revert nodes Q queue. induction es as [|e es IH]; intros nodes Q queue Hl Hs Hne Hsh H0 Hch Hnd Hfr.
  { exists nodes. csimpl. rewrite !app_nil_r. done. }
  apply Forall_cons in Hch as [Hche Hch]. apply Forall_cons in Hfr as [Hfre Hfr].
  rewrite fmap_cons in Hnd. apply NoDup_cons in Hnd as [Hnde Hnd].
  destruct (link_edge_spec nodes Q queue s e) as (n1 & E1 & Hl1 & Hst1); [done..|].
  destruct (IH n1 (Q ++ [build_target e]) (queue ++ [build_target e])) as (n2 & E2 & Hl2 & Hst2);
    [done|done|done| | |done|done| |].
  - intros u Hu Hu0 Hd. apply elem_of_app. left. by apply Hsh.
  - rewrite elem_of_app, list_elem_of_singleton. intros [?|Hz]; [done|].
    destruct Hche as [_ Hw]. rewrite <- Hz in Hw.
    rewrite (proj1 (word_root _ _ _ (links_trie _ _ Hl))) in Hw. by destruct (word P s).
  - rewrite Forall_forall in Hfr, Hch |- *. intros e' He'.
    rewrite elem_of_app, list_elem_of_singleton. intros [?|Heq]; [by apply (Hfr e')|].
    apply Hnde, list_elem_of_fmap. exists e'. split; [|done].
    destruct (Hch e' He') as [_ Hw'], Hche as [_ Hw]. rewrite Heq, Hw in Hw'.
    by apply app_inj_tail in Hw' as [_ ?].
  - exists n2. rewrite foldl_step, E1. csimpl.
    rewrite <- !(assoc_L (++)) in E2, Hl2. simpl in E2, Hl2.
    split; [done|]. split; [done|]. intros u Hu. by rewrite Hst2, Hst1.
Qed.

(** ** Breadth first *)

(** [done] has been processed, [pending] is the rest of the queue. *)
Record bfs (done pending : list Z) : Prop := {
  bfs_NoDup : NoDup (done ++ pending);
  bfs_state : ∀ t, t ∈ done ++ pending → state_of P t ∧ t ≠ 0;
  bfs_closed : ∀ s c t, s ∈ 0 :: done → child P s c t → t ∈ done ++ pending;
  bfs_parents : ∀ t, t ∈ done ++ pending → ∃ s c, s ∈ 0 :: done ∧ child P s c t;
  bfs_sorted : StronglySorted (λ a b, (depth a ≤ depth b)%nat) pending;
  bfs_front : ∀ s rest, pending = s :: rest → ∀ t, t ∈ rest → (depth t ≤ S (depth s))%nat
}.

Lemma bfs_shallow nodes dn s rest :
  trie nodes edges P → bfs dn (s :: rest) →
  ∀ u, state_of P u → u ≠ 0 → (depth u ≤ depth s)%nat → u ∈ dn ++ s :: rest.
Proof.
  intros Ht Hb u. remember (depth u) as n eqn:Hn. revert u Hn.
  induction n as [n IH] using lt_wf_ind. intros u -> Hu Hu0 Hd.
  destruct (word_nonroot _ _ _ _ Ht Hu Hu0) as (w & c & Hw).
  destruct (trie_parent _ _ _ Ht u w c Hu Hw) as (p & Hp & Hwp).
  assert (state_of P p) as Hsp by (unfold state_of in *; lia).
  assert (child P p c u) as Hch by (split; [done|by rewrite Hwp]).
  pose proof (child_depth _ _ _ Hch) as Hdp.
  destruct (decide (p = 0)) as [->|Hp0].
  { apply (bfs_closed _ _ Hb 0 c); [by left|done]. }
  assert (p ∈ dn ++ s :: rest) as Hin by (apply (IH (depth p)); [lia|done..|lia]).
  apply elem_of_app in Hin as [Hin|Hin].
  - apply (bfs_closed _ _ Hb p c); [by right|done].
  - pose proof (bfs_sorted _ _ Hb) as Hsort. apply StronglySorted_inv in Hsort as [_ Hall].
    rewrite Forall_forall in Hall.
    apply elem_of_cons in Hin as [->|Hin]; [lia|]. apply Hall in Hin. lia.
Qed.

Lemma StronglySorted_app_le (l1 l2 : list Z) n :
  StronglySorted (λ a b, (depth a ≤ depth b)%nat) l1 →
  (∀ x, x ∈ l1 → (depth x ≤ n)%nat) → (∀ x, x ∈ l2 → depth x = n) →
  StronglySorted (λ a b, (depth a ≤ depth b)%nat) (l1 ++ l2).
Proof.
  intros H1 Hle H2. induction l1 as [|x l1 IH]; simpl.
  - induction l2 as [|y l2 IH2]; constructor.
    + apply IH2. intros z Hz. apply H2. by right.
    + apply Forall_forall. intros z Hz. rewrite (H2 y), (H2 z) by set_solver. done.
  - apply StronglySorted_inv in H1 as [H1 Hall]. constructor.
    + apply IH; [done|]. intros z Hz. apply Hle. by right.
    + apply Forall_app_2; [done|]. apply Forall_forall. intros z Hz.
      rewrite (H2 z Hz). apply Hle. by left.
Qed.

Lemma targets_NoDup s es :
  Forall (λ e, child P s (build_label e) (build_target e)) es →
  NoDup (build_label <$> es) → NoDup (build_target <$> es).
Proof.
  intros Hch Hlab. induction es as [|e es IH]; csimpl in *; [constructor|].
  apply Forall_cons in Hch as [[_ Hw] Hch]. apply NoDup_cons in Hlab as [Hn Hlab].
  apply NoDup_cons. split; [|by apply IH]. intros (e' & Heq & He')%list_elem_of_fmap.
  apply Hn, list_elem_of_fmap. exists e'. split; [|done]. rewrite Forall_forall in Hch.
  destruct (Hch e' He') as [_ Hw']. rewrite <- Heq, Hw in Hw'. by apply app_inj_tail in Hw' as [_ ?].
Qed.

Lemma siblings_children nodes s :
  trie nodes edges P → state_of P s →
  Forall (λ e, child P s (build_label e) (build_target e)) (sibling_edges nodes edges s)
  ∧ NoDup (build_target <$> sibling_edges nodes edges s)
  ∧ ∀ t, t ∈ build_target <$> sibling_edges nodes edges s ↔ ∃ c, child P s c t.
Proof.
  intros Ht Hs. set (es := sibling_edges nodes edges s).
  assert (Forall (λ e, child P s (build_label e) (build_target e)) es) as Hch.
  { apply Forall_forall. intros e He. apply (trie_children _ _ _ Ht); [done|eauto]. }
  split; [done|]. split; [by apply (targets_NoDup s); [|apply (trie_labels _ _ _ Ht)]|].
  intros t. rewrite list_elem_of_fmap. split.
  - intros (e & -> & He). rewrite Forall_forall in Hch. eauto.
  - intros [c (e & He & _ & Hte)%(trie_children _ _ _ Ht)]; [eauto|done].
Qed.

(** One round of the loop: the head of the queue, whose children are [es]. *)
Lemma bfs_step nodes dn s rest es :
  trie nodes edges P → bfs dn (s :: rest) → es = sibling_edges nodes edges s →
  bfs (dn ++ [s]) (rest ++ (build_target <$> es))
  ∧ Forall (λ e, build_target e ∉ dn ++ s :: rest) es
  ∧ Forall (λ e, child P s (build_label e) (build_target e)) es.
Proof.
  intros Ht Hb ->. set (es := sibling_edges nodes edges s).
  destruct (bfs_state _ _ Hb s) as [Hs Hs0]; [apply elem_of_app; right; by left|].
  destruct (siblings_children nodes s Ht Hs) as (Hch & Hndt & Htargets). fold es in Hch, Hndt, Htargets.
  pose proof (bfs_NoDup _ _ Hb) as Hnd.
  assert (s ∉ dn) as Hsdn.
  { apply NoDup_app in Hnd as (_ & Hdisj & _). intros Hin. apply (Hdisj s Hin). by left. }
  assert (∀ t, t ∈ build_target <$> es → t ∉ dn ++ s :: rest) as Hfresh.
  { intros t [c Hc]%Htargets Hin. apply (bfs_parents _ _ Hb) in Hin as (s' & c' & Hs' & Hc').
    assert (s' = s) as ->.
    { destruct Hc as [_ Hw], Hc' as [_ Hw']. rewrite Hw in Hw'. apply app_inj_tail in Hw' as [Hw' _].
      apply (word_inj P); [apply (trie_NoDup _ _ _ Ht)| |done|done].
      apply elem_of_cons in Hs' as [->|Hs']; [apply (word_root _ _ _ Ht)|].
      apply (bfs_state _ _ Hb). apply elem_of_app. by left. }
    apply elem_of_cons in Hs' as [?|?]; done. }
  assert ((dn ++ [s]) ++ rest ++ (build_target <$> es)
    = (dn ++ s :: rest) ++ (build_target <$> es)) as Hq by by rewrite <- !(assoc_L (++)).
  split; [|split; [|done]].
  2:{ apply Forall_forall. intros e He. apply Hfresh, list_elem_of_fmap. eauto. }
  split; rewrite ?Hq.
  - apply NoDup_app. split_and!; [done|intros t Hin Hin'; by apply (Hfresh t)|done].
  - intros t [Hin|Hin]%elem_of_app; [by apply (bfs_state _ _ Hb)|].
    apply Htargets in Hin as [c Hc]. split; [apply Hc|]. intros ->. destruct Hc as [_ Hw].
    rewrite (proj1 (word_root _ _ _ Ht)) in Hw. by destruct (word P s).
  - intros p c t Hp Hc. apply elem_of_app.
    assert (p ∈ 0 :: dn ∨ p = s) as [Hp'| ->] by set_solver.
    + left. by apply (bfs_closed _ _ Hb p c).
    + right. apply Htargets. eauto.
  - intros t [Hin|Hin]%elem_of_app.
    + apply (bfs_parents _ _ Hb) in Hin as (p & c & Hp & Hc). exists p, c. split; [set_solver|done].
    + apply Htargets in Hin as [c Hc]. exists s, c. split; [set_solver|done].
  - pose proof (bfs_sorted _ _ Hb) as Hsort. apply StronglySorted_inv in Hsort as [Hsort _].
    apply (StronglySorted_app_le _ _ (S (depth s))); [done| |].
    + by apply (bfs_front _ _ Hb).
    + intros t [c Hc]%Htargets. by eapply child_depth.
  - assert (∀ t, t ∈ rest ++ (build_target <$> es) → (depth s ≤ depth t ≤ S (depth s))%nat) as Hd.
    { pose proof (bfs_sorted _ _ Hb) as Hsort. apply StronglySorted_inv in Hsort as [_ Hall].
      rewrite Forall_forall in Hall. intros t [Hin|Hin]%elem_of_app.
      - split; [by apply Hall|by apply (bfs_front _ _ Hb s rest)].
      - apply Htargets in Hin as [c Hc]. apply child_depth in Hc. lia. }
    intros s' rest' E t Hin. rewrite E in Hd.
    assert (s' ∈ s' :: rest') as H1 by (by left). assert (t ∈ s' :: rest') as H2 by (by right).
    apply Hd in H1, H2. lia.
Qed.

Lemma bfs_complete nodes dn u :
  trie nodes edges P → bfs dn [] → state_of P u → u ≠ 0 → u ∈ dn.
Proof.
  intros Ht Hb. remember (depth u) as n eqn:Hn. revert u Hn.
  induction n as [n IH] using lt_wf_ind. intros u -> Hu Hu0.
  destruct (word_nonroot _ _ _ _ Ht Hu Hu0) as (w & c & Hw).
  destruct (trie_parent _ _ _ Ht u w c Hu Hw) as (p & Hp & Hwp).
  assert (state_of P p) as Hsp by (unfold state_of in *; lia).
  assert (child P p c u) as Hch by (split; [done|by rewrite Hwp]).
  pose proof (child_depth _ _ _ Hch) as Hdp.
  rewrite <- (app_nil_r dn). apply (bfs_closed _ _ Hb p c); [|done].
  destruct (decide (p = 0)) as [->|Hp0]; [by left|right].
  apply (IH (depth p)); [lia|done..].
Qed.

(** The queue holds each node at most once, so as many rounds as there are nodes do. *)
Lemma bfs_length dn pending : bfs dn pending → [] ∈ P → (length dn + length pending < length P)%nat.
Proof.
  intros Hb Hroot. rewrite <- length_app.
  assert (dn ++ pending ⊆+ seqZ 1 (Z.of_nat (length P) - 1)) as Hsub.
  { apply NoDup_submseteq; [apply (bfs_NoDup _ _ Hb)|]. intros t Ht.
    apply elem_of_seqZ. apply (bfs_state _ _ Hb) in Ht as [Ht ?]. unfold state_of in Ht. lia. }
  apply submseteq_length in Hsub. rewrite length_seqZ in Hsub.
  apply list_elem_of_lookup in Hroot as [i Hi]. apply lookup_lt_Some in Hi. lia.
Qed.

Lemma link_loop_spec fuel nodes dn pending :
  links nodes (dn ++ pending) → bfs dn pending → (length P ≤ length dn + fuel)%nat →
  let nodes' := link_loop fuel edges nodes pending in
  trie nodes' edges P ∧ (∀ t, state_of P t → t ≠ 0 → linked nodes' t) ∧ unlinked nodes' 0.
Proof.
  revert nodes dn pending. induction fuel as [|fuel IH]; intros nodes dn pending Hl Hb Hfuel.
  { pose proof (bfs_length _ _ Hb (trie_nil _ _ _ (links_trie _ _ Hl))). lia. }
  pose proof (links_trie _ _ Hl) as Ht.
  assert (0 ∉ dn ++ pending) as H0 by (intros [_ H0]%(bfs_state _ _ Hb); done).
  destruct pending as [|s rest]; simpl.
  - rewrite app_nil_r in *. split_and!; [done| |].
    + intros t Hst Hne. apply (links_linked _ _ Hl); [done|]. by eapply bfs_complete.
    + apply (links_unlinked _ _ Hl); [|done]. apply (word_root _ _ _ Ht).
  - destruct (bfs_state _ _ Hb s) as [Hs Hs0]; [apply elem_of_app; right; by left|].
    destruct (bfs_step nodes dn s rest _ Ht Hb eq_refl) as (Hb' & Hfresh & Hch).
    destruct (link_edges_spec (sibling_edges nodes edges s) nodes (dn ++ s :: rest) rest s)
      as (n1 & -> & Hl1 & _); [done..|by eapply bfs_shallow|done|done| |done|].
    { by apply (trie_labels _ _ _ Ht). }
    apply (IH n1 (dn ++ [s])); [|done|rewrite length_app; simpl; lia].
    rewrite <- !(assoc_L (++)) in Hl1 |- *. done.
Qed.

(** The start: the children of the root are linked as they are. *)
Lemma bfs_start nodes :
  trie nodes edges P → (∀ t, state_of P t → unlinked nodes t) →
  let queue := build_target <$> sibling_edges nodes edges 0 in
  links nodes queue ∧ bfs [] queue.
Proof.
  intros Ht Hun queue. destruct (word_root _ _ _ Ht) as [Hw0 Hs0].
  destruct (siblings_children nodes 0 Ht Hs0) as (Hch & Hndt & Htargets).
  fold queue in Hndt, Htargets.
  assert (∀ t, t ∈ queue → depth t = 1%nat) as Hdepth.
  { intros t [c Hc]%Htargets. apply child_depth in Hc. rewrite Hc. unfold depth. by rewrite Hw0. }
  split.
  - split; [done| |by intros; apply Hun].
    intros t Hst [c [_ Hw]]%Htargets. destruct (Hun t Hst) as [Hf Hbest].
    rewrite Hw0 in Hw. simpl in Hw. split.
    + unfold failure_ok. rewrite Hf, Hw0, Hw. simpl tail. by rewrite longest_suffix_nil.
    + eapply least_ext; [|done]. intros k. rewrite Hw, suffix_keys_split. simpl.
      split; [by left|]. intros [?|(_ & v & ->%suffix_nil_inv & Hk)]; [done|by apply Hnil in Hk].
  - split; simpl.
    + done.
    + intros t [c Hc]%Htargets. split; [apply Hc|]. intros ->. destruct Hc as [_ Hw].
      by rewrite Hw0 in Hw.
    + intros s c t ->%list_elem_of_singleton Hc. apply Htargets. eauto.
    + intros t [c Hc]%Htargets. exists 0, c. split; [by left|done].
    + rewrite <- (app_nil_l queue). apply (StronglySorted_app_le _ _ 1); [constructor| |done].
      by intros x Hx%elem_of_nil.
    + intros s rest E t Hin. rewrite (Hdepth t) by (rewrite E; by right). lia.
Qed.

End links.
