(* ===== verification/KeywordMatcherCorrect.v ===== *)
(** * The keyword matcher: sorted edges, matching, correctness

    The insertion sort and the flat edge array, the binary search of [next], the
    walk of [Match], and the theorem that the automaton finds the first keyword
    that occurs in the text, as a search keyword by keyword would. *)

From Stdlib Require Import ZArith Lia String Sorted.
From stdpp Require Import base tactics numbers list sets strings.
From S2P Require Import Prelude GoStrings KeywordMatcher KeywordTrie KeywordLinks.

Open Scope Z_scope.

(** ** The insertion sort *)

Abbreviation by_label := (StronglySorted (λ a b : Edge, label a ≤ label b)).

Lemma shift_loop_spec cur A y B :
  ∃ A1 A2, A = A1 ++ A2
    ∧ (let '(i, out) := shift_loop cur (length A) (A ++ y :: B) in <[i := cur]> out)
      = A1 ++ cur :: A2 ++ B
    ∧ Forall (λ e, label cur < label e) A2
    ∧ (∀ x, last A1 = Some x → label x ≤ label cur).
Proof.
  revert y B. induction A as [|x A IH] using rev_ind; intros y B.
  { exists [], []. simpl. split_and!; done. }
  rewrite length_app, Nat.add_1_r. simpl.
  assert ((((A ++ [x]) ++ y :: B) : list Edge) !!! length A = x) as ->.
  { rewrite <- (assoc_L (++)). simpl. by apply list_lookup_total_correct, list_lookup_middle. }
  destruct (label cur <? label x) eqn:E; bool_to_prop.
  - replace (<[S (length A) := x]> ((A ++ [x]) ++ y :: B)) with (A ++ x :: (x :: B)).
    2:{ replace (S (length A)) with (length (A ++ [x]) + 0)%nat by (rewrite length_app; simpl; lia).
        rewrite insert_app_r. simpl. by rewrite <- (assoc_L (++)). }
    destruct (IH x (x :: B)) as (A1 & A2 & -> & Heq & Hlt & Hle).
    exists A1, (A2 ++ [x]). split_and!; [by rewrite (assoc_L (++))| | |done].
    + rewrite Heq, <- (assoc_L (++) A2). done.
    + apply Forall_app_2; [done|]. by apply Forall_singleton.
  - exists (A ++ [x]), []. split_and!; [by rewrite app_nil_r| |constructor|].
    + replace (S (length A)) with (length (A ++ [x]) + 0)%nat by (rewrite length_app; simpl; lia).
      by rewrite insert_app_r.
    + intros z. rewrite last_snoc. intros [= ->]. lia.
Qed.

Lemma by_label_insert A1 A2 cur :
  by_label (A1 ++ A2) → Forall (λ e, label cur < label e) A2 →
  (∀ x, last A1 = Some x → label x ≤ label cur) → by_label (A1 ++ cur :: A2).
Proof.
  intros Hs H2. induction A1 as [|x A1 IH]; simpl; intros H1.
  - constructor; [done|]. eapply Forall_impl; [done|]. simpl. lia.
  - simpl in Hs. apply StronglySorted_inv in Hs as [Hs Hx].
    apply Forall_app in Hx as [Hx1 Hx2].
    assert (label x ≤ label cur) as Hxc.
    { destruct (last A1) as [z|] eqn:E.
      - assert (label z ≤ label cur) by (apply H1; destruct A1; [done|exact E]).
        rewrite Forall_forall in Hx1. rewrite last_lookup in E.
        apply list_elem_of_lookup_2, Hx1 in E. lia.
      - apply last_None in E as ->. by apply H1. }
    constructor.
    + apply IH; [done|]. intros z Hz. apply H1. destruct A1; [done|exact Hz].
    + apply Forall_app_2; [done|]. by constructor.
Qed.

Lemma sort_step_spec A cur B :
  by_label A →
  ∃ A', sort_step (A ++ cur :: B) (length A) = A' ++ B ∧ by_label A' ∧ A' ≡ₚ A ++ [cur].
Proof.
  intros Hs. unfold sort_step.
  assert (((A ++ cur :: B) : list Edge) !!! length A = cur) as ->.
  { by apply list_lookup_total_correct, list_lookup_middle. }
  destruct (shift_loop_spec cur A cur B) as (A1 & A2 & HA & Heq & Hlt & Hle).
  exists (A1 ++ cur :: A2). split; [|split].
  - rewrite Heq. by rewrite <- (assoc_L (++)).
  - apply by_label_insert; [by rewrite <- HA|done|done].
  - rewrite HA. rewrite <- Permutation_middle, <- Permutation_cons_append. done.
Qed.

Lemma sort_steps n A B :
  by_label A → length B = n →
  ∃ A', foldl sort_step (A ++ B) (seq (length A) n) = A' ∧ by_label A' ∧ A' ≡ₚ A ++ B.
Proof.
  revert A B. induction n as [|n IH]; intros A B Hs Hlen.
  { apply nil_length_inv in Hlen as ->. exists A. simpl. by rewrite app_nil_r. }
  destruct B as [|cur B]; [done|]. simpl in Hlen.
  destruct (sort_step_spec A cur B Hs) as (A1 & E1 & Hs1 & Hp1).
  destruct (IH A1 B) as (A2 & E2 & Hs2 & Hp2); [done|lia|].
  exists A2. simpl seq. rewrite foldl_step, E1. split_and!; [|done|].
  - rewrite <- E2. by rewrite (Permutation_length Hp1), length_app, Nat.add_1_r.
  - rewrite Hp2, Hp1, <- (assoc_L (++)). done.
Qed.

Lemma sort_outgoing_spec l : by_label (sort_outgoing l) ∧ sort_outgoing l ≡ₚ l.
Proof.
  unfold sort_outgoing. destruct l as [|x l]; [by repeat constructor|].
  destruct (sort_steps (length l) [x] l) as (A & E & Hs & Hp); [by repeat constructor|done|].
  replace (length (x :: l) - 1)%nat with (length l) by (simpl; lia).
  simpl in E, Hp. by rewrite E.
Qed.

(** ** The flat edges *)

Section flat.
Context (P : list (list Z)) (be : list BuildEdge) (linked_nodes : list Node).
Context (Ht : trie linked_nodes be P) (Hbytes : byte_words P).

Lemma child_label s c t : child P s c t → 0 ≤ c < 256.
Proof.
  intros [Hst Hw]. unfold byte_words in Hbytes. rewrite Forall_forall in Hbytes.
  pose proof (Hbytes _ (word_elem _ _ Hst)) as Hb. rewrite Hw in Hb.
  apply Forall_app in Hb as [_ Hb]. by apply Forall_cons in Hb as [? _].
Qed.

Lemma child_target_unique s s' c c' t :
  state_of P s → state_of P s' → child P s c t → child P s' c' t → s = s' ∧ c = c'.
Proof.
  intros Hs Hs' [_ Hw] [_ Hw']. rewrite Hw in Hw'. apply app_inj_tail in Hw' as [Hw' ->].
  split; [|done]. apply (word_inj P); [apply (trie_NoDup _ _ _ Ht)|done..].
Qed.

Lemma child_unique s c t t' : child P s c t → child P s c t' → t = t'.
Proof.
  intros [Hst Hw] [Hst' Hw']. apply (word_inj P); [apply (trie_NoDup _ _ _ Ht)|done..|congruence].
Qed.

Definition outgoing_of (s : Z) : list Edge :=
  (λ e, mkEdge (build_target e) (build_label e)) <$> sibling_edges linked_nodes be s.

Lemma outgoing_elem s e : state_of P s → e ∈ outgoing_of s ↔ child P s (label e) (target e).
Proof.
  intros Hs. rewrite <- (trie_children _ _ _ Ht) by done. unfold outgoing_of.
  rewrite list_elem_of_fmap. split.
  - intros (b & -> & Hb). eauto.
  - intros (b & Hb & H1 & H2). exists b. destruct e; simpl in *; by subst.
Qed.

Lemma outgoing_length s : state_of P s → Z.of_nat (length (outgoing_of s)) ≤ 256.
Proof.
  intros Hs. destruct (siblings_children P be linked_nodes s Ht Hs) as (Hch & _ & _).
  pose proof (trie_labels _ _ _ Ht s Hs) as Hnd.
  unfold outgoing_of. rewrite length_fmap.
  assert (build_label <$> sibling_edges linked_nodes be s ⊆+ seqZ 0 256) as Hsub.
  { apply NoDup_submseteq; [done|]. intros c (e & -> & He)%list_elem_of_fmap.
    apply elem_of_seqZ. rewrite Forall_forall in Hch. apply Hch, child_label in He. lia. }
  apply submseteq_length in Hsub. rewrite length_fmap, length_seqZ in Hsub. lia.
Qed.

Record flat (nodes : list Node) (edges : list Edge) (n : Z) : Prop := {
  flat_length : length nodes = length linked_nodes;
  flat_keep : ∀ u, state_of P u →
    failure (at_index nodes u) = failure (at_index linked_nodes u)
    ∧ bestKeyword (at_index nodes u) = bestKeyword (at_index linked_nodes u);
  flat_later : ∀ u, state_of P u → n ≤ u → at_index nodes u = at_index linked_nodes u;
  flat_slice : ∀ u, state_of P u → u < n → ∃ A S B,
    edges = A ++ S ++ B ∧ edgeStart (at_index nodes u) = Z.of_nat (length A)
    ∧ edgeCount (at_index nodes u) = Z.of_nat (length S)
    ∧ by_label S ∧ ∀ e, e ∈ S ↔ child P u (label e) (target e);
  flat_NoDup : NoDup (target <$> edges);
  flat_targets : ∀ t, t ∈ target <$> edges → ∃ u c, state_of P u ∧ u < n ∧ child P u c t
}.

Lemma flat_size nodes edges n : flat nodes edges n → Z.of_nat (length edges) ≤ Z.of_nat (length P).
Proof.
  intros Hf.
  assert (target <$> edges ⊆+ seqZ 0 (Z.of_nat (length P))) as Hsub.
  { apply NoDup_submseteq; [apply (flat_NoDup _ _ _ Hf)|].
    intros t (u & c & _ & _ & [Hst _])%(flat_targets _ _ _ Hf).
    apply elem_of_seqZ. unfold state_of in Hst. lia. }
  apply submseteq_length in Hsub. rewrite length_fmap, length_seqZ in Hsub. lia.
Qed.

Lemma flatten_step_spec nodes edges n :
  flat nodes edges (Z.of_nat n) → state_of P (Z.of_nat n) →
  flat (flatten_step be (nodes, edges) n).1 (flatten_step be (nodes, edges) n).2 (Z.of_nat (S n)).
Proof.
  intros Hf Hn. pose proof (flat_size _ _ _ Hf) as Hsize. pose proof (trie_small _ _ _ Ht).
  unfold flatten_step.
  rewrite (sibling_edges_start _ linked_nodes _ _ (Z.of_nat n))
    by (by rewrite (flat_later _ _ _ Hf) by (done || lia)).
  fold (outgoing_of (Z.of_nat n)). rewrite uint32_small by lia.
  pose proof (outgoing_length _ Hn) as Hcount.
  assert (uint16 (Z.of_nat (length (outgoing_of (Z.of_nat n))))
          = Z.of_nat (length (outgoing_of (Z.of_nat n)))) as ->.
  { unfold uint16, wrap_unsigned. change (2 ^ 16) with 65536. apply Z.mod_small. lia. }
  destruct (sort_outgoing_spec (outgoing_of (Z.of_nat n))) as [Hsort Hperm].
  pose proof (flat_length _ _ _ Hf) as Hlen.
  assert (0 ≤ Z.of_nat n < Z.of_nat (length nodes)) as Hi.
  { rewrite Hlen, (trie_length _ _ _ Ht). apply Hn. }
  simpl fst. simpl snd. split.
  - by rewrite length_set_index.
  - intros u Hu. rewrite at_index_set by (done || apply Hu).
    case_decide; [subst; simpl|]; by apply (flat_keep _ _ _ Hf).
  - intros u Hu Hle. rewrite at_index_set by (done || apply Hu).
    rewrite decide_False by lia. apply (flat_later _ _ _ Hf); [done|lia].
  - intros u Hu Hlt. rewrite at_index_set by (done || apply Hu). case_decide as Hun.
    + subst u. exists edges, (sort_outgoing (outgoing_of (Z.of_nat n))), [].
      rewrite app_nil_r. simpl. split_and!; [done|done|by rewrite Hperm|done|].
      intros e. rewrite Hperm. by apply outgoing_elem.
    + destruct (flat_slice _ _ _ Hf u Hu) as (A & S & B & -> & Hrest); [lia|].
      exists A, S, (B ++ sort_outgoing (outgoing_of (Z.of_nat n))).
      split; [by rewrite <- !(assoc_L (++))|done].
  - rewrite fmap_app. apply NoDup_app. split_and!; [apply (flat_NoDup _ _ _ Hf)| |].
    + intros t (u & c & Hu & Hlt & Hc)%(flat_targets _ _ _ Hf) (e & -> & He)%list_elem_of_fmap.
      rewrite Hperm, outgoing_elem in He by done.
      destruct (child_target_unique _ _ _ _ _ Hu Hn Hc He). lia.
    + rewrite Hperm. unfold outgoing_of. rewrite <- list_fmap_compose.
      by destruct (siblings_children P be linked_nodes _ Ht Hn) as (_ & Hnd & _).
  - intros t. rewrite fmap_app, elem_of_app. intros [Hin|Hin].
    + apply (flat_targets _ _ _ Hf) in Hin as (u & c & Hu & Hlt & Hc).
      exists u, c. split_and!; [done|lia|done].
    + apply list_elem_of_fmap in Hin as (e & -> & He).
      rewrite Hperm, outgoing_elem in He by done. exists (Z.of_nat n), (label e).
      split_and!; [done|lia|done].
Qed.

Lemma flatten_spec n :
  (n ≤ length P)%nat →
  let st := foldl (flatten_step be) (linked_nodes, []) (seq 0 n) in
  flat st.1 st.2 (Z.of_nat n).
Proof.
  induction n as [|n IH]; intros Hn.
  - simpl. split; try done.
    + intros u Hu Hlt. unfold state_of in Hu. lia.
    + constructor.
    + by intros t Hin%elem_of_nil.
  - rewrite seq_S, foldl_app. simpl. specialize (IH ltac:(lia)). simpl in IH.
    destruct (foldl _ _ _) as [nodes edges]. apply flatten_step_spec; [done|].
    unfold state_of. lia.
Qed.

End flat.

(** ** The root's transitions *)

Lemma root_steps es rt queue :
  length rt = 256%nat → Forall (λ e, 0 ≤ build_label e < 256) es → NoDup (build_label <$> es) →
  let st := foldl root_step (rt, queue) es in
  st.2 = queue ++ (build_target <$> es)
  ∧ ∀ c, 0 ≤ c < 256 →
      (∀ e, e ∈ es → build_label e = c → at_index st.1 c = build_target e)
      ∧ (c ∉ build_label <$> es → at_index st.1 c = at_index rt c).
Proof.
  revert rt queue. induction es as [|e es IH]; intros rt queue Hlen Hrange Hnd.
  { csimpl. rewrite app_nil_r. split; [done|]. intros c Hc. split; [|done].
    by intros e He%elem_of_nil. }
  apply Forall_cons in Hrange as [Hre Hrange]. rewrite fmap_cons in Hnd.
  apply NoDup_cons in Hnd as [Hne Hnd].
  destruct (IH (set_index rt (build_label e) (build_target e)) (queue ++ [build_target e]))
    as [Hq Hc]; [by rewrite length_set_index|done|done|].
  rewrite foldl_step. simpl root_step. split.
  { rewrite Hq. by rewrite <- (assoc_L (++)). }
  intros c Hcr. destruct (Hc c Hcr) as [H1 H2]. split.
  - intros e' [->|He']%elem_of_cons Hl; [|by apply H1].
    rewrite H2 by (by rewrite <- Hl). rewrite at_index_set by (rewrite ?Hlen; lia).
    by rewrite decide_True.
  - rewrite fmap_cons, not_elem_of_cons. intros [Hce Hcn]. rewrite H2 by done.
    rewrite at_index_set by (rewrite ?Hlen; lia). by rewrite decide_False.
Qed.

(** ** The binary search *)

Lemma search_loop_spec fuel (es : list Edge) c l r :
  l ≤ r → r - l ≤ Z.of_nat fuel →
  (∀ i j, l ≤ i → i ≤ j → j < r → label (at_index es i) ≤ label (at_index es j)) →
  let p := search_loop fuel es c l r in
  l ≤ p ≤ r ∧ (∀ i, l ≤ i < p → label (at_index es i) < c)
  ∧ (∀ i, p ≤ i < r → c ≤ label (at_index es i)).
Proof.
  revert l r. induction fuel as [|fuel IH]; intros l r Hlr Hfuel Hsorted; simpl.
  { assert (l = r) as -> by lia. split_and!; lia. }
  destruct (l <? r) eqn:E; bool_to_prop; [|split_and!; lia].
  assert (0 ≤ Z.quot (r - l) 2 < r - l) as Hq.
  { split; [apply Z.quot_pos; lia|]. apply Z.quot_lt; lia. }
  set (m := l + Z.quot (r - l) 2). assert (l ≤ m < r) as Hm by lia. clearbody m.
  destruct (label (at_index es m) <? c) eqn:Em; bool_to_prop.
  - destruct (IH (m + 1) r) as (H1 & H2 & H3); [lia|lia|intros; apply Hsorted; lia|].
    split_and!; [lia|lia| |done]. intros i Hi. destruct (decide (m + 1 ≤ i)); [apply H2; lia|].
    assert (label (at_index es i) ≤ label (at_index es m)) by (apply Hsorted; lia). lia.
  - destruct (IH l m) as (H1 & H2 & H3); [lia|lia|intros; apply Hsorted; lia|].
    split_and!; [lia|lia|done|]. intros i Hi. destruct (decide (i < m)); [apply H3; lia|].
    assert (label (at_index es m) ≤ label (at_index es i)) by (apply Hsorted; lia). lia.
Qed.

Lemma by_label_lookup S i j (e e' : Edge) :
  by_label S → (i ≤ j)%nat → S !! i = Some e → S !! j = Some e' → label e ≤ label e'.
Proof.
  intros Hs. revert i j. induction Hs as [|x S Hs IH Hall]; intros i j Hij Hi Hj; [done|].
  destruct i as [|i], j as [|j]; simplify_eq/=; [done| |lia|eapply IH; [|done..]; lia].
  rewrite Forall_forall in Hall. eapply Hall, list_elem_of_lookup_2, Hj.
Qed.

(** A slice of the flat edges, by index. *)
Lemma slice_index (A S B : list Edge) i :
  Z.of_nat (length A) ≤ i < Z.of_nat (length A) + Z.of_nat (length S) →
  S !! (Z.to_nat i - length A)%nat = Some (at_index (A ++ S ++ B) i).
Proof.
  intros Hi. symmetry. unfold at_index.
  replace (Z.to_nat i) with (length A + (Z.to_nat i - length A))%nat at 1 by lia.
  rewrite lookup_total_app_r, lookup_total_app_l by lia.
  replace (length A + (Z.to_nat i - length A) - length A)%nat with (Z.to_nat i - length A)%nat by lia.
  symmetry. apply list_lookup_lookup_total_lt. lia.
Qed.

(** ** The finished automaton *)

Record automaton (P : list (list Z)) (K : list Z → Z → Prop) (m : contentModerationKeywordMatcher)
    : Prop := {
  auto_length : length (nodes m) = length P;
  auto_NoDup : NoDup P;
  auto_root : P !! 0%nat = Some [];
  auto_prefix : prefix_closed P;
  auto_failure : ∀ t, state_of P t → t ≠ 0 →
    state_of P (failure (at_index (nodes m) t))
    ∧ word P (failure (at_index (nodes m) t)) = longest_suffix P (tail (word P t));
  auto_best : ∀ t, state_of P t →
    least (suffix_keys K (word P t)) (bestKeyword (at_index (nodes m) t));
  auto_slice : ∀ u, state_of P u → ∃ A S B,
    edges m = A ++ S ++ B ∧ edgeStart (at_index (nodes m) u) = Z.of_nat (length A)
    ∧ edgeCount (at_index (nodes m) u) = Z.of_nat (length S)
    ∧ by_label S ∧ ∀ e, e ∈ S ↔ child P u (label e) (target e);
  auto_start : ∀ c, 0 ≤ c < 256 →
    let t := at_index (rootTransitions m) c in child P 0 c t ∨ t = 0 ∧ [c] ∉ P;
  auto_depth : ∀ t, state_of P t → Z.of_nat (length (word P t)) ≤ t;
  auto_failure_root : failure (at_index (nodes m) 0) = 0
}.

Section automaton.
Context (P : list (list Z)) (K : list Z → Z → Prop) (m : contentModerationKeywordMatcher).
Context (Hm : automaton P K m) (Hcov : covers P K).

Lemma auto_word_root : word P 0 = [] ∧ state_of P 0.
Proof.
  pose proof (auto_root _ _ _ Hm) as H. split; [by apply (at_index_nat P 0)|].
  split; [done|]. apply lookup_lt_Some in H. lia.
Qed.

Lemma next_spec u c : state_of P u → 0 ≤ c < 256 →
  let t := next m u c in child P u c t ∧ t ≠ 0 ∨ t = 0 ∧ word P u ++ [c] ∉ P.
Proof.
  intros Hu Hc. destruct auto_word_root as [Hw0 Hs0].
  assert (∀ t, child P u c t → t ≠ 0) as Hnz.
  { intros t [_ Hw] ->. rewrite Hw0 in Hw. by destruct (word P u). }
  unfold next. destruct (u =? 0) eqn:E0; bool_to_prop.
  { subst u. destruct (auto_start _ _ _ Hm c Hc) as [H|[H1 H2]]; [left; auto|right].
    by rewrite Hw0. }
  rewrite (proj2 (Z.ltb_ge u 0)) by apply Hu. rewrite (auto_length _ _ _ Hm).
  rewrite (proj2 (Z.leb_gt _ u)) by apply Hu. simpl.
  destruct (auto_slice _ _ _ Hm u Hu) as (A & S & B & HE & -> & -> & Hsort & Hmem).
  set (lo := Z.of_nat (length A)). set (hi := lo + Z.of_nat (length S)).
  assert (∀ i, lo ≤ i < hi → S !! (Z.to_nat i - length A)%nat = Some (at_index (edges m) i)) as Hat.
  { intros i Hi. rewrite HE. by apply slice_index. }
  destruct (search_loop_spec (length (edges m)) (edges m) c lo hi) as (H1 & H2 & H3).
  { lia. } { rewrite HE, !length_app. lia. }
  { intros i j Hi Hij Hj. eapply by_label_lookup; [done| |apply Hat; lia|apply Hat; lia]. lia. }
  set (p := search_loop _ _ _ _ _) in *. clearbody p.
  destruct (_ && _) eqn:Etest; bool_to_prop.
  - left. match goal with H : _ < hi, H' : label _ = c |- _ => rename H into Hp; rename H' into Hl end.
    assert (child P u c (target (at_index (edges m) p))) as Hch.
    { rewrite <- Hl. apply Hmem. eapply list_elem_of_lookup_2, Hat. lia. }
    auto.
  - right. split; [done|]. intros (t & Hst & Hw)%elem_state.
    assert (mkEdge t c ∈ S) as [j Hj]%list_elem_of_lookup by by apply Hmem.
    apply lookup_lt_Some in Hj as Hjlt.
    pose proof (Hat (lo + Z.of_nat j) ltac:(lia)) as Hj'.
    replace (Z.to_nat (lo + Z.of_nat j) - length A)%nat with j in Hj' by lia.
    rewrite Hj in Hj'. injection Hj' as Hj'.
    assert (p ≤ lo + Z.of_nat j) as Hpj.
    { destruct (decide (p ≤ lo + Z.of_nat j)); [done|].
      specialize (H2 (lo + Z.of_nat j) ltac:(lia)). rewrite <- Hj' in H2. simpl in H2. lia. }
    specialize (H3 p ltac:(lia)).
    assert (label (at_index (edges m) p) ≤ c) as Hle.
    { change c with (label (mkEdge t c)). eapply (by_label_lookup S); [done| |apply Hat; lia|exact Hj].
      lia. }
    destruct Etest; bool_to_prop; lia.
Qed.

Lemma goto_loop_spec fuel u c :
  state_of P u → 0 ≤ c < 256 → (length (word P u) < fuel)%nat →
  state_of P (goto_loop fuel m u c)
  ∧ word P (goto_loop fuel m u c) = longest_suffix P (word P u ++ [c]).
Proof.
  intros Hu Hc. revert u Hu. induction fuel as [|fuel IH]; intros u Hu Hfuel; [lia|].
  destruct auto_word_root as [Hw0 Hs0]. simpl.
  destruct (next_spec u c Hu Hc) as [[[Hst Hw] Hnz]|[-> Hout]].
  - rewrite (proj2 (Z.eqb_neq _ 0)) by done. simpl. split; [done|].
    rewrite Hw, longest_suffix_in; [done|]. rewrite <- Hw. by apply word_elem.
  - simpl. destruct (u =? 0) eqn:E0; bool_to_prop.
    + subst u. split; [done|]. rewrite Hw0 in *. simpl app in *.
      rewrite longest_suffix_cons by done. by rewrite longest_suffix_nil.
    + destruct (auto_failure _ _ _ Hm u Hu E0) as [Hsf Hwf].
      destruct (word P u) as [|a w] eqn:Ew.
      { destruct E0. apply (word_inj P); [apply (auto_NoDup _ _ _ Hm)|done|done|congruence]. }
      simpl tail in Hwf. simpl app in *. rewrite longest_suffix_cons by done.
      assert ([] ∈ P) as Hnil by (eapply list_elem_of_lookup_2, (auto_root _ _ _ Hm)).
      rewrite longest_suffix_snoc; [|done|apply (auto_prefix _ _ _ Hm)]. rewrite <- Hwf.
      apply IH; [done|]. rewrite Hwf. pose proof (longest_suffix_length P w). simpl in Hfuel. lia.
Qed.

(** The keywords that occur in [x]. *)
Definition occurs (x : list Z) (k : Z) : Prop := ∃ v a b, x = a ++ v ++ b ∧ K v k.

Lemma occurs_snoc x c k : occurs (x ++ [c]) k ↔ occurs x k ∨ suffix_keys K (x ++ [c]) k.
Proof.
  split.
  - intros (v & a & b & Hx & Hk). destruct b as [|d b _] using rev_ind.
    + right. exists v. split; [|done]. exists a. by rewrite Hx, app_nil_r.
    + left. rewrite !(assoc_L (++)) in Hx. apply app_inj_tail in Hx as [-> _].
      exists v, a, b. by rewrite (assoc_L (++)).
  - intros [(v & a & b & -> & Hk)|(v & [a Ha] & Hk)].
    + exists v, a, (b ++ [c]). by rewrite !(assoc_L (++)).
    + exists v, a, []. by rewrite app_nil_r.
Qed.

Lemma match_loop_spec text x u best :
  Forall (λ c, 0 ≤ c < 256) text →
  state_of P u → word P u = longest_suffix P x → least (occurs x) best →
  (∀ v k, K v k → 0 ≤ k) →
  least (occurs (x ++ text)) (match_loop m text u best).
Proof.
  intros Hrange Hu Hw Hbest Hpos. revert x u best Hu Hw Hbest.
  induction text as [|c text IH]; intros x u best Hu Hw Hbest; [by rewrite app_nil_r|].
  apply Forall_cons in Hrange as [Hc Hrange]. simpl.
  destruct (goto_loop_spec (length (nodes m)) u c Hu Hc) as [Hu' Hw'].
  { pose proof (auto_depth _ _ _ Hm u Hu). rewrite (auto_length _ _ _ Hm).
    unfold state_of in Hu. lia. }
  set (u' := goto_loop _ _ _ _) in *. clearbody u'.
  assert ([] ∈ P) as Hnil by (eapply list_elem_of_lookup_2, (auto_root _ _ _ Hm)).
  rewrite Hw, <- longest_suffix_snoc in Hw' by (done || apply (auto_prefix _ _ _ Hm)).
  assert (least (occurs (x ++ [c])) (minKeywordIndex best (bestKeyword (at_index (nodes m) u'))))
    as Hbest'.
  { eapply least_ext; [|apply minKeywordIndex_least; [done|by apply (auto_best _ _ _ Hm)]].
    intros k. simpl. rewrite occurs_snoc, Hw', (suffix_keys_longest P K Hcov). done. }
  replace (x ++ c :: text) with ((x ++ [c]) ++ text) by by rewrite <- (assoc_L (++)).
  destruct (_ =? 0) eqn:E0; bool_to_prop; [|by apply IH].
  rewrite E0 in *. right. split; [done|].
  destruct Hbest' as [[? _]|(_ & (v & a & b & Hx & Hk) & _)]; [done|]. split.
  - exists v, a, (b ++ text). by rewrite Hx, !(assoc_L (++)).
  - intros k (v' & _ & _ & _ & Hk'). by apply Hpos in Hk'.
Qed.

End automaton.

(** ** The construction yields the automaton *)

Section correct.
Context `{UnicodeCase}.

(** Sizes that the int32 indices of the code can hold. *)
Definition sizes_ok (ks : list string) : Prop :=
  1 + Z.of_nat (total_length ks) ≤ max_int32 ∧ Z.of_nat (length ks) ≤ max_int32.

Lemma bytes_empty s : bytes s = [] → s = ""%string.
Proof. destruct s; [done|]. unfold bytes. simpl. done. Qed.

Lemma spelled_nil ks k : ¬ spelled ks [] k.
Proof.
  intros (_ & kw & _ & Hne & Hb). by apply bytes_empty, ToLower_empty in Hb.
Qed.

Lemma root_transitions nodes be P :
  trie nodes be P → byte_words P →
  let st := foldl root_step (replicate 256 0, []) (sibling_edges nodes be 0) in
  st.2 = build_target <$> sibling_edges nodes be 0
  ∧ ∀ c, 0 ≤ c < 256 → child P 0 c (at_index st.1 c) ∨ at_index st.1 c = 0 ∧ [c] ∉ P.
Proof.
  intros Ht Hb. destruct (word_root _ _ _ Ht) as [Hw0 Hs0].
  destruct (siblings_children P be nodes 0 Ht Hs0) as (Hch & _ & _).
  rewrite Forall_forall in Hch.
  destruct (root_steps (sibling_edges nodes be 0) (replicate 256 0) []) as [Hq Hc].
  { done. }
  { apply Forall_forall. intros e He. by eapply (child_label P Hb), Hch. }
  { by apply (trie_labels _ _ _ Ht). }
  split; [done|]. intros c Hcr. destruct (Hc c Hcr) as [H1 H2].
  destruct (decide ([c] ∈ P)) as [(t & Hst & Hw)%elem_state|Hn].
  - left. destruct (proj2 (trie_children _ _ _ Ht 0 c t Hs0)) as (e & He & Hl & Hte).
    { split; [done|]. by rewrite Hw0. }
    rewrite (H1 e He Hl). rewrite <- Hl. by apply Hch.
  - right. split; [|done]. rewrite H2.
    + unfold at_index. rewrite list_lookup_total_alt, lookup_replicate_2 by lia. done.
    + intros (e & Hl & He)%list_elem_of_fmap. apply Hn. destruct (Hch e He) as [Hst Hw].
      rewrite Hw0, <- Hl in Hw. simpl in Hw. rewrite <- Hw. by apply word_elem.
Qed.

Lemma new_automaton ks m :
  sizes_ok ks → newContentModerationKeywordMatcher ks = Some m →
  ∃ P, automaton P (spelled ks) m ∧ covers P (spelled ks) ∧ keywords m = ks
    ∧ Z.of_nat (length P) ≤ max_int32
    ∧ (∀ e, e ∈ edges m → state_of P (target e) ∧ 0 ≤ label e < 256).
Proof.
  intros [Hsize Hks] Hnew. unfold newContentModerationKeywordMatcher in Hnew.
  destruct (length ks =? 0)%nat; [done|].
  destruct (build_trie_spec ks Hsize Hks) as (n0 & be & P & E & Ht & Hmarks & Hcov & Hlen & Hb).
  rewrite E in Hnew. destruct (length n0 =? 1)%nat; [done|].
  destruct (root_transitions n0 be P Ht Hb) as [Hq Hroot].
  destruct (foldl root_step _ _) as [rt queue]. simpl in Hq, Hroot. subst queue.
  assert (∀ t, state_of P t → unlinked P (spelled ks) n0 t) as Hun.
  { intros t Hst. destruct (Hmarks t Hst). by split. }
  destruct (bfs_start P be (spelled ks) Hcov (spelled_nil ks) n0 Ht Hun) as [Hl Hbfs].
  pose proof (link_loop_spec P be (spelled ks) Hcov (spelled_nil ks) (length n0) n0 []
    (build_target <$> sibling_edges n0 be 0) Hl Hbfs) as Hlink.
  simpl in Hlink. rewrite (trie_length _ _ _ Ht) in Hlink, Hnew.
  destruct (Hlink ltac:(lia)) as (Ht1 & Hlinked & Hun0).
  set (n1 := link_loop _ _ _ _) in *. clearbody n1.
  pose proof (flatten_spec P be n1 Ht1 Hb (length n1)) as Hflat.
  rewrite (trie_length _ _ _ Ht1) in Hflat, Hnew. specialize (Hflat ltac:(lia)).
  simpl in Hflat. destruct (foldl _ _ _) as [n2 es]. simpl in Hflat. injection Hnew as <-.
  destruct (word_root _ _ _ Ht1) as [Hw0 Hs0].
  exists P. split; [|split; [done|split; [done|split; [apply (trie_small _ _ _ Ht)|]]]].
  - split; simpl; try done.
    + by rewrite (flat_length _ _ _ _ _ Hflat), (trie_length _ _ _ Ht1).
    + apply (trie_NoDup _ _ _ Ht).
    + apply (trie_root _ _ _ Ht).
    + by eapply trie_prefix_closed.
    + intros t Hst Hne. rewrite (proj1 (flat_keep _ _ _ _ _ Hflat t Hst)).
      by apply Hlinked.
    + intros t Hst. rewrite (proj2 (flat_keep _ _ _ _ _ Hflat t Hst)).
      destruct (decide (t = 0)) as [->|Hne]; [|by apply Hlinked].
      eapply least_ext; [|apply Hun0]. intros k. rewrite Hw0, suffix_keys_split. naive_solver.
    + intros u Hu. apply (flat_slice _ _ _ _ _ Hflat); [done|]. apply Hu.
    + intros t Hst. by eapply trie_depth.
    + rewrite (proj1 (flat_keep _ _ _ _ _ Hflat 0 Hs0)). apply Hun0.
  - simpl. intros e He. apply (list_elem_of_fmap_2 target) in He as Hte.
    apply (flat_targets _ _ _ _ _ Hflat) in Hte as (u & c & Hu & Hlt & Hc).
    destruct (flat_slice _ _ _ _ _ Hflat u Hu Hlt) as (A & S & B & HE & _ & _ & _ & Hmem).
    assert (mkEdge (target e) c ∈ es) as He'.
    { rewrite HE, !elem_of_app. right; left. by apply Hmem. }
    assert (e = mkEdge (target e) c) as Heq.
    { apply list_elem_of_lookup in He as [i Hi], He' as [j Hj].
      assert (i = j) as <-; [|by rewrite Hi in Hj; simplify_eq].
      eapply NoDup_lookup; [apply (flat_NoDup _ _ _ _ _ Hflat)| |].
      - by rewrite list_lookup_fmap, Hi.
      - by rewrite list_lookup_fmap, Hj. }
    rewrite Heq. simpl. split; [apply Hc|by eapply (child_label P Hb)].
Qed.

(** No matcher is built only when there is nothing to find. *)
Lemma new_None ks k w :
  sizes_ok ks → newContentModerationKeywordMatcher ks = None → ¬ spelled ks w k.
Proof.
  intros [Hsize Hks] Hnew (Hk & kw & Hkw & Hne & Hb).
  unfold newContentModerationKeywordMatcher in Hnew.
  destruct (length ks =? 0)%nat eqn:E0.
  { apply Nat.eqb_eq, nil_length_inv in E0 as ->. by rewrite lookup_nil in Hkw. }
  destruct (build_trie_spec ks Hsize Hks) as (n0 & be & P & E & Ht & _ & Hcov & _).
  rewrite E in Hnew. destruct (length n0 =? 1)%nat eqn:E1.
  - apply Nat.eqb_eq in E1. rewrite (trie_length _ _ _ Ht) in E1.
    destruct (elem_state P w) as (t & [H1 H2] & Hw); [eapply (Hcov w k); split; eauto|].
    assert (t = 0) as -> by lia. rewrite (proj1 (word_root _ _ _ Ht)) in Hw. subst w.
    eapply (spelled_nil ks k). split; eauto.
  - by repeat case_match.
Qed.

(** ** The reference: one keyword after another *)

Definition occurs_in (text kw : string) : bool :=
  negb (String.eqb kw "") && Contains (ToLower text) (ToLower kw).

Definition first_keyword (ks : list string) (text : string) : string * bool :=
  match List.find (occurs_in text) ks with
  | Some kw => (kw, true)
  | None => (""%string, false)
  end.

Lemma bytes_app a b : bytes (a +:+ b) = bytes a ++ bytes b.
Proof.
  unfold bytes. induction a as [|x a IH]; [done|]. rewrite app_cons_string. csimpl. by rewrite IH.
Qed.

Lemma bytes_inj a b : bytes a = bytes b → a = b.
Proof.
  revert b. induction a as [|x a IH]; intros [|y b] H1; try done.
  unfold bytes in *. csimpl in H1. injection H1 as Hxy Hab.
  apply byte_of_inj in Hxy as ->. by rewrite (IH b).
Qed.

Lemma bytes_split s l1 l2 : bytes s = l1 ++ l2 → ∃ a b, s = a +:+ b ∧ bytes a = l1 ∧ bytes b = l2.
Proof.
  revert s. induction l1 as [|x l1 IH]; intros s Hs.
  { exists ""%string, s. by rewrite app_nil_string. }
  destruct s as [|y s]; [done|]. unfold bytes in Hs. csimpl in Hs. injection Hs as Hx Hs.
  destruct (IH s Hs) as (a & b & -> & Ha & Hb). exists (String y a), b.
  rewrite app_cons_string. split; [done|]. split; [|done]. unfold bytes in *. csimpl. by rewrite Ha, Hx.
Qed.

Lemma Contains_bytes s sub :
  Contains s sub = true ↔ ∃ a b, bytes s = a ++ bytes sub ++ b.
Proof.
  rewrite Contains_spec. split.
  - intros (a & b & ->). exists (bytes a), (bytes b). by rewrite !bytes_app.
  - intros (a & b & Hs). apply bytes_split in Hs as (a' & r & -> & Ha & Hr).
    apply bytes_split in Hr as (sub' & b' & -> & Hsub%bytes_inj & Hb). subst sub'. eauto.
Qed.

Lemma occurs_spelled ks text k :
  occurs (spelled ks) (bytes (ToLower text)) k
  ↔ 0 ≤ k ∧ ∃ kw, ks !! Z.to_nat k = Some kw ∧ occurs_in text kw = true.
Proof.
  unfold occurs, spelled, occurs_in. split.
  - intros (v & a & b & Hx & Hk & kw & Hkw & Hne & <-). split; [done|]. exists kw.
    split; [done|]. apply andb_true_iff. split.
    + by apply negb_true_iff, String.eqb_neq.
    + apply Contains_bytes. eauto.
  - intros (Hk & kw & Hkw & Hocc). bool_to_prop.
    match goal with Hc : Contains _ _ = true |- _ => apply Contains_bytes in Hc as (a & b & Hx) end.
    exists (bytes (ToLower kw)), a, b. eauto 10.
Qed.

Lemma find_least ks (f : string → bool) b :
  least (λ k, 0 ≤ k ∧ ∃ kw, ks !! Z.to_nat k = Some kw ∧ f kw = true) b →
  List.find f ks = if b <? 0 then None else ks !! Z.to_nat b.
Proof.
  revert b. induction ks as [|kw ks IH]; intros b Hb; simpl.
  { case_match; by rewrite ?lookup_nil. }
  destruct (f kw) eqn:E.
  - destruct Hb as [[-> Hn]|(H0 & _ & Hmin)].
    { exfalso. apply (Hn 0). split; [done|]. by exists kw. }
    assert (b ≤ 0) by (apply Hmin; split; [done|]; by exists kw).
    assert (b = 0) as -> by lia. done.
  - destruct Hb as [[-> Hn]|(H0 & (_ & kw' & Hkw & Hf) & Hmin)].
    + apply (IH (-1)). left. split; [done|]. intros k (Hk & kw' & Hkw & Hf).
      apply (Hn (k + 1)). split; [lia|]. exists kw'.
      by replace (Z.to_nat (k + 1)) with (S (Z.to_nat k)) by lia.
    + rewrite (proj2 (Z.ltb_ge b 0)) by done.
      destruct (decide (b = 0)) as [->|Hb0]; [simplify_eq/=; congruence|].
      replace (Z.to_nat b) with (S (Z.to_nat (b - 1))) in * by lia. simpl in Hkw |- *.
      rewrite (IH (b - 1)); [by rewrite (proj2 (Z.ltb_ge (b - 1) 0)) by lia|].
      right. split_and!; [lia|lia|eauto|]. intros k (Hk & kw2 & Hkw2 & Hf2).
      assert (b ≤ k + 1); [|lia]. apply Hmin. split; [lia|]. exists kw2.
      by replace (Z.to_nat (k + 1)) with (S (Z.to_nat k)) by lia.
Qed.

Lemma match_best ks text m P :
  automaton P (spelled ks) m → covers P (spelled ks) → keywords m = ks →
  least (occurs (spelled ks) (bytes (ToLower text)))
        (match_loop m (bytes (ToLower text)) 0 (-1)).
Proof.
  intros Hm Hcov Hks. destruct (auto_word_root _ _ _ Hm) as [Hw0 Hs0].
  apply (match_loop_spec P (spelled ks) m Hm Hcov (bytes (ToLower text)) [] 0 (-1)).
  - apply Forall_forall. intros c. apply bytes_range.
  - done.
  - by rewrite Hw0, longest_suffix_nil.
  - left. split; [done|]. intros k (v & a & b & Hx & Hk).
    symmetry in Hx. apply app_eq_nil in Hx as [_ Hx]. apply app_eq_nil in Hx as [-> _].
    by apply spelled_nil in Hk.
  - intros v k [Hk _]. done.
Qed.

(** C16. The automaton answers as the plain search does: for every list of
    keywords and every text, [Match] returns the first keyword of the list that is
    not empty and whose lower-cased form occurs in the lower-cased text, or
    nothing when there is none. *)
Theorem match_is_first_keyword ks text :
  sizes_ok ks →
  Match (newContentModerationKeywordMatcher ks) text = first_keyword ks text.
Proof.
  intros Hsizes. unfold first_keyword.
  destruct (newContentModerationKeywordMatcher ks) as [m|] eqn:Em.
  - destruct (new_automaton ks m Hsizes Em) as (P & Hm & Hcov & Hks & _).
    pose proof (match_best ks text m P Hm Hcov Hks) as Hbest.
    pose proof (least_ext _ _ _ (occurs_spelled ks text) Hbest) as Hfind.
    apply find_least in Hfind. rewrite Hfind. unfold Match. rewrite Hks.
    rewrite (auto_length _ _ _ Hm).
    pose proof (auto_word_root _ _ _ Hm) as [_ Hs0]. unfold state_of in Hs0.
    rewrite (proj2 (Nat.eqb_neq (length P) 0)) by lia.
    destruct (String.eqb text "") eqn:Et; bool_to_prop.
    { subst text. rewrite ToLower_ascii by done. simpl. done. }
    simpl. set (best := match_loop _ _ _ _) in *. clearbody best.
    destruct (length ks =? 0)%nat eqn:E0.
    { apply Nat.eqb_eq, nil_length_inv in E0 as ->. simpl. rewrite lookup_nil. by case_match. }
    destruct (best <? 0) eqn:Eb; [done|]. simpl. bool_to_prop.
    destruct Hbest as [[? _]|(_ & (v & a & b & _ & Hk) & _)]; [lia|].
    pose proof (spelled_bound _ _ _ Hk).
    rewrite (proj2 (Z.leb_gt _ best)) by lia. by rewrite at_index_Z by lia.
  - unfold Match. enough (List.find (occurs_in text) ks = None) as -> by done.
    apply (find_least _ _ (-1)). left. split; [done|]. intros k Hk%occurs_spelled.
    destruct Hk as (v & _ & _ & _ & Hk). by eapply new_None.
Qed.

(** No index that the automaton stores is out of range: failure links, root
    transitions and edge targets are nodes, the edges of a node lie in the edge
    array, keywords are keywords.  And the loop of [Match] over failure links ends:
    each link leads to a node of smaller rank, and ranks are below the number of
    nodes. *)
Theorem matcher_indices_in_range ks m :
  sizes_ok ks → newContentModerationKeywordMatcher ks = Some m →
  let n := Z.of_nat (length (nodes m)) in
  (∃ rank : Z → Z, ∀ t, 0 ≤ t < n →
     let node := at_index (nodes m) t in
     0 ≤ failure node < n ∧ 0 ≤ rank t < n ∧ (t ≠ 0 → rank (failure node) < rank t)
     ∧ -1 ≤ bestKeyword node < Z.of_nat (length (keywords m))
     ∧ 0 ≤ edgeStart node ∧ 0 ≤ edgeCount node
     ∧ edgeStart node + edgeCount node ≤ Z.of_nat (length (edges m)))
  ∧ (∀ e, e ∈ edges m → 0 ≤ target e < n ∧ 0 ≤ label e < 256)
  ∧ (∀ c, 0 ≤ c < 256 → 0 ≤ at_index (rootTransitions m) c < n).
Proof.
  intros Hsizes Em n. destruct (new_automaton ks m Hsizes Em) as (P & Hm & Hcov & Hks & _ & Hedges).
  destruct (auto_word_root _ _ _ Hm) as [Hw0 Hs0].
  subst n. rewrite (auto_length _ _ _ Hm). split; [|split; [done|]].
  - exists (λ t, Z.of_nat (length (word P t))). intros t Hst.
    assert (state_of P (failure (at_index (nodes m) t))
      ∧ (t ≠ 0%Z → length (word P (failure (at_index (nodes m) t))) < length (word P t))%nat)
      as [Hsf Hrank].
    { destruct (decide (t = 0)) as [->|Hne].
      - rewrite (auto_failure_root _ _ _ Hm). done.
      - destruct (auto_failure _ _ _ Hm t Hst Hne) as [Hsf Hwf]. split; [done|]. intros _.
        rewrite Hwf. destruct (word P t) as [|a w] eqn:Ew.
        + destruct Hne. apply (word_inj P); [apply (auto_NoDup _ _ _ Hm)|done|done|congruence].
        + simpl tail. pose proof (longest_suffix_length P w). simpl. lia. }
    pose proof (auto_depth _ _ _ Hm t Hst).
    cbv zeta. destruct (auto_slice _ _ _ Hm t Hst) as (A & S & B & -> & -> & -> & _ & _).
    rewrite !length_app, Hks. split_and!; try apply Hsf; try lia.
    + destruct (auto_best _ _ _ Hm t Hst) as [[-> _]|(? & _ & _)]; lia.
    + destruct (auto_best _ _ _ Hm t Hst) as [[-> _]|(_ & (v & _ & Hk) & _)]; [lia|].
      by apply spelled_bound in Hk.
  - intros c Hc. destruct (auto_start _ _ _ Hm c Hc) as [[Hst _]|[-> _]]; [apply Hst|apply Hs0].
Qed.

End correct.

(** ** A concrete matcher *)

Section demo.
Local Open Scope string_scope.
#[local] Existing Instance ascii_case.

Definition demo_keywords : list string := ["hers"; "she"; ""; "His"; "he"; "e r"].

Lemma demo_sizes : sizes_ok demo_keywords.
Proof. by vm_compute. Qed.

Lemma match_is_first_keyword_witness :
  Match (newContentModerationKeywordMatcher demo_keywords) "uSHErs" = ("hers", true)
  ∧ Match (newContentModerationKeywordMatcher demo_keywords) "the red" = ("he", true)
  ∧ Match (newContentModerationKeywordMatcher demo_keywords) "h is" = ("", false).
Proof.
  rewrite !match_is_first_keyword by exact demo_sizes. vm_compute. auto.
Defined.

Lemma matcher_indices_in_range_witness :
  ∃ m, newContentModerationKeywordMatcher demo_keywords = Some m
  ∧ length (nodes m) = 13%nat ∧ ∀ e, e ∈ edges m → 0 ≤ target e < 13 ∧ 0 ≤ label e < 256.
Proof.
  eexists. split; [vm_compute; reflexivity|]. split; [reflexivity|].
  refine (proj1 (proj2 (matcher_indices_in_range demo_keywords _ demo_sizes _))).
  vm_compute. reflexivity.
Defined.

End demo.
