(* ===== verification/UsageRecordPool.v ===== *)
(** * The worker pool of usage records

    [service/usage_record_worker_pool.go]: usage records are written by a bounded
    pool; a task that finds the queue full is dropped, sampled or run by the
    submitter, and the number of workers follows the load.  The pool itself is a
    third-party library: a class of operations ([Pond]) with the laws the code
    relies on. *)

From Stdlib Require Import ZArith Lia String.
From stdpp Require Import base tactics numbers list strings.
From S2P Require Import Prelude GoStrings.

Open Scope string_scope.
Open Scope list_scope.
Open Scope Z_scope.

(** ** Options *)

Definition UsageRecordOverflowPolicyDrop : string := "drop".
Definition UsageRecordOverflowPolicySample : string := "sample".
Definition UsageRecordOverflowPolicySync : string := "sync".

Definition defaultUsageRecordWorkerCount : Z := 128.
Definition defaultUsageRecordQueueSize : Z := 16384.
Definition defaultUsageRecordTaskTimeoutSeconds : Z := 5.
Definition defaultUsageRecordOverflowPolicy : string := UsageRecordOverflowPolicySync.
Definition defaultUsageRecordOverflowSampleRatio : Z := 10.
Definition defaultUsageRecordAutoScaleEnabled : bool := true.
Definition defaultUsageRecordAutoScaleMinWorkers : Z := 128.
Definition defaultUsageRecordAutoScaleMaxWorkers : Z := 512.
Definition defaultUsageRecordAutoScaleUpPercent : Z := 70.
Definition defaultUsageRecordAutoScaleDownPercent : Z := 15.
Definition defaultUsageRecordAutoScaleUpStep : Z := 32.
Definition defaultUsageRecordAutoScaleDownStep : Z := 16.
Definition defaultUsageRecordAutoScaleInterval : Z := 3 * Second.
Definition defaultUsageRecordAutoScaleCooldown : Z := 10 * Second.

Record UsageRecordWorkerPoolOptions := mkOptions {
  WorkerCount : Z;
  QueueSize : Z;
  TaskTimeout : Z;
  OverflowPolicy : string;
  OverflowSamplePercent : Z;
  AutoScaleEnabled : bool;
  AutoScaleMinWorkers : Z;
  AutoScaleMaxWorkers : Z;
  AutoScaleUpPercent : Z;
  AutoScaleDownPercent : Z;
  AutoScaleUpStep : Z;
  AutoScaleDownStep : Z;
  AutoScaleInterval : Z;
  AutoScaleCooldown : Z
}.

Record GatewayUsageRecordConfig := mkUsageConfig {
  cfg_WorkerCount : Z;
  cfg_QueueSize : Z;
  cfg_TaskTimeoutSeconds : Z;
  cfg_OverflowPolicy : string;
  cfg_OverflowSamplePercent : Z;
  cfg_AutoScaleEnabled : bool;
  cfg_AutoScaleMinWorkers : Z;
  cfg_AutoScaleMaxWorkers : Z;
  cfg_AutoScaleUpQueuePercent : Z;
  cfg_AutoScaleDownQueuePercent : Z;
  cfg_AutoScaleUpStep : Z;
  cfg_AutoScaleDownStep : Z;
  cfg_AutoScaleCheckIntervalSeconds : Z;
  cfg_AutoScaleCooldownSeconds : Z
}.

(** [v] when the test holds, the default otherwise. *)
Definition positive_or (v d : Z) : Z := if v <=? 0 then d else v.

Section options.
Context `{UnicodeCase}.

Definition normalize_policy (policy : string) : string :=
  let p := ToLower (TrimSpace policy) in
  if String.eqb p UsageRecordOverflowPolicyDrop || String.eqb p UsageRecordOverflowPolicySample
     || String.eqb p UsageRecordOverflowPolicySync
  then p else defaultUsageRecordOverflowPolicy.

Definition normalize_percent (policy : string) (percent : Z) : Z :=
  let percent := if percent <? 0 then 0 else percent in
  let percent := if 100 <? percent then 100 else percent in
  if String.eqb policy UsageRecordOverflowPolicySample && (percent =? 0)
  then defaultUsageRecordOverflowSampleRatio else percent.

Definition normalizeUsageRecordPoolOptions (o : UsageRecordWorkerPoolOptions)
    : UsageRecordWorkerPoolOptions :=
  let workers := positive_or (WorkerCount o) defaultUsageRecordWorkerCount in
  let queue := positive_or (QueueSize o) defaultUsageRecordQueueSize in
  let timeout := positive_or (TaskTimeout o) (defaultUsageRecordTaskTimeoutSeconds * Second) in
  let policy := normalize_policy (OverflowPolicy o) in
  let percent := normalize_percent policy (OverflowSamplePercent o) in
  if AutoScaleEnabled o then
    let minw := positive_or (AutoScaleMinWorkers o) defaultUsageRecordAutoScaleMinWorkers in
    let maxw := positive_or (AutoScaleMaxWorkers o) defaultUsageRecordAutoScaleMaxWorkers in
    let maxw := if maxw <? minw then minw else maxw in
    let workers := if workers <? minw then minw else workers in
    let workers := if maxw <? workers then maxw else workers in
    let up := AutoScaleUpPercent o in
    let up := if (up <=? 0) || (100 <? up) then defaultUsageRecordAutoScaleUpPercent else up in
    let down := AutoScaleDownPercent o in
    let down := if (down <? 0) || (100 <=? down) then defaultUsageRecordAutoScaleDownPercent else down in
    let down := if up <=? down then Z.max 0 (Z.quot up 2) else down in
    let cooldown := if AutoScaleCooldown o <? 0 then defaultUsageRecordAutoScaleCooldown
                    else AutoScaleCooldown o in
    mkOptions workers queue timeout policy percent true minw maxw up down
      (positive_or (AutoScaleUpStep o) defaultUsageRecordAutoScaleUpStep)
      (positive_or (AutoScaleDownStep o) defaultUsageRecordAutoScaleDownStep)
      (positive_or (AutoScaleInterval o) defaultUsageRecordAutoScaleInterval) cooldown
  else
    mkOptions workers queue timeout policy percent false workers workers
      (AutoScaleUpPercent o) (AutoScaleDownPercent o) (AutoScaleUpStep o) (AutoScaleDownStep o)
      (AutoScaleInterval o) (AutoScaleCooldown o).

Definition default_options : UsageRecordWorkerPoolOptions :=
  mkOptions defaultUsageRecordWorkerCount defaultUsageRecordQueueSize
    (defaultUsageRecordTaskTimeoutSeconds * Second) defaultUsageRecordOverflowPolicy
    defaultUsageRecordOverflowSampleRatio defaultUsageRecordAutoScaleEnabled
    defaultUsageRecordAutoScaleMinWorkers defaultUsageRecordAutoScaleMaxWorkers
    defaultUsageRecordAutoScaleUpPercent defaultUsageRecordAutoScaleDownPercent
    defaultUsageRecordAutoScaleUpStep defaultUsageRecordAutoScaleDownStep
    defaultUsageRecordAutoScaleInterval defaultUsageRecordAutoScaleCooldown.

Definition usageRecordPoolOptionsFromConfig (cfg : option GatewayUsageRecordConfig)
    : UsageRecordWorkerPoolOptions :=
  match cfg with
  | None => default_options
  | Some c =>
      let d := default_options in
      let pos v dv := if 0 <? v then v else dv in
      let nonneg v dv := if 0 <=? v then v else dv in
      let policy := TrimSpace (ToLower (cfg_OverflowPolicy c)) in
      normalizeUsageRecordPoolOptions
        (mkOptions (pos (cfg_WorkerCount c) (WorkerCount d)) (pos (cfg_QueueSize c) (QueueSize d))
           (if 0 <? cfg_TaskTimeoutSeconds c then seconds (cfg_TaskTimeoutSeconds c) else TaskTimeout d)
           (if String.eqb policy "" then OverflowPolicy d else policy)
           (nonneg (cfg_OverflowSamplePercent c) (OverflowSamplePercent d))
           (cfg_AutoScaleEnabled c)
           (pos (cfg_AutoScaleMinWorkers c) (AutoScaleMinWorkers d))
           (pos (cfg_AutoScaleMaxWorkers c) (AutoScaleMaxWorkers d))
           (pos (cfg_AutoScaleUpQueuePercent c) (AutoScaleUpPercent d))
           (nonneg (cfg_AutoScaleDownQueuePercent c) (AutoScaleDownPercent d))
           (pos (cfg_AutoScaleUpStep c) (AutoScaleUpStep d))
           (pos (cfg_AutoScaleDownStep c) (AutoScaleDownStep d))
           (if 0 <? cfg_AutoScaleCheckIntervalSeconds c
            then seconds (cfg_AutoScaleCheckIntervalSeconds c) else AutoScaleInterval d)
           (if 0 <=? cfg_AutoScaleCooldownSeconds c
            then seconds (cfg_AutoScaleCooldownSeconds c) else AutoScaleCooldown d))
  end.

End options.

(** ** The pool *)

(** The operations of the pool library on a pool state [S] with tasks [T].
    [Accepted] is what the pool has taken on, for the specification only. *)
Class Pond (S T : Type) := {
  Stopped : S → bool;
  TrySubmit : S → T → S * bool;
  PondQueueSize : S → Z;
  MaxConcurrency : S → Z;
  WaitingTasks : S → Z;
  RunningWorkers : S → Z;
  Resize : S → Z → S;
  Accepted : S → list T
}.

(** Documented behaviour: a task is taken on or left to the caller, and [Resize]
    sets the concurrency limit, which submissions do not change. *)
Class PondLaws (S T : Type) `{!Pond S T} := {
  TrySubmit_accepted s t : (TrySubmit s t).2 = true → Accepted (TrySubmit s t).1 = Accepted s ++ [t];
  TrySubmit_refused s t : (TrySubmit s t).2 = false → Accepted (TrySubmit s t).1 = Accepted s;
  TrySubmit_concurrency s t : MaxConcurrency (TrySubmit s t).1 = MaxConcurrency s;
  Resize_concurrency s n : 0 < n → MaxConcurrency (Resize s n) = n;
  Resize_accepted s n : Accepted (Resize s n) = Accepted s
}.

Inductive UsageRecordSubmitMode := Enqueued | Dropped | DroppedStopped | SyncFallback.

#[global] Instance UsageRecordSubmitMode_eq_dec : EqDecision UsageRecordSubmitMode.
Proof. solve_decision. Defined.

Definition mode_Dropped (m : UsageRecordSubmitMode) : bool :=
  match m with Dropped | DroppedStopped => true | _ => false end.

Definition mode_String (m : UsageRecordSubmitMode) : string :=
  match m with
  | Enqueued => "enqueued"
  | Dropped => "dropped"
  | DroppedStopped => "dropped_stopped"
  | SyncFallback => "sync_fallback"
  end.

Section pool.
Context {S T : Type} `{!Pond S T}.

(** The fields of the pool that change; [executed] are the tasks that submitters
    ran themselves, in order. *)
Record UsageRecordWorkerPool := mkPool {
  pool : S;
  overflowCounter : Z;
  droppedQueueFull : Z;
  droppedPoolStopped : Z;
  syncFallback : Z;
  lastScaleNanos : Z;
  executed : list T
}.

Definition uint64_succ (n : Z) : Z := wrap_unsigned 64 (n + 1).

Definition set_pool (p : UsageRecordWorkerPool) (s : S) : UsageRecordWorkerPool :=
  mkPool s (overflowCounter p) (droppedQueueFull p) (droppedPoolStopped p) (syncFallback p)
    (lastScaleNanos p) (executed p).

Definition drop_stopped (p : UsageRecordWorkerPool) : UsageRecordWorkerPool :=
  mkPool (pool p) (overflowCounter p) (droppedQueueFull p) (uint64_succ (droppedPoolStopped p))
    (syncFallback p) (lastScaleNanos p) (executed p).

Definition drop_full (p : UsageRecordWorkerPool) : UsageRecordWorkerPool :=
  mkPool (pool p) (overflowCounter p) (uint64_succ (droppedQueueFull p)) (droppedPoolStopped p)
    (syncFallback p) (lastScaleNanos p) (executed p).

(** The submitter runs the task; [execute] recovers a panic of the task. *)
Definition run_inline (p : UsageRecordWorkerPool) (task : T) : UsageRecordWorkerPool :=
  mkPool (pool p) (overflowCounter p) (droppedQueueFull p) (droppedPoolStopped p)
    (uint64_succ (syncFallback p)) (lastScaleNanos p) (executed p ++ [task]).

Definition shouldSyncFallback (o : UsageRecordWorkerPoolOptions) (p : UsageRecordWorkerPool)
    : UsageRecordWorkerPool * bool :=
  if OverflowSamplePercent o <=? 0 then (p, false)
  else
    let n := uint64_succ (overflowCounter p) in
    (mkPool (pool p) n (droppedQueueFull p) (droppedPoolStopped p) (syncFallback p)
       (lastScaleNanos p) (executed p),
     wrap_unsigned 64 (n - 1) `mod` 100 <? OverflowSamplePercent o).

(** [None] is a nil task. *)
Definition Submit (o : UsageRecordWorkerPoolOptions) (p : UsageRecordWorkerPool) (task : option T)
    : UsageRecordWorkerPool * UsageRecordSubmitMode :=
  match task with
  | None => (p, Dropped)
  | Some task =>
      if Stopped (pool p) then (drop_stopped p, DroppedStopped)
      else
        let '(s, ok) := TrySubmit (pool p) task in
        let p := set_pool p s in
        if ok then (p, Enqueued)
        else if Stopped (pool p) then (drop_stopped p, DroppedStopped)
        else if String.eqb (OverflowPolicy o) UsageRecordOverflowPolicySync
        then (run_inline p task, SyncFallback)
        else if String.eqb (OverflowPolicy o) UsageRecordOverflowPolicySample then
          let '(p, yes) := shouldSyncFallback o p in
          if yes then (run_inline p task, SyncFallback) else (drop_full p, Dropped)
        else (drop_full p, Dropped)
  end.

Definition resizePool (p : UsageRecordWorkerPool) (current tgt storedAt : Z) : UsageRecordWorkerPool :=
  if tgt =? current then p
  else mkPool (Resize (pool p) tgt) (overflowCounter p) (droppedQueueFull p) (droppedPoolStopped p)
         (syncFallback p) (UnixNano storedAt) (executed p).

Definition int64 (z : Z) : Z := wrap_signed 64 z.

(** [time.Unix(0, n)]. *)
Definition unix_instant (n : Z) : Z := n + 62135596800 * Second.

(** [now] is the clock at the test of the cooldown, [storedAt] the clock when the
    new size is recorded. *)
Definition autoScaleTick (o : UsageRecordWorkerPoolOptions) (p : UsageRecordWorkerPool)
    (now storedAt : Z) : UsageRecordWorkerPool :=
  if Stopped (pool p) then p
  else
    let queueSize := PondQueueSize (pool p) in
    if queueSize <=? 0 then p
    else
      let current := MaxConcurrency (pool p) in
      let waiting := int64 (WaitingTasks (pool p)) in
      let running := int64 (RunningWorkers (pool p)) in
      if (current <=? 0) || (waiting <? 0) then p
      else
        let queuePercent := Z.quot (int64 (waiting * 100)) queueSize in
        let runningPercent := if 0 <? current then Z.quot (int64 (running * 100)) current else 0 in
        if (0 <? lastScaleNanos p)
           && (time_sub now (unix_instant (lastScaleNanos p)) <? AutoScaleCooldown o) then p
        else if (AutoScaleUpPercent o <=? queuePercent) && (current <? AutoScaleMaxWorkers o) then
          let tgt := current + AutoScaleUpStep o in
          let tgt := if AutoScaleMaxWorkers o <? tgt then AutoScaleMaxWorkers o else tgt in
          resizePool p current tgt storedAt
        else if (queuePercent <=? AutoScaleDownPercent o) && (waiting =? 0)
                && (runningPercent <=? AutoScaleDownPercent o) && (AutoScaleMinWorkers o <? current) then
          let tgt := current - AutoScaleDownStep o in
          let tgt := if tgt <? AutoScaleMinWorkers o then AutoScaleMinWorkers o else tgt in
          resizePool p current tgt storedAt
        else p.

End pool.
#[global] Arguments UsageRecordWorkerPool : clear implicits.

(** ** Options are usable *)

Record options_ok (o : UsageRecordWorkerPoolOptions) : Prop := {
  ok_workers : 0 < WorkerCount o;
  ok_queue : 0 < QueueSize o;
  ok_timeout : 0 < TaskTimeout o;
  ok_policy : OverflowPolicy o = UsageRecordOverflowPolicyDrop
              ∨ OverflowPolicy o = UsageRecordOverflowPolicySample
              ∨ OverflowPolicy o = UsageRecordOverflowPolicySync;
  ok_percent : 0 ≤ OverflowSamplePercent o ≤ 100;
  ok_sampling : OverflowPolicy o = UsageRecordOverflowPolicySample → 0 < OverflowSamplePercent o;
  ok_bounds : 0 < AutoScaleMinWorkers o
              ∧ AutoScaleMinWorkers o ≤ WorkerCount o ≤ AutoScaleMaxWorkers o;
  ok_scaling : AutoScaleEnabled o = true →
    0 ≤ AutoScaleDownPercent o < AutoScaleUpPercent o ∧ AutoScaleUpPercent o ≤ 100
    ∧ 0 < AutoScaleUpStep o ∧ 0 < AutoScaleDownStep o
    ∧ 0 < AutoScaleInterval o ∧ 0 ≤ AutoScaleCooldown o
}.

Lemma positive_or_pos v d : 0 < d → 0 < positive_or v d.
Proof. unfold positive_or. intros. destruct (v <=? 0) eqn:E; bool_to_prop; lia. Qed.

Lemma positive_or_id v d : 0 < v → positive_or v d = v.
Proof. unfold positive_or. intros. by rewrite (proj2 (Z.leb_gt v 0)). Qed.

Section options_correct.
Context `{UnicodeCase}.

Lemma normalize_policy_cases policy :
  normalize_policy policy = UsageRecordOverflowPolicyDrop
  ∨ normalize_policy policy = UsageRecordOverflowPolicySample
  ∨ normalize_policy policy = UsageRecordOverflowPolicySync.
Proof.
  unfold normalize_policy. destruct (_ || _) eqn:E; [|by right; right].
  apply orb_true_iff in E as [E|E]; [apply orb_true_iff in E as [E|E]|]; bool_to_prop; auto.
Qed.

Lemma normalize_policy_idem policy : normalize_policy (normalize_policy policy) = normalize_policy policy.
Proof.
  destruct (normalize_policy_cases policy) as [->|[->| ->]]; unfold normalize_policy;
    (rewrite ToLower_ascii by (vm_compute; reflexivity)); vm_compute; reflexivity.
Qed.

Lemma normalize_percent_range policy v :
  0 ≤ normalize_percent policy v ≤ 100
  ∧ (policy = UsageRecordOverflowPolicySample → 0 < normalize_percent policy v).
Proof.
  unfold normalize_percent, defaultUsageRecordOverflowSampleRatio.
  set (w := if v <? 0 then 0 else v).
  assert (0 ≤ w) as Hw by (unfold w; destruct (v <? 0) eqn:E; bool_to_prop; lia). clearbody w.
  set (u := if 100 <? w then 100 else w).
  assert (0 ≤ u ≤ 100) as Hu by (unfold u; destruct (100 <? w) eqn:E; bool_to_prop; lia). clearbody u.
  destruct (_ && _) eqn:E; [split; lia|]. split; [lia|]. intros ->.
  bool_to_prop. destruct E as [E|E]; bool_to_prop; [done|lia].
Qed.

Lemma normalize_percent_idem policy v :
  0 ≤ v ≤ 100 → (policy = UsageRecordOverflowPolicySample → 0 < v) →
  normalize_percent policy v = v.
Proof.
  intros Hv Hs. unfold normalize_percent.
  rewrite (proj2 (Z.ltb_ge v 0)), (proj2 (Z.ltb_ge 100 v)) by lia.
  destruct (String.eqb policy _) eqn:E; bool_to_prop; [|done].
  rewrite (proj2 (Z.eqb_neq v 0)); [done|]. specialize (Hs E). lia.
Qed.

Ltac split_ifs :=
  repeat match goal with
  | |- context [if ?b then _ else _] =>
      lazymatch b with context [if _ then _ else _] => fail | _ => idtac end;
      let E := fresh "E" in destruct b eqn:E
  end.

Lemma normalize_ok o : options_ok (normalizeUsageRecordPoolOptions o).
Proof.
  pose proof (positive_or_pos (WorkerCount o) defaultUsageRecordWorkerCount eq_refl) as Hw.
  pose proof (normalize_policy_cases (OverflowPolicy o)) as Hpolicy.
  destruct (normalize_percent_range (normalize_policy (OverflowPolicy o)) (OverflowSamplePercent o))
    as [Hpercent Hsample].
  unfold normalizeUsageRecordPoolOptions. destruct (AutoScaleEnabled o).
  - pose proof (positive_or_pos (AutoScaleMinWorkers o) defaultUsageRecordAutoScaleMinWorkers eq_refl) as Hmin.
    pose proof (positive_or_pos (AutoScaleMaxWorkers o) defaultUsageRecordAutoScaleMaxWorkers eq_refl) as Hmax.
    split; simpl; try done; try by apply positive_or_pos.
    + generalize dependent (positive_or (WorkerCount o) defaultUsageRecordWorkerCount). intros w Hw.
      split_ifs; bool_to_prop; lia.
    + generalize dependent (positive_or (AutoScaleMinWorkers o) defaultUsageRecordAutoScaleMinWorkers).
      generalize dependent (positive_or (AutoScaleMaxWorkers o) defaultUsageRecordAutoScaleMaxWorkers).
      generalize dependent (positive_or (WorkerCount o) defaultUsageRecordWorkerCount).
      intros w Hw mx Hmx mn Hmn. split_ifs; bool_to_prop; lia.
    + intros _. unfold defaultUsageRecordAutoScaleUpPercent, defaultUsageRecordAutoScaleDownPercent,
        defaultUsageRecordAutoScaleCooldown, Second.
      split; [|split; [|split_and!; try by apply positive_or_pos]].
      * set (up := if _ || _ then 70 else AutoScaleUpPercent o).
        assert (0 < up ≤ 100) as Hup by (unfold up; destruct (_ || _) eqn:E; bool_to_prop; lia).
        clearbody up. set (down := if _ || _ then 15 else AutoScaleDownPercent o).
        assert (0 ≤ down < 100) as Hdown by (unfold down; destruct (_ || _) eqn:E; bool_to_prop; lia).
        clearbody down. destruct (up <=? down) eqn:E; bool_to_prop; [|lia].
        assert (0 ≤ Z.quot up 2 < up) by (split; [apply Z.quot_pos; lia|apply Z.quot_lt; lia]). lia.
      * destruct (_ || _) eqn:E; bool_to_prop; lia.
      * destruct (_ <? 0) eqn:E; bool_to_prop; lia.
  - split; simpl; try done; try by apply positive_or_pos.
Qed.

Lemma normalize_of_ok o :
  options_ok o → normalize_policy (OverflowPolicy o) = OverflowPolicy o →
  (AutoScaleEnabled o = false →
     AutoScaleMinWorkers o = WorkerCount o ∧ AutoScaleMaxWorkers o = WorkerCount o) →
  normalizeUsageRecordPoolOptions o = o.
Proof.
  intros [] Hpolicy Hdis. unfold normalizeUsageRecordPoolOptions.
  rewrite Hpolicy, normalize_percent_idem by done. 
  rewrite (positive_or_id (WorkerCount o)), (positive_or_id (QueueSize o)), (positive_or_id (TaskTimeout o)) by done.
  destruct (AutoScaleEnabled o) eqn:Een.
  - destruct ok_scaling0 as (H1 & H2 & H3 & H4 & H5 & H6); [done|].
    rewrite !positive_or_id by lia.
    rewrite (proj2 (Z.ltb_ge (AutoScaleMaxWorkers o) (AutoScaleMinWorkers o))) by lia.
    rewrite (proj2 (Z.ltb_ge (WorkerCount o) (AutoScaleMinWorkers o))) by lia.
    rewrite (proj2 (Z.ltb_ge (AutoScaleMaxWorkers o) (WorkerCount o))) by lia.
    rewrite (proj2 (Z.leb_gt (AutoScaleUpPercent o) 0)) by lia.
    rewrite (proj2 (Z.ltb_ge 100 (AutoScaleUpPercent o))) by lia.
    rewrite (proj2 (Z.ltb_ge (AutoScaleDownPercent o) 0)) by lia.
    rewrite (proj2 (Z.leb_gt 100 (AutoScaleDownPercent o))) by lia. simpl.
    rewrite (proj2 (Z.leb_gt (AutoScaleUpPercent o) (AutoScaleDownPercent o))) by lia.
    rewrite (proj2 (Z.ltb_ge (AutoScaleCooldown o) 0)) by lia. rewrite <- Een. by destruct o.
  - destruct (Hdis eq_refl) as [Hmin Hmax]. rewrite <- Hmin at 2. rewrite <- Hmax at 2.
    rewrite <- Een. by destruct o.
Qed.

(** Whatever the configuration, the pool runs with usable options: positive
    counts, sizes and times, a known overflow policy, a sample share that is a
    percentage and is positive under the sampling policy, worker bounds around the
    initial count, and scaling thresholds in order.  Normalising options that are
    already normalised changes nothing. *)
Theorem options_normalized cfg o :
  options_ok (usageRecordPoolOptionsFromConfig cfg)
  ∧ options_ok (normalizeUsageRecordPoolOptions o)
  ∧ normalizeUsageRecordPoolOptions (normalizeUsageRecordPoolOptions o)
    = normalizeUsageRecordPoolOptions o.
Proof.
  split; [|split; [apply normalize_ok|]].
  - destruct cfg as [c|]; simpl; [apply normalize_ok|].
    split; try done; unfold default_options, defaultUsageRecordAutoScaleCooldown, Second; simpl; auto; lia.
  - apply normalize_of_ok; [apply normalize_ok| |];
      unfold normalizeUsageRecordPoolOptions; destruct (AutoScaleEnabled o); simpl;
      done || apply normalize_policy_idem.
Qed.

End options_correct.

(** ** Every submitted task has one fate *)

Section pool_correct.
Context {S T : Type} `{PondLaws S T}.
Implicit Types p : UsageRecordWorkerPool S T.

(** Submits the tasks in order; returns each with its mode. *)
Fixpoint submit_all (o : UsageRecordWorkerPoolOptions) p (ts : list T)
    : UsageRecordWorkerPool S T * list (T * UsageRecordSubmitMode) :=
  match ts with
  | [] => (p, [])
  | t :: ts =>
      let '(p, m) := Submit o p (Some t) in
      let '(p, ms) := submit_all o p ts in (p, (t, m) :: ms)
  end.

(** The tasks that had a given fate, in order. *)
Definition with_mode (m : UsageRecordSubmitMode) (ms : list (T * UsageRecordSubmitMode)) : list T :=
  (filter (λ tm, tm.2 = m) ms).*1.

(** The pool before each submission, and at the end. *)
Fixpoint submit_states (o : UsageRecordWorkerPoolOptions) p (ts : list T) : list (UsageRecordWorkerPool S T) :=
  p :: match ts with [] => [] | t :: ts => submit_states o (Submit o p (Some t)).1 ts end.

Lemma shouldSyncFallback_fields o p :
  let p' := (shouldSyncFallback o p).1 in
  pool p' = pool p ∧ executed p' = executed p ∧ lastScaleNanos p' = lastScaleNanos p.
Proof. unfold shouldSyncFallback. by destruct (_ <=? 0). Qed.

Lemma Submit_fate o p t :
  let '(p', m) := Submit o p (Some t) in
  Accepted (pool p') = Accepted (pool p) ++ (if decide (m = Enqueued) then [t] else []) ∧
  executed p' = executed p ++ (if decide (m = SyncFallback) then [t] else []) ∧
  (Stopped (pool p) = true → m = DroppedStopped) ∧
  (m = DroppedStopped → Stopped (pool p') = true) ∧
  (m = Dropped → OverflowPolicy o ≠ UsageRecordOverflowPolicySync ∧ Stopped (pool p') = false).
Proof.
  unfold Submit. destruct (Stopped (pool p)) eqn:E1; [by rewrite !app_nil_r|].
  pose proof (TrySubmit_accepted (pool p) t) as Hyes. pose proof (TrySubmit_refused (pool p) t) as Hno.
  destruct (TrySubmit (pool p) t) as [s ok]. simpl in *.
  destruct ok; simpl; [by rewrite Hyes, app_nil_r|]. specialize (Hno eq_refl).
  destruct (Stopped s) eqn:E2; simpl; [by rewrite Hno, !app_nil_r|].
  destruct (String.eqb (OverflowPolicy o) UsageRecordOverflowPolicySync) eqn:E3; simpl; [by rewrite Hno, app_nil_r|].
  bool_to_prop.
  destruct (String.eqb (OverflowPolicy o) UsageRecordOverflowPolicySample) eqn:E4; simpl;
    [|by rewrite Hno, !app_nil_r].
  pose proof (shouldSyncFallback_fields o (set_pool p s)) as (Hp & He & _).
  destruct (shouldSyncFallback o (set_pool p s)) as [p' yes]. simpl in *.
  destruct yes; simpl; by rewrite Hp, He, Hno, ?app_nil_r.
Qed.

Lemma with_mode_cons m t m' ms :
  with_mode m ((t, m') :: ms) = (if decide (m' = m) then [t] else []) ++ with_mode m ms.
Proof. unfold with_mode. rewrite filter_cons. simpl. by destruct (decide (m' = m)). Qed.

(** C34. No usage record is lost or written twice: of the tasks submitted in turn, from any
    state, each has one fate.  The pool has taken on exactly the tasks reported as
    enqueued, and the submitters have run exactly those reported as run in place, each
    once and in order.  A task is reported as dropped by a stopped pool only when the
    pool is stopped as its submission returns, and a pool that is stopped reports so for
    every task.  A task dropped for a full queue is dropped by a running pool under
    another policy than [sync]: under [sync], the default, a pool that is not stopped
    meanwhile drops nothing. *)
Theorem submit_all_fate o p ts :
  let '(p', ms) := submit_all o p ts in
  ms.*1 = ts ∧
  Accepted (pool p') = Accepted (pool p) ++ with_mode Enqueued ms ∧
  executed p' = executed p ++ with_mode SyncFallback ms ∧
  (∀ i t m before after, ms !! i = Some (t, m) →
     submit_states o p ts !! i = Some before → submit_states o p ts !! Datatypes.S i = Some after →
     (Stopped (pool before) = true → m = DroppedStopped) ∧
     (m = DroppedStopped → Stopped (pool after) = true) ∧
     (m = Dropped → OverflowPolicy o ≠ UsageRecordOverflowPolicySync ∧ Stopped (pool after) = false)) ∧
  (OverflowPolicy o = UsageRecordOverflowPolicySync →
   Forall (λ q, Stopped (pool q) = false) (submit_states o p ts) →
   Forall (λ tm, mode_Dropped tm.2 = false) ms).
Proof.
  revert p. induction ts as [|t ts IH]; intros p; cbn [submit_all submit_states].
  { by rewrite !app_nil_r. }
  pose proof (Submit_fate o p t) as Hfate. destruct (Submit o p (Some t)) as [p1 m]. specialize (IH p1).
  destruct (submit_all o p1 ts) as [p' ms]. destruct IH as (Hms & Hacc & Hexe & Hat & Hsync).
  destruct Hfate as (Ha & He & Hstop & Hstopped & Hfull). rewrite !with_mode_cons, Hacc, Hexe, Ha, He.
  rewrite <-!(assoc_L (++)). split; [csimpl; by rewrite Hms|]. split; [done|]. split; [done|].
  assert (head (submit_states o p1 ts) = Some p1) as Hhead by by destruct ts. split.
  - intros [|i] t' m' before after; simpl; [|by apply Hat]. intros [= <- <-] [= <-] Hafter.
    rewrite <-head_lookup, Hhead in Hafter. by simplify_eq.
  - intros Hpol [Hp Hrest]%Forall_cons. constructor; [|by apply Hsync].
    assert (Stopped (pool p1) = false) as Hp1 by (destruct ts; by apply Forall_cons in Hrest as [? _]).
    simpl. destruct m; try done; [by destruct (Hfull eq_refl)|]. specialize (Hstopped eq_refl). congruence.
Qed.

(** ** Sampling *)

(** The decisions of [n] consecutive overflows. *)
Fixpoint sample_run (n : nat) (o : UsageRecordWorkerPoolOptions) p : list bool :=
  match n with
  | O => []
  | Datatypes.S n => let '(p, yes) := shouldSyncFallback o p in yes :: sample_run n o p
  end.

Lemma sample_run_eq n o p :
  0 < OverflowSamplePercent o → 0 ≤ overflowCounter p →
  overflowCounter p + Z.of_nat n < 2 ^ 64 →
  sample_run n o p = (λ i, i `mod` 100 <? OverflowSamplePercent o) <$> seqZ (overflowCounter p) (Z.of_nat n).
Proof.
  revert p. induction n as [|n IH]; intros p Hpct H0 Hn; [done|].
  rewrite seqZ_cons by lia. simpl sample_run. unfold shouldSyncFallback.
  rewrite (proj2 (Z.leb_gt _ 0)) by done.
  assert (uint64_succ (overflowCounter p) = overflowCounter p + 1) as Hsucc
    by (unfold uint64_succ, wrap_unsigned; apply Z.mod_small; lia).
  rewrite Hsucc. csimpl. f_equal.
  - unfold wrap_unsigned. f_equal. f_equal. rewrite Z.mod_small by lia. lia.
  - rewrite IH by (simpl; lia). simpl. f_equal. f_equal; lia.
Qed.

Definition yes_count (l : list bool) : nat := length (filter (λ b, b = true) l).

Lemma yes_count_perm l l' : l ≡ₚ l' → yes_count l = yes_count l'.
Proof. unfold yes_count. by intros ->. Qed.

Lemma mod_seqZ_perm c n : 0 < n → (λ i, i `mod` n) <$> seqZ c n ≡ₚ seqZ 0 n.
Proof.
  intros Hn. symmetry. apply submseteq_length_Permutation.
  - apply NoDup_submseteq; [apply NoDup_seqZ|]. intros x Hx%elem_of_seqZ.
    apply list_elem_of_fmap. exists (c + (x - c) `mod` n).
    pose proof (Z.mod_pos_bound (x - c) n Hn). split; [|apply elem_of_seqZ; lia].
    rewrite Zplus_mod_idemp_r. replace (c + (x - c)) with x by lia. symmetry. apply Z.mod_small. lia.
  - rewrite length_fmap, !length_seqZ. done.
Qed.

Lemma yes_count_below n k : (k ≤ n)%nat →
  yes_count ((λ i, i <? Z.of_nat k) <$> seqZ 0 (Z.of_nat n)) = k.
Proof.
  intros Hk. replace n with (k + (n - k))%nat by lia. rewrite Nat2Z.inj_add, seqZ_app by lia.
  rewrite fmap_app. unfold yes_count. rewrite filter_app, length_app.
  assert (∀ l, Forall (λ i, i < Z.of_nat k) l →
    length (filter (λ b, b = true) ((λ i, i <? Z.of_nat k) <$> l)) = length l) as Hall.
  { induction 1 as [|x l Hx _ IH]; [done|]. csimpl. rewrite (proj2 (Z.ltb_lt x _)) by done.
    rewrite filter_cons_True by done. simpl. by rewrite IH. }
  assert (∀ l, Forall (λ i, Z.of_nat k ≤ i) l →
    length (filter (λ b, b = true) ((λ i, i <? Z.of_nat k) <$> l)) = 0%nat) as Hnone.
  { induction 1 as [|x l Hx _ IH]; [done|]. csimpl. rewrite (proj2 (Z.ltb_ge x _)) by done.
    by rewrite filter_cons_False by done. }
  rewrite Hall, Hnone, length_seqZ.
  - lia.
  - apply Forall_forall. intros x Hx%elem_of_seqZ. lia.
  - apply Forall_forall. intros x Hx%elem_of_seqZ. lia.
Qed.

(** The sampling policy runs exactly the configured share: of any hundred
    consecutive tasks that overflow, exactly [OverflowSamplePercent] are run by
    their submitter (until the 64-bit counter wraps). *)
Theorem sample_share_exact o p :
  options_ok o → 0 ≤ overflowCounter p → overflowCounter p + 100 < 2 ^ 64 →
  Z.of_nat (yes_count (sample_run 100 o p)) = OverflowSamplePercent o.
Proof.
  intros Hok H0 Hwrap. pose proof (ok_percent _ Hok) as Hpct.
  destruct (decide (OverflowSamplePercent o = 0)) as [Hz|Hnz].
  - assert (∀ n, sample_run n o p = replicate n false) as Hrun.
    { induction n as [|n IH]; [done|]. simpl. unfold shouldSyncFallback.
      rewrite Hz. simpl. by rewrite <- IH. }
    by rewrite Hrun, Hz.
  - rewrite sample_run_eq by (done || lia).
    rewrite (yes_count_perm _ ((λ i, i <? Z.of_nat (Z.to_nat (OverflowSamplePercent o))) <$> seqZ 0 100)).
    + change 100 with (Z.of_nat 100). rewrite yes_count_below by lia. lia.
    + rewrite Z2Nat.id by lia. rewrite <- (mod_seqZ_perm (overflowCounter p) 100) by lia.
      by rewrite <- list_fmap_compose.
Qed.

(** ** Scaling *)

(** A run of the scaler: ticks at times chosen by the clock, and between them
    anything that leaves the concurrency limit and the time of the last change
    alone, such as submissions and finished tasks. *)
Inductive scaled (o : UsageRecordWorkerPoolOptions) (p0 : UsageRecordWorkerPool S T)
    : UsageRecordWorkerPool S T → Prop :=
| scaled_start : scaled o p0 p0
| scaled_tick p now storedAt : scaled o p0 p → scaled o p0 (autoScaleTick o p now storedAt)
| scaled_other p p' : scaled o p0 p →
    MaxConcurrency (pool p') = MaxConcurrency (pool p) → lastScaleNanos p' = lastScaleNanos p →
    scaled o p0 p'.

Definition within_workers (o : UsageRecordWorkerPoolOptions) p : Prop :=
  AutoScaleMinWorkers o ≤ MaxConcurrency (pool p) ≤ AutoScaleMaxWorkers o.

Lemma resizePool_concurrency p current tgt storedAt :
  MaxConcurrency (pool p) = current → 0 < tgt →
  MaxConcurrency (pool (resizePool p current tgt storedAt)) = tgt.
Proof.
  intros Hc Ht. unfold resizePool. destruct (tgt =? current) eqn:E; bool_to_prop; [congruence|].
  simpl. by apply Resize_concurrency.
Qed.

(** What one tick does to the limit. *)
Lemma autoScaleTick_spec o p now storedAt :
  options_ok o → AutoScaleEnabled o = true → within_workers o p →
  let cur := MaxConcurrency (pool p) in
  let cur' := MaxConcurrency (pool (autoScaleTick o p now storedAt)) in
  autoScaleTick o p now storedAt = p
  ∨ (lastScaleNanos p ≤ 0
     ∨ AutoScaleCooldown o ≤ time_sub now (unix_instant (lastScaleNanos p)))
    ∧ (cur < cur' ≤ cur + AutoScaleUpStep o ∧ cur' ≤ AutoScaleMaxWorkers o
         ∧ AutoScaleUpPercent o
           ≤ Z.quot (int64 (int64 (WaitingTasks (pool p)) * 100)) (PondQueueSize (pool p))
       ∨ cur - AutoScaleDownStep o ≤ cur' < cur ∧ AutoScaleMinWorkers o ≤ cur'
         ∧ int64 (WaitingTasks (pool p)) = 0).
Proof.
  intros Hok Hen [Hmin Hmax]. pose proof (ok_bounds _ Hok) as [Hb1 Hb2].
  destruct (ok_scaling _ Hok Hen) as (_ & _ & Hup & Hdown & _ & _).
  intros cur cur'. unfold cur', cur. clear cur cur'. unfold autoScaleTick.
  destruct (Stopped (pool p)); [by left|]. destruct (_ <=? 0); [by left|].
  destruct (_ || _); [by left|].
  set (queuePercent := Z.quot (int64 (int64 (WaitingTasks (pool p)) * 100)) _).
  set (runningPercent := if 0 <? _ then _ else 0). clearbody runningPercent.
  destruct ((0 <? lastScaleNanos p) && _) eqn:Ecool; [by left|].
  assert (lastScaleNanos p ≤ 0
     ∨ AutoScaleCooldown o ≤ time_sub now (unix_instant (lastScaleNanos p))) as Hcool.
  { bool_to_prop. destruct Ecool as [E|E]; bool_to_prop; [by left|by right]. }
  clear Ecool. destruct ((AutoScaleUpPercent o <=? queuePercent) && _) eqn:Eup; bool_to_prop.
  - right. split; [done|]. left. destruct (AutoScaleMaxWorkers o <? _ + _) eqn:E; bool_to_prop;
      rewrite resizePool_concurrency by (done || lia); split_and!; lia.
  - destruct (_ && _) eqn:Edown; [|by left]. bool_to_prop.
    right. split; [done|]. right. destruct (_ <? AutoScaleMinWorkers o) eqn:E; bool_to_prop;
      rewrite resizePool_concurrency by (done || lia); split_and!; lia.
Qed.

Lemma scaled_within o p0 p :
  options_ok o → AutoScaleEnabled o = true → within_workers o p0 → scaled o p0 p → within_workers o p.
Proof.
  intros Hok Hen H0. induction 1 as [|p now storedAt _ IH|p p' _ IH Hsame _]; [done| |].
  - destruct (autoScaleTick_spec o p now storedAt Hok Hen IH) as [->|(_ & Hcase)]; [done|].
    unfold within_workers in *. lia.
  - unfold within_workers in *. by rewrite Hsame.
Qed.

(** The scaler keeps the pool within its bounds: with usable options, a pool
    started at its worker count never leaves the range between the minimum and the
    maximum, whatever the load; a tick changes the limit by at most one step, only
    after the cooldown, up only when the queue is filled to the threshold, and
    down only when nothing waits. *)
Theorem autoscale_bounded o p0 p now storedAt :
  options_ok o → AutoScaleEnabled o = true → MaxConcurrency (pool p0) = WorkerCount o →
  scaled o p0 p →
  let p' := autoScaleTick o p now storedAt in
  let cur := MaxConcurrency (pool p) in
  let cur' := MaxConcurrency (pool p') in
  within_workers o p ∧ within_workers o p'
  ∧ - AutoScaleDownStep o ≤ cur' - cur ≤ AutoScaleUpStep o
  ∧ (cur' ≠ cur → lastScaleNanos p ≤ 0
       ∨ AutoScaleCooldown o ≤ time_sub now (unix_instant (lastScaleNanos p)))
  ∧ (cur < cur' → AutoScaleUpPercent o
       ≤ Z.quot (int64 (int64 (WaitingTasks (pool p)) * 100)) (PondQueueSize (pool p)))
  ∧ (cur' < cur → int64 (WaitingTasks (pool p)) = 0).
Proof.
  intros Hok Hen Hstart Hrun p' cur cur'.
  pose proof (ok_bounds _ Hok) as Hb. destruct (ok_scaling _ Hok Hen) as (_ & _ & Hup & Hdown & _).
  assert (within_workers o p) as Hin.
  { eapply scaled_within; [done|done| |done]. unfold within_workers. rewrite Hstart. apply Hb. }
  assert (within_workers o p') as Hin' by (eapply scaled_within; [done|done| |by apply scaled_tick];
    unfold within_workers; rewrite Hstart; apply Hb).
  split; [done|]. split; [done|].
  destruct (autoScaleTick_spec o p now storedAt Hok Hen Hin) as [Heq|(Hcool & Hcase)].
  - assert (cur' = cur) as Hcur by (unfold cur', p'; by rewrite Heq). split_and!; lia.
  - fold p' cur cur' in Hcase. split_and!; [lia|lia|done|intros; lia|intros; lia].
Qed.

End pool_correct.

(** ** A concrete pool: a queue of two tasks that no worker empties *)

Section demo.
#[local] Existing Instance ascii_case.

Record demo_pond := mkPond { pond_tasks : list Z; pond_limit : Z }.

#[local] Instance demo_Pond : Pond demo_pond Z := {
  Stopped _ := false;
  TrySubmit s t := if (length (pond_tasks s) <? 2)%nat
                   then (mkPond (pond_tasks s ++ [t]) (pond_limit s), true) else (s, false);
  PondQueueSize _ := 2;
  MaxConcurrency s := pond_limit s;
  WaitingTasks s := Z.of_nat (length (pond_tasks s));
  RunningWorkers s := 0;
  Resize s n := mkPond (pond_tasks s) n;
  Accepted s := pond_tasks s
}.

#[local] Instance demo_PondLaws : PondLaws demo_pond Z.
Proof.
  split; simpl; [..|done|done]; intros [ts n] t; simpl; by destruct (_ <? _)%nat.
Qed.

Definition demo_options : UsageRecordWorkerPoolOptions :=
  usageRecordPoolOptionsFromConfig None.

Definition demo_start : UsageRecordWorkerPool demo_pond Z :=
  mkPool (mkPond [] 128) 0 0 0 0 0 [].

Lemma demo_options_ok : options_ok demo_options.
Proof. split; simpl; try done; auto. Qed.

Lemma options_normalized_witness :
  normalizeUsageRecordPoolOptions
    (mkOptions 0 0 0 " SAMPLE "%string (-5) true 600 0 0 200 0 0 0 (-1))
  = mkOptions 600 16384 (5 * Second) "sample"%string 10 true 600 600 70 15 32 16 (3 * Second) (10 * Second)
  ∧ options_ok (usageRecordPoolOptionsFromConfig None).
Proof.
  split; [by vm_compute|].
  exact (proj1 (options_normalized None default_options)).
Defined.

Lemma submit_all_fate_witness :
  let '(p', ms) := submit_all demo_options demo_start [1; 2; 3] in
  Accepted (pool p') = [1; 2] ∧ executed p' = [3] ∧ Forall (λ tm, mode_Dropped tm.2 = false) ms.
Proof.
  pose proof (submit_all_fate demo_options demo_start [1; 2; 3]) as H.
  destruct (submit_all demo_options demo_start [1; 2; 3]) as [p' ms] eqn:E.
  vm_compute in E. injection E as <- <-. destruct H as (_ & -> & -> & _ & Hsync).
  split; [reflexivity|]. split; [reflexivity|]. apply Hsync; [reflexivity|].
  repeat apply Forall_cons_2; reflexivity || apply Forall_nil_2.
Defined.

Lemma sample_share_exact_witness :
  Z.of_nat (yes_count (sample_run 100 demo_options demo_start)) = 10.
Proof. apply (sample_share_exact demo_options demo_start demo_options_ok); by vm_compute. Defined.

Lemma autoscale_bounded_witness :
  let p := set_pool demo_start (mkPond [1; 2] 128) in
  MaxConcurrency (pool (autoScaleTick demo_options p (63800000000 * Second) (63800000000 * Second))) = 160
  ∧ within_workers demo_options (autoScaleTick demo_options p (63800000000 * Second) (63800000000 * Second)).
Proof.
  split; [by vm_compute|].
  apply (autoscale_bounded demo_options demo_start); [apply demo_options_ok|done|done|].
  by apply (scaled_other _ _ demo_start); [constructor|..].
Defined.

End demo.
